(** * ChatBuddy: the text-matching and scoring engine

    A shallow embedding of the pure core of [chatbot_sentiment_kb.py]:
    [normalize],
    [tokenize], [detect_sentiment], [detect_emotions], [find_in_kb],
    [match_intent] and [intent_response], together with the parts of
    Python's [re], [difflib] and [heapq] that these functions call; then
    [load_kb] over the values that [json.load] returns, and the loop of
    [main] over the lines typed.

    Conventions of the model.
    - A Python [str] is a [list ascii]; a character is a code point in
      U+0000..U+00FF (Latin-1), and the character classes [\w], [\s] and
      [str.lower] are the ones CPython uses on that range.  [normalize],
      [tokenize], [match_intent] and the patterns of [main] are given on
      strings of any code points as well (module [Unicode]); [normalize]
      and [tokenize] are shown to be the same functions on Latin-1 text.
    - Similarity ratios and the overlap ratio are exact rationals ([Q]);
      CPython computes the same quotients of two integers in binary
      floating point.
    - An operation that can raise in Python returns a [result]. *)

From Stdlib Require Import List Bool Arith NArith ZArith QArith Lia.
From Stdlib Require Import Ascii String DecimalString.
Import ListNotations.

Close Scope Q_scope.
Close Scope Z_scope.
Local Open Scope nat_scope.
Local Open Scope list_scope.
Local Open Scope bool_scope.

(** ** Text and character classes *)

Module Text.

Definition text := list ascii.

(** A string literal as a [text]. *)
Definition str (s : string) : text := list_ascii_of_string s.

Definition text_eq_dec : forall a b : text, {a = b} + {a <> b} :=
  list_eq_dec ascii_dec.

Definition text_eqb (a b : text) : bool :=
  if text_eq_dec a b then true else false.

Definition code (c : ascii) : N := N_of_ascii c.

Definition in_range (lo hi n : N) : bool := (N.leb lo n) && (N.leb n hi).

Definition space : ascii := " "%char.

(** [\s] of [re] on a [str] pattern, which is also [str.isspace] as used by
    [str.strip] and [str.split]. *)
Definition is_space (c : ascii) : bool :=
  let n := code c in
  in_range 9 13 n || in_range 28 32 n || N.eqb n 133 || N.eqb n 160.

(** [\w] of [re] on a [str] pattern: alphanumeric or underscore. *)
Definition is_word (c : ascii) : bool :=
  let n := code c in
  in_range 48 57 n || in_range 65 90 n || N.eqb n 95 || in_range 97 122 n
  || N.eqb n 170 || in_range 178 179 n || N.eqb n 181 || in_range 185 186 n
  || in_range 188 190 n || in_range 192 214 n || in_range 216 246 n
  || in_range 248 255 n.

(** The characters [str.lower] changes. *)
Definition is_upper (c : ascii) : bool :=
  let n := code c in
  in_range 65 90 n || in_range 192 214 n || in_range 216 222 n.

Definition lower_char (c : ascii) : ascii :=
  if is_upper c then ascii_of_N (code c + 32) else c.

(** [text.lower()] *)
Definition lower (s : text) : text := map lower_char s.

(** [re.sub(r"[^\w\s]", " ", text)] *)
Definition sub_punct (s : text) : text :=
  map (fun c => if is_word c || is_space c then c else space) s.

(** [re.sub(r"\s+", " ", text)]: every maximal run of whitespace becomes one
    space; [in_run] tells that the previous character was whitespace. *)
Fixpoint sub_ws (in_run : bool) (s : text) : text :=
  match s with
  | [] => []
  | c :: s' =>
      if is_space c
      then if in_run then sub_ws true s' else space :: sub_ws true s'
      else c :: sub_ws false s'
  end.

Fixpoint lstrip (s : text) : text :=
  match s with
  | [] => []
  | c :: s' => if is_space c then lstrip s' else s
  end.

Fixpoint rstrip (s : text) : text :=
  match s with
  | [] => []
  | c :: s' =>
      match rstrip s' with
      | [] => if is_space c then [] else [c]
      | r => c :: r
      end
  end.

(** [text.strip()] *)
Definition strip (s : text) : text := rstrip (lstrip s).

(** [normalize(text)] *)
Definition normalize (s : text) : text :=
  let s := lower s in
  let s := sub_punct s in
  strip (sub_ws false s).

(** [text.split()]: split on runs of whitespace, no empty strings; [cur] is
    the word being read. *)
Fixpoint split_from (cur : text) (s : text) : list text :=
  match s with
  | [] => match cur with [] => [] | _ => [cur] end
  | c :: s' =>
      if is_space c
      then match cur with
           | [] => split_from [] s'
           | _ => cur :: split_from [] s'
           end
      else split_from (cur ++ [c]) s'
  end.

Definition split (s : text) : list text := split_from [] s.

(** [tokenize(text)] *)
Definition tokenize (s : text) : list text := split (normalize s).

(** Membership in a Python [set] of strings given by its elements. *)
Definition mem (t : text) (l : list text) : bool :=
  existsb (text_eqb t) l.

(** [set(l)]: the distinct elements of [l]. *)
Definition to_set (l : list text) : list text := nodup text_eq_dec l.

(** [len(a & b)] for two sets. *)
Definition inter_len (a b : list text) : nat :=
  List.length (filter (fun t => mem t b) a).

End Text.
Import Text.

(** ** Exceptions *)

Inductive exn : Set := KeyError | IndexError | ValueError.

Inductive result (A : Type) : Type :=
| Return (a : A)
| Raise (e : exn).
Arguments Return {A} a.
Arguments Raise {A} e.

Definition bind {A B : Type} (r : result A) (k : A -> result B) : result B :=
  match r with
  | Return a => k a
  | Raise e => Raise e
  end.

Notation "x <- r ;; k" := (bind r (fun x => k))
  (at level 61, r at next level, right associativity).
Notation "' p <- r ;; k" := (bind r (fun x => let p := x in k))
  (at level 61, p pattern, r at next level, right associativity).

(** [l[i]] for a list and a non-negative index. *)
Definition index_at {A : Type} (l : list A) (i : nat) : result A :=
  match nth_error l i with
  | Some x => Return x
  | None => Raise IndexError
  end.

(** ** Sentiment and emotion scoring *)

Module Lexicon.

Local Open Scope string_scope.

Definition POS_WORDS : list text := map str
  ["good"; "great"; "awesome"; "fantastic"; "love"; "liked"; "happy"; "nice";
   "excellent"; "amazing"; "wonderful"; "best"; "positive"; "pleased"; "enjoy";
   "enjoyed"; "yay"; "yay!"].

Definition NEG_WORDS : list text := map str
  ["bad"; "terrible"; "awful"; "hate"; "hated"; "sad"; "angry"; "upset";
   "worst"; "poor"; "negative"; "disappointed"; "disappointing"; "angry";
   "ugh"; "sucks"].

(** A [dict] with string keys, in insertion order. *)
Definition dict (V : Type) := list (text * V).

Fixpoint dict_get {V : Type} (d : dict V) (k : text) : option V :=
  match d with
  | [] => None
  | (k', v) :: d' => if text_eqb k k' then Some v else dict_get d' k
  end.

(** [d[k] = v] *)
Fixpoint dict_set {V : Type} (d : dict V) (k : text) (v : V) : dict V :=
  match d with
  | [] => [(k, v)]
  | (k', v') :: d' =>
      if text_eqb k k' then (k', v) :: d' else (k', v') :: dict_set d' k v
  end.

Definition EMOTION_KEYWORDS : dict (list text) :=
  [ (str "joy", map str ["happy"; "joy"; "delighted"; "excited"; "glad";
                         "pleased"; "yay"; "awesome"]);
    (str "sadness", map str ["sad"; "unhappy"; "down"; "depressed"; "blue";
                             "sorrow"; "mourn"]);
    (str "anger", map str ["angry"; "mad"; "furious"; "irate"; "annoyed";
                           "hate"; "hated"]);
    (str "fear", map str ["scared"; "afraid"; "fear"; "terrified"; "panic";
                          "anxious"]);
    (str "surprise", map str ["surprised"; "wow"; "shocked"; "amazed"]);
    (str "love", map str ["love"; "loving"; "adore"; "cherish"]) ].

Inductive Polarity : Set := Positive | Negative | Neutral.

Record sentiment : Set := {
  polarity : Polarity;
  score : Z;
  pos : nat;
  neg : nat
}.

(** [sum(1 for t in tokens if t in words)] *)
Definition count_in (words tokens : list text) : nat :=
  list_sum (map (fun _ => 1) (filter (fun t => mem t words) tokens)).

Definition sentiment_with (pos_words neg_words : list text) (s : text)
  : sentiment :=
  let tokens := tokenize s in
  let pos_count := count_in pos_words tokens in
  let neg_count := count_in neg_words tokens in
  let score := (Z.of_nat pos_count - Z.of_nat neg_count)%Z in
  let polarity :=
    if (0 <? score)%Z then Positive
    else if (score <? 0)%Z then Negative
    else Neutral in
  {| polarity := polarity; score := score;
     pos := pos_count; neg := neg_count |}.

(** [detect_sentiment(text)] *)
Definition detect_sentiment (s : text) : sentiment :=
  sentiment_with POS_WORDS NEG_WORDS s.

(** [tokens.intersection(kwset)] for the set [tokens]. *)
Definition intersection (tokens kwset : list text) : list text :=
  filter (fun t => mem t kwset) tokens.

Definition emotions_with (keywords : dict (list text)) (s : text) : dict nat :=
  let tokens := to_set (tokenize s) in
  fold_left
    (fun found '(emo, kwset) =>
       let matches := intersection tokens kwset in
       match matches with
       | [] => found
       | _ => dict_set found emo (List.length matches)
       end)
    keywords [].

(** [detect_emotions(text)] *)
Definition detect_emotions (s : text) : dict nat :=
  emotions_with EMOTION_KEYWORDS s.

End Lexicon.

(** ** The fragment of [re] used by the intent patterns *)

Module Regex.

(** The intent patterns are sequences of literal characters and [\b]. *)
Inductive item : Set :=
| Chr (c : ascii)
| WordBoundary.

Definition pattern := list item.

Definition is_meta (c : ascii) : bool :=
  existsb (Ascii.eqb c) (str ".^$*+?{}[]\|()").

(** Reading a pattern string; [None] outside the fragment. *)
Fixpoint compile (s : text) : option pattern :=
  match s with
  | [] => Some []
  | c :: s' =>
      match s' with
      | c' :: s'' =>
          if Ascii.eqb c "\"%char && Ascii.eqb c' "b"%char
          then option_map (cons WordBoundary) (compile s'')
          else if is_meta c then None
               else option_map (cons (Chr c)) (compile s')
      | [] => if is_meta c then None else Some [Chr c]
      end
  end.

Definition word_opt (c : option ascii) : bool :=
  match c with Some c => is_word c | None => false end.

(** [\b] between [prev] and the head of [s]. *)
Definition at_boundary (prev : option ascii) (s : text) : bool :=
  xorb (word_opt prev) (word_opt (hd_error s)).

(** Does [p] match a prefix of [s], the character before [s] being [prev]? *)
Fixpoint match_here (p : pattern) (prev : option ascii) (s : text) : bool :=
  match p with
  | [] => true
  | Chr c :: p' =>
      match s with
      | x :: s' => Ascii.eqb x c && match_here p' (Some x) s'
      | [] => false
      end
  | WordBoundary :: p' => at_boundary prev s && match_here p' prev s
  end.

Fixpoint search_from (p : pattern) (prev : option ascii) (s : text) : bool :=
  match_here p prev s ||
  match s with
  | x :: s' => search_from p (Some x) s'
  | [] => false
  end.

(** The truth value of [re.search(patt, text)]. *)
Definition search (patt : string) (s : text) : bool :=
  match compile (str patt) with
  | Some p => search_from p None s
  | None => false
  end.

End Regex.

(** ** Intents *)

Module Intents.

Local Open Scope string_scope.

Record rule : Set := {
  patterns : list string;
  responses : list string
}.

(** The response templates are kept byte for byte as the source file has
    them. *)
Definition INTENTS : list (text * rule) :=
  [ (str "greeting",
     {| patterns := ["\bhello\b"; "\bhi\b"; "\bhey\b"; "\bgood morning\b";
                     "\bgood evening\b"];
        responses := ["Hello! How can I help you today?";
                      "Hi there — what can I do for you?";
                      "Hey! Ask me anything."] |});
    (str "goodbye",
     {| patterns := ["\bbye\b"; "\bgoodbye\b"; "\bsee you\b"; "\bexit\b";
                     "\bquit\b"];
        responses := ["Goodbye! Take care."; "See you later!";
                      "It was nice talking to you."] |});
    (str "thanks",
     {| patterns := ["\bthanks\b"; "\bthank you\b"; "\bthx\b"];
        responses := ["You're welcome!"; "No problem — happy to help.";
                      "Anytime!"] |});
    (str "how_are_you",
     {| patterns := ["how are you"; "how's it going"; "how are things"];
        responses := ["I'm a bot, but I'm running smoothly!";
                      "All good here — ready to help you."] |});
    (str "help",
     {| patterns := ["\bhelp\b"; "\bassist\b"; "\bsupport\b";
                     "what can you do"];
        responses :=
          ["I can answer common questions, detect basic sentiment in your text, and fetch answers from a small knowledge base.";
           "Try asking me about the project tasks (image resizer, Flask app, data analysis), or say how you're feeling."] |}) ].

(** The two loops of [match_intent] over a table of rules. *)
Fixpoint match_rules (rules : list (text * rule)) (s : text) : option text :=
  match rules with
  | [] => None
  | (intent, data) :: rest =>
      if existsb (fun patt => Regex.search patt s) (patterns data)
      then Some intent
      else match_rules rest s
  end.

(** [match_intent(user_input)] *)
Definition match_intent (user_input : text) : option text :=
  match_rules INTENTS (lower user_input).

(** [INTENTS[intent_key]] *)
Fixpoint lookup (rules : list (text * rule)) (k : text) : result rule :=
  match rules with
  | [] => Raise KeyError
  | (k', data) :: rest => if text_eqb k k' then Return data else lookup rest k
  end.

Section Random.

(** [random.Random._randbelow]: the random source. *)
Variable randbelow : nat -> nat.

(** [random.choice(seq)] *)
Definition choice {A : Type} (seq : list A) : result A :=
  match seq with
  | [] => Raise IndexError
  | _ => index_at seq (randbelow (List.length seq))
  end.

(** [intent_response(intent_key)] *)
Definition intent_response (intent_key : text) : result string :=
  data <- lookup INTENTS intent_key ;;
  choice (responses data).

End Random.

End Intents.

(** ** [difflib.SequenceMatcher] and [difflib.get_close_matches] *)

Module Difflib.

(** A matching block [(i, j, k)]: [a[i:i+k] == b[j:j+k]]. *)
Definition block := (nat * nat * nat)%type.

Definition size_of (m : block) : nat := snd m.

(** [s[i]] for an index in range. *)
Definition elt (s : text) (i : nat) : ascii := nth i s Ascii.zero.

(** The positions of [x] in [s], ascending, the head of [s] being at
    position [from]. *)
Fixpoint indices_from (from : nat) (s : text) (x : ascii) : list nat :=
  match s with
  | [] => []
  | c :: s' =>
      if Ascii.eqb c x
      then from :: indices_from (S from) s' x
      else indices_from (S from) s' x
  end.

(** A [dict] from [int] to [int]; the latest binding of a key comes first. *)
Definition j2len_get (d : list (nat * nat)) (j : nat) : nat :=
  match find (fun p => fst p =? j) d with
  | Some p => snd p
  | None => 0
  end.

(** [j2len.get(j-1, 0)] *)
Definition prev_len (d : list (nat * nat)) (j : nat) : nat :=
  match j with
  | 0 => 0
  | S j' => j2len_get d j'
  end.

(** [_calculate_ratio(matches, length)] *)
Definition calculate_ratio (matches length : nat) : Q :=
  match length with
  | 0 => 1%Q
  | _ => (2 * Z.of_nat matches # Pos.of_nat length)%Q
  end.

(** [SequenceMatcher(None, a, b)]: no junk predicate, [autojunk] on. *)
Section SequenceMatcher.

Variables a b : text.

(** An element of [b] that [__chain_b] purges as popular. *)
Definition popular (x : ascii) : bool :=
  let n := List.length b in
  (200 <=? n) && (n / 100 + 1 <? List.length (indices_from 0 b x)).

(** [b2j.get(x, nothing)] *)
Definition b2j (x : ascii) : list nat :=
  if popular x then [] else indices_from 0 b x.

Section FindLongestMatch.

Variables alo ahi blo bhi : nat.

(** The loop over [j] for one [i]. *)
Fixpoint row (i : nat) (j2len : list (nat * nat)) (js : list nat)
    (newj2len : list (nat * nat)) (best : block)
  : list (nat * nat) * block :=
  match js with
  | [] => (newj2len, best)
  | j :: js' =>
      if j <? blo then row i j2len js' newj2len best
      else if bhi <=? j then (newj2len, best)
      else
        let k := prev_len j2len j + 1 in
        let newj2len := (j, k) :: newj2len in
        let best := if size_of best <? k then (i + 1 - k, j + 1 - k, k)
                    else best in
        row i j2len js' newj2len best
  end.

(** The loop over [i] in [range(alo, ahi)]. *)
Definition longest_junk_free : block :=
  snd (fold_left
         (fun (st : list (nat * nat) * block) i =>
            row i (fst st) (b2j (elt a i)) [] (snd st))
         (seq alo (ahi - alo))
         ([], (alo, blo, 0))).

(** [while besti > alo and bestj > blo and a[besti-1] == b[bestj-1]] *)
Fixpoint extend_left (besti bestj bestsize : nat) {struct besti} : block :=
  match besti, bestj with
  | S i', S j' =>
      if (alo <? besti) && (blo <? bestj) && Ascii.eqb (elt a i') (elt b j')
      then extend_left i' j' (S bestsize)
      else (besti, bestj, bestsize)
  | _, _ => (besti, bestj, bestsize)
  end.

(** [while besti+bestsize < ahi and bestj+bestsize < bhi and
     a[besti+bestsize] == b[bestj+bestsize]]; [n] bounds the number of
    rounds. *)
Fixpoint extend_right (n besti bestj bestsize : nat) : block :=
  match n with
  | 0 => (besti, bestj, bestsize)
  | S n' =>
      if (besti + bestsize <? ahi) && (bestj + bestsize <? bhi)
         && Ascii.eqb (elt a (besti + bestsize)) (elt b (bestj + bestsize))
      then extend_right n' besti bestj (S bestsize)
      else (besti, bestj, bestsize)
  end.

(** [find_longest_match(alo, ahi, blo, bhi)].  With no junk predicate
    [bjunk] is empty, and the two last loops of the source, which absorb
    junk, do nothing. *)
Definition find_longest_match : block :=
  let '(besti, bestj, bestsize) := longest_junk_free in
  let '(besti, bestj, bestsize) := extend_left besti bestj bestsize in
  extend_right (ahi - (besti + bestsize)) besti bestj bestsize.

End FindLongestMatch.

Definition quad := (nat * nat * nat * nat)%type.

(** The [while queue] loop of [get_matching_blocks]; the head of [queue] is
    the element [queue.pop()] takes.  [None] when [fuel] rounds do not empty
    the queue. *)
Fixpoint blocks_loop (fuel : nat) (queue : list quad)
    (matching_blocks : list block) : option (list block) :=
  match queue with
  | [] => Some matching_blocks
  | (alo, ahi, blo, bhi) :: queue =>
      match fuel with
      | 0 => None
      | S fuel =>
          let '(i, j, k) := find_longest_match alo ahi blo bhi in
          if 0 <? k then
            let queue :=
              if (alo <? i) && (blo <? j)
              then (alo, i, blo, j) :: queue else queue in
            let queue :=
              if (i + k <? ahi) && (j + k <? bhi)
              then (i + k, ahi, j + k, bhi) :: queue else queue in
            blocks_loop fuel queue (matching_blocks ++ [(i, j, k)])
          else blocks_loop fuel queue matching_blocks
      end
  end.

(** [<] on triples of integers. *)
Definition block_ltb (x y : block) : bool :=
  let '(i1, j1, k1) := x in
  let '(i2, j2, k2) := y in
  (i1 <? i2) || ((i1 =? i2) && ((j1 <? j2) || ((j1 =? j2) && (k1 <? k2)))).

Fixpoint insert_block (x : block) (l : list block) : list block :=
  match l with
  | [] => [x]
  | y :: l' => if block_ltb y x then y :: insert_block x l' else x :: l
  end.

(** [matching_blocks.sort()] *)
Definition sort_blocks (l : list block) : list block :=
  fold_right insert_block [] l.

(** The loop that merges adjacent blocks; [cur] is [(i1, j1, k1)]. *)
Fixpoint collapse (cur : block) (blocks non_adjacent : list block)
  : list block :=
  let '(i1, j1, k1) := cur in
  match blocks with
  | [] => if 0 <? k1 then non_adjacent ++ [cur] else non_adjacent
  | (i2, j2, k2) :: rest =>
      if (i1 + k1 =? i2) && (j1 + k1 =? j2)
      then collapse (i1, j1, k1 + k2) rest non_adjacent
      else collapse (i2, j2, k2) rest
             (if 0 <? k1 then non_adjacent ++ [cur] else non_adjacent)
  end.

(** Every round of the loop takes one of at most [2 * len(a) + 1] regions. *)
Definition blocks_fuel : nat := 2 * List.length a + 1.

(** [get_matching_blocks()] *)
Definition get_matching_blocks : list block :=
  let la := List.length a in
  let lb := List.length b in
  let matching_blocks :=
    match blocks_loop blocks_fuel [(0, la, 0, lb)] [] with
    | Some l => l
    | None => []
    end in
  collapse (0, 0, 0) (sort_blocks matching_blocks) [] ++ [(la, lb, 0)].

(** [ratio()] *)
Definition ratio : Q :=
  let matches := list_sum (map size_of get_matching_blocks) in
  calculate_ratio matches (List.length a + List.length b).

(** A [dict] from characters to integers. *)
Definition count_get (d : list (ascii * Z)) (x : ascii) : option Z :=
  option_map snd (find (fun p => Ascii.eqb (fst p) x) d).

(** [fullbcount]: how often each element occurs in [b]. *)
Definition fullbcount : list (ascii * Z) :=
  fold_left
    (fun d x =>
       (x, (match count_get d x with Some n => n | None => 0 end + 1)%Z) :: d)
    b [].

(** The loop of [quick_ratio] over the elements of [a]. *)
Fixpoint quick_loop (s : text) (avail : list (ascii * Z)) (matches : nat)
  : nat :=
  match s with
  | [] => matches
  | x :: s' =>
      let numb :=
        match count_get avail x with
        | Some n => n
        | None =>
            match count_get fullbcount x with Some n => n | None => 0%Z end
        end in
      quick_loop s' ((x, (numb - 1)%Z) :: avail)
                 (if (0 <? numb)%Z then matches + 1 else matches)
  end.

(** [quick_ratio()] *)
Definition quick_ratio : Q :=
  calculate_ratio (quick_loop a [] 0) (List.length a + List.length b).

(** [real_quick_ratio()] *)
Definition real_quick_ratio : Q :=
  let la := List.length a in
  let lb := List.length b in
  calculate_ratio (Nat.min la lb) (la + lb).

End SequenceMatcher.

(** [<] on strings: by code point, a proper prefix first. *)
Fixpoint text_ltb (x y : text) : bool :=
  match x, y with
  | _, [] => false
  | [], _ :: _ => true
  | c :: x', d :: y' =>
      match N.compare (code c) (code d) with
      | Lt => true
      | Gt => false
      | Eq => text_ltb x' y'
      end
  end.

(** [p > q] on [(score, x)] tuples. *)
Definition scored_gtb (p q : Q * text) : bool :=
  match Qcompare (fst p) (fst q) with
  | Gt => true
  | Lt => false
  | Eq => text_ltb (snd q) (snd p)
  end.

(** [max(it)] as [heapq.nlargest(1, it)] calls it: the first of the
    greatest elements. *)
Fixpoint max_from (cur : Q * text) (l : list (Q * text)) : Q * text :=
  match l with
  | [] => cur
  | p :: l' => max_from (if scored_gtb p cur then p else cur) l'
  end.

(** [heapq.nlargest(1, result)] *)
Definition nlargest1 (l : list (Q * text)) : list (Q * text) :=
  match l with
  | [] => []
  | p :: l' => [max_from p l']
  end.

(** The test of one possibility [x] against [word]: [seq1] is [x] and
    [seq2] is [word]. *)
Definition close_enough (word x : text) (cutoff : Q) : bool :=
  Qle_bool cutoff (real_quick_ratio x word)
  && Qle_bool cutoff (quick_ratio x word)
  && Qle_bool cutoff (ratio x word).

(** [get_close_matches(word, possibilities, n=1, cutoff)] *)
Definition get_close_matches_1 (word : text) (possibilities : list text)
    (cutoff : Q) : result (list text) :=
  if negb (Qle_bool 0 cutoff && Qle_bool cutoff 1) then Raise ValueError
  else
    let result :=
      flat_map
        (fun x => if close_enough word x cutoff then [(ratio x word, x)]
                  else [])
        possibilities in
    Return (map snd (nlargest1 result)).

End Difflib.

(** ** The knowledge base *)

Module KB.

Record entry : Set := {
  question : text;
  answer : string
}.

(** [<] on pairs of integers. *)
Definition pair_ltb (x y : nat * nat) : bool :=
  (fst x <? fst y) || ((fst x =? fst y) && (snd x <? snd y)).

Fixpoint insert_desc (x : nat * nat) (l : list (nat * nat))
  : list (nat * nat) :=
  match l with
  | [] => [x]
  | y :: l' => if pair_ltb x y then y :: insert_desc x l' else x :: l
  end.

(** [overlap_scores.sort(reverse=True)] *)
Definition sort_reverse (l : list (nat * nat)) : list (nat * nat) :=
  fold_right insert_desc [] l.

(** The loop that fills [overlap_scores], from index [idx] on. *)
Fixpoint overlap_scores_from (user_tokens : list text) (idx : nat)
    (questions : list text) : list (nat * nat) :=
  match questions with
  | [] => []
  | q :: rest =>
      let q_tokens := to_set (split q) in
      let overlap := inter_len user_tokens q_tokens in
      (overlap, idx) :: overlap_scores_from user_tokens (S idx) rest
  end.

(** [questions.index(x)] *)
Fixpoint list_index (l : list text) (x : text) : result nat :=
  match l with
  | [] => Raise ValueError
  | y :: l' =>
      if text_eqb y x then Return 0
      else i <- list_index l' x ;; Return (S i)
  end.

(** The default of the parameter [cutoff]. *)
Definition default_cutoff : Q := 6 # 10.

(** [overlap / max(1, n)], as the exact quotient; the source divides the
    two integers in binary floating point. *)
Definition overlap_ratio (overlap n : nat) : Q :=
  (Z.of_nat overlap # Pos.of_nat (Nat.max 1 n))%Q.

Section Stages.

(** What stands for [get_close_matches(word, possibilities, n=1,
    cutoff=0.7)]. *)
Variable close_matches : text -> list text -> result (list text).

Variable user_input : text.
Variable kb_data : list entry.
Variable cutoff : Q.

Definition user_norm : text := normalize user_input.

Definition questions : list text :=
  map (fun e => normalize (question e)) kb_data.

Definition user_tokens : list text := to_set (split user_norm).

(** [overlap_scores[0]] after the sort: [(best_overlap, best_idx)]. *)
Definition best : result (nat * nat) :=
  index_at (sort_reverse (overlap_scores_from user_tokens 0 questions)) 0.

(** The token-overlap stage: [Some] answer when line 161 returns. *)
Definition overlap_stage : result (option string) :=
  '(best_overlap, best_idx) <- best ;;
  if 0 <? best_overlap then
    q <- index_at questions best_idx ;;
    let q_tokens := to_set (split q) in
    let ratio := overlap_ratio best_overlap (List.length q_tokens) in
    if Qle_bool cutoff ratio then
      e <- index_at kb_data best_idx ;;
      Return (Some (answer e))
    else Return None
  else Return None.

(** The fallback on whole strings. *)
Definition fallback_stage : result (option string) :=
  matches <- close_matches user_norm questions ;;
  match matches with
  | matched_q :: _ =>
      matched_idx <- list_index questions matched_q ;;
      e <- index_at kb_data matched_idx ;;
      Return (Some (answer e))
  | [] => Return None
  end.

Definition find_in_kb_with : result (option string) :=
  match kb_data with
  | [] => Return None
  | _ =>
      r <- overlap_stage ;;
      match r with
      | Some ans => Return (Some ans)
      | None => fallback_stage
      end
  end.

End Stages.

(** [get_close_matches(word, possibilities, n=1, cutoff=0.7)] of [difflib]. *)
Definition difflib_close_matches (word : text) (possibilities : list text)
  : result (list text) :=
  Difflib.get_close_matches_1 word possibilities (7 # 10).

(** [find_in_kb(user_input, kb_data, cutoff)] *)
Definition find_in_kb (user_input : text) (kb_data : list entry) (cutoff : Q)
  : result (option string) :=
  find_in_kb_with difflib_close_matches user_input kb_data cutoff.

End KB.

(** ** Properties stated about texts *)

Module TextSpec.

(** What [normalize] leaves: a space, or a word character that [lower] does
    not change. *)
Definition clean_char (c : ascii) : Prop :=
  c = space \/ (is_word c = true /\ is_upper c = false).

(** No whitespace character is followed by another one. *)
Fixpoint single_spaced (s : text) : Prop :=
  match s with
  | [] => True
  | c :: s' =>
      match s' with
      | [] => True
      | d :: _ => ~ (is_space c = true /\ is_space d = true)
      end /\ single_spaced s'
  end.

Definition no_leading_space (s : text) : Prop :=
  forall c s', s = c :: s' -> is_space c = false.

Definition no_trailing_space (s : text) : Prop :=
  forall s' c, s = s' ++ [c] -> is_space c = false.

(** A token: a non-empty run of word characters. *)
Definition word_token (t : text) : Prop :=
  t <> [] /\ Forall (fun c => is_word c = true /\ is_space c = false) t.

End TextSpec.
Import TextSpec.

(** ** Properties stated about the scorers and the intent table *)

Module LexiconSpec.

(** How many members of the token sequence, counted with multiplicity, are
    in the set [words]: the sum over the distinct words of their number of
    occurrences among the tokens. *)
Definition occurrences (words tokens : list text) : nat :=
  list_sum (map (count_occ text_eq_dec tokens) (to_set words)).

(** How many distinct keywords of [kwset] occur among the tokens. *)
Definition shared (tokens kwset : list text) : nat :=
  List.length (filter (fun k => mem k tokens) (to_set kwset)).

(** The character that precedes what follows [pre], when [prev] precedes
    [pre]. *)
Definition char_before (prev : option ascii) (pre : text) : option ascii :=
  fold_left (fun _ c => Some c) pre prev.

(** [rules] is [pre ++ (k, data) :: post], the first rule one of whose
    patterns is found in [s]. *)
Definition first_matching (rules : list (text * Intents.rule)) (s : text)
    (k : text) : Prop :=
  exists pre data post,
    rules = pre ++ (k, data) :: post
    /\ (exists patt, In patt (Intents.patterns data)
                     /\ Regex.search patt s = true)
    /\ (forall k' data' patt,
          In (k', data') pre -> In patt (Intents.patterns data') ->
          Regex.search patt s = false).

Definition none_matching (rules : list (text * Intents.rule)) (s : text)
  : Prop :=
  forall k data patt,
    In (k, data) rules -> In patt (Intents.patterns data) ->
    Regex.search patt s = false.

End LexiconSpec.
Import LexiconSpec.

(** ** Properties stated about the knowledge-base search *)

Module KBSpec.

Import KB.

(** The number of distinct tokens that the query shares with the question
    of a record. *)
Definition overlap (user_input : text) (e : entry) : nat :=
  inter_len (to_set (tokenize user_input)) (to_set (tokenize (question e))).

(** The number of distinct tokens of the normalized question of a record. *)
Definition question_size (e : entry) : nat :=
  List.length (to_set (tokenize (question e))).

(** Record [e], at index [i], has the greatest overlap of all records. *)
Definition max_overlap (user_input : text) (kb : list entry)
    (i : nat) (e : entry) : Prop :=
  nth_error kb i = Some e
  /\ forall j e', nth_error kb j = Some e' ->
                  overlap user_input e' <= overlap user_input e.

(** ... and it is the first such record. *)
Definition earliest_max_overlap (user_input : text) (kb : list entry)
    (i : nat) (e : entry) : Prop :=
  max_overlap user_input kb i e
  /\ forall j e', nth_error kb j = Some e' -> j < i ->
                  overlap user_input e' < overlap user_input e.

(** ... and it is the last such record. *)
Definition latest_max_overlap (user_input : text) (kb : list entry)
    (i : nat) (e : entry) : Prop :=
  max_overlap user_input kb i e
  /\ forall j e', nth_error kb j = Some e' -> i < j ->
                  overlap user_input e' < overlap user_input e.

(** The token-overlap stage resolves ties to the earliest record. *)
Definition selects_earliest (user_input : text) (kb : list entry) : Prop :=
  forall ov i, best user_input kb = Return (ov, i) ->
  exists e, earliest_max_overlap user_input kb i e.

(** The similarity of the normalized question of a record to the normalized
    query, as the fallback computes it. *)
Definition similarity (user_input : text) (e : entry) : Q :=
  Difflib.ratio (normalize (question e)) (normalize user_input).

(** The fallback prefers [e] to [e']: a higher similarity, or the same
    similarity and a normalized question that is not smaller as a string. *)
Definition preferred (user_input : text) (e e' : entry) : Prop :=
  (similarity user_input e' < similarity user_input e)%Q
  \/ ((similarity user_input e' == similarity user_input e)%Q
      /\ Difflib.text_ltb (normalize (question e))
                          (normalize (question e')) = false).

(** Record [e], at index [i], is the one the fallback answers with: it
    reaches the threshold, it is preferred to every record that reaches the
    threshold, and no earlier record has the same normalized question. *)
Definition fallback_choice (user_input : text) (kb : list entry)
    (i : nat) (e : entry) : Prop :=
  nth_error kb i = Some e
  /\ (7 # 10 <= similarity user_input e)%Q
  /\ (forall e', In e' kb -> (7 # 10 <= similarity user_input e')%Q ->
                 preferred user_input e e')
  /\ (forall j e', nth_error kb j = Some e' -> j < i ->
                   normalize (question e') <> normalize (question e)).

(** The fallback resolves ties on similarity to the first record. *)
Definition fallback_first_on_ties (user_input : text) (kb : list entry)
  : Prop :=
  forall i e j e' ans,
    nth_error kb i = Some e -> nth_error kb j = Some e' -> i < j ->
    (7 # 10 <= similarity user_input e)%Q ->
    (similarity user_input e == similarity user_input e')%Q ->
    (forall e'', In e'' kb ->
       (similarity user_input e'' <= similarity user_input e)%Q) ->
    fallback_stage difflib_close_matches user_input kb = Return (Some ans) ->
    ans = answer e.

End KBSpec.
Import KBSpec.

(** ** Properties stated about the matching blocks *)

Module DifflibSpec.

Import Difflib.

(** [(i, j, k)] lies in [a[alo:ahi]] and [b[blo:bhi]] and the two slices it
    names are equal. *)
Definition good_block (a b : text) (alo ahi blo bhi : nat) (m : block)
  : Prop :=
  let '(i, j, k) := m in
  alo <= i /\ i + k <= ahi /\ blo <= j /\ j + k <= bhi
  /\ forall t, t < k -> elt a (i + t) = elt b (j + t).

(** The entries of [j2len] when the loop is at [i]: matches that end at
    [a[i-1]] and [b[j]]. *)
Definition ends_before (a b : text) (alo ahi blo bhi : nat) (i : nat)
    (d : list (nat * nat)) : Prop :=
  forall j k, In (j, k) d ->
    0 < k -> good_block a b alo ahi blo bhi (i - k, j + 1 - k, k)
             /\ k <= i /\ k <= j + 1.

Definition count (c : ascii) (s : text) : nat := count_occ ascii_dec s c.

Definition all_chars : list ascii := map ascii_of_nat (seq 0 256).

(** The size of the intersection of [x] and [y] as multisets. *)
Definition common (x y : text) : nat :=
  list_sum (map (fun c => Nat.min (count c x) (count c y)) all_chars).

(** [s[lo:hi]] *)
Definition slice (s : text) (lo hi : nat) : text :=
  firstn (hi - lo) (skipn lo s).

(** A region [(alo, ahi, blo, bhi)] of the queue lies inside [a] and [b]. *)
Definition region_ok (a b : text) (q : quad) : Prop :=
  let '(alo, ahi, blo, bhi) := q in
  alo <= ahi /\ ahi <= List.length a /\ blo <= bhi /\ bhi <= List.length b.

(** The elements that the two slices of a region have in common. *)
Definition region_common (a b : text) (q : quad) : nat :=
  let '(alo, ahi, blo, bhi) := q in
  common (slice a alo ahi) (slice b blo bhi).

(** What a region costs the loop at most: a round for each block found in
    it and a round for each region left empty-handed. *)
Definition region_weight (q : quad) : nat :=
  let '(alo, ahi, _, _) := q in 2 * (ahi - alo) + 1.

(** [sum(triple[-1] for triple in blocks)] *)
Definition total_size (l : list block) : nat := list_sum (map size_of l).

(** A dictionary that holds [f x] for the elements seen in [p]. *)
Definition tracks (f : ascii -> Z) (p : text) (d : list (ascii * Z)) : Prop :=
  forall x, count_get d x = if count x p =? 0 then None else Some (f x).

End DifflibSpec.
Import DifflibSpec.

(** ** Records used in the examples *)

Section Examples.

Local Open Scope string_scope.

(** Two records whose questions share two tokens each with the query
    ["resize images photos"]. *)
Definition tie_kb : list KB.entry :=
  [ {| KB.question := str "resize images"; KB.answer := "A1" |};
    {| KB.question := str "resize photos"; KB.answer := "A2" |} ].

(** Two records whose questions are equally similar to the query
    ["abcd"]. *)
Definition similar_kb : list KB.entry :=
  [ {| KB.question := str "abcde"; KB.answer := "A1" |};
    {| KB.question := str "abcdf"; KB.answer := "A2" |} ].

(** The overlap stage answers with the first record although the second
    is more similar to the query ["flask ss"]. *)
Definition flask_kb : list KB.entry :=
  [ {| KB.question := str "flask"; KB.answer := "A1" |};
    {| KB.question := str "flaskss"; KB.answer := "A2" |} ].

Definition docs_kb : list KB.entry :=
  [ {| KB.question := str "how to resize images"; KB.answer := "A1" |};
    {| KB.question := str "what is flask"; KB.answer := "A2" |} ].

End Examples.

(** ** Words of a text *)

Module Words.

(** The pieces of [s] between the characters that are not word characters,
    without the empty ones; [cur] is the piece being read. *)
Fixpoint words_from (cur : text) (s : text) : list text :=
  match s with
  | [] => match cur with [] => [] | _ => [cur] end
  | c :: s' =>
      if is_word c then words_from (cur ++ [c]) s'
      else match cur with
           | [] => words_from [] s'
           | _ => cur :: words_from [] s'
           end
  end.

(** The maximal runs of word characters of [s], in order. *)
Definition words (s : text) : list text := words_from [] s.

(** [" ".join(l)] *)
Fixpoint join_space (l : list text) : text :=
  match l with
  | [] => []
  | [t] => t
  | t :: l' => t ++ space :: join_space l'
  end.

(** [t] occurs in [s] as a run of word characters that cannot be extended:
    [s] is [pre ++ t ++ post], [t] is a non-empty run of word characters,
    [pre] does not end and [post] does not start with a word character. *)
Definition maximal_run (s t : text) : Prop :=
  exists pre post,
    s = pre ++ t ++ post
    /\ t <> []
    /\ Forall (fun c => is_word c = true) t
    /\ (forall pre' c, pre = pre' ++ [c] -> is_word c = false)
    /\ (forall c post', post = c :: post' -> is_word c = false).

End Words.
Import Words.

(** ** A knowledge base with normalized questions *)

Module KBNorm.

(** The record [e] with its question normalized. *)
Definition normalize_entry (e : KB.entry) : KB.entry :=
  {| KB.question := normalize (KB.question e); KB.answer := KB.answer e |}.

End KBNorm.
Import KBNorm.

(** ** The knowledge base as [json.load] gives it *)

Module Json.

(** A value that [json.load] returns.  Numbers are not told apart further:
    the code only ever tests their type. *)
#[warnings="-register-all"] Inductive json : Type :=
| JNull
| JBool (b : bool)
| JNum (q : Q)
| JStr (s : text)
| JArr (items : list json)
| JObj (members : list (text * json)).

(** The exceptions of this layer: those of the core, and the two that a
    value of the wrong type raises. *)
Inductive py_exn : Set :=
| Core (e : exn)
| TypeError
| AttributeError.

Inductive outcome (A : Type) : Type :=
| Ok (a : A)
| Err (e : py_exn).
Arguments Ok {A} a.
Arguments Err {A} e.

Definition obind {A B : Type} (r : outcome A) (k : A -> outcome B)
  : outcome B :=
  match r with
  | Ok a => k a
  | Err e => Err e
  end.

Notation "x <~ r ;; k" := (obind r (fun x => k))
  (at level 61, r at next level, right associativity).

(** A computation of the core inside this layer. *)
Definition lift {A : Type} (r : result A) : outcome A :=
  match r with
  | Return a => Ok a
  | Raise e => Err (Core e)
  end.

(** [d.get(k)] on the members of an object. *)
Fixpoint get_member (members : list (text * json)) (k : text)
  : option json :=
  match members with
  | [] => None
  | (k', v) :: rest => if text_eqb k k' then Some v else get_member rest k
  end.

(** [entry[k]] for a string [k]: only an object can be indexed by a
    string. *)
Definition getitem (entry : json) (k : text) : outcome json :=
  match entry with
  | JObj members =>
      match get_member members k with
      | Some v => Ok v
      | None => Err (Core KeyError)
      end
  | _ => Err TypeError
  end.

Fixpoint is_prefix (x s : text) : bool :=
  match x, s with
  | [], _ => true
  | _ :: _, [] => false
  | c :: x', d :: s' => Ascii.eqb c d && is_prefix x' s'
  end.

(** [x in s] for two strings. *)
Fixpoint is_substring (x s : text) : bool :=
  is_prefix x s ||
  match s with
  | [] => false
  | _ :: s' => is_substring x s'
  end.

(** [x in entry] for a string [x]: a key of an object, an element of an
    array, a substring of a string; the other values are no containers. *)
Definition contains (entry : json) (x : text) : outcome bool :=
  match entry with
  | JObj members => Ok (existsb (fun p => text_eqb (fst p) x) members)
  | JArr items =>
      Ok (existsb (fun v => match v with
                            | JStr s => text_eqb s x
                            | _ => false
                            end) items)
  | JStr s => Ok (is_substring x s)
  | _ => Err TypeError
  end.

(** What [for entry in data] runs over: the items of an array, the keys of
    an object, the characters of a string. *)
Definition iterate (data : json) : outcome (list json) :=
  match data with
  | JArr items => Ok items
  | JObj members => Ok (map (fun p => JStr (fst p)) members)
  | JStr s => Ok (map (fun c => JStr [c]) s)
  | _ => Err TypeError
  end.

(** [[entry for entry in entries
      if "question" in entry and "answer" in entry]] *)
Fixpoint valid_entries (entries : list json) : outcome (list json) :=
  match entries with
  | [] => Ok []
  | entry :: rest =>
      has_question <~ contains entry (str "question"%string) ;;
      keep <~ (if has_question then contains entry (str "answer"%string)
               else Ok false) ;;
      valid <~ valid_entries rest ;;
      Ok (if keep then entry :: valid else valid)
  end.

(** The file [filename] as [load_kb] sees it: whether it exists, and what
    opening it and [json.load] give. *)
Record file : Type := {
  file_exists : bool;
  json_load : outcome json
}.

(** Which of its three messages [load_kb] prints. *)
Inductive kb_message : Set :=
| NotFound
| Loaded (n : nat)
| LoadError.

(** [load_kb(filename)]: the entries returned and the message printed. *)
Definition load_kb (f : file) : list json * kb_message :=
  if negb (file_exists f) then ([], NotFound)
  else
    match (data <~ json_load f ;;
           entries <~ iterate data ;;
           valid_entries entries) with
    | Ok valid => (valid, Loaded (List.length valid))
    | Err _ => ([], LoadError)
    end.

(** [text.lower()] and the rest of [normalize] on a value: only a string
    has [lower]. *)
Definition normalize_value (v : json) : outcome text :=
  match v with
  | JStr s => Ok (normalize s)
  | _ => Err AttributeError
  end.

(** [[normalize(entry["question"]) for entry in kb_data]] *)
Fixpoint questions_of (kb_data : list json) : outcome (list text) :=
  match kb_data with
  | [] => Ok []
  | entry :: rest =>
      q <~ getitem entry (str "question"%string) ;;
      q_norm <~ normalize_value q ;;
      qs <~ questions_of rest ;;
      Ok (q_norm :: qs)
  end.

(** [find_in_kb(user_input, kb_data, cutoff)] on the entries that [load_kb]
    returns; Python's [None] is [JNull]. *)
Definition find_in_kb (user_input : text) (kb_data : list json) (cutoff : Q)
  : outcome json :=
  match kb_data with
  | [] => Ok JNull
  | _ =>
      let user_norm := normalize user_input in
      questions <~ questions_of kb_data ;;
      let user_tokens := to_set (split user_norm) in
      let overlap_scores :=
        KB.sort_reverse (KB.overlap_scores_from user_tokens 0 questions) in
      best <~ lift (index_at overlap_scores 0) ;;
      let best_overlap := fst best in
      let best_idx := snd best in
      returned <~
        (if 0 <? best_overlap then
           q <~ lift (index_at questions best_idx) ;;
           let q_tokens := to_set (split q) in
           let ratio := KB.overlap_ratio best_overlap (List.length q_tokens) in
           if Qle_bool cutoff ratio then
             entry <~ lift (index_at kb_data best_idx) ;;
             a <~ getitem entry (str "answer"%string) ;;
             Ok (Some a)
           else Ok None
         else Ok None) ;;
      match returned with
      | Some a => Ok a
      | None =>
          matches <~ lift (KB.difflib_close_matches user_norm questions) ;;
          match matches with
          | matched_q :: _ =>
              matched_idx <~ lift (KB.list_index questions matched_q) ;;
              entry <~ lift (index_at kb_data matched_idx) ;;
              getitem entry (str "answer"%string)
          | [] => Ok JNull
          end
      end
  end.

(** An entry with both fields, as the typed core takes it. *)
Definition entry_of (q a : text) : KB.entry :=
  {| KB.question := q; KB.answer := string_of_list_ascii a |}.

(** The typed reading of an object with a string question and a string
    answer. *)
Definition typed (entry : json) : option KB.entry :=
  match entry with
  | JObj members =>
      match get_member members (str "question"%string),
            get_member members (str "answer"%string) with
      | Some (JStr q), Some (JStr a) => Some (entry_of q a)
      | _, _ => None
      end
  | _ => None
  end.

(** A typed result as a value. *)
Definition value_of (r : option string) : json :=
  match r with
  | Some a => JStr (str a)
  | None => JNull
  end.

End Json.

(** ** Properties stated about the loaded knowledge base *)

Module JsonSpec.

Import Json.

(** A null, a boolean or a number. *)
Definition scalar (v : json) : Prop :=
  match v with
  | JNull | JBool _ | JNum _ => True
  | _ => False
  end.

Definition is_object (v : json) : Prop :=
  match v with
  | JObj _ => True
  | _ => False
  end.

(** An object in which both fields can be looked up. *)
Definition has_fields (v : json) : bool :=
  match v with
  | JObj members =>
      match get_member members (str "question"%string),
            get_member members (str "answer"%string) with
      | Some _, Some _ => true
      | _, _ => false
      end
  | _ => false
  end.

(** The entries [kb] read as typed records, one for one. *)
Definition typed_as (kb : list json) (es : list KB.entry) : Prop :=
  Forall2 (fun v e => typed v = Some e) kb es.

(** The typed result of the core as an outcome of this layer. *)
Definition outcome_of (r : result (option string)) : outcome json :=
  match r with
  | Return a => Ok (value_of a)
  | Raise e => Err (Core e)
  end.

(** [normalize(entry["question"])] for one entry. *)
Definition question_of (entry : json) : outcome text :=
  q <~ getitem entry (str "question"%string) ;; normalize_value q.

(** A file that exists and holds the array [items]. *)
Definition holds_array (f : file) (items : list json) : Prop :=
  file_exists f = true /\ json_load f = Ok (JArr items).

End JsonSpec.
Import JsonSpec.

(** ** Patterns with a group of alternatives, matched ignoring case *)

Module RegexI.

(** The patterns of [main] are sequences of literal characters, [\b] and
    one group [(w1|w2|...)] of literal alternatives. *)
Inductive node : Set :=
| Lit (c : ascii)
| Boundary
| Group (alts : list text).

(** Reading a pattern string; [grp] holds, inside a group, the alternatives
    read so far and the one being read.  [None] outside the fragment. *)
Fixpoint compile (s : text) (grp : option (list text * text))
  : option (list node) :=
  match s with
  | [] => match grp with None => Some [] | Some _ => None end
  | c :: s' =>
      match grp with
      | Some (alts, cur) =>
          if Ascii.eqb c "|"%char
          then compile s' (Some (alts ++ [cur], []))
          else if Ascii.eqb c ")"%char
               then option_map (cons (Group (alts ++ [cur])))
                               (compile s' None)
               else if Regex.is_meta c then None
                    else compile s' (Some (alts, cur ++ [c]))
      | None =>
          if Ascii.eqb c "("%char then compile s' (Some ([], []))
          else
            match s' with
            | c' :: s'' =>
                if Ascii.eqb c "\"%char && Ascii.eqb c' "b"%char
                then option_map (cons Boundary) (compile s'' None)
                else if Regex.is_meta c then None
                     else option_map (cons (Lit c)) (compile s' None)
            | [] => if Regex.is_meta c then None else Some [Lit c]
            end
      end
  end.

(** Two characters that [re.IGNORECASE] does not tell apart. *)
Definition same_letter (x c : ascii) : bool :=
  Ascii.eqb (lower_char x) (lower_char c).

(** Reading the literal [alt] off the front of [s]: the character before
    what is left, and what is left. *)
Fixpoint read_literal (alt : text) (prev : option ascii) (s : text)
  : option (option ascii * text) :=
  match alt with
  | [] => Some (prev, s)
  | c :: alt' =>
      match s with
      | x :: s' =>
          if same_letter x c then read_literal alt' (Some x) s' else None
      | [] => None
      end
  end.

Fixpoint match_here (p : list node) (prev : option ascii) (s : text) : bool :=
  match p with
  | [] => true
  | Lit c :: p' =>
      match s with
      | x :: s' => same_letter x c && match_here p' (Some x) s'
      | [] => false
      end
  | Boundary :: p' => Regex.at_boundary prev s && match_here p' prev s
  | Group alts :: p' =>
      existsb
        (fun alt =>
           match read_literal alt prev s with
           | Some (prev', s') => match_here p' prev' s'
           | None => false
           end)
        alts
  end.

Fixpoint search_from (p : list node) (prev : option ascii) (s : text) : bool :=
  match_here p prev s ||
  match s with
  | x :: s' => search_from p (Some x) s'
  | [] => false
  end.

(** The truth value of [re.search(patt, text, re.IGNORECASE)]. *)
Definition search (patt : string) (s : text) : bool :=
  match compile (str patt) None with
  | Some p => search_from p None s
  | None => false
  end.

End RegexI.

(** ** The chat loop *)

Module Chat.

Local Open Scope string_scope.

Definition nl : string := String (ascii_of_nat 10) EmptyString.

(** [str(n)] for an integer. *)
Definition str_of_int (z : Z) : string := NilZero.string_of_int (Z.to_int z).

(** The value of [sentiment["polarity"]]. *)
Definition polarity_name (p : Lexicon.Polarity) : string :=
  match p with
  | Lexicon.Positive => "positive"
  | Lexicon.Negative => "negative"
  | Lexicon.Neutral => "neutral"
  end.

(** [", ".join(l)] *)
Fixpoint join_comma (l : list string) : string :=
  match l with
  | [] => ""
  | [x] => x
  | x :: l' => (x ++ ", " ++ join_comma l')%string
  end.

Definition EXIT_PATTERN : string := "\b(bye|goodbye|exit|quit)\b".
Definition RESIZE_PATTERN : string := "\b(resize|image|pillow|pil)\b".
Definition FLASK_PATTERN : string := "\b(flask|api|endpoint)\b".

Definition fallback_phrases : list string :=
  [ "I'm not sure yet — can you rephrase?";
    "I don't have an exact answer for that, but I can try to help.";
    "Interesting — tell me more or ask a different way." ]%string.

(** [emotions.get(k)] taken as a condition: a count other than zero. *)
Definition has_emotion (emotions : Lexicon.dict nat) (k : string) : bool :=
  match Lexicon.dict_get emotions (str k) with
  | Some n => negb (n =? 0)%nat
  | None => false
  end.

(** What an iteration of the loop does next. *)
Inductive control : Set := Continue | Break.

Section Session.

(** The records that [load_kb] returned. *)
Variable kb_data : list KB.entry.

(** The random source: [rng k] is [_randbelow] at the draw number [k] of
    the session. *)
Variable rng : nat -> nat -> nat.

(** The lines printed when the knowledge base has an answer. *)
Definition kb_reply (kb_answer : string) (user : text) : list string :=
  let sentiment := Lexicon.detect_sentiment user in
  let emotions := Lexicon.detect_emotions user in
  let answer_line := ["ChatBuddy (KB): " ++ kb_answer] in
  let sentiment_line :=
    match Lexicon.polarity sentiment with
    | Lexicon.Neutral => []
    | p =>
        ["[Sentiment detected: " ++ polarity_name p ++ " (score="
         ++ str_of_int (Lexicon.score sentiment) ++ ")]"]
    end in
  let emotion_line :=
    match emotions with
    | [] => []
    | _ =>
        let detected :=
          join_comma (map (fun kv => string_of_list_ascii (fst kv))
                          emotions) in
        ["[Emotion(s) detected: " ++ detected ++ "]"]
    end in
  (answer_line ++ sentiment_line ++ emotion_line)%list.

(** The lines printed, and the draws used, when neither the knowledge base
    nor an intent answers. *)
Definition sentiment_reply (draws : nat) (user : text)
  : result (list string * nat) :=
  let sentiment := Lexicon.detect_sentiment user in
  let emotions := Lexicon.detect_emotions user in
  match Lexicon.polarity sentiment with
  | Lexicon.Negative =>
      let first :=
        if has_emotion emotions "sadness"
        then "ChatBuddy: I'm sorry to hear that. Do you want to talk about it?"
        else if has_emotion emotions "anger"
        then "ChatBuddy: I understand that you're upset. Want to vent or get tips to calm down?"
        else "ChatBuddy: That sounds rough. Want some suggestions to help?" in
      Return ([first;
               ("[Sentiment: negative (score="
                ++ str_of_int (Lexicon.score sentiment) ++ ")]")%string],
              draws)
  | Lexicon.Positive =>
      let first :=
        if has_emotion emotions "joy" || has_emotion emotions "love"
        then "ChatBuddy: That's wonderful to hear! Glad you're feeling good :)"
        else "ChatBuddy: Nice! Happy to hear that." in
      Return ([first;
               ("[Sentiment: positive (score="
                ++ str_of_int (Lexicon.score sentiment) ++ ")]")%string],
              draws)
  | Lexicon.Neutral =>
      if RegexI.search RESIZE_PATTERN user then
        Return (["ChatBuddy: For resizing images in Python use PIL/Pillow: Image.open(path).resize((w,h)).save(out)."%string],
                draws)
      else if RegexI.search FLASK_PATTERN user then
        Return (["ChatBuddy: Flask is a minimal Python web framework. Use @app.route to define endpoints."%string],
                draws)
      else
        phrase <- Intents.choice (rng draws) fallback_phrases ;;
        Return ([("ChatBuddy: " ++ phrase)%string], S draws)
  end.

(** The body of the loop after [user = input("You: ").strip()]: the lines
    printed, what the loop does next and the number of draws used so
    far. *)
Definition reply (draws : nat) (user : text)
  : result (list string * control * nat) :=
  match user with
  | [] =>
      Return (["ChatBuddy: Say something — I'm listening."%string],
              Continue, draws)
  | _ =>
      if RegexI.search EXIT_PATTERN user then
        Return (["ChatBuddy: Goodbye — take care!"%string], Break, draws)
      else
        kb_answer <- KB.find_in_kb user kb_data KB.default_cutoff ;;
        match kb_answer with
        | Some (String c a) =>
            Return (kb_reply (String c a) user, Continue, draws)
        | _ =>
            match Intents.match_intent user with
            | Some (c :: k) =>
                response <- Intents.intent_response (rng draws) (c :: k) ;;
                Return ([("ChatBuddy: " ++ response)%string],
                        Continue, S draws)
            | _ =>
                r <- sentiment_reply draws user ;;
                Return (fst r, Continue, snd r)
            end
        end
  end.

(** What is written to the terminal: a prompt of [input] or a line of
    [print]. *)
Inductive event : Set :=
| Prompt (s : string)
| Print (line : string).

(** How the program ends: it leaves the loop, or an exception reaches the
    top. *)
Inductive status : Set :=
| Ended
| Crashed (e : exn).

(** The [while True] loop over the lines that [input] returns; after the
    last line [input] raises [EOFError]. *)
Fixpoint main_loop (draws : nat) (inputs : list text)
  : list event * status :=
  match inputs with
  | [] =>
      ([Prompt "You: "; Print (nl ++ "ChatBuddy: Bye!")%string], Ended)
  | line :: rest =>
      let user := strip line in
      match reply draws user with
      | Raise e => ([Prompt "You: "], Crashed e)
      | Return (lines, Break, _) =>
          (Prompt "You: " :: map Print lines, Ended)
      | Return (lines, Continue, draws') =>
          let r := main_loop draws' rest in
          (Prompt "You: " :: (map Print lines ++ fst r)%list, snd r)
      end
  end.

(** [main()] once [load_kb()] has returned [kb_data]. *)
Definition main (inputs : list text) : list event * status :=
  let r := main_loop 0 inputs in
  (Print "ChatBuddy: Hi! I'm ChatBuddy (rule + sentiment + KB). Type 'bye' to exit."
   :: Print "Tip: Ask project questions (e.g. 'how to resize images') or tell me how you feel."
   :: fst r,
   snd r).

End Session.

End Chat.

(** ** Properties stated about the chat loop *)

Module ChatSpec.

Import Chat.

Local Open Scope string_scope.

Definition exit_words : list text := map str ["bye"; "goodbye"; "exit"; "quit"].
Definition resize_words : list text :=
  map str ["resize"; "image"; "pillow"; "pil"].
Definition flask_words : list text := map str ["flask"; "api"; "endpoint"].

(** A list of non-empty lowercase words. *)
Definition plain_words (alts : list text) : bool :=
  forallb
    (fun w =>
       match w with [] => false | _ => true end
       && forallb (fun c => is_word c && Ascii.eqb (lower_char c) c) w)
    alts.

(** One of the words [ws] is a token of [s]. *)
Definition has_token (ws : list text) (s : text) : Prop :=
  exists w, In w ws /\ In w (tokenize s).

(** The random source draws below its bound. *)
Definition in_range (rng : nat -> nat -> nat) : Prop :=
  forall k n, 0 < n -> rng k n < n.

(** The two lines on which a session can end. *)
Definition farewell (e : event) : Prop :=
  e = Print "ChatBuddy: Goodbye — take care!"
  \/ e = Print (nl ++ "ChatBuddy: Bye!").

(** The lines of one reply: an answer of ChatBuddy, then at most two
    bracketed remarks. *)
Definition reply_shape (lines : list string) : Prop :=
  exists first remarks,
    lines = first :: remarks
    /\ prefix "ChatBuddy" first = true
    /\ Forall (fun l => prefix "[" l = true) remarks
    /\ List.length remarks <= 2.

End ChatSpec.
Import ChatSpec.
(** ** The table that [find_longest_match] fills *)

Module DifflibRuns.

Import Difflib.

(** The length of the longest common run of [a] and [b] that ends at
    [a[i]] and [b[j]] and holds no popular element of [b]: the value of
    [j2len[j]] after the round [i]. *)
Fixpoint run_len (a b : text) (i j : nat) : nat :=
  if Ascii.eqb (elt a i) (elt b j) && negb (popular b (elt b j)) then
    match i, j with
    | S i', S j' => S (run_len a b i' j')
    | _, _ => 1
    end
  else 0.

(** [j2len.get(j-1, 0)] at the start of the round [i]. *)
Definition prev_run (a b : text) (i j : nat) : nat :=
  match i, j with
  | S i', S j' => run_len a b i' j'
  | _, _ => 0
  end.

(** The state of the round [i] of the search of [x] in itself, before the
    position [from]: [newj2len] holds the runs found in this round, and
    [best] lies on the diagonal and is the longest run seen so far. *)
Definition row_state (x : text) (i from : nat)
    (newj2len : list (nat * nat)) (best : block) : Prop :=
  (forall j, j2len_get newj2len j
             = if j <? from then run_len x x i j else 0)
  /\ exists bi bk,
       best = (bi, bi, bk) /\ bi + bk <= List.length x
       /\ forall i' j', j' < List.length x ->
                        i' < i \/ (i' = i /\ j' < from) ->
                        run_len x x i' j' <= bk.

(** The state of the search of [x] in itself before the round [i]. *)
Definition rounds_state (x : text) (i : nat)
    (st : list (nat * nat) * block) : Prop :=
  (forall j, j < List.length x -> prev_len (fst st) j = prev_run x x i j)
  /\ exists bi bk,
       snd st = (bi, bi, bk) /\ bi + bk <= List.length x
       /\ forall i' j', i' < i -> j' < List.length x ->
                        run_len x x i' j' <= bk.

End DifflibRuns.
Import DifflibRuns.

(** ** Text beyond Latin-1

    [normalize], [tokenize], [match_intent] and the patterns of [main] on a
    [str] of any code points.  A string is the list of its code points; the
    tables are those of CPython 3.11 (Unicode 14.0.0), as [str.isspace],
    [str.isalnum], [str.isupper] and [str.lower] give them, and the
    functions follow [unicodeobject.c]: [str.lower] maps every character to
    its full lowercase form, but for the capital sigma, whose form depends
    on the characters around it.  A literal of a pattern compiled with
    [re.IGNORECASE] is matched as [re._compiler] and [_sre] do: through the
    simple lowercase form of the character read and the extra cases of
    [re._casefix]. *)

Module Unicode.

Local Open Scope N_scope.

Definition ustr := list N.

Definition in_ranges (rs : list (N * N)) (c : N) : bool :=
  existsb (fun r => (fst r <=? c) && (c <=? snd r)) rs.

(** The characters for which [Py_UNICODE_ISSPACE] holds: [str.isspace], and
    [\s] of [re] on a [str] pattern. *)
Definition SPACES : list N :=
  [
    0x9; 0xA; 0xB; 0xC; 0xD; 0x1C; 0x1D; 0x1E; 0x1F; 0x20; 0x85; 0xA0;
    0x1680; 0x2000; 0x2001; 0x2002; 0x2003; 0x2004; 0x2005; 0x2006; 0x2007;
    0x2008; 0x2009; 0x200A; 0x2028; 0x2029; 0x202F; 0x205F; 0x3000
  ].

(** The ranges of the characters for which [Py_UNICODE_ISALNUM] holds
    ([str.isalnum]). *)
Definition ALNUM : list (N * N) :=
  [
    (0x30, 0x39); (0x41, 0x5A); (0x61, 0x7A); (0xAA, 0xAA); (0xB2, 0xB3);
    (0xB5, 0xB5); (0xB9, 0xBA); (0xBC, 0xBE); (0xC0, 0xD6); (0xD8, 0xF6);
    (0xF8, 0x2C1); (0x2C6, 0x2D1); (0x2E0, 0x2E4); (0x2EC, 0x2EC);
    (0x2EE, 0x2EE); (0x370, 0x374); (0x376, 0x377); (0x37A, 0x37D);
    (0x37F, 0x37F); (0x386, 0x386); (0x388, 0x38A); (0x38C, 0x38C);
    (0x38E, 0x3A1); (0x3A3, 0x3F5); (0x3F7, 0x481); (0x48A, 0x52F);
    (0x531, 0x556); (0x559, 0x559); (0x560, 0x588); (0x5D0, 0x5EA);
    (0x5EF, 0x5F2); (0x620, 0x64A); (0x660, 0x669); (0x66E, 0x66F);
    (0x671, 0x6D3); (0x6D5, 0x6D5); (0x6E5, 0x6E6); (0x6EE, 0x6FC);
    (0x6FF, 0x6FF); (0x710, 0x710); (0x712, 0x72F); (0x74D, 0x7A5);
    (0x7B1, 0x7B1); (0x7C0, 0x7EA); (0x7F4, 0x7F5); (0x7FA, 0x7FA);
    (0x800, 0x815); (0x81A, 0x81A); (0x824, 0x824); (0x828, 0x828);
    (0x840, 0x858); (0x860, 0x86A); (0x870, 0x887); (0x889, 0x88E);
    (0x8A0, 0x8C9); (0x904, 0x939); (0x93D, 0x93D); (0x950, 0x950);
    (0x958, 0x961); (0x966, 0x96F); (0x971, 0x980); (0x985, 0x98C);
    (0x98F, 0x990); (0x993, 0x9A8); (0x9AA, 0x9B0); (0x9B2, 0x9B2);
    (0x9B6, 0x9B9); (0x9BD, 0x9BD); (0x9CE, 0x9CE); (0x9DC, 0x9DD);
    (0x9DF, 0x9E1); (0x9E6, 0x9F1); (0x9F4, 0x9F9); (0x9FC, 0x9FC);
    (0xA05, 0xA0A); (0xA0F, 0xA10); (0xA13, 0xA28); (0xA2A, 0xA30);
    (0xA32, 0xA33); (0xA35, 0xA36); (0xA38, 0xA39); (0xA59, 0xA5C);
    (0xA5E, 0xA5E); (0xA66, 0xA6F); (0xA72, 0xA74); (0xA85, 0xA8D);
    (0xA8F, 0xA91); (0xA93, 0xAA8); (0xAAA, 0xAB0); (0xAB2, 0xAB3);
    (0xAB5, 0xAB9); (0xABD, 0xABD); (0xAD0, 0xAD0); (0xAE0, 0xAE1);
    (0xAE6, 0xAEF); (0xAF9, 0xAF9); (0xB05, 0xB0C); (0xB0F, 0xB10);
    (0xB13, 0xB28); (0xB2A, 0xB30); (0xB32, 0xB33); (0xB35, 0xB39);
    (0xB3D, 0xB3D); (0xB5C, 0xB5D); (0xB5F, 0xB61); (0xB66, 0xB6F);
    (0xB71, 0xB77); (0xB83, 0xB83); (0xB85, 0xB8A); (0xB8E, 0xB90);
    (0xB92, 0xB95); (0xB99, 0xB9A); (0xB9C, 0xB9C); (0xB9E, 0xB9F);
    (0xBA3, 0xBA4); (0xBA8, 0xBAA); (0xBAE, 0xBB9); (0xBD0, 0xBD0);
    (0xBE6, 0xBF2); (0xC05, 0xC0C); (0xC0E, 0xC10); (0xC12, 0xC28);
    (0xC2A, 0xC39); (0xC3D, 0xC3D); (0xC58, 0xC5A); (0xC5D, 0xC5D);
    (0xC60, 0xC61); (0xC66, 0xC6F); (0xC78, 0xC7E); (0xC80, 0xC80);
    (0xC85, 0xC8C); (0xC8E, 0xC90); (0xC92, 0xCA8); (0xCAA, 0xCB3);
    (0xCB5, 0xCB9); (0xCBD, 0xCBD); (0xCDD, 0xCDE); (0xCE0, 0xCE1);
    (0xCE6, 0xCEF); (0xCF1, 0xCF2); (0xD04, 0xD0C); (0xD0E, 0xD10);
    (0xD12, 0xD3A); (0xD3D, 0xD3D); (0xD4E, 0xD4E); (0xD54, 0xD56);
    (0xD58, 0xD61); (0xD66, 0xD78); (0xD7A, 0xD7F); (0xD85, 0xD96);
    (0xD9A, 0xDB1); (0xDB3, 0xDBB); (0xDBD, 0xDBD); (0xDC0, 0xDC6);
    (0xDE6, 0xDEF); (0xE01, 0xE30); (0xE32, 0xE33); (0xE40, 0xE46);
    (0xE50, 0xE59); (0xE81, 0xE82); (0xE84, 0xE84); (0xE86, 0xE8A);
    (0xE8C, 0xEA3); (0xEA5, 0xEA5); (0xEA7, 0xEB0); (0xEB2, 0xEB3);
    (0xEBD, 0xEBD); (0xEC0, 0xEC4); (0xEC6, 0xEC6); (0xED0, 0xED9);
    (0xEDC, 0xEDF); (0xF00, 0xF00); (0xF20, 0xF33); (0xF40, 0xF47);
    (0xF49, 0xF6C); (0xF88, 0xF8C); (0x1000, 0x102A); (0x103F, 0x1049);
    (0x1050, 0x1055); (0x105A, 0x105D); (0x1061, 0x1061); (0x1065, 0x1066);
    (0x106E, 0x1070); (0x1075, 0x1081); (0x108E, 0x108E); (0x1090, 0x1099);
    (0x10A0, 0x10C5); (0x10C7, 0x10C7); (0x10CD, 0x10CD); (0x10D0, 0x10FA);
    (0x10FC, 0x1248); (0x124A, 0x124D); (0x1250, 0x1256); (0x1258, 0x1258);
    (0x125A, 0x125D); (0x1260, 0x1288); (0x128A, 0x128D); (0x1290, 0x12B0);
    (0x12B2, 0x12B5); (0x12B8, 0x12BE); (0x12C0, 0x12C0); (0x12C2, 0x12C5);
    (0x12C8, 0x12D6); (0x12D8, 0x1310); (0x1312, 0x1315); (0x1318, 0x135A);
    (0x1369, 0x137C); (0x1380, 0x138F); (0x13A0, 0x13F5); (0x13F8, 0x13FD);
    (0x1401, 0x166C); (0x166F, 0x167F); (0x1681, 0x169A); (0x16A0, 0x16EA);
    (0x16EE, 0x16F8); (0x1700, 0x1711); (0x171F, 0x1731); (0x1740, 0x1751);
    (0x1760, 0x176C); (0x176E, 0x1770); (0x1780, 0x17B3); (0x17D7, 0x17D7);
    (0x17DC, 0x17DC); (0x17E0, 0x17E9); (0x17F0, 0x17F9); (0x1810, 0x1819);
    (0x1820, 0x1878); (0x1880, 0x1884); (0x1887, 0x18A8); (0x18AA, 0x18AA);
    (0x18B0, 0x18F5); (0x1900, 0x191E); (0x1946, 0x196D); (0x1970, 0x1974);
    (0x1980, 0x19AB); (0x19B0, 0x19C9); (0x19D0, 0x19DA); (0x1A00, 0x1A16);
    (0x1A20, 0x1A54); (0x1A80, 0x1A89); (0x1A90, 0x1A99); (0x1AA7, 0x1AA7);
    (0x1B05, 0x1B33); (0x1B45, 0x1B4C); (0x1B50, 0x1B59); (0x1B83, 0x1BA0);
    (0x1BAE, 0x1BE5); (0x1C00, 0x1C23); (0x1C40, 0x1C49); (0x1C4D, 0x1C7D);
    (0x1C80, 0x1C88); (0x1C90, 0x1CBA); (0x1CBD, 0x1CBF); (0x1CE9, 0x1CEC);
    (0x1CEE, 0x1CF3); (0x1CF5, 0x1CF6); (0x1CFA, 0x1CFA); (0x1D00, 0x1DBF);
    (0x1E00, 0x1F15); (0x1F18, 0x1F1D); (0x1F20, 0x1F45); (0x1F48, 0x1F4D);
    (0x1F50, 0x1F57); (0x1F59, 0x1F59); (0x1F5B, 0x1F5B); (0x1F5D, 0x1F5D);
    (0x1F5F, 0x1F7D); (0x1F80, 0x1FB4); (0x1FB6, 0x1FBC); (0x1FBE, 0x1FBE);
    (0x1FC2, 0x1FC4); (0x1FC6, 0x1FCC); (0x1FD0, 0x1FD3); (0x1FD6, 0x1FDB);
    (0x1FE0, 0x1FEC); (0x1FF2, 0x1FF4); (0x1FF6, 0x1FFC); (0x2070, 0x2071);
    (0x2074, 0x2079); (0x207F, 0x2089); (0x2090, 0x209C); (0x2102, 0x2102);
    (0x2107, 0x2107); (0x210A, 0x2113); (0x2115, 0x2115); (0x2119, 0x211D);
    (0x2124, 0x2124); (0x2126, 0x2126); (0x2128, 0x2128); (0x212A, 0x212D);
    (0x212F, 0x2139); (0x213C, 0x213F); (0x2145, 0x2149); (0x214E, 0x214E);
    (0x2150, 0x2189); (0x2460, 0x249B); (0x24EA, 0x24FF); (0x2776, 0x2793);
    (0x2C00, 0x2CE4); (0x2CEB, 0x2CEE); (0x2CF2, 0x2CF3); (0x2CFD, 0x2CFD);
    (0x2D00, 0x2D25); (0x2D27, 0x2D27); (0x2D2D, 0x2D2D); (0x2D30, 0x2D67);
    (0x2D6F, 0x2D6F); (0x2D80, 0x2D96); (0x2DA0, 0x2DA6); (0x2DA8, 0x2DAE);
    (0x2DB0, 0x2DB6); (0x2DB8, 0x2DBE); (0x2DC0, 0x2DC6); (0x2DC8, 0x2DCE);
    (0x2DD0, 0x2DD6); (0x2DD8, 0x2DDE); (0x2E2F, 0x2E2F); (0x3005, 0x3007);
    (0x3021, 0x3029); (0x3031, 0x3035); (0x3038, 0x303C); (0x3041, 0x3096);
    (0x309D, 0x309F); (0x30A1, 0x30FA); (0x30FC, 0x30FF); (0x3105, 0x312F);
    (0x3131, 0x318E); (0x3192, 0x3195); (0x31A0, 0x31BF); (0x31F0, 0x31FF);
    (0x3220, 0x3229); (0x3248, 0x324F); (0x3251, 0x325F); (0x3280, 0x3289);
    (0x32B1, 0x32BF); (0x3400, 0x4DBF); (0x4E00, 0xA48C); (0xA4D0, 0xA4FD);
    (0xA500, 0xA60C); (0xA610, 0xA62B); (0xA640, 0xA66E); (0xA67F, 0xA69D);
    (0xA6A0, 0xA6EF); (0xA717, 0xA71F); (0xA722, 0xA788); (0xA78B, 0xA7CA);
    (0xA7D0, 0xA7D1); (0xA7D3, 0xA7D3); (0xA7D5, 0xA7D9); (0xA7F2, 0xA801);
    (0xA803, 0xA805); (0xA807, 0xA80A); (0xA80C, 0xA822); (0xA830, 0xA835);
    (0xA840, 0xA873); (0xA882, 0xA8B3); (0xA8D0, 0xA8D9); (0xA8F2, 0xA8F7);
    (0xA8FB, 0xA8FB); (0xA8FD, 0xA8FE); (0xA900, 0xA925); (0xA930, 0xA946);
    (0xA960, 0xA97C); (0xA984, 0xA9B2); (0xA9CF, 0xA9D9); (0xA9E0, 0xA9E4);
    (0xA9E6, 0xA9FE); (0xAA00, 0xAA28); (0xAA40, 0xAA42); (0xAA44, 0xAA4B);
    (0xAA50, 0xAA59); (0xAA60, 0xAA76); (0xAA7A, 0xAA7A); (0xAA7E, 0xAAAF);
    (0xAAB1, 0xAAB1); (0xAAB5, 0xAAB6); (0xAAB9, 0xAABD); (0xAAC0, 0xAAC0);
    (0xAAC2, 0xAAC2); (0xAADB, 0xAADD); (0xAAE0, 0xAAEA); (0xAAF2, 0xAAF4);
    (0xAB01, 0xAB06); (0xAB09, 0xAB0E); (0xAB11, 0xAB16); (0xAB20, 0xAB26);
    (0xAB28, 0xAB2E); (0xAB30, 0xAB5A); (0xAB5C, 0xAB69); (0xAB70, 0xABE2);
    (0xABF0, 0xABF9); (0xAC00, 0xD7A3); (0xD7B0, 0xD7C6); (0xD7CB, 0xD7FB);
    (0xF900, 0xFA6D); (0xFA70, 0xFAD9); (0xFB00, 0xFB06); (0xFB13, 0xFB17);
    (0xFB1D, 0xFB1D); (0xFB1F, 0xFB28); (0xFB2A, 0xFB36); (0xFB38, 0xFB3C);
    (0xFB3E, 0xFB3E); (0xFB40, 0xFB41); (0xFB43, 0xFB44); (0xFB46, 0xFBB1);
    (0xFBD3, 0xFD3D); (0xFD50, 0xFD8F); (0xFD92, 0xFDC7); (0xFDF0, 0xFDFB);
    (0xFE70, 0xFE74); (0xFE76, 0xFEFC); (0xFF10, 0xFF19); (0xFF21, 0xFF3A);
    (0xFF41, 0xFF5A); (0xFF66, 0xFFBE); (0xFFC2, 0xFFC7); (0xFFCA, 0xFFCF);
    (0xFFD2, 0xFFD7); (0xFFDA, 0xFFDC); (0x10000, 0x1000B);
    (0x1000D, 0x10026); (0x10028, 0x1003A); (0x1003C, 0x1003D);
    (0x1003F, 0x1004D); (0x10050, 0x1005D); (0x10080, 0x100FA);
    (0x10107, 0x10133); (0x10140, 0x10178); (0x1018A, 0x1018B);
    (0x10280, 0x1029C); (0x102A0, 0x102D0); (0x102E1, 0x102FB);
    (0x10300, 0x10323); (0x1032D, 0x1034A); (0x10350, 0x10375);
    (0x10380, 0x1039D); (0x103A0, 0x103C3); (0x103C8, 0x103CF);
    (0x103D1, 0x103D5); (0x10400, 0x1049D); (0x104A0, 0x104A9);
    (0x104B0, 0x104D3); (0x104D8, 0x104FB); (0x10500, 0x10527);
    (0x10530, 0x10563); (0x10570, 0x1057A); (0x1057C, 0x1058A);
    (0x1058C, 0x10592); (0x10594, 0x10595); (0x10597, 0x105A1);
    (0x105A3, 0x105B1); (0x105B3, 0x105B9); (0x105BB, 0x105BC);
    (0x10600, 0x10736); (0x10740, 0x10755); (0x10760, 0x10767);
    (0x10780, 0x10785); (0x10787, 0x107B0); (0x107B2, 0x107BA);
    (0x10800, 0x10805); (0x10808, 0x10808); (0x1080A, 0x10835);
    (0x10837, 0x10838); (0x1083C, 0x1083C); (0x1083F, 0x10855);
    (0x10858, 0x10876); (0x10879, 0x1089E); (0x108A7, 0x108AF);
    (0x108E0, 0x108F2); (0x108F4, 0x108F5); (0x108FB, 0x1091B);
    (0x10920, 0x10939); (0x10980, 0x109B7); (0x109BC, 0x109CF);
    (0x109D2, 0x10A00); (0x10A10, 0x10A13); (0x10A15, 0x10A17);
    (0x10A19, 0x10A35); (0x10A40, 0x10A48); (0x10A60, 0x10A7E);
    (0x10A80, 0x10A9F); (0x10AC0, 0x10AC7); (0x10AC9, 0x10AE4);
    (0x10AEB, 0x10AEF); (0x10B00, 0x10B35); (0x10B40, 0x10B55);
    (0x10B58, 0x10B72); (0x10B78, 0x10B91); (0x10BA9, 0x10BAF);
    (0x10C00, 0x10C48); (0x10C80, 0x10CB2); (0x10CC0, 0x10CF2);
    (0x10CFA, 0x10D23); (0x10D30, 0x10D39); (0x10E60, 0x10E7E);
    (0x10E80, 0x10EA9); (0x10EB0, 0x10EB1); (0x10F00, 0x10F27);
    (0x10F30, 0x10F45); (0x10F51, 0x10F54); (0x10F70, 0x10F81);
    (0x10FB0, 0x10FCB); (0x10FE0, 0x10FF6); (0x11003, 0x11037);
    (0x11052, 0x1106F); (0x11071, 0x11072); (0x11075, 0x11075);
    (0x11083, 0x110AF); (0x110D0, 0x110E8); (0x110F0, 0x110F9);
    (0x11103, 0x11126); (0x11136, 0x1113F); (0x11144, 0x11144);
    (0x11147, 0x11147); (0x11150, 0x11172); (0x11176, 0x11176);
    (0x11183, 0x111B2); (0x111C1, 0x111C4); (0x111D0, 0x111DA);
    (0x111DC, 0x111DC); (0x111E1, 0x111F4); (0x11200, 0x11211);
    (0x11213, 0x1122B); (0x11280, 0x11286); (0x11288, 0x11288);
    (0x1128A, 0x1128D); (0x1128F, 0x1129D); (0x1129F, 0x112A8);
    (0x112B0, 0x112DE); (0x112F0, 0x112F9); (0x11305, 0x1130C);
    (0x1130F, 0x11310); (0x11313, 0x11328); (0x1132A, 0x11330);
    (0x11332, 0x11333); (0x11335, 0x11339); (0x1133D, 0x1133D);
    (0x11350, 0x11350); (0x1135D, 0x11361); (0x11400, 0x11434);
    (0x11447, 0x1144A); (0x11450, 0x11459); (0x1145F, 0x11461);
    (0x11480, 0x114AF); (0x114C4, 0x114C5); (0x114C7, 0x114C7);
    (0x114D0, 0x114D9); (0x11580, 0x115AE); (0x115D8, 0x115DB);
    (0x11600, 0x1162F); (0x11644, 0x11644); (0x11650, 0x11659);
    (0x11680, 0x116AA); (0x116B8, 0x116B8); (0x116C0, 0x116C9);
    (0x11700, 0x1171A); (0x11730, 0x1173B); (0x11740, 0x11746);
    (0x11800, 0x1182B); (0x118A0, 0x118F2); (0x118FF, 0x11906);
    (0x11909, 0x11909); (0x1190C, 0x11913); (0x11915, 0x11916);
    (0x11918, 0x1192F); (0x1193F, 0x1193F); (0x11941, 0x11941);
    (0x11950, 0x11959); (0x119A0, 0x119A7); (0x119AA, 0x119D0);
    (0x119E1, 0x119E1); (0x119E3, 0x119E3); (0x11A00, 0x11A00);
    (0x11A0B, 0x11A32); (0x11A3A, 0x11A3A); (0x11A50, 0x11A50);
    (0x11A5C, 0x11A89); (0x11A9D, 0x11A9D); (0x11AB0, 0x11AF8);
    (0x11C00, 0x11C08); (0x11C0A, 0x11C2E); (0x11C40, 0x11C40);
    (0x11C50, 0x11C6C); (0x11C72, 0x11C8F); (0x11D00, 0x11D06);
    (0x11D08, 0x11D09); (0x11D0B, 0x11D30); (0x11D46, 0x11D46);
    (0x11D50, 0x11D59); (0x11D60, 0x11D65); (0x11D67, 0x11D68);
    (0x11D6A, 0x11D89); (0x11D98, 0x11D98); (0x11DA0, 0x11DA9);
    (0x11EE0, 0x11EF2); (0x11FB0, 0x11FB0); (0x11FC0, 0x11FD4);
    (0x12000, 0x12399); (0x12400, 0x1246E); (0x12480, 0x12543);
    (0x12F90, 0x12FF0); (0x13000, 0x1342E); (0x14400, 0x14646);
    (0x16800, 0x16A38); (0x16A40, 0x16A5E); (0x16A60, 0x16A69);
    (0x16A70, 0x16ABE); (0x16AC0, 0x16AC9); (0x16AD0, 0x16AED);
    (0x16B00, 0x16B2F); (0x16B40, 0x16B43); (0x16B50, 0x16B59);
    (0x16B5B, 0x16B61); (0x16B63, 0x16B77); (0x16B7D, 0x16B8F);
    (0x16E40, 0x16E96); (0x16F00, 0x16F4A); (0x16F50, 0x16F50);
    (0x16F93, 0x16F9F); (0x16FE0, 0x16FE1); (0x16FE3, 0x16FE3);
    (0x17000, 0x187F7); (0x18800, 0x18CD5); (0x18D00, 0x18D08);
    (0x1AFF0, 0x1AFF3); (0x1AFF5, 0x1AFFB); (0x1AFFD, 0x1AFFE);
    (0x1B000, 0x1B122); (0x1B150, 0x1B152); (0x1B164, 0x1B167);
    (0x1B170, 0x1B2FB); (0x1BC00, 0x1BC6A); (0x1BC70, 0x1BC7C);
    (0x1BC80, 0x1BC88); (0x1BC90, 0x1BC99); (0x1D2E0, 0x1D2F3);
    (0x1D360, 0x1D378); (0x1D400, 0x1D454); (0x1D456, 0x1D49C);
    (0x1D49E, 0x1D49F); (0x1D4A2, 0x1D4A2); (0x1D4A5, 0x1D4A6);
    (0x1D4A9, 0x1D4AC); (0x1D4AE, 0x1D4B9); (0x1D4BB, 0x1D4BB);
    (0x1D4BD, 0x1D4C3); (0x1D4C5, 0x1D505); (0x1D507, 0x1D50A);
    (0x1D50D, 0x1D514); (0x1D516, 0x1D51C); (0x1D51E, 0x1D539);
    (0x1D53B, 0x1D53E); (0x1D540, 0x1D544); (0x1D546, 0x1D546);
    (0x1D54A, 0x1D550); (0x1D552, 0x1D6A5); (0x1D6A8, 0x1D6C0);
    (0x1D6C2, 0x1D6DA); (0x1D6DC, 0x1D6FA); (0x1D6FC, 0x1D714);
    (0x1D716, 0x1D734); (0x1D736, 0x1D74E); (0x1D750, 0x1D76E);
    (0x1D770, 0x1D788); (0x1D78A, 0x1D7A8); (0x1D7AA, 0x1D7C2);
    (0x1D7C4, 0x1D7CB); (0x1D7CE, 0x1D7FF); (0x1DF00, 0x1DF1E);
    (0x1E100, 0x1E12C); (0x1E137, 0x1E13D); (0x1E140, 0x1E149);
    (0x1E14E, 0x1E14E); (0x1E290, 0x1E2AD); (0x1E2C0, 0x1E2EB);
    (0x1E2F0, 0x1E2F9); (0x1E7E0, 0x1E7E6); (0x1E7E8, 0x1E7EB);
    (0x1E7ED, 0x1E7EE); (0x1E7F0, 0x1E7FE); (0x1E800, 0x1E8C4);
    (0x1E8C7, 0x1E8CF); (0x1E900, 0x1E943); (0x1E94B, 0x1E94B);
    (0x1E950, 0x1E959); (0x1EC71, 0x1ECAB); (0x1ECAD, 0x1ECAF);
    (0x1ECB1, 0x1ECB4); (0x1ED01, 0x1ED2D); (0x1ED2F, 0x1ED3D);
    (0x1EE00, 0x1EE03); (0x1EE05, 0x1EE1F); (0x1EE21, 0x1EE22);
    (0x1EE24, 0x1EE24); (0x1EE27, 0x1EE27); (0x1EE29, 0x1EE32);
    (0x1EE34, 0x1EE37); (0x1EE39, 0x1EE39); (0x1EE3B, 0x1EE3B);
    (0x1EE42, 0x1EE42); (0x1EE47, 0x1EE47); (0x1EE49, 0x1EE49);
    (0x1EE4B, 0x1EE4B); (0x1EE4D, 0x1EE4F); (0x1EE51, 0x1EE52);
    (0x1EE54, 0x1EE54); (0x1EE57, 0x1EE57); (0x1EE59, 0x1EE59);
    (0x1EE5B, 0x1EE5B); (0x1EE5D, 0x1EE5D); (0x1EE5F, 0x1EE5F);
    (0x1EE61, 0x1EE62); (0x1EE64, 0x1EE64); (0x1EE67, 0x1EE6A);
    (0x1EE6C, 0x1EE72); (0x1EE74, 0x1EE77); (0x1EE79, 0x1EE7C);
    (0x1EE7E, 0x1EE7E); (0x1EE80, 0x1EE89); (0x1EE8B, 0x1EE9B);
    (0x1EEA1, 0x1EEA3); (0x1EEA5, 0x1EEA9); (0x1EEAB, 0x1EEBB);
    (0x1F100, 0x1F10C); (0x1FBF0, 0x1FBF9); (0x20000, 0x2A6DF);
    (0x2A700, 0x2B738); (0x2B740, 0x2B81D); (0x2B820, 0x2CEA1);
    (0x2CEB0, 0x2EBE0); (0x2F800, 0x2FA1D); (0x30000, 0x3134A)
  ].

(** The ranges of the characters for which [Py_UNICODE_ISUPPER] holds
    ([str.isupper]). *)
Definition UPPERCASE : list (N * N) :=
  [
    (0x41, 0x5A); (0xC0, 0xD6); (0xD8, 0xDE); (0x100, 0x100);
    (0x102, 0x102); (0x104, 0x104); (0x106, 0x106); (0x108, 0x108);
    (0x10A, 0x10A); (0x10C, 0x10C); (0x10E, 0x10E); (0x110, 0x110);
    (0x112, 0x112); (0x114, 0x114); (0x116, 0x116); (0x118, 0x118);
    (0x11A, 0x11A); (0x11C, 0x11C); (0x11E, 0x11E); (0x120, 0x120);
    (0x122, 0x122); (0x124, 0x124); (0x126, 0x126); (0x128, 0x128);
    (0x12A, 0x12A); (0x12C, 0x12C); (0x12E, 0x12E); (0x130, 0x130);
    (0x132, 0x132); (0x134, 0x134); (0x136, 0x136); (0x139, 0x139);
    (0x13B, 0x13B); (0x13D, 0x13D); (0x13F, 0x13F); (0x141, 0x141);
    (0x143, 0x143); (0x145, 0x145); (0x147, 0x147); (0x14A, 0x14A);
    (0x14C, 0x14C); (0x14E, 0x14E); (0x150, 0x150); (0x152, 0x152);
    (0x154, 0x154); (0x156, 0x156); (0x158, 0x158); (0x15A, 0x15A);
    (0x15C, 0x15C); (0x15E, 0x15E); (0x160, 0x160); (0x162, 0x162);
    (0x164, 0x164); (0x166, 0x166); (0x168, 0x168); (0x16A, 0x16A);
    (0x16C, 0x16C); (0x16E, 0x16E); (0x170, 0x170); (0x172, 0x172);
    (0x174, 0x174); (0x176, 0x176); (0x178, 0x179); (0x17B, 0x17B);
    (0x17D, 0x17D); (0x181, 0x182); (0x184, 0x184); (0x186, 0x187);
    (0x189, 0x18B); (0x18E, 0x191); (0x193, 0x194); (0x196, 0x198);
    (0x19C, 0x19D); (0x19F, 0x1A0); (0x1A2, 0x1A2); (0x1A4, 0x1A4);
    (0x1A6, 0x1A7); (0x1A9, 0x1A9); (0x1AC, 0x1AC); (0x1AE, 0x1AF);
    (0x1B1, 0x1B3); (0x1B5, 0x1B5); (0x1B7, 0x1B8); (0x1BC, 0x1BC);
    (0x1C4, 0x1C4); (0x1C7, 0x1C7); (0x1CA, 0x1CA); (0x1CD, 0x1CD);
    (0x1CF, 0x1CF); (0x1D1, 0x1D1); (0x1D3, 0x1D3); (0x1D5, 0x1D5);
    (0x1D7, 0x1D7); (0x1D9, 0x1D9); (0x1DB, 0x1DB); (0x1DE, 0x1DE);
    (0x1E0, 0x1E0); (0x1E2, 0x1E2); (0x1E4, 0x1E4); (0x1E6, 0x1E6);
    (0x1E8, 0x1E8); (0x1EA, 0x1EA); (0x1EC, 0x1EC); (0x1EE, 0x1EE);
    (0x1F1, 0x1F1); (0x1F4, 0x1F4); (0x1F6, 0x1F8); (0x1FA, 0x1FA);
    (0x1FC, 0x1FC); (0x1FE, 0x1FE); (0x200, 0x200); (0x202, 0x202);
    (0x204, 0x204); (0x206, 0x206); (0x208, 0x208); (0x20A, 0x20A);
    (0x20C, 0x20C); (0x20E, 0x20E); (0x210, 0x210); (0x212, 0x212);
    (0x214, 0x214); (0x216, 0x216); (0x218, 0x218); (0x21A, 0x21A);
    (0x21C, 0x21C); (0x21E, 0x21E); (0x220, 0x220); (0x222, 0x222);
    (0x224, 0x224); (0x226, 0x226); (0x228, 0x228); (0x22A, 0x22A);
    (0x22C, 0x22C); (0x22E, 0x22E); (0x230, 0x230); (0x232, 0x232);
    (0x23A, 0x23B); (0x23D, 0x23E); (0x241, 0x241); (0x243, 0x246);
    (0x248, 0x248); (0x24A, 0x24A); (0x24C, 0x24C); (0x24E, 0x24E);
    (0x370, 0x370); (0x372, 0x372); (0x376, 0x376); (0x37F, 0x37F);
    (0x386, 0x386); (0x388, 0x38A); (0x38C, 0x38C); (0x38E, 0x38F);
    (0x391, 0x3A1); (0x3A3, 0x3AB); (0x3CF, 0x3CF); (0x3D2, 0x3D4);
    (0x3D8, 0x3D8); (0x3DA, 0x3DA); (0x3DC, 0x3DC); (0x3DE, 0x3DE);
    (0x3E0, 0x3E0); (0x3E2, 0x3E2); (0x3E4, 0x3E4); (0x3E6, 0x3E6);
    (0x3E8, 0x3E8); (0x3EA, 0x3EA); (0x3EC, 0x3EC); (0x3EE, 0x3EE);
    (0x3F4, 0x3F4); (0x3F7, 0x3F7); (0x3F9, 0x3FA); (0x3FD, 0x42F);
    (0x460, 0x460); (0x462, 0x462); (0x464, 0x464); (0x466, 0x466);
    (0x468, 0x468); (0x46A, 0x46A); (0x46C, 0x46C); (0x46E, 0x46E);
    (0x470, 0x470); (0x472, 0x472); (0x474, 0x474); (0x476, 0x476);
    (0x478, 0x478); (0x47A, 0x47A); (0x47C, 0x47C); (0x47E, 0x47E);
    (0x480, 0x480); (0x48A, 0x48A); (0x48C, 0x48C); (0x48E, 0x48E);
    (0x490, 0x490); (0x492, 0x492); (0x494, 0x494); (0x496, 0x496);
    (0x498, 0x498); (0x49A, 0x49A); (0x49C, 0x49C); (0x49E, 0x49E);
    (0x4A0, 0x4A0); (0x4A2, 0x4A2); (0x4A4, 0x4A4); (0x4A6, 0x4A6);
    (0x4A8, 0x4A8); (0x4AA, 0x4AA); (0x4AC, 0x4AC); (0x4AE, 0x4AE);
    (0x4B0, 0x4B0); (0x4B2, 0x4B2); (0x4B4, 0x4B4); (0x4B6, 0x4B6);
    (0x4B8, 0x4B8); (0x4BA, 0x4BA); (0x4BC, 0x4BC); (0x4BE, 0x4BE);
    (0x4C0, 0x4C1); (0x4C3, 0x4C3); (0x4C5, 0x4C5); (0x4C7, 0x4C7);
    (0x4C9, 0x4C9); (0x4CB, 0x4CB); (0x4CD, 0x4CD); (0x4D0, 0x4D0);
    (0x4D2, 0x4D2); (0x4D4, 0x4D4); (0x4D6, 0x4D6); (0x4D8, 0x4D8);
    (0x4DA, 0x4DA); (0x4DC, 0x4DC); (0x4DE, 0x4DE); (0x4E0, 0x4E0);
    (0x4E2, 0x4E2); (0x4E4, 0x4E4); (0x4E6, 0x4E6); (0x4E8, 0x4E8);
    (0x4EA, 0x4EA); (0x4EC, 0x4EC); (0x4EE, 0x4EE); (0x4F0, 0x4F0);
    (0x4F2, 0x4F2); (0x4F4, 0x4F4); (0x4F6, 0x4F6); (0x4F8, 0x4F8);
    (0x4FA, 0x4FA); (0x4FC, 0x4FC); (0x4FE, 0x4FE); (0x500, 0x500);
    (0x502, 0x502); (0x504, 0x504); (0x506, 0x506); (0x508, 0x508);
    (0x50A, 0x50A); (0x50C, 0x50C); (0x50E, 0x50E); (0x510, 0x510);
    (0x512, 0x512); (0x514, 0x514); (0x516, 0x516); (0x518, 0x518);
    (0x51A, 0x51A); (0x51C, 0x51C); (0x51E, 0x51E); (0x520, 0x520);
    (0x522, 0x522); (0x524, 0x524); (0x526, 0x526); (0x528, 0x528);
    (0x52A, 0x52A); (0x52C, 0x52C); (0x52E, 0x52E); (0x531, 0x556);
    (0x10A0, 0x10C5); (0x10C7, 0x10C7); (0x10CD, 0x10CD); (0x13A0, 0x13F5);
    (0x1C90, 0x1CBA); (0x1CBD, 0x1CBF); (0x1E00, 0x1E00); (0x1E02, 0x1E02);
    (0x1E04, 0x1E04); (0x1E06, 0x1E06); (0x1E08, 0x1E08); (0x1E0A, 0x1E0A);
    (0x1E0C, 0x1E0C); (0x1E0E, 0x1E0E); (0x1E10, 0x1E10); (0x1E12, 0x1E12);
    (0x1E14, 0x1E14); (0x1E16, 0x1E16); (0x1E18, 0x1E18); (0x1E1A, 0x1E1A);
    (0x1E1C, 0x1E1C); (0x1E1E, 0x1E1E); (0x1E20, 0x1E20); (0x1E22, 0x1E22);
    (0x1E24, 0x1E24); (0x1E26, 0x1E26); (0x1E28, 0x1E28); (0x1E2A, 0x1E2A);
    (0x1E2C, 0x1E2C); (0x1E2E, 0x1E2E); (0x1E30, 0x1E30); (0x1E32, 0x1E32);
    (0x1E34, 0x1E34); (0x1E36, 0x1E36); (0x1E38, 0x1E38); (0x1E3A, 0x1E3A);
    (0x1E3C, 0x1E3C); (0x1E3E, 0x1E3E); (0x1E40, 0x1E40); (0x1E42, 0x1E42);
    (0x1E44, 0x1E44); (0x1E46, 0x1E46); (0x1E48, 0x1E48); (0x1E4A, 0x1E4A);
    (0x1E4C, 0x1E4C); (0x1E4E, 0x1E4E); (0x1E50, 0x1E50); (0x1E52, 0x1E52);
    (0x1E54, 0x1E54); (0x1E56, 0x1E56); (0x1E58, 0x1E58); (0x1E5A, 0x1E5A);
    (0x1E5C, 0x1E5C); (0x1E5E, 0x1E5E); (0x1E60, 0x1E60); (0x1E62, 0x1E62);
    (0x1E64, 0x1E64); (0x1E66, 0x1E66); (0x1E68, 0x1E68); (0x1E6A, 0x1E6A);
    (0x1E6C, 0x1E6C); (0x1E6E, 0x1E6E); (0x1E70, 0x1E70); (0x1E72, 0x1E72);
    (0x1E74, 0x1E74); (0x1E76, 0x1E76); (0x1E78, 0x1E78); (0x1E7A, 0x1E7A);
    (0x1E7C, 0x1E7C); (0x1E7E, 0x1E7E); (0x1E80, 0x1E80); (0x1E82, 0x1E82);
    (0x1E84, 0x1E84); (0x1E86, 0x1E86); (0x1E88, 0x1E88); (0x1E8A, 0x1E8A);
    (0x1E8C, 0x1E8C); (0x1E8E, 0x1E8E); (0x1E90, 0x1E90); (0x1E92, 0x1E92);
    (0x1E94, 0x1E94); (0x1E9E, 0x1E9E); (0x1EA0, 0x1EA0); (0x1EA2, 0x1EA2);
    (0x1EA4, 0x1EA4); (0x1EA6, 0x1EA6); (0x1EA8, 0x1EA8); (0x1EAA, 0x1EAA);
    (0x1EAC, 0x1EAC); (0x1EAE, 0x1EAE); (0x1EB0, 0x1EB0); (0x1EB2, 0x1EB2);
    (0x1EB4, 0x1EB4); (0x1EB6, 0x1EB6); (0x1EB8, 0x1EB8); (0x1EBA, 0x1EBA);
    (0x1EBC, 0x1EBC); (0x1EBE, 0x1EBE); (0x1EC0, 0x1EC0); (0x1EC2, 0x1EC2);
    (0x1EC4, 0x1EC4); (0x1EC6, 0x1EC6); (0x1EC8, 0x1EC8); (0x1ECA, 0x1ECA);
    (0x1ECC, 0x1ECC); (0x1ECE, 0x1ECE); (0x1ED0, 0x1ED0); (0x1ED2, 0x1ED2);
    (0x1ED4, 0x1ED4); (0x1ED6, 0x1ED6); (0x1ED8, 0x1ED8); (0x1EDA, 0x1EDA);
    (0x1EDC, 0x1EDC); (0x1EDE, 0x1EDE); (0x1EE0, 0x1EE0); (0x1EE2, 0x1EE2);
    (0x1EE4, 0x1EE4); (0x1EE6, 0x1EE6); (0x1EE8, 0x1EE8); (0x1EEA, 0x1EEA);
    (0x1EEC, 0x1EEC); (0x1EEE, 0x1EEE); (0x1EF0, 0x1EF0); (0x1EF2, 0x1EF2);
    (0x1EF4, 0x1EF4); (0x1EF6, 0x1EF6); (0x1EF8, 0x1EF8); (0x1EFA, 0x1EFA);
    (0x1EFC, 0x1EFC); (0x1EFE, 0x1EFE); (0x1F08, 0x1F0F); (0x1F18, 0x1F1D);
    (0x1F28, 0x1F2F); (0x1F38, 0x1F3F); (0x1F48, 0x1F4D); (0x1F59, 0x1F59);
    (0x1F5B, 0x1F5B); (0x1F5D, 0x1F5D); (0x1F5F, 0x1F5F); (0x1F68, 0x1F6F);
    (0x1FB8, 0x1FBB); (0x1FC8, 0x1FCB); (0x1FD8, 0x1FDB); (0x1FE8, 0x1FEC);
    (0x1FF8, 0x1FFB); (0x2102, 0x2102); (0x2107, 0x2107); (0x210B, 0x210D);
    (0x2110, 0x2112); (0x2115, 0x2115); (0x2119, 0x211D); (0x2124, 0x2124);
    (0x2126, 0x2126); (0x2128, 0x2128); (0x212A, 0x212D); (0x2130, 0x2133);
    (0x213E, 0x213F); (0x2145, 0x2145); (0x2160, 0x216F); (0x2183, 0x2183);
    (0x24B6, 0x24CF); (0x2C00, 0x2C2F); (0x2C60, 0x2C60); (0x2C62, 0x2C64);
    (0x2C67, 0x2C67); (0x2C69, 0x2C69); (0x2C6B, 0x2C6B); (0x2C6D, 0x2C70);
    (0x2C72, 0x2C72); (0x2C75, 0x2C75); (0x2C7E, 0x2C80); (0x2C82, 0x2C82);
    (0x2C84, 0x2C84); (0x2C86, 0x2C86); (0x2C88, 0x2C88); (0x2C8A, 0x2C8A);
    (0x2C8C, 0x2C8C); (0x2C8E, 0x2C8E); (0x2C90, 0x2C90); (0x2C92, 0x2C92);
    (0x2C94, 0x2C94); (0x2C96, 0x2C96); (0x2C98, 0x2C98); (0x2C9A, 0x2C9A);
    (0x2C9C, 0x2C9C); (0x2C9E, 0x2C9E); (0x2CA0, 0x2CA0); (0x2CA2, 0x2CA2);
    (0x2CA4, 0x2CA4); (0x2CA6, 0x2CA6); (0x2CA8, 0x2CA8); (0x2CAA, 0x2CAA);
    (0x2CAC, 0x2CAC); (0x2CAE, 0x2CAE); (0x2CB0, 0x2CB0); (0x2CB2, 0x2CB2);
    (0x2CB4, 0x2CB4); (0x2CB6, 0x2CB6); (0x2CB8, 0x2CB8); (0x2CBA, 0x2CBA);
    (0x2CBC, 0x2CBC); (0x2CBE, 0x2CBE); (0x2CC0, 0x2CC0); (0x2CC2, 0x2CC2);
    (0x2CC4, 0x2CC4); (0x2CC6, 0x2CC6); (0x2CC8, 0x2CC8); (0x2CCA, 0x2CCA);
    (0x2CCC, 0x2CCC); (0x2CCE, 0x2CCE); (0x2CD0, 0x2CD0); (0x2CD2, 0x2CD2);
    (0x2CD4, 0x2CD4); (0x2CD6, 0x2CD6); (0x2CD8, 0x2CD8); (0x2CDA, 0x2CDA);
    (0x2CDC, 0x2CDC); (0x2CDE, 0x2CDE); (0x2CE0, 0x2CE0); (0x2CE2, 0x2CE2);
    (0x2CEB, 0x2CEB); (0x2CED, 0x2CED); (0x2CF2, 0x2CF2); (0xA640, 0xA640);
    (0xA642, 0xA642); (0xA644, 0xA644); (0xA646, 0xA646); (0xA648, 0xA648);
    (0xA64A, 0xA64A); (0xA64C, 0xA64C); (0xA64E, 0xA64E); (0xA650, 0xA650);
    (0xA652, 0xA652); (0xA654, 0xA654); (0xA656, 0xA656); (0xA658, 0xA658);
    (0xA65A, 0xA65A); (0xA65C, 0xA65C); (0xA65E, 0xA65E); (0xA660, 0xA660);
    (0xA662, 0xA662); (0xA664, 0xA664); (0xA666, 0xA666); (0xA668, 0xA668);
    (0xA66A, 0xA66A); (0xA66C, 0xA66C); (0xA680, 0xA680); (0xA682, 0xA682);
    (0xA684, 0xA684); (0xA686, 0xA686); (0xA688, 0xA688); (0xA68A, 0xA68A);
    (0xA68C, 0xA68C); (0xA68E, 0xA68E); (0xA690, 0xA690); (0xA692, 0xA692);
    (0xA694, 0xA694); (0xA696, 0xA696); (0xA698, 0xA698); (0xA69A, 0xA69A);
    (0xA722, 0xA722); (0xA724, 0xA724); (0xA726, 0xA726); (0xA728, 0xA728);
    (0xA72A, 0xA72A); (0xA72C, 0xA72C); (0xA72E, 0xA72E); (0xA732, 0xA732);
    (0xA734, 0xA734); (0xA736, 0xA736); (0xA738, 0xA738); (0xA73A, 0xA73A);
    (0xA73C, 0xA73C); (0xA73E, 0xA73E); (0xA740, 0xA740); (0xA742, 0xA742);
    (0xA744, 0xA744); (0xA746, 0xA746); (0xA748, 0xA748); (0xA74A, 0xA74A);
    (0xA74C, 0xA74C); (0xA74E, 0xA74E); (0xA750, 0xA750); (0xA752, 0xA752);
    (0xA754, 0xA754); (0xA756, 0xA756); (0xA758, 0xA758); (0xA75A, 0xA75A);
    (0xA75C, 0xA75C); (0xA75E, 0xA75E); (0xA760, 0xA760); (0xA762, 0xA762);
    (0xA764, 0xA764); (0xA766, 0xA766); (0xA768, 0xA768); (0xA76A, 0xA76A);
    (0xA76C, 0xA76C); (0xA76E, 0xA76E); (0xA779, 0xA779); (0xA77B, 0xA77B);
    (0xA77D, 0xA77E); (0xA780, 0xA780); (0xA782, 0xA782); (0xA784, 0xA784);
    (0xA786, 0xA786); (0xA78B, 0xA78B); (0xA78D, 0xA78D); (0xA790, 0xA790);
    (0xA792, 0xA792); (0xA796, 0xA796); (0xA798, 0xA798); (0xA79A, 0xA79A);
    (0xA79C, 0xA79C); (0xA79E, 0xA79E); (0xA7A0, 0xA7A0); (0xA7A2, 0xA7A2);
    (0xA7A4, 0xA7A4); (0xA7A6, 0xA7A6); (0xA7A8, 0xA7A8); (0xA7AA, 0xA7AE);
    (0xA7B0, 0xA7B4); (0xA7B6, 0xA7B6); (0xA7B8, 0xA7B8); (0xA7BA, 0xA7BA);
    (0xA7BC, 0xA7BC); (0xA7BE, 0xA7BE); (0xA7C0, 0xA7C0); (0xA7C2, 0xA7C2);
    (0xA7C4, 0xA7C7); (0xA7C9, 0xA7C9); (0xA7D0, 0xA7D0); (0xA7D6, 0xA7D6);
    (0xA7D8, 0xA7D8); (0xA7F5, 0xA7F5); (0xFF21, 0xFF3A);
    (0x10400, 0x10427); (0x104B0, 0x104D3); (0x10570, 0x1057A);
    (0x1057C, 0x1058A); (0x1058C, 0x10592); (0x10594, 0x10595);
    (0x10C80, 0x10CB2); (0x118A0, 0x118BF); (0x16E40, 0x16E5F);
    (0x1D400, 0x1D419); (0x1D434, 0x1D44D); (0x1D468, 0x1D481);
    (0x1D49C, 0x1D49C); (0x1D49E, 0x1D49F); (0x1D4A2, 0x1D4A2);
    (0x1D4A5, 0x1D4A6); (0x1D4A9, 0x1D4AC); (0x1D4AE, 0x1D4B5);
    (0x1D4D0, 0x1D4E9); (0x1D504, 0x1D505); (0x1D507, 0x1D50A);
    (0x1D50D, 0x1D514); (0x1D516, 0x1D51C); (0x1D538, 0x1D539);
    (0x1D53B, 0x1D53E); (0x1D540, 0x1D544); (0x1D546, 0x1D546);
    (0x1D54A, 0x1D550); (0x1D56C, 0x1D585); (0x1D5A0, 0x1D5B9);
    (0x1D5D4, 0x1D5ED); (0x1D608, 0x1D621); (0x1D63C, 0x1D655);
    (0x1D670, 0x1D689); (0x1D6A8, 0x1D6C0); (0x1D6E2, 0x1D6FA);
    (0x1D71C, 0x1D734); (0x1D756, 0x1D76E); (0x1D790, 0x1D7A8);
    (0x1D7CA, 0x1D7CA); (0x1E900, 0x1E921); (0x1F130, 0x1F149);
    (0x1F150, 0x1F169); (0x1F170, 0x1F189)
  ].

(** The ranges of the characters for which [_PyUnicode_IsCased] holds. *)
Definition CASED : list (N * N) :=
  [
    (0x41, 0x5A); (0x61, 0x7A); (0xAA, 0xAA); (0xB5, 0xB5); (0xBA, 0xBA);
    (0xC0, 0xD6); (0xD8, 0xF6); (0xF8, 0x1BA); (0x1BC, 0x1BF);
    (0x1C4, 0x293); (0x295, 0x2B8); (0x2C0, 0x2C1); (0x2E0, 0x2E4);
    (0x345, 0x345); (0x370, 0x373); (0x376, 0x377); (0x37A, 0x37D);
    (0x37F, 0x37F); (0x386, 0x386); (0x388, 0x38A); (0x38C, 0x38C);
    (0x38E, 0x3A1); (0x3A3, 0x3F5); (0x3F7, 0x481); (0x48A, 0x52F);
    (0x531, 0x556); (0x560, 0x588); (0x10A0, 0x10C5); (0x10C7, 0x10C7);
    (0x10CD, 0x10CD); (0x10D0, 0x10FA); (0x10FD, 0x10FF); (0x13A0, 0x13F5);
    (0x13F8, 0x13FD); (0x1C80, 0x1C88); (0x1C90, 0x1CBA); (0x1CBD, 0x1CBF);
    (0x1D00, 0x1DBF); (0x1E00, 0x1F15); (0x1F18, 0x1F1D); (0x1F20, 0x1F45);
    (0x1F48, 0x1F4D); (0x1F50, 0x1F57); (0x1F59, 0x1F59); (0x1F5B, 0x1F5B);
    (0x1F5D, 0x1F5D); (0x1F5F, 0x1F7D); (0x1F80, 0x1FB4); (0x1FB6, 0x1FBC);
    (0x1FBE, 0x1FBE); (0x1FC2, 0x1FC4); (0x1FC6, 0x1FCC); (0x1FD0, 0x1FD3);
    (0x1FD6, 0x1FDB); (0x1FE0, 0x1FEC); (0x1FF2, 0x1FF4); (0x1FF6, 0x1FFC);
    (0x2071, 0x2071); (0x207F, 0x207F); (0x2090, 0x209C); (0x2102, 0x2102);
    (0x2107, 0x2107); (0x210A, 0x2113); (0x2115, 0x2115); (0x2119, 0x211D);
    (0x2124, 0x2124); (0x2126, 0x2126); (0x2128, 0x2128); (0x212A, 0x212D);
    (0x212F, 0x2134); (0x2139, 0x2139); (0x213C, 0x213F); (0x2145, 0x2149);
    (0x214E, 0x214E); (0x2160, 0x217F); (0x2183, 0x2184); (0x24B6, 0x24E9);
    (0x2C00, 0x2CE4); (0x2CEB, 0x2CEE); (0x2CF2, 0x2CF3); (0x2D00, 0x2D25);
    (0x2D27, 0x2D27); (0x2D2D, 0x2D2D); (0xA640, 0xA66D); (0xA680, 0xA69D);
    (0xA722, 0xA787); (0xA78B, 0xA78E); (0xA790, 0xA7CA); (0xA7D0, 0xA7D1);
    (0xA7D3, 0xA7D3); (0xA7D5, 0xA7D9); (0xA7F5, 0xA7F6); (0xA7F8, 0xA7FA);
    (0xAB30, 0xAB5A); (0xAB5C, 0xAB68); (0xAB70, 0xABBF); (0xFB00, 0xFB06);
    (0xFB13, 0xFB17); (0xFF21, 0xFF3A); (0xFF41, 0xFF5A);
    (0x10400, 0x1044F); (0x104B0, 0x104D3); (0x104D8, 0x104FB);
    (0x10570, 0x1057A); (0x1057C, 0x1058A); (0x1058C, 0x10592);
    (0x10594, 0x10595); (0x10597, 0x105A1); (0x105A3, 0x105B1);
    (0x105B3, 0x105B9); (0x105BB, 0x105BC); (0x10780, 0x10780);
    (0x10783, 0x10785); (0x10787, 0x107B0); (0x107B2, 0x107BA);
    (0x10C80, 0x10CB2); (0x10CC0, 0x10CF2); (0x118A0, 0x118DF);
    (0x16E40, 0x16E7F); (0x1D400, 0x1D454); (0x1D456, 0x1D49C);
    (0x1D49E, 0x1D49F); (0x1D4A2, 0x1D4A2); (0x1D4A5, 0x1D4A6);
    (0x1D4A9, 0x1D4AC); (0x1D4AE, 0x1D4B9); (0x1D4BB, 0x1D4BB);
    (0x1D4BD, 0x1D4C3); (0x1D4C5, 0x1D505); (0x1D507, 0x1D50A);
    (0x1D50D, 0x1D514); (0x1D516, 0x1D51C); (0x1D51E, 0x1D539);
    (0x1D53B, 0x1D53E); (0x1D540, 0x1D544); (0x1D546, 0x1D546);
    (0x1D54A, 0x1D550); (0x1D552, 0x1D6A5); (0x1D6A8, 0x1D6C0);
    (0x1D6C2, 0x1D6DA); (0x1D6DC, 0x1D6FA); (0x1D6FC, 0x1D714);
    (0x1D716, 0x1D734); (0x1D736, 0x1D74E); (0x1D750, 0x1D76E);
    (0x1D770, 0x1D788); (0x1D78A, 0x1D7A8); (0x1D7AA, 0x1D7C2);
    (0x1D7C4, 0x1D7CB); (0x1DF00, 0x1DF09); (0x1DF0B, 0x1DF1E);
    (0x1E900, 0x1E943); (0x1F130, 0x1F149); (0x1F150, 0x1F169);
    (0x1F170, 0x1F189)
  ].

(** The ranges of the characters for which [_PyUnicode_IsCaseIgnorable]
    holds. *)
Definition CASE_IGNORABLE : list (N * N) :=
  [
    (0x27, 0x27); (0x2E, 0x2E); (0x3A, 0x3A); (0x5E, 0x5E); (0x60, 0x60);
    (0xA8, 0xA8); (0xAD, 0xAD); (0xAF, 0xAF); (0xB4, 0xB4); (0xB7, 0xB8);
    (0x2B0, 0x36F); (0x374, 0x375); (0x37A, 0x37A); (0x384, 0x385);
    (0x387, 0x387); (0x483, 0x489); (0x559, 0x559); (0x55F, 0x55F);
    (0x591, 0x5BD); (0x5BF, 0x5BF); (0x5C1, 0x5C2); (0x5C4, 0x5C5);
    (0x5C7, 0x5C7); (0x5F4, 0x5F4); (0x600, 0x605); (0x610, 0x61A);
    (0x61C, 0x61C); (0x640, 0x640); (0x64B, 0x65F); (0x670, 0x670);
    (0x6D6, 0x6DD); (0x6DF, 0x6E8); (0x6EA, 0x6ED); (0x70F, 0x70F);
    (0x711, 0x711); (0x730, 0x74A); (0x7A6, 0x7B0); (0x7EB, 0x7F5);
    (0x7FA, 0x7FA); (0x7FD, 0x7FD); (0x816, 0x82D); (0x859, 0x85B);
    (0x888, 0x888); (0x890, 0x891); (0x898, 0x89F); (0x8C9, 0x902);
    (0x93A, 0x93A); (0x93C, 0x93C); (0x941, 0x948); (0x94D, 0x94D);
    (0x951, 0x957); (0x962, 0x963); (0x971, 0x971); (0x981, 0x981);
    (0x9BC, 0x9BC); (0x9C1, 0x9C4); (0x9CD, 0x9CD); (0x9E2, 0x9E3);
    (0x9FE, 0x9FE); (0xA01, 0xA02); (0xA3C, 0xA3C); (0xA41, 0xA42);
    (0xA47, 0xA48); (0xA4B, 0xA4D); (0xA51, 0xA51); (0xA70, 0xA71);
    (0xA75, 0xA75); (0xA81, 0xA82); (0xABC, 0xABC); (0xAC1, 0xAC5);
    (0xAC7, 0xAC8); (0xACD, 0xACD); (0xAE2, 0xAE3); (0xAFA, 0xAFF);
    (0xB01, 0xB01); (0xB3C, 0xB3C); (0xB3F, 0xB3F); (0xB41, 0xB44);
    (0xB4D, 0xB4D); (0xB55, 0xB56); (0xB62, 0xB63); (0xB82, 0xB82);
    (0xBC0, 0xBC0); (0xBCD, 0xBCD); (0xC00, 0xC00); (0xC04, 0xC04);
    (0xC3C, 0xC3C); (0xC3E, 0xC40); (0xC46, 0xC48); (0xC4A, 0xC4D);
    (0xC55, 0xC56); (0xC62, 0xC63); (0xC81, 0xC81); (0xCBC, 0xCBC);
    (0xCBF, 0xCBF); (0xCC6, 0xCC6); (0xCCC, 0xCCD); (0xCE2, 0xCE3);
    (0xD00, 0xD01); (0xD3B, 0xD3C); (0xD41, 0xD44); (0xD4D, 0xD4D);
    (0xD62, 0xD63); (0xD81, 0xD81); (0xDCA, 0xDCA); (0xDD2, 0xDD4);
    (0xDD6, 0xDD6); (0xE31, 0xE31); (0xE34, 0xE3A); (0xE46, 0xE4E);
    (0xEB1, 0xEB1); (0xEB4, 0xEBC); (0xEC6, 0xEC6); (0xEC8, 0xECD);
    (0xF18, 0xF19); (0xF35, 0xF35); (0xF37, 0xF37); (0xF39, 0xF39);
    (0xF71, 0xF7E); (0xF80, 0xF84); (0xF86, 0xF87); (0xF8D, 0xF97);
    (0xF99, 0xFBC); (0xFC6, 0xFC6); (0x102D, 0x1030); (0x1032, 0x1037);
    (0x1039, 0x103A); (0x103D, 0x103E); (0x1058, 0x1059); (0x105E, 0x1060);
    (0x1071, 0x1074); (0x1082, 0x1082); (0x1085, 0x1086); (0x108D, 0x108D);
    (0x109D, 0x109D); (0x10FC, 0x10FC); (0x135D, 0x135F); (0x1712, 0x1714);
    (0x1732, 0x1733); (0x1752, 0x1753); (0x1772, 0x1773); (0x17B4, 0x17B5);
    (0x17B7, 0x17BD); (0x17C6, 0x17C6); (0x17C9, 0x17D3); (0x17D7, 0x17D7);
    (0x17DD, 0x17DD); (0x180B, 0x180F); (0x1843, 0x1843); (0x1885, 0x1886);
    (0x18A9, 0x18A9); (0x1920, 0x1922); (0x1927, 0x1928); (0x1932, 0x1932);
    (0x1939, 0x193B); (0x1A17, 0x1A18); (0x1A1B, 0x1A1B); (0x1A56, 0x1A56);
    (0x1A58, 0x1A5E); (0x1A60, 0x1A60); (0x1A62, 0x1A62); (0x1A65, 0x1A6C);
    (0x1A73, 0x1A7C); (0x1A7F, 0x1A7F); (0x1AA7, 0x1AA7); (0x1AB0, 0x1ACE);
    (0x1B00, 0x1B03); (0x1B34, 0x1B34); (0x1B36, 0x1B3A); (0x1B3C, 0x1B3C);
    (0x1B42, 0x1B42); (0x1B6B, 0x1B73); (0x1B80, 0x1B81); (0x1BA2, 0x1BA5);
    (0x1BA8, 0x1BA9); (0x1BAB, 0x1BAD); (0x1BE6, 0x1BE6); (0x1BE8, 0x1BE9);
    (0x1BED, 0x1BED); (0x1BEF, 0x1BF1); (0x1C2C, 0x1C33); (0x1C36, 0x1C37);
    (0x1C78, 0x1C7D); (0x1CD0, 0x1CD2); (0x1CD4, 0x1CE0); (0x1CE2, 0x1CE8);
    (0x1CED, 0x1CED); (0x1CF4, 0x1CF4); (0x1CF8, 0x1CF9); (0x1D2C, 0x1D6A);
    (0x1D78, 0x1D78); (0x1D9B, 0x1DFF); (0x1FBD, 0x1FBD); (0x1FBF, 0x1FC1);
    (0x1FCD, 0x1FCF); (0x1FDD, 0x1FDF); (0x1FED, 0x1FEF); (0x1FFD, 0x1FFE);
    (0x200B, 0x200F); (0x2018, 0x2019); (0x2024, 0x2024); (0x2027, 0x2027);
    (0x202A, 0x202E); (0x2060, 0x2064); (0x2066, 0x206F); (0x2071, 0x2071);
    (0x207F, 0x207F); (0x2090, 0x209C); (0x20D0, 0x20F0); (0x2C7C, 0x2C7D);
    (0x2CEF, 0x2CF1); (0x2D6F, 0x2D6F); (0x2D7F, 0x2D7F); (0x2DE0, 0x2DFF);
    (0x2E2F, 0x2E2F); (0x3005, 0x3005); (0x302A, 0x302D); (0x3031, 0x3035);
    (0x303B, 0x303B); (0x3099, 0x309E); (0x30FC, 0x30FE); (0xA015, 0xA015);
    (0xA4F8, 0xA4FD); (0xA60C, 0xA60C); (0xA66F, 0xA672); (0xA674, 0xA67D);
    (0xA67F, 0xA67F); (0xA69C, 0xA69F); (0xA6F0, 0xA6F1); (0xA700, 0xA721);
    (0xA770, 0xA770); (0xA788, 0xA78A); (0xA7F2, 0xA7F4); (0xA7F8, 0xA7F9);
    (0xA802, 0xA802); (0xA806, 0xA806); (0xA80B, 0xA80B); (0xA825, 0xA826);
    (0xA82C, 0xA82C); (0xA8C4, 0xA8C5); (0xA8E0, 0xA8F1); (0xA8FF, 0xA8FF);
    (0xA926, 0xA92D); (0xA947, 0xA951); (0xA980, 0xA982); (0xA9B3, 0xA9B3);
    (0xA9B6, 0xA9B9); (0xA9BC, 0xA9BD); (0xA9CF, 0xA9CF); (0xA9E5, 0xA9E6);
    (0xAA29, 0xAA2E); (0xAA31, 0xAA32); (0xAA35, 0xAA36); (0xAA43, 0xAA43);
    (0xAA4C, 0xAA4C); (0xAA70, 0xAA70); (0xAA7C, 0xAA7C); (0xAAB0, 0xAAB0);
    (0xAAB2, 0xAAB4); (0xAAB7, 0xAAB8); (0xAABE, 0xAABF); (0xAAC1, 0xAAC1);
    (0xAADD, 0xAADD); (0xAAEC, 0xAAED); (0xAAF3, 0xAAF4); (0xAAF6, 0xAAF6);
    (0xAB5B, 0xAB5F); (0xAB69, 0xAB6B); (0xABE5, 0xABE5); (0xABE8, 0xABE8);
    (0xABED, 0xABED); (0xFB1E, 0xFB1E); (0xFBB2, 0xFBC2); (0xFE00, 0xFE0F);
    (0xFE13, 0xFE13); (0xFE20, 0xFE2F); (0xFE52, 0xFE52); (0xFE55, 0xFE55);
    (0xFEFF, 0xFEFF); (0xFF07, 0xFF07); (0xFF0E, 0xFF0E); (0xFF1A, 0xFF1A);
    (0xFF3E, 0xFF3E); (0xFF40, 0xFF40); (0xFF70, 0xFF70); (0xFF9E, 0xFF9F);
    (0xFFE3, 0xFFE3); (0xFFF9, 0xFFFB); (0x101FD, 0x101FD);
    (0x102E0, 0x102E0); (0x10376, 0x1037A); (0x10780, 0x10785);
    (0x10787, 0x107B0); (0x107B2, 0x107BA); (0x10A01, 0x10A03);
    (0x10A05, 0x10A06); (0x10A0C, 0x10A0F); (0x10A38, 0x10A3A);
    (0x10A3F, 0x10A3F); (0x10AE5, 0x10AE6); (0x10D24, 0x10D27);
    (0x10EAB, 0x10EAC); (0x10F46, 0x10F50); (0x10F82, 0x10F85);
    (0x11001, 0x11001); (0x11038, 0x11046); (0x11070, 0x11070);
    (0x11073, 0x11074); (0x1107F, 0x11081); (0x110B3, 0x110B6);
    (0x110B9, 0x110BA); (0x110BD, 0x110BD); (0x110C2, 0x110C2);
    (0x110CD, 0x110CD); (0x11100, 0x11102); (0x11127, 0x1112B);
    (0x1112D, 0x11134); (0x11173, 0x11173); (0x11180, 0x11181);
    (0x111B6, 0x111BE); (0x111C9, 0x111CC); (0x111CF, 0x111CF);
    (0x1122F, 0x11231); (0x11234, 0x11234); (0x11236, 0x11237);
    (0x1123E, 0x1123E); (0x112DF, 0x112DF); (0x112E3, 0x112EA);
    (0x11300, 0x11301); (0x1133B, 0x1133C); (0x11340, 0x11340);
    (0x11366, 0x1136C); (0x11370, 0x11374); (0x11438, 0x1143F);
    (0x11442, 0x11444); (0x11446, 0x11446); (0x1145E, 0x1145E);
    (0x114B3, 0x114B8); (0x114BA, 0x114BA); (0x114BF, 0x114C0);
    (0x114C2, 0x114C3); (0x115B2, 0x115B5); (0x115BC, 0x115BD);
    (0x115BF, 0x115C0); (0x115DC, 0x115DD); (0x11633, 0x1163A);
    (0x1163D, 0x1163D); (0x1163F, 0x11640); (0x116AB, 0x116AB);
    (0x116AD, 0x116AD); (0x116B0, 0x116B5); (0x116B7, 0x116B7);
    (0x1171D, 0x1171F); (0x11722, 0x11725); (0x11727, 0x1172B);
    (0x1182F, 0x11837); (0x11839, 0x1183A); (0x1193B, 0x1193C);
    (0x1193E, 0x1193E); (0x11943, 0x11943); (0x119D4, 0x119D7);
    (0x119DA, 0x119DB); (0x119E0, 0x119E0); (0x11A01, 0x11A0A);
    (0x11A33, 0x11A38); (0x11A3B, 0x11A3E); (0x11A47, 0x11A47);
    (0x11A51, 0x11A56); (0x11A59, 0x11A5B); (0x11A8A, 0x11A96);
    (0x11A98, 0x11A99); (0x11C30, 0x11C36); (0x11C38, 0x11C3D);
    (0x11C3F, 0x11C3F); (0x11C92, 0x11CA7); (0x11CAA, 0x11CB0);
    (0x11CB2, 0x11CB3); (0x11CB5, 0x11CB6); (0x11D31, 0x11D36);
    (0x11D3A, 0x11D3A); (0x11D3C, 0x11D3D); (0x11D3F, 0x11D45);
    (0x11D47, 0x11D47); (0x11D90, 0x11D91); (0x11D95, 0x11D95);
    (0x11D97, 0x11D97); (0x11EF3, 0x11EF4); (0x13430, 0x13438);
    (0x16AF0, 0x16AF4); (0x16B30, 0x16B36); (0x16B40, 0x16B43);
    (0x16F4F, 0x16F4F); (0x16F8F, 0x16F9F); (0x16FE0, 0x16FE1);
    (0x16FE3, 0x16FE4); (0x1AFF0, 0x1AFF3); (0x1AFF5, 0x1AFFB);
    (0x1AFFD, 0x1AFFE); (0x1BC9D, 0x1BC9E); (0x1BCA0, 0x1BCA3);
    (0x1CF00, 0x1CF2D); (0x1CF30, 0x1CF46); (0x1D167, 0x1D169);
    (0x1D173, 0x1D182); (0x1D185, 0x1D18B); (0x1D1AA, 0x1D1AD);
    (0x1D242, 0x1D244); (0x1DA00, 0x1DA36); (0x1DA3B, 0x1DA6C);
    (0x1DA75, 0x1DA75); (0x1DA84, 0x1DA84); (0x1DA9B, 0x1DA9F);
    (0x1DAA1, 0x1DAAF); (0x1E000, 0x1E006); (0x1E008, 0x1E018);
    (0x1E01B, 0x1E021); (0x1E023, 0x1E024); (0x1E026, 0x1E02A);
    (0x1E130, 0x1E13D); (0x1E2AE, 0x1E2AE); (0x1E2EC, 0x1E2EF);
    (0x1E8D0, 0x1E8D6); (0x1E944, 0x1E94B); (0x1F3FB, 0x1F3FF);
    (0xE0001, 0xE0001); (0xE0020, 0xE007F); (0xE0100, 0xE01EF)
  ].

(** The characters whose lowercase form is one other character, with that
    character. *)
Definition TO_LOWER : list (N * N) :=
  [
    (0x41, 0x61); (0x42, 0x62); (0x43, 0x63); (0x44, 0x64); (0x45, 0x65);
    (0x46, 0x66); (0x47, 0x67); (0x48, 0x68); (0x49, 0x69); (0x4A, 0x6A);
    (0x4B, 0x6B); (0x4C, 0x6C); (0x4D, 0x6D); (0x4E, 0x6E); (0x4F, 0x6F);
    (0x50, 0x70); (0x51, 0x71); (0x52, 0x72); (0x53, 0x73); (0x54, 0x74);
    (0x55, 0x75); (0x56, 0x76); (0x57, 0x77); (0x58, 0x78); (0x59, 0x79);
    (0x5A, 0x7A); (0xC0, 0xE0); (0xC1, 0xE1); (0xC2, 0xE2); (0xC3, 0xE3);
    (0xC4, 0xE4); (0xC5, 0xE5); (0xC6, 0xE6); (0xC7, 0xE7); (0xC8, 0xE8);
    (0xC9, 0xE9); (0xCA, 0xEA); (0xCB, 0xEB); (0xCC, 0xEC); (0xCD, 0xED);
    (0xCE, 0xEE); (0xCF, 0xEF); (0xD0, 0xF0); (0xD1, 0xF1); (0xD2, 0xF2);
    (0xD3, 0xF3); (0xD4, 0xF4); (0xD5, 0xF5); (0xD6, 0xF6); (0xD8, 0xF8);
    (0xD9, 0xF9); (0xDA, 0xFA); (0xDB, 0xFB); (0xDC, 0xFC); (0xDD, 0xFD);
    (0xDE, 0xFE); (0x100, 0x101); (0x102, 0x103); (0x104, 0x105);
    (0x106, 0x107); (0x108, 0x109); (0x10A, 0x10B); (0x10C, 0x10D);
    (0x10E, 0x10F); (0x110, 0x111); (0x112, 0x113); (0x114, 0x115);
    (0x116, 0x117); (0x118, 0x119); (0x11A, 0x11B); (0x11C, 0x11D);
    (0x11E, 0x11F); (0x120, 0x121); (0x122, 0x123); (0x124, 0x125);
    (0x126, 0x127); (0x128, 0x129); (0x12A, 0x12B); (0x12C, 0x12D);
    (0x12E, 0x12F); (0x132, 0x133); (0x134, 0x135); (0x136, 0x137);
    (0x139, 0x13A); (0x13B, 0x13C); (0x13D, 0x13E); (0x13F, 0x140);
    (0x141, 0x142); (0x143, 0x144); (0x145, 0x146); (0x147, 0x148);
    (0x14A, 0x14B); (0x14C, 0x14D); (0x14E, 0x14F); (0x150, 0x151);
    (0x152, 0x153); (0x154, 0x155); (0x156, 0x157); (0x158, 0x159);
    (0x15A, 0x15B); (0x15C, 0x15D); (0x15E, 0x15F); (0x160, 0x161);
    (0x162, 0x163); (0x164, 0x165); (0x166, 0x167); (0x168, 0x169);
    (0x16A, 0x16B); (0x16C, 0x16D); (0x16E, 0x16F); (0x170, 0x171);
    (0x172, 0x173); (0x174, 0x175); (0x176, 0x177); (0x178, 0xFF);
    (0x179, 0x17A); (0x17B, 0x17C); (0x17D, 0x17E); (0x181, 0x253);
    (0x182, 0x183); (0x184, 0x185); (0x186, 0x254); (0x187, 0x188);
    (0x189, 0x256); (0x18A, 0x257); (0x18B, 0x18C); (0x18E, 0x1DD);
    (0x18F, 0x259); (0x190, 0x25B); (0x191, 0x192); (0x193, 0x260);
    (0x194, 0x263); (0x196, 0x269); (0x197, 0x268); (0x198, 0x199);
    (0x19C, 0x26F); (0x19D, 0x272); (0x19F, 0x275); (0x1A0, 0x1A1);
    (0x1A2, 0x1A3); (0x1A4, 0x1A5); (0x1A6, 0x280); (0x1A7, 0x1A8);
    (0x1A9, 0x283); (0x1AC, 0x1AD); (0x1AE, 0x288); (0x1AF, 0x1B0);
    (0x1B1, 0x28A); (0x1B2, 0x28B); (0x1B3, 0x1B4); (0x1B5, 0x1B6);
    (0x1B7, 0x292); (0x1B8, 0x1B9); (0x1BC, 0x1BD); (0x1C4, 0x1C6);
    (0x1C5, 0x1C6); (0x1C7, 0x1C9); (0x1C8, 0x1C9); (0x1CA, 0x1CC);
    (0x1CB, 0x1CC); (0x1CD, 0x1CE); (0x1CF, 0x1D0); (0x1D1, 0x1D2);
    (0x1D3, 0x1D4); (0x1D5, 0x1D6); (0x1D7, 0x1D8); (0x1D9, 0x1DA);
    (0x1DB, 0x1DC); (0x1DE, 0x1DF); (0x1E0, 0x1E1); (0x1E2, 0x1E3);
    (0x1E4, 0x1E5); (0x1E6, 0x1E7); (0x1E8, 0x1E9); (0x1EA, 0x1EB);
    (0x1EC, 0x1ED); (0x1EE, 0x1EF); (0x1F1, 0x1F3); (0x1F2, 0x1F3);
    (0x1F4, 0x1F5); (0x1F6, 0x195); (0x1F7, 0x1BF); (0x1F8, 0x1F9);
    (0x1FA, 0x1FB); (0x1FC, 0x1FD); (0x1FE, 0x1FF); (0x200, 0x201);
    (0x202, 0x203); (0x204, 0x205); (0x206, 0x207); (0x208, 0x209);
    (0x20A, 0x20B); (0x20C, 0x20D); (0x20E, 0x20F); (0x210, 0x211);
    (0x212, 0x213); (0x214, 0x215); (0x216, 0x217); (0x218, 0x219);
    (0x21A, 0x21B); (0x21C, 0x21D); (0x21E, 0x21F); (0x220, 0x19E);
    (0x222, 0x223); (0x224, 0x225); (0x226, 0x227); (0x228, 0x229);
    (0x22A, 0x22B); (0x22C, 0x22D); (0x22E, 0x22F); (0x230, 0x231);
    (0x232, 0x233); (0x23A, 0x2C65); (0x23B, 0x23C); (0x23D, 0x19A);
    (0x23E, 0x2C66); (0x241, 0x242); (0x243, 0x180); (0x244, 0x289);
    (0x245, 0x28C); (0x246, 0x247); (0x248, 0x249); (0x24A, 0x24B);
    (0x24C, 0x24D); (0x24E, 0x24F); (0x370, 0x371); (0x372, 0x373);
    (0x376, 0x377); (0x37F, 0x3F3); (0x386, 0x3AC); (0x388, 0x3AD);
    (0x389, 0x3AE); (0x38A, 0x3AF); (0x38C, 0x3CC); (0x38E, 0x3CD);
    (0x38F, 0x3CE); (0x391, 0x3B1); (0x392, 0x3B2); (0x393, 0x3B3);
    (0x394, 0x3B4); (0x395, 0x3B5); (0x396, 0x3B6); (0x397, 0x3B7);
    (0x398, 0x3B8); (0x399, 0x3B9); (0x39A, 0x3BA); (0x39B, 0x3BB);
    (0x39C, 0x3BC); (0x39D, 0x3BD); (0x39E, 0x3BE); (0x39F, 0x3BF);
    (0x3A0, 0x3C0); (0x3A1, 0x3C1); (0x3A3, 0x3C3); (0x3A4, 0x3C4);
    (0x3A5, 0x3C5); (0x3A6, 0x3C6); (0x3A7, 0x3C7); (0x3A8, 0x3C8);
    (0x3A9, 0x3C9); (0x3AA, 0x3CA); (0x3AB, 0x3CB); (0x3CF, 0x3D7);
    (0x3D8, 0x3D9); (0x3DA, 0x3DB); (0x3DC, 0x3DD); (0x3DE, 0x3DF);
    (0x3E0, 0x3E1); (0x3E2, 0x3E3); (0x3E4, 0x3E5); (0x3E6, 0x3E7);
    (0x3E8, 0x3E9); (0x3EA, 0x3EB); (0x3EC, 0x3ED); (0x3EE, 0x3EF);
    (0x3F4, 0x3B8); (0x3F7, 0x3F8); (0x3F9, 0x3F2); (0x3FA, 0x3FB);
    (0x3FD, 0x37B); (0x3FE, 0x37C); (0x3FF, 0x37D); (0x400, 0x450);
    (0x401, 0x451); (0x402, 0x452); (0x403, 0x453); (0x404, 0x454);
    (0x405, 0x455); (0x406, 0x456); (0x407, 0x457); (0x408, 0x458);
    (0x409, 0x459); (0x40A, 0x45A); (0x40B, 0x45B); (0x40C, 0x45C);
    (0x40D, 0x45D); (0x40E, 0x45E); (0x40F, 0x45F); (0x410, 0x430);
    (0x411, 0x431); (0x412, 0x432); (0x413, 0x433); (0x414, 0x434);
    (0x415, 0x435); (0x416, 0x436); (0x417, 0x437); (0x418, 0x438);
    (0x419, 0x439); (0x41A, 0x43A); (0x41B, 0x43B); (0x41C, 0x43C);
    (0x41D, 0x43D); (0x41E, 0x43E); (0x41F, 0x43F); (0x420, 0x440);
    (0x421, 0x441); (0x422, 0x442); (0x423, 0x443); (0x424, 0x444);
    (0x425, 0x445); (0x426, 0x446); (0x427, 0x447); (0x428, 0x448);
    (0x429, 0x449); (0x42A, 0x44A); (0x42B, 0x44B); (0x42C, 0x44C);
    (0x42D, 0x44D); (0x42E, 0x44E); (0x42F, 0x44F); (0x460, 0x461);
    (0x462, 0x463); (0x464, 0x465); (0x466, 0x467); (0x468, 0x469);
    (0x46A, 0x46B); (0x46C, 0x46D); (0x46E, 0x46F); (0x470, 0x471);
    (0x472, 0x473); (0x474, 0x475); (0x476, 0x477); (0x478, 0x479);
    (0x47A, 0x47B); (0x47C, 0x47D); (0x47E, 0x47F); (0x480, 0x481);
    (0x48A, 0x48B); (0x48C, 0x48D); (0x48E, 0x48F); (0x490, 0x491);
    (0x492, 0x493); (0x494, 0x495); (0x496, 0x497); (0x498, 0x499);
    (0x49A, 0x49B); (0x49C, 0x49D); (0x49E, 0x49F); (0x4A0, 0x4A1);
    (0x4A2, 0x4A3); (0x4A4, 0x4A5); (0x4A6, 0x4A7); (0x4A8, 0x4A9);
    (0x4AA, 0x4AB); (0x4AC, 0x4AD); (0x4AE, 0x4AF); (0x4B0, 0x4B1);
    (0x4B2, 0x4B3); (0x4B4, 0x4B5); (0x4B6, 0x4B7); (0x4B8, 0x4B9);
    (0x4BA, 0x4BB); (0x4BC, 0x4BD); (0x4BE, 0x4BF); (0x4C0, 0x4CF);
    (0x4C1, 0x4C2); (0x4C3, 0x4C4); (0x4C5, 0x4C6); (0x4C7, 0x4C8);
    (0x4C9, 0x4CA); (0x4CB, 0x4CC); (0x4CD, 0x4CE); (0x4D0, 0x4D1);
    (0x4D2, 0x4D3); (0x4D4, 0x4D5); (0x4D6, 0x4D7); (0x4D8, 0x4D9);
    (0x4DA, 0x4DB); (0x4DC, 0x4DD); (0x4DE, 0x4DF); (0x4E0, 0x4E1);
    (0x4E2, 0x4E3); (0x4E4, 0x4E5); (0x4E6, 0x4E7); (0x4E8, 0x4E9);
    (0x4EA, 0x4EB); (0x4EC, 0x4ED); (0x4EE, 0x4EF); (0x4F0, 0x4F1);
    (0x4F2, 0x4F3); (0x4F4, 0x4F5); (0x4F6, 0x4F7); (0x4F8, 0x4F9);
    (0x4FA, 0x4FB); (0x4FC, 0x4FD); (0x4FE, 0x4FF); (0x500, 0x501);
    (0x502, 0x503); (0x504, 0x505); (0x506, 0x507); (0x508, 0x509);
    (0x50A, 0x50B); (0x50C, 0x50D); (0x50E, 0x50F); (0x510, 0x511);
    (0x512, 0x513); (0x514, 0x515); (0x516, 0x517); (0x518, 0x519);
    (0x51A, 0x51B); (0x51C, 0x51D); (0x51E, 0x51F); (0x520, 0x521);
    (0x522, 0x523); (0x524, 0x525); (0x526, 0x527); (0x528, 0x529);
    (0x52A, 0x52B); (0x52C, 0x52D); (0x52E, 0x52F); (0x531, 0x561);
    (0x532, 0x562); (0x533, 0x563); (0x534, 0x564); (0x535, 0x565);
    (0x536, 0x566); (0x537, 0x567); (0x538, 0x568); (0x539, 0x569);
    (0x53A, 0x56A); (0x53B, 0x56B); (0x53C, 0x56C); (0x53D, 0x56D);
    (0x53E, 0x56E); (0x53F, 0x56F); (0x540, 0x570); (0x541, 0x571);
    (0x542, 0x572); (0x543, 0x573); (0x544, 0x574); (0x545, 0x575);
    (0x546, 0x576); (0x547, 0x577); (0x548, 0x578); (0x549, 0x579);
    (0x54A, 0x57A); (0x54B, 0x57B); (0x54C, 0x57C); (0x54D, 0x57D);
    (0x54E, 0x57E); (0x54F, 0x57F); (0x550, 0x580); (0x551, 0x581);
    (0x552, 0x582); (0x553, 0x583); (0x554, 0x584); (0x555, 0x585);
    (0x556, 0x586); (0x10A0, 0x2D00); (0x10A1, 0x2D01); (0x10A2, 0x2D02);
    (0x10A3, 0x2D03); (0x10A4, 0x2D04); (0x10A5, 0x2D05); (0x10A6, 0x2D06);
    (0x10A7, 0x2D07); (0x10A8, 0x2D08); (0x10A9, 0x2D09); (0x10AA, 0x2D0A);
    (0x10AB, 0x2D0B); (0x10AC, 0x2D0C); (0x10AD, 0x2D0D); (0x10AE, 0x2D0E);
    (0x10AF, 0x2D0F); (0x10B0, 0x2D10); (0x10B1, 0x2D11); (0x10B2, 0x2D12);
    (0x10B3, 0x2D13); (0x10B4, 0x2D14); (0x10B5, 0x2D15); (0x10B6, 0x2D16);
    (0x10B7, 0x2D17); (0x10B8, 0x2D18); (0x10B9, 0x2D19); (0x10BA, 0x2D1A);
    (0x10BB, 0x2D1B); (0x10BC, 0x2D1C); (0x10BD, 0x2D1D); (0x10BE, 0x2D1E);
    (0x10BF, 0x2D1F); (0x10C0, 0x2D20); (0x10C1, 0x2D21); (0x10C2, 0x2D22);
    (0x10C3, 0x2D23); (0x10C4, 0x2D24); (0x10C5, 0x2D25); (0x10C7, 0x2D27);
    (0x10CD, 0x2D2D); (0x13A0, 0xAB70); (0x13A1, 0xAB71); (0x13A2, 0xAB72);
    (0x13A3, 0xAB73); (0x13A4, 0xAB74); (0x13A5, 0xAB75); (0x13A6, 0xAB76);
    (0x13A7, 0xAB77); (0x13A8, 0xAB78); (0x13A9, 0xAB79); (0x13AA, 0xAB7A);
    (0x13AB, 0xAB7B); (0x13AC, 0xAB7C); (0x13AD, 0xAB7D); (0x13AE, 0xAB7E);
    (0x13AF, 0xAB7F); (0x13B0, 0xAB80); (0x13B1, 0xAB81); (0x13B2, 0xAB82);
    (0x13B3, 0xAB83); (0x13B4, 0xAB84); (0x13B5, 0xAB85); (0x13B6, 0xAB86);
    (0x13B7, 0xAB87); (0x13B8, 0xAB88); (0x13B9, 0xAB89); (0x13BA, 0xAB8A);
    (0x13BB, 0xAB8B); (0x13BC, 0xAB8C); (0x13BD, 0xAB8D); (0x13BE, 0xAB8E);
    (0x13BF, 0xAB8F); (0x13C0, 0xAB90); (0x13C1, 0xAB91); (0x13C2, 0xAB92);
    (0x13C3, 0xAB93); (0x13C4, 0xAB94); (0x13C5, 0xAB95); (0x13C6, 0xAB96);
    (0x13C7, 0xAB97); (0x13C8, 0xAB98); (0x13C9, 0xAB99); (0x13CA, 0xAB9A);
    (0x13CB, 0xAB9B); (0x13CC, 0xAB9C); (0x13CD, 0xAB9D); (0x13CE, 0xAB9E);
    (0x13CF, 0xAB9F); (0x13D0, 0xABA0); (0x13D1, 0xABA1); (0x13D2, 0xABA2);
    (0x13D3, 0xABA3); (0x13D4, 0xABA4); (0x13D5, 0xABA5); (0x13D6, 0xABA6);
    (0x13D7, 0xABA7); (0x13D8, 0xABA8); (0x13D9, 0xABA9); (0x13DA, 0xABAA);
    (0x13DB, 0xABAB); (0x13DC, 0xABAC); (0x13DD, 0xABAD); (0x13DE, 0xABAE);
    (0x13DF, 0xABAF); (0x13E0, 0xABB0); (0x13E1, 0xABB1); (0x13E2, 0xABB2);
    (0x13E3, 0xABB3); (0x13E4, 0xABB4); (0x13E5, 0xABB5); (0x13E6, 0xABB6);
    (0x13E7, 0xABB7); (0x13E8, 0xABB8); (0x13E9, 0xABB9); (0x13EA, 0xABBA);
    (0x13EB, 0xABBB); (0x13EC, 0xABBC); (0x13ED, 0xABBD); (0x13EE, 0xABBE);
    (0x13EF, 0xABBF); (0x13F0, 0x13F8); (0x13F1, 0x13F9); (0x13F2, 0x13FA);
    (0x13F3, 0x13FB); (0x13F4, 0x13FC); (0x13F5, 0x13FD); (0x1C90, 0x10D0);
    (0x1C91, 0x10D1); (0x1C92, 0x10D2); (0x1C93, 0x10D3); (0x1C94, 0x10D4);
    (0x1C95, 0x10D5); (0x1C96, 0x10D6); (0x1C97, 0x10D7); (0x1C98, 0x10D8);
    (0x1C99, 0x10D9); (0x1C9A, 0x10DA); (0x1C9B, 0x10DB); (0x1C9C, 0x10DC);
    (0x1C9D, 0x10DD); (0x1C9E, 0x10DE); (0x1C9F, 0x10DF); (0x1CA0, 0x10E0);
    (0x1CA1, 0x10E1); (0x1CA2, 0x10E2); (0x1CA3, 0x10E3); (0x1CA4, 0x10E4);
    (0x1CA5, 0x10E5); (0x1CA6, 0x10E6); (0x1CA7, 0x10E7); (0x1CA8, 0x10E8);
    (0x1CA9, 0x10E9); (0x1CAA, 0x10EA); (0x1CAB, 0x10EB); (0x1CAC, 0x10EC);
    (0x1CAD, 0x10ED); (0x1CAE, 0x10EE); (0x1CAF, 0x10EF); (0x1CB0, 0x10F0);
    (0x1CB1, 0x10F1); (0x1CB2, 0x10F2); (0x1CB3, 0x10F3); (0x1CB4, 0x10F4);
    (0x1CB5, 0x10F5); (0x1CB6, 0x10F6); (0x1CB7, 0x10F7); (0x1CB8, 0x10F8);
    (0x1CB9, 0x10F9); (0x1CBA, 0x10FA); (0x1CBD, 0x10FD); (0x1CBE, 0x10FE);
    (0x1CBF, 0x10FF); (0x1E00, 0x1E01); (0x1E02, 0x1E03); (0x1E04, 0x1E05);
    (0x1E06, 0x1E07); (0x1E08, 0x1E09); (0x1E0A, 0x1E0B); (0x1E0C, 0x1E0D);
    (0x1E0E, 0x1E0F); (0x1E10, 0x1E11); (0x1E12, 0x1E13); (0x1E14, 0x1E15);
    (0x1E16, 0x1E17); (0x1E18, 0x1E19); (0x1E1A, 0x1E1B); (0x1E1C, 0x1E1D);
    (0x1E1E, 0x1E1F); (0x1E20, 0x1E21); (0x1E22, 0x1E23); (0x1E24, 0x1E25);
    (0x1E26, 0x1E27); (0x1E28, 0x1E29); (0x1E2A, 0x1E2B); (0x1E2C, 0x1E2D);
    (0x1E2E, 0x1E2F); (0x1E30, 0x1E31); (0x1E32, 0x1E33); (0x1E34, 0x1E35);
    (0x1E36, 0x1E37); (0x1E38, 0x1E39); (0x1E3A, 0x1E3B); (0x1E3C, 0x1E3D);
    (0x1E3E, 0x1E3F); (0x1E40, 0x1E41); (0x1E42, 0x1E43); (0x1E44, 0x1E45);
    (0x1E46, 0x1E47); (0x1E48, 0x1E49); (0x1E4A, 0x1E4B); (0x1E4C, 0x1E4D);
    (0x1E4E, 0x1E4F); (0x1E50, 0x1E51); (0x1E52, 0x1E53); (0x1E54, 0x1E55);
    (0x1E56, 0x1E57); (0x1E58, 0x1E59); (0x1E5A, 0x1E5B); (0x1E5C, 0x1E5D);
    (0x1E5E, 0x1E5F); (0x1E60, 0x1E61); (0x1E62, 0x1E63); (0x1E64, 0x1E65);
    (0x1E66, 0x1E67); (0x1E68, 0x1E69); (0x1E6A, 0x1E6B); (0x1E6C, 0x1E6D);
    (0x1E6E, 0x1E6F); (0x1E70, 0x1E71); (0x1E72, 0x1E73); (0x1E74, 0x1E75);
    (0x1E76, 0x1E77); (0x1E78, 0x1E79); (0x1E7A, 0x1E7B); (0x1E7C, 0x1E7D);
    (0x1E7E, 0x1E7F); (0x1E80, 0x1E81); (0x1E82, 0x1E83); (0x1E84, 0x1E85);
    (0x1E86, 0x1E87); (0x1E88, 0x1E89); (0x1E8A, 0x1E8B); (0x1E8C, 0x1E8D);
    (0x1E8E, 0x1E8F); (0x1E90, 0x1E91); (0x1E92, 0x1E93); (0x1E94, 0x1E95);
    (0x1E9E, 0xDF); (0x1EA0, 0x1EA1); (0x1EA2, 0x1EA3); (0x1EA4, 0x1EA5);
    (0x1EA6, 0x1EA7); (0x1EA8, 0x1EA9); (0x1EAA, 0x1EAB); (0x1EAC, 0x1EAD);
    (0x1EAE, 0x1EAF); (0x1EB0, 0x1EB1); (0x1EB2, 0x1EB3); (0x1EB4, 0x1EB5);
    (0x1EB6, 0x1EB7); (0x1EB8, 0x1EB9); (0x1EBA, 0x1EBB); (0x1EBC, 0x1EBD);
    (0x1EBE, 0x1EBF); (0x1EC0, 0x1EC1); (0x1EC2, 0x1EC3); (0x1EC4, 0x1EC5);
    (0x1EC6, 0x1EC7); (0x1EC8, 0x1EC9); (0x1ECA, 0x1ECB); (0x1ECC, 0x1ECD);
    (0x1ECE, 0x1ECF); (0x1ED0, 0x1ED1); (0x1ED2, 0x1ED3); (0x1ED4, 0x1ED5);
    (0x1ED6, 0x1ED7); (0x1ED8, 0x1ED9); (0x1EDA, 0x1EDB); (0x1EDC, 0x1EDD);
    (0x1EDE, 0x1EDF); (0x1EE0, 0x1EE1); (0x1EE2, 0x1EE3); (0x1EE4, 0x1EE5);
    (0x1EE6, 0x1EE7); (0x1EE8, 0x1EE9); (0x1EEA, 0x1EEB); (0x1EEC, 0x1EED);
    (0x1EEE, 0x1EEF); (0x1EF0, 0x1EF1); (0x1EF2, 0x1EF3); (0x1EF4, 0x1EF5);
    (0x1EF6, 0x1EF7); (0x1EF8, 0x1EF9); (0x1EFA, 0x1EFB); (0x1EFC, 0x1EFD);
    (0x1EFE, 0x1EFF); (0x1F08, 0x1F00); (0x1F09, 0x1F01); (0x1F0A, 0x1F02);
    (0x1F0B, 0x1F03); (0x1F0C, 0x1F04); (0x1F0D, 0x1F05); (0x1F0E, 0x1F06);
    (0x1F0F, 0x1F07); (0x1F18, 0x1F10); (0x1F19, 0x1F11); (0x1F1A, 0x1F12);
    (0x1F1B, 0x1F13); (0x1F1C, 0x1F14); (0x1F1D, 0x1F15); (0x1F28, 0x1F20);
    (0x1F29, 0x1F21); (0x1F2A, 0x1F22); (0x1F2B, 0x1F23); (0x1F2C, 0x1F24);
    (0x1F2D, 0x1F25); (0x1F2E, 0x1F26); (0x1F2F, 0x1F27); (0x1F38, 0x1F30);
    (0x1F39, 0x1F31); (0x1F3A, 0x1F32); (0x1F3B, 0x1F33); (0x1F3C, 0x1F34);
    (0x1F3D, 0x1F35); (0x1F3E, 0x1F36); (0x1F3F, 0x1F37); (0x1F48, 0x1F40);
    (0x1F49, 0x1F41); (0x1F4A, 0x1F42); (0x1F4B, 0x1F43); (0x1F4C, 0x1F44);
    (0x1F4D, 0x1F45); (0x1F59, 0x1F51); (0x1F5B, 0x1F53); (0x1F5D, 0x1F55);
    (0x1F5F, 0x1F57); (0x1F68, 0x1F60); (0x1F69, 0x1F61); (0x1F6A, 0x1F62);
    (0x1F6B, 0x1F63); (0x1F6C, 0x1F64); (0x1F6D, 0x1F65); (0x1F6E, 0x1F66);
    (0x1F6F, 0x1F67); (0x1F88, 0x1F80); (0x1F89, 0x1F81); (0x1F8A, 0x1F82);
    (0x1F8B, 0x1F83); (0x1F8C, 0x1F84); (0x1F8D, 0x1F85); (0x1F8E, 0x1F86);
    (0x1F8F, 0x1F87); (0x1F98, 0x1F90); (0x1F99, 0x1F91); (0x1F9A, 0x1F92);
    (0x1F9B, 0x1F93); (0x1F9C, 0x1F94); (0x1F9D, 0x1F95); (0x1F9E, 0x1F96);
    (0x1F9F, 0x1F97); (0x1FA8, 0x1FA0); (0x1FA9, 0x1FA1); (0x1FAA, 0x1FA2);
    (0x1FAB, 0x1FA3); (0x1FAC, 0x1FA4); (0x1FAD, 0x1FA5); (0x1FAE, 0x1FA6);
    (0x1FAF, 0x1FA7); (0x1FB8, 0x1FB0); (0x1FB9, 0x1FB1); (0x1FBA, 0x1F70);
    (0x1FBB, 0x1F71); (0x1FBC, 0x1FB3); (0x1FC8, 0x1F72); (0x1FC9, 0x1F73);
    (0x1FCA, 0x1F74); (0x1FCB, 0x1F75); (0x1FCC, 0x1FC3); (0x1FD8, 0x1FD0);
    (0x1FD9, 0x1FD1); (0x1FDA, 0x1F76); (0x1FDB, 0x1F77); (0x1FE8, 0x1FE0);
    (0x1FE9, 0x1FE1); (0x1FEA, 0x1F7A); (0x1FEB, 0x1F7B); (0x1FEC, 0x1FE5);
    (0x1FF8, 0x1F78); (0x1FF9, 0x1F79); (0x1FFA, 0x1F7C); (0x1FFB, 0x1F7D);
    (0x1FFC, 0x1FF3); (0x2126, 0x3C9); (0x212A, 0x6B); (0x212B, 0xE5);
    (0x2132, 0x214E); (0x2160, 0x2170); (0x2161, 0x2171); (0x2162, 0x2172);
    (0x2163, 0x2173); (0x2164, 0x2174); (0x2165, 0x2175); (0x2166, 0x2176);
    (0x2167, 0x2177); (0x2168, 0x2178); (0x2169, 0x2179); (0x216A, 0x217A);
    (0x216B, 0x217B); (0x216C, 0x217C); (0x216D, 0x217D); (0x216E, 0x217E);
    (0x216F, 0x217F); (0x2183, 0x2184); (0x24B6, 0x24D0); (0x24B7, 0x24D1);
    (0x24B8, 0x24D2); (0x24B9, 0x24D3); (0x24BA, 0x24D4); (0x24BB, 0x24D5);
    (0x24BC, 0x24D6); (0x24BD, 0x24D7); (0x24BE, 0x24D8); (0x24BF, 0x24D9);
    (0x24C0, 0x24DA); (0x24C1, 0x24DB); (0x24C2, 0x24DC); (0x24C3, 0x24DD);
    (0x24C4, 0x24DE); (0x24C5, 0x24DF); (0x24C6, 0x24E0); (0x24C7, 0x24E1);
    (0x24C8, 0x24E2); (0x24C9, 0x24E3); (0x24CA, 0x24E4); (0x24CB, 0x24E5);
    (0x24CC, 0x24E6); (0x24CD, 0x24E7); (0x24CE, 0x24E8); (0x24CF, 0x24E9);
    (0x2C00, 0x2C30); (0x2C01, 0x2C31); (0x2C02, 0x2C32); (0x2C03, 0x2C33);
    (0x2C04, 0x2C34); (0x2C05, 0x2C35); (0x2C06, 0x2C36); (0x2C07, 0x2C37);
    (0x2C08, 0x2C38); (0x2C09, 0x2C39); (0x2C0A, 0x2C3A); (0x2C0B, 0x2C3B);
    (0x2C0C, 0x2C3C); (0x2C0D, 0x2C3D); (0x2C0E, 0x2C3E); (0x2C0F, 0x2C3F);
    (0x2C10, 0x2C40); (0x2C11, 0x2C41); (0x2C12, 0x2C42); (0x2C13, 0x2C43);
    (0x2C14, 0x2C44); (0x2C15, 0x2C45); (0x2C16, 0x2C46); (0x2C17, 0x2C47);
    (0x2C18, 0x2C48); (0x2C19, 0x2C49); (0x2C1A, 0x2C4A); (0x2C1B, 0x2C4B);
    (0x2C1C, 0x2C4C); (0x2C1D, 0x2C4D); (0x2C1E, 0x2C4E); (0x2C1F, 0x2C4F);
    (0x2C20, 0x2C50); (0x2C21, 0x2C51); (0x2C22, 0x2C52); (0x2C23, 0x2C53);
    (0x2C24, 0x2C54); (0x2C25, 0x2C55); (0x2C26, 0x2C56); (0x2C27, 0x2C57);
    (0x2C28, 0x2C58); (0x2C29, 0x2C59); (0x2C2A, 0x2C5A); (0x2C2B, 0x2C5B);
    (0x2C2C, 0x2C5C); (0x2C2D, 0x2C5D); (0x2C2E, 0x2C5E); (0x2C2F, 0x2C5F);
    (0x2C60, 0x2C61); (0x2C62, 0x26B); (0x2C63, 0x1D7D); (0x2C64, 0x27D);
    (0x2C67, 0x2C68); (0x2C69, 0x2C6A); (0x2C6B, 0x2C6C); (0x2C6D, 0x251);
    (0x2C6E, 0x271); (0x2C6F, 0x250); (0x2C70, 0x252); (0x2C72, 0x2C73);
    (0x2C75, 0x2C76); (0x2C7E, 0x23F); (0x2C7F, 0x240); (0x2C80, 0x2C81);
    (0x2C82, 0x2C83); (0x2C84, 0x2C85); (0x2C86, 0x2C87); (0x2C88, 0x2C89);
    (0x2C8A, 0x2C8B); (0x2C8C, 0x2C8D); (0x2C8E, 0x2C8F); (0x2C90, 0x2C91);
    (0x2C92, 0x2C93); (0x2C94, 0x2C95); (0x2C96, 0x2C97); (0x2C98, 0x2C99);
    (0x2C9A, 0x2C9B); (0x2C9C, 0x2C9D); (0x2C9E, 0x2C9F); (0x2CA0, 0x2CA1);
    (0x2CA2, 0x2CA3); (0x2CA4, 0x2CA5); (0x2CA6, 0x2CA7); (0x2CA8, 0x2CA9);
    (0x2CAA, 0x2CAB); (0x2CAC, 0x2CAD); (0x2CAE, 0x2CAF); (0x2CB0, 0x2CB1);
    (0x2CB2, 0x2CB3); (0x2CB4, 0x2CB5); (0x2CB6, 0x2CB7); (0x2CB8, 0x2CB9);
    (0x2CBA, 0x2CBB); (0x2CBC, 0x2CBD); (0x2CBE, 0x2CBF); (0x2CC0, 0x2CC1);
    (0x2CC2, 0x2CC3); (0x2CC4, 0x2CC5); (0x2CC6, 0x2CC7); (0x2CC8, 0x2CC9);
    (0x2CCA, 0x2CCB); (0x2CCC, 0x2CCD); (0x2CCE, 0x2CCF); (0x2CD0, 0x2CD1);
    (0x2CD2, 0x2CD3); (0x2CD4, 0x2CD5); (0x2CD6, 0x2CD7); (0x2CD8, 0x2CD9);
    (0x2CDA, 0x2CDB); (0x2CDC, 0x2CDD); (0x2CDE, 0x2CDF); (0x2CE0, 0x2CE1);
    (0x2CE2, 0x2CE3); (0x2CEB, 0x2CEC); (0x2CED, 0x2CEE); (0x2CF2, 0x2CF3);
    (0xA640, 0xA641); (0xA642, 0xA643); (0xA644, 0xA645); (0xA646, 0xA647);
    (0xA648, 0xA649); (0xA64A, 0xA64B); (0xA64C, 0xA64D); (0xA64E, 0xA64F);
    (0xA650, 0xA651); (0xA652, 0xA653); (0xA654, 0xA655); (0xA656, 0xA657);
    (0xA658, 0xA659); (0xA65A, 0xA65B); (0xA65C, 0xA65D); (0xA65E, 0xA65F);
    (0xA660, 0xA661); (0xA662, 0xA663); (0xA664, 0xA665); (0xA666, 0xA667);
    (0xA668, 0xA669); (0xA66A, 0xA66B); (0xA66C, 0xA66D); (0xA680, 0xA681);
    (0xA682, 0xA683); (0xA684, 0xA685); (0xA686, 0xA687); (0xA688, 0xA689);
    (0xA68A, 0xA68B); (0xA68C, 0xA68D); (0xA68E, 0xA68F); (0xA690, 0xA691);
    (0xA692, 0xA693); (0xA694, 0xA695); (0xA696, 0xA697); (0xA698, 0xA699);
    (0xA69A, 0xA69B); (0xA722, 0xA723); (0xA724, 0xA725); (0xA726, 0xA727);
    (0xA728, 0xA729); (0xA72A, 0xA72B); (0xA72C, 0xA72D); (0xA72E, 0xA72F);
    (0xA732, 0xA733); (0xA734, 0xA735); (0xA736, 0xA737); (0xA738, 0xA739);
    (0xA73A, 0xA73B); (0xA73C, 0xA73D); (0xA73E, 0xA73F); (0xA740, 0xA741);
    (0xA742, 0xA743); (0xA744, 0xA745); (0xA746, 0xA747); (0xA748, 0xA749);
    (0xA74A, 0xA74B); (0xA74C, 0xA74D); (0xA74E, 0xA74F); (0xA750, 0xA751);
    (0xA752, 0xA753); (0xA754, 0xA755); (0xA756, 0xA757); (0xA758, 0xA759);
    (0xA75A, 0xA75B); (0xA75C, 0xA75D); (0xA75E, 0xA75F); (0xA760, 0xA761);
    (0xA762, 0xA763); (0xA764, 0xA765); (0xA766, 0xA767); (0xA768, 0xA769);
    (0xA76A, 0xA76B); (0xA76C, 0xA76D); (0xA76E, 0xA76F); (0xA779, 0xA77A);
    (0xA77B, 0xA77C); (0xA77D, 0x1D79); (0xA77E, 0xA77F); (0xA780, 0xA781);
    (0xA782, 0xA783); (0xA784, 0xA785); (0xA786, 0xA787); (0xA78B, 0xA78C);
    (0xA78D, 0x265); (0xA790, 0xA791); (0xA792, 0xA793); (0xA796, 0xA797);
    (0xA798, 0xA799); (0xA79A, 0xA79B); (0xA79C, 0xA79D); (0xA79E, 0xA79F);
    (0xA7A0, 0xA7A1); (0xA7A2, 0xA7A3); (0xA7A4, 0xA7A5); (0xA7A6, 0xA7A7);
    (0xA7A8, 0xA7A9); (0xA7AA, 0x266); (0xA7AB, 0x25C); (0xA7AC, 0x261);
    (0xA7AD, 0x26C); (0xA7AE, 0x26A); (0xA7B0, 0x29E); (0xA7B1, 0x287);
    (0xA7B2, 0x29D); (0xA7B3, 0xAB53); (0xA7B4, 0xA7B5); (0xA7B6, 0xA7B7);
    (0xA7B8, 0xA7B9); (0xA7BA, 0xA7BB); (0xA7BC, 0xA7BD); (0xA7BE, 0xA7BF);
    (0xA7C0, 0xA7C1); (0xA7C2, 0xA7C3); (0xA7C4, 0xA794); (0xA7C5, 0x282);
    (0xA7C6, 0x1D8E); (0xA7C7, 0xA7C8); (0xA7C9, 0xA7CA); (0xA7D0, 0xA7D1);
    (0xA7D6, 0xA7D7); (0xA7D8, 0xA7D9); (0xA7F5, 0xA7F6); (0xFF21, 0xFF41);
    (0xFF22, 0xFF42); (0xFF23, 0xFF43); (0xFF24, 0xFF44); (0xFF25, 0xFF45);
    (0xFF26, 0xFF46); (0xFF27, 0xFF47); (0xFF28, 0xFF48); (0xFF29, 0xFF49);
    (0xFF2A, 0xFF4A); (0xFF2B, 0xFF4B); (0xFF2C, 0xFF4C); (0xFF2D, 0xFF4D);
    (0xFF2E, 0xFF4E); (0xFF2F, 0xFF4F); (0xFF30, 0xFF50); (0xFF31, 0xFF51);
    (0xFF32, 0xFF52); (0xFF33, 0xFF53); (0xFF34, 0xFF54); (0xFF35, 0xFF55);
    (0xFF36, 0xFF56); (0xFF37, 0xFF57); (0xFF38, 0xFF58); (0xFF39, 0xFF59);
    (0xFF3A, 0xFF5A); (0x10400, 0x10428); (0x10401, 0x10429);
    (0x10402, 0x1042A); (0x10403, 0x1042B); (0x10404, 0x1042C);
    (0x10405, 0x1042D); (0x10406, 0x1042E); (0x10407, 0x1042F);
    (0x10408, 0x10430); (0x10409, 0x10431); (0x1040A, 0x10432);
    (0x1040B, 0x10433); (0x1040C, 0x10434); (0x1040D, 0x10435);
    (0x1040E, 0x10436); (0x1040F, 0x10437); (0x10410, 0x10438);
    (0x10411, 0x10439); (0x10412, 0x1043A); (0x10413, 0x1043B);
    (0x10414, 0x1043C); (0x10415, 0x1043D); (0x10416, 0x1043E);
    (0x10417, 0x1043F); (0x10418, 0x10440); (0x10419, 0x10441);
    (0x1041A, 0x10442); (0x1041B, 0x10443); (0x1041C, 0x10444);
    (0x1041D, 0x10445); (0x1041E, 0x10446); (0x1041F, 0x10447);
    (0x10420, 0x10448); (0x10421, 0x10449); (0x10422, 0x1044A);
    (0x10423, 0x1044B); (0x10424, 0x1044C); (0x10425, 0x1044D);
    (0x10426, 0x1044E); (0x10427, 0x1044F); (0x104B0, 0x104D8);
    (0x104B1, 0x104D9); (0x104B2, 0x104DA); (0x104B3, 0x104DB);
    (0x104B4, 0x104DC); (0x104B5, 0x104DD); (0x104B6, 0x104DE);
    (0x104B7, 0x104DF); (0x104B8, 0x104E0); (0x104B9, 0x104E1);
    (0x104BA, 0x104E2); (0x104BB, 0x104E3); (0x104BC, 0x104E4);
    (0x104BD, 0x104E5); (0x104BE, 0x104E6); (0x104BF, 0x104E7);
    (0x104C0, 0x104E8); (0x104C1, 0x104E9); (0x104C2, 0x104EA);
    (0x104C3, 0x104EB); (0x104C4, 0x104EC); (0x104C5, 0x104ED);
    (0x104C6, 0x104EE); (0x104C7, 0x104EF); (0x104C8, 0x104F0);
    (0x104C9, 0x104F1); (0x104CA, 0x104F2); (0x104CB, 0x104F3);
    (0x104CC, 0x104F4); (0x104CD, 0x104F5); (0x104CE, 0x104F6);
    (0x104CF, 0x104F7); (0x104D0, 0x104F8); (0x104D1, 0x104F9);
    (0x104D2, 0x104FA); (0x104D3, 0x104FB); (0x10570, 0x10597);
    (0x10571, 0x10598); (0x10572, 0x10599); (0x10573, 0x1059A);
    (0x10574, 0x1059B); (0x10575, 0x1059C); (0x10576, 0x1059D);
    (0x10577, 0x1059E); (0x10578, 0x1059F); (0x10579, 0x105A0);
    (0x1057A, 0x105A1); (0x1057C, 0x105A3); (0x1057D, 0x105A4);
    (0x1057E, 0x105A5); (0x1057F, 0x105A6); (0x10580, 0x105A7);
    (0x10581, 0x105A8); (0x10582, 0x105A9); (0x10583, 0x105AA);
    (0x10584, 0x105AB); (0x10585, 0x105AC); (0x10586, 0x105AD);
    (0x10587, 0x105AE); (0x10588, 0x105AF); (0x10589, 0x105B0);
    (0x1058A, 0x105B1); (0x1058C, 0x105B3); (0x1058D, 0x105B4);
    (0x1058E, 0x105B5); (0x1058F, 0x105B6); (0x10590, 0x105B7);
    (0x10591, 0x105B8); (0x10592, 0x105B9); (0x10594, 0x105BB);
    (0x10595, 0x105BC); (0x10C80, 0x10CC0); (0x10C81, 0x10CC1);
    (0x10C82, 0x10CC2); (0x10C83, 0x10CC3); (0x10C84, 0x10CC4);
    (0x10C85, 0x10CC5); (0x10C86, 0x10CC6); (0x10C87, 0x10CC7);
    (0x10C88, 0x10CC8); (0x10C89, 0x10CC9); (0x10C8A, 0x10CCA);
    (0x10C8B, 0x10CCB); (0x10C8C, 0x10CCC); (0x10C8D, 0x10CCD);
    (0x10C8E, 0x10CCE); (0x10C8F, 0x10CCF); (0x10C90, 0x10CD0);
    (0x10C91, 0x10CD1); (0x10C92, 0x10CD2); (0x10C93, 0x10CD3);
    (0x10C94, 0x10CD4); (0x10C95, 0x10CD5); (0x10C96, 0x10CD6);
    (0x10C97, 0x10CD7); (0x10C98, 0x10CD8); (0x10C99, 0x10CD9);
    (0x10C9A, 0x10CDA); (0x10C9B, 0x10CDB); (0x10C9C, 0x10CDC);
    (0x10C9D, 0x10CDD); (0x10C9E, 0x10CDE); (0x10C9F, 0x10CDF);
    (0x10CA0, 0x10CE0); (0x10CA1, 0x10CE1); (0x10CA2, 0x10CE2);
    (0x10CA3, 0x10CE3); (0x10CA4, 0x10CE4); (0x10CA5, 0x10CE5);
    (0x10CA6, 0x10CE6); (0x10CA7, 0x10CE7); (0x10CA8, 0x10CE8);
    (0x10CA9, 0x10CE9); (0x10CAA, 0x10CEA); (0x10CAB, 0x10CEB);
    (0x10CAC, 0x10CEC); (0x10CAD, 0x10CED); (0x10CAE, 0x10CEE);
    (0x10CAF, 0x10CEF); (0x10CB0, 0x10CF0); (0x10CB1, 0x10CF1);
    (0x10CB2, 0x10CF2); (0x118A0, 0x118C0); (0x118A1, 0x118C1);
    (0x118A2, 0x118C2); (0x118A3, 0x118C3); (0x118A4, 0x118C4);
    (0x118A5, 0x118C5); (0x118A6, 0x118C6); (0x118A7, 0x118C7);
    (0x118A8, 0x118C8); (0x118A9, 0x118C9); (0x118AA, 0x118CA);
    (0x118AB, 0x118CB); (0x118AC, 0x118CC); (0x118AD, 0x118CD);
    (0x118AE, 0x118CE); (0x118AF, 0x118CF); (0x118B0, 0x118D0);
    (0x118B1, 0x118D1); (0x118B2, 0x118D2); (0x118B3, 0x118D3);
    (0x118B4, 0x118D4); (0x118B5, 0x118D5); (0x118B6, 0x118D6);
    (0x118B7, 0x118D7); (0x118B8, 0x118D8); (0x118B9, 0x118D9);
    (0x118BA, 0x118DA); (0x118BB, 0x118DB); (0x118BC, 0x118DC);
    (0x118BD, 0x118DD); (0x118BE, 0x118DE); (0x118BF, 0x118DF);
    (0x16E40, 0x16E60); (0x16E41, 0x16E61); (0x16E42, 0x16E62);
    (0x16E43, 0x16E63); (0x16E44, 0x16E64); (0x16E45, 0x16E65);
    (0x16E46, 0x16E66); (0x16E47, 0x16E67); (0x16E48, 0x16E68);
    (0x16E49, 0x16E69); (0x16E4A, 0x16E6A); (0x16E4B, 0x16E6B);
    (0x16E4C, 0x16E6C); (0x16E4D, 0x16E6D); (0x16E4E, 0x16E6E);
    (0x16E4F, 0x16E6F); (0x16E50, 0x16E70); (0x16E51, 0x16E71);
    (0x16E52, 0x16E72); (0x16E53, 0x16E73); (0x16E54, 0x16E74);
    (0x16E55, 0x16E75); (0x16E56, 0x16E76); (0x16E57, 0x16E77);
    (0x16E58, 0x16E78); (0x16E59, 0x16E79); (0x16E5A, 0x16E7A);
    (0x16E5B, 0x16E7B); (0x16E5C, 0x16E7C); (0x16E5D, 0x16E7D);
    (0x16E5E, 0x16E7E); (0x16E5F, 0x16E7F); (0x1E900, 0x1E922);
    (0x1E901, 0x1E923); (0x1E902, 0x1E924); (0x1E903, 0x1E925);
    (0x1E904, 0x1E926); (0x1E905, 0x1E927); (0x1E906, 0x1E928);
    (0x1E907, 0x1E929); (0x1E908, 0x1E92A); (0x1E909, 0x1E92B);
    (0x1E90A, 0x1E92C); (0x1E90B, 0x1E92D); (0x1E90C, 0x1E92E);
    (0x1E90D, 0x1E92F); (0x1E90E, 0x1E930); (0x1E90F, 0x1E931);
    (0x1E910, 0x1E932); (0x1E911, 0x1E933); (0x1E912, 0x1E934);
    (0x1E913, 0x1E935); (0x1E914, 0x1E936); (0x1E915, 0x1E937);
    (0x1E916, 0x1E938); (0x1E917, 0x1E939); (0x1E918, 0x1E93A);
    (0x1E919, 0x1E93B); (0x1E91A, 0x1E93C); (0x1E91B, 0x1E93D);
    (0x1E91C, 0x1E93E); (0x1E91D, 0x1E93F); (0x1E91E, 0x1E940);
    (0x1E91F, 0x1E941); (0x1E920, 0x1E942); (0x1E921, 0x1E943)
  ].

(** [str.isspace] of one character, and [\s]. *)
Definition is_space (c : N) : bool := existsb (N.eqb c) SPACES.

Definition is_alnum (c : N) : bool := in_ranges ALNUM c.

(** [\w] of [re] on a [str] pattern: alphanumeric or underscore. *)
Definition is_word (c : N) : bool := is_alnum c || (c =? 0x5F).

(** [str.isupper] of one character. *)
Definition is_upper (c : N) : bool := in_ranges UPPERCASE c.

Definition is_cased (c : N) : bool := in_ranges CASED c.

Definition is_case_ignorable (c : N) : bool := in_ranges CASE_IGNORABLE c.

Definition space : N := 0x20.

(** The capital sigma and its two lowercase forms. *)
Definition CAPITAL_SIGMA : N := 0x3A3.
Definition FINAL_SIGMA : N := 0x3C2.
Definition SMALL_SIGMA : N := 0x3C3.

(** [_PyUnicode_ToLowerFull]: the lowercase form of one character; the
    capital I with a dot is the only character with a form of two
    characters. *)
Definition to_lower_full (c : N) : ustr :=
  if c =? 0x130 then [0x69; 0x307]
  else match find (fun p => fst p =? c) TO_LOWER with
       | Some p => [snd p]
       | None => [c]
       end.

(** The first character that is not case-ignorable: where the two loops of
    [handle_capital_sigma] stop. *)
Fixpoint first_not_ignorable (s : ustr) : option N :=
  match s with
  | [] => None
  | c :: s' => if is_case_ignorable c then first_not_ignorable s' else Some c
  end.

(** [handle_capital_sigma]: [before] holds the characters before the sigma,
    the nearest first, and [after] the characters after it. *)
Definition handle_capital_sigma (before after : ustr) : N :=
  let final_sigma :=
    match first_not_ignorable before with
    | Some c => is_cased c
    | None => false
    end in
  let final_sigma :=
    if final_sigma then
      match first_not_ignorable after with
      | Some c => negb (is_cased c)
      | None => true
      end
    else false in
  if final_sigma then FINAL_SIGMA else SMALL_SIGMA.

(** The loop of [do_lower]; [before] holds the characters already read, the
    nearest first. *)
Fixpoint lower_from (before : ustr) (s : ustr) : ustr :=
  match s with
  | [] => []
  | c :: s' =>
      (if c =? CAPITAL_SIGMA then [handle_capital_sigma before s']
       else to_lower_full c)
      ++ lower_from (c :: before) s'
  end.

(** [text.lower()] *)
Definition lower (s : ustr) : ustr := lower_from [] s.

(** [re.sub(r"[^\w\s]", " ", text)] *)
Definition sub_punct (s : ustr) : ustr :=
  map (fun c => if is_word c || is_space c then c else space) s.

(** [re.sub(r"\s+", " ", text)] *)
Fixpoint sub_ws (in_run : bool) (s : ustr) : ustr :=
  match s with
  | [] => []
  | c :: s' =>
      if is_space c
      then if in_run then sub_ws true s' else space :: sub_ws true s'
      else c :: sub_ws false s'
  end.

Fixpoint lstrip (s : ustr) : ustr :=
  match s with
  | [] => []
  | c :: s' => if is_space c then lstrip s' else s
  end.

Fixpoint rstrip (s : ustr) : ustr :=
  match s with
  | [] => []
  | c :: s' =>
      match rstrip s' with
      | [] => if is_space c then [] else [c]
      | r => c :: r
      end
  end.

(** [text.strip()] *)
Definition strip (s : ustr) : ustr := rstrip (lstrip s).

(** [normalize(text)] *)
Definition normalize (s : ustr) : ustr :=
  let s := lower s in
  let s := sub_punct s in
  strip (sub_ws false s).

(** [text.split()] *)
Fixpoint split_from (cur : ustr) (s : ustr) : list ustr :=
  match s with
  | [] => match cur with [] => [] | _ => [cur] end
  | c :: s' =>
      if is_space c
      then match cur with
           | [] => split_from [] s'
           | _ => cur :: split_from [] s'
           end
      else split_from (cur ++ [c]) s'
  end.

Definition split (s : ustr) : list ustr := split_from [] s.

(** [tokenize(text)] *)
Definition tokenize (s : ustr) : list ustr := split (normalize s).

(** A Latin-1 text as a string of code points. *)
Definition of_text (s : text) : ustr := map code s.

(** *** [re] on a string of any code points *)

Definition word_opt (c : option N) : bool :=
  match c with Some c => is_word c | None => false end.

(** [\b] between [prev] and the head of [s]. *)
Definition at_boundary (prev : option N) (s : ustr) : bool :=
  xorb (word_opt prev) (word_opt (hd_error s)).

(** Does [p] match a prefix of [s], the character before [s] being [prev]? *)
Fixpoint match_here (p : Regex.pattern) (prev : option N) (s : ustr)
  : bool :=
  match p with
  | [] => true
  | Regex.Chr c :: p' =>
      match s with
      | x :: s' => (x =? code c) && match_here p' (Some x) s'
      | [] => false
      end
  | Regex.WordBoundary :: p' => at_boundary prev s && match_here p' prev s
  end.

Fixpoint search_from (p : Regex.pattern) (prev : option N) (s : ustr)
  : bool :=
  match_here p prev s ||
  match s with
  | x :: s' => search_from p (Some x) s'
  | [] => false
  end.

(** The truth value of [re.search(patt, text)]. *)
Definition search (patt : string) (s : ustr) : bool :=
  match Regex.compile (str patt) with
  | Some p => search_from p None s
  | None => false
  end.

(** [match_intent(user_input)] *)
Fixpoint match_rules (rules : list (text * Intents.rule)) (s : ustr)
  : option text :=
  match rules with
  | [] => None
  | (intent, data) :: rest =>
      if existsb (fun patt => search patt s) (Intents.patterns data)
      then Some intent
      else match_rules rest s
  end.

Definition match_intent (user_input : ustr) : option text :=
  match_rules Intents.INTENTS (lower user_input).

(** *** [re.IGNORECASE] *)

(** [_sre.unicode_tolower]: the first character of the lowercase form. *)
Definition to_lower (c : N) : N :=
  match to_lower_full c with
  | d :: _ => d
  | [] => c
  end.

(** [_sre.unicode_iscased] on a character of a pattern. *)
Definition pattern_iscased (c : ascii) : bool :=
  let n := code c in
  Text.in_range 65 90 n || Text.in_range 97 122 n || (n =? 181)
  || Text.in_range 192 214 n || Text.in_range 216 246 n
  || Text.in_range 248 255 n.

(** [_EXTRA_CASES] of [re._casefix]: the other lowercase characters that
    a lowercase character stands for. *)
Definition EXTRA_CASES : list (N * list N) :=
  [
    (0x69, [0x131]); (0x73, [0x17F]); (0xB5, [0x3BC]); (0x131, [0x69]);
    (0x17F, [0x73]); (0x345, [0x3B9; 0x1FBE]); (0x390, [0x1FD3]);
    (0x3B0, [0x1FE3]); (0x3B2, [0x3D0]); (0x3B5, [0x3F5]); (0x3B8, [0x3D1]);
    (0x3B9, [0x345; 0x1FBE]); (0x3BA, [0x3F0]); (0x3BC, [0xB5]);
    (0x3C0, [0x3D6]); (0x3C1, [0x3F1]); (0x3C2, [0x3C3]); (0x3C3, [0x3C2]);
    (0x3C6, [0x3D5]); (0x3D0, [0x3B2]); (0x3D1, [0x3B8]); (0x3D5, [0x3C6]);
    (0x3D6, [0x3C0]); (0x3F0, [0x3BA]); (0x3F1, [0x3C1]); (0x3F5, [0x3B5]);
    (0x432, [0x1C80]); (0x434, [0x1C81]); (0x43E, [0x1C82]);
    (0x441, [0x1C83]); (0x442, [0x1C84; 0x1C85]); (0x44A, [0x1C86]);
    (0x463, [0x1C87]); (0x1C80, [0x432]); (0x1C81, [0x434]);
    (0x1C82, [0x43E]); (0x1C83, [0x441]); (0x1C84, [0x442; 0x1C85]);
    (0x1C85, [0x442; 0x1C84]); (0x1C86, [0x44A]); (0x1C87, [0x463]);
    (0x1C88, [0xA64B]); (0x1E61, [0x1E9B]); (0x1E9B, [0x1E61]);
    (0x1FBE, [0x345; 0x3B9]); (0x1FD3, [0x390]); (0x1FE3, [0x3B0]);
    (0xA64B, [0x1C88]); (0xFB05, [0xFB06]); (0xFB06, [0xFB05])
  ].

Definition extra_cases (lo : N) : list N :=
  match find (fun p => fst p =? lo) EXTRA_CASES with
  | Some p => snd p
  | None => []
  end.

(** A literal [c] of the pattern against the character [x]: without case
    when [c] is not cased, and otherwise the lowercase form of [x] against
    that of [c] and its extra cases. *)
Definition literal_ignorecase (c : ascii) (x : N) : bool :=
  if pattern_iscased c then
    let lo := to_lower (code c) in
    existsb (N.eqb (to_lower x)) (lo :: extra_cases lo)
  else x =? code c.

Fixpoint read_literal (alt : text) (prev : option N) (s : ustr)
  : option (option N * ustr) :=
  match alt with
  | [] => Some (prev, s)
  | c :: alt' =>
      match s with
      | x :: s' =>
          if literal_ignorecase c x then read_literal alt' (Some x) s'
          else None
      | [] => None
      end
  end.

Fixpoint match_here_ignorecase (p : list RegexI.node) (prev : option N)
    (s : ustr) : bool :=
  match p with
  | [] => true
  | RegexI.Lit c :: p' =>
      match s with
      | x :: s' =>
          literal_ignorecase c x && match_here_ignorecase p' (Some x) s'
      | [] => false
      end
  | RegexI.Boundary :: p' =>
      at_boundary prev s && match_here_ignorecase p' prev s
  | RegexI.Group alts :: p' =>
      existsb
        (fun alt =>
           match read_literal alt prev s with
           | Some (prev', s') => match_here_ignorecase p' prev' s'
           | None => false
           end)
        alts
  end.

Fixpoint search_from_ignorecase (p : list RegexI.node) (prev : option N)
    (s : ustr) : bool :=
  match_here_ignorecase p prev s ||
  match s with
  | x :: s' => search_from_ignorecase p (Some x) s'
  | [] => false
  end.

(** The truth value of [re.search(patt, text, re.IGNORECASE)]. *)
Definition search_ignorecase (patt : string) (s : ustr) : bool :=
  match RegexI.compile (str patt) None with
  | Some p => search_from_ignorecase p None s
  | None => false
  end.

End Unicode.

(** ** Properties stated about [normalize] on any string *)

Module UnicodeSpec.

Import Unicode.

Local Open Scope N_scope.

(** A lowercase word character as the specification means it, or a space:
    a word character that is not uppercase. *)
Definition clean_char (c : N) : Prop :=
  c = space \/ (is_word c = true /\ is_upper c = false).

(** The lowercase form of [c] is [c] itself. *)
Definition unchanged_by_lower (c : N) : bool :=
  match to_lower_full c with
  | [d] => d =? c
  | _ => false
  end.

(** A space, or a word character that [str.lower] leaves as it is. *)
Definition settled_char (c : N) : Prop :=
  c = space \/ (is_word c = true /\ unchanged_by_lower c = true).

(** If [c] is uppercase, it has a lowercase form other than itself. *)
Definition has_lower_form (c : N) : Prop :=
  is_upper c = true -> unchanged_by_lower c = false.

Fixpoint single_spaced (s : ustr) : Prop :=
  match s with
  | [] => True
  | c :: s' =>
      match s' with
      | [] => True
      | d :: _ => ~ (is_space c = true /\ is_space d = true)
      end /\ single_spaced s'
  end.

Definition no_leading_space (s : ustr) : Prop :=
  forall c s', s = c :: s' -> is_space c = false.

Definition no_trailing_space (s : ustr) : Prop :=
  forall s' c, s = s' ++ [c] -> is_space c = false.

(** What the specification states of [normalize x]: only lowercase word
    characters and spaces. *)
Definition lowercase_words_only (x : ustr) : Prop :=
  Forall clean_char (normalize x).

(** The three characters that case folding treats unlike [str.lower]: the
    capital I with a dot, whose lowercase form has two characters, and the
    dotless i and the long s, which [re.IGNORECASE] takes for [i] and
    [s]. *)
Definition plain (c : N) : bool :=
  negb (existsb (N.eqb c) [0x130; 0x131; 0x17F]).

Definition plain_input (s : ustr) : Prop := forallb plain s = true.

(** One of the words [ws] is a token of [s]. *)
Definition has_token (ws : list text) (s : ustr) : Prop :=
  exists w, In w ws /\ In (of_text w) (tokenize s).

(** A small letter of the basic alphabet. *)
Definition small_letter (c : ascii) : bool := Text.in_range 97 122 (code c).

End UnicodeSpec.

(** ** Latin-1 images

    Every string has a Latin-1 text that the functions above cannot tell
    from it: a character beyond U+00FF is replaced by its lowercase form
    when that is in Latin-1, and otherwise by a Latin-1 character of its
    class that no pattern of the program holds. *)

Module Latin1Image.

Import Unicode.

Local Open Scope N_scope.

(** A word character, a whitespace character other than the space, or
    punctuation. *)
Definition class_of (x : N) : ascii :=
  if is_word x then ascii_of_N 0xE9
  else if is_space x then ascii_of_N 0x09
  else ascii_of_N 0x21.

Definition image (x : N) : ascii :=
  if x <? 256 then ascii_of_N x
  else
    let d := to_lower x in
    if d <? 256 then ascii_of_N d else class_of x.

Definition image_of (s : ustr) : text := map image s.

(** A character of a pattern that is the image of itself only. *)
Definition own_image (c : ascii) : bool :=
  negb (existsb (Ascii.eqb c)
          [ascii_of_N 0xE9; ascii_of_N 0x09; ascii_of_N 0x21]).

Definition own_images (p : Regex.pattern) : bool :=
  forallb
    (fun i =>
       match i with
       | Regex.Chr c => own_image c
       | Regex.WordBoundary => true
       end)
    p.

(** The same of the literals of a pattern string. *)
Definition pattern_own_images (patt : string) : bool :=
  match Regex.compile (str patt) with
  | Some p => own_images p
  | None => true
  end.

(** The literals of a pattern matched ignoring case are small letters. *)
Definition small_letters (p : list RegexI.node) : bool :=
  forallb
    (fun n =>
       match n with
       | RegexI.Lit c => UnicodeSpec.small_letter c
       | RegexI.Boundary => true
       | RegexI.Group alts => forallb (forallb UnicodeSpec.small_letter) alts
       end)
    p.

Definition pattern_small_letters (patt : string) : bool :=
  match RegexI.compile (str patt) None with
  | Some p => small_letters p
  | None => true
  end.

End Latin1Image.

(** ** Normalisation and tokens *)

Section TextFacts.

Ltac by_cases_on c :=
  destruct c as [[|] [|] [|] [|] [|] [|] [|] [|]]; vm_compute;
  try reflexivity; try discriminate; auto.

Lemma lower_char_not_upper (c : ascii) : is_upper (lower_char c) = false.
Proof. by_cases_on c. Qed.

Lemma word_not_space (c : ascii) : is_word c = true -> is_space c = false.
Proof. by_cases_on c. Qed.

Lemma space_is_space : is_space space = true.
Proof. reflexivity. Qed.

Lemma space_not_upper : is_upper space = false.
Proof. reflexivity. Qed.

Lemma space_not_word : is_word space = false.
Proof. reflexivity. Qed.

Lemma clean_not_upper (c : ascii) : clean_char c -> is_upper c = false.
Proof. intros [-> | [_ H]]; [reflexivity | exact H]. Qed.

Lemma clean_word_or_space (c : ascii) :
  clean_char c -> is_word c || is_space c = true.
Proof.
  intros [-> | [H _]]; [reflexivity | now rewrite H].
Qed.

Lemma clean_space_eq (c : ascii) :
  clean_char c -> is_space c = true -> c = space.
Proof.
  intros [-> | [H _]] Hs; [reflexivity |].
  apply word_not_space in H. congruence.
Qed.

Lemma clean_nonspace_word (c : ascii) :
  clean_char c -> is_space c = false -> is_word c = true.
Proof.
  intros [-> | [H _]] Hs; [discriminate | exact H].
Qed.

(** *** Each step of [normalize] fixes a text that is already clean *)

Lemma lower_fixed (s : text) :
  Forall (fun c => is_upper c = false) s -> lower s = s.
Proof.
  induction 1 as [| c s Hc _ IH]; simpl; [reflexivity |].
  unfold lower_char. rewrite Hc. f_equal. exact IH.
Qed.

Lemma sub_punct_fixed (s : text) :
  Forall (fun c => is_word c || is_space c = true) s -> sub_punct s = s.
Proof.
  induction 1 as [| c s Hc _ IH]; simpl; [reflexivity |].
  rewrite Hc. f_equal. exact IH.
Qed.

Lemma sub_ws_fixed (s : text) :
  Forall (fun c => is_space c = true -> c = space) s ->
  single_spaced s ->
  forall in_run, (in_run = true -> no_leading_space s) ->
  sub_ws in_run s = s.
Proof.
  induction 1 as [| c s Hc _ IH]; intros Hss in_run Hrun; simpl;
    [reflexivity |].
  destruct Hss as [Hadj Hss].
  destruct (is_space c) eqn:Ec.
  - destruct in_run.
    + specialize (Hrun eq_refl c s eq_refl). congruence.
    + rewrite (Hc eq_refl). f_equal. apply IH; [exact Hss |].
      intros _ d s' ->. destruct (is_space d) eqn:Ed; [| reflexivity].
      exfalso. apply Hadj. now split.
  - f_equal. apply IH; [exact Hss | discriminate].
Qed.

Lemma lstrip_fixed (s : text) : no_leading_space s -> lstrip s = s.
Proof.
  destruct s as [| c s]; intros H; simpl; [reflexivity |].
  now rewrite (H c s eq_refl).
Qed.

Lemma rstrip_fixed (s : text) : no_trailing_space s -> rstrip s = s.
Proof.
  induction s as [| x t IH]; intros H; simpl; [reflexivity |].
  assert (Ht : no_trailing_space t).
  { intros s' c ->. apply (H (x :: s') c). reflexivity. }
  rewrite (IH Ht). destruct t as [| y t'].
  - now rewrite (H [] x eq_refl).
  - reflexivity.
Qed.

(** *** What each step establishes *)

Lemma lstrip_suffix (s : text) : exists p, s = p ++ lstrip s.
Proof.
  induction s as [| c s [p IH]]; simpl.
  - now exists [].
  - destruct (is_space c).
    + exists (c :: p). simpl. now f_equal.
    + now exists [].
Qed.

Lemma rstrip_prefix (s : text) : exists q, s = rstrip s ++ q.
Proof.
  induction s as [| c s [q IH]]; simpl.
  - now exists [].
  - destruct (rstrip s) as [| y r] eqn:E.
    + destruct (is_space c).
      * now exists (c :: s).
      * exists s. simpl in IH. simpl. now f_equal.
    + exists q. simpl. f_equal. exact IH.
Qed.

Lemma lstrip_no_leading (s : text) : no_leading_space (lstrip s).
Proof.
  induction s as [| c s IH]; simpl.
  - intros d s' H. discriminate.
  - destruct (is_space c) eqn:E; [exact IH |].
    intros d s' H. injection H as <- _. exact E.
Qed.

Lemma rstrip_no_trailing (s : text) : no_trailing_space (rstrip s).
Proof.
  induction s as [| x t IH]; simpl.
  - intros [| ? ?] c H; discriminate.
  - destruct (rstrip t) as [| y r] eqn:E.
    + destruct (is_space x) eqn:Ex.
      * intros [| ? ?] c H; discriminate.
      * intros [| ? [| ? ?]] c H; try discriminate.
        injection H as <-. exact Ex.
    + intros [| z s'] c H.
      * discriminate.
      * injection H as _ H. apply (IH s' c H).
Qed.

Lemma rstrip_no_leading (s : text) :
  no_leading_space s -> no_leading_space (rstrip s).
Proof.
  intros H c s' E. destruct (rstrip_prefix s) as [q Hq].
  rewrite E in Hq. apply (H c (s' ++ q)). exact Hq.
Qed.

Lemma single_spaced_app (p s : text) :
  single_spaced (p ++ s) -> single_spaced p /\ single_spaced s.
Proof.
  induction p as [| c p IH]; simpl; intros H; [auto |].
  destruct H as [Hadj H]. destruct (IH H) as [Hp Hs].
  repeat split; auto.
  destruct p as [| d p']; [exact I | exact Hadj].
Qed.

Lemma sub_ws_chars (P : ascii -> Prop) (s : text) :
  P space -> Forall (fun c => is_space c = false -> P c) s ->
  forall in_run, Forall P (sub_ws in_run s).
Proof.
  intros Hsp. induction 1 as [| c s Hc _ IH]; intros in_run; simpl;
    [constructor |].
  destruct (is_space c); [destruct in_run |]; auto.
Qed.

Lemma sub_ws_space_only (s : text) (in_run : bool) :
  Forall (fun c => is_space c = true -> c = space) (sub_ws in_run s).
Proof.
  revert in_run. induction s as [| c s IH]; intros in_run; simpl;
    [constructor |].
  destruct (is_space c) eqn:E; [destruct in_run |]; auto.
  constructor; [congruence | apply IH].
Qed.

Lemma sub_ws_in_run_head (s : text) :
  no_leading_space (sub_ws true s).
Proof.
  induction s as [| c s IH]; simpl.
  - intros d s' H. discriminate.
  - destruct (is_space c) eqn:E; [exact IH |].
    intros d s' H. injection H as <- _. exact E.
Qed.

Lemma sub_ws_single_spaced (s : text) (in_run : bool) :
  single_spaced (sub_ws in_run s).
Proof.
  revert in_run. induction s as [| c s IH]; intros in_run; simpl; [exact I |].
  destruct (is_space c) eqn:E.
  - destruct in_run; [apply IH |].
    simpl. split; [| apply IH].
    destruct (sub_ws true s) as [| d r] eqn:Er; [exact I |].
    intros [_ Hd]. pose proof (sub_ws_in_run_head s) as Hh.
    rewrite Er in Hh. specialize (Hh d r eq_refl). congruence.
  - simpl. split; [| apply IH].
    destruct (sub_ws false s); [exact I |]. intros [Hc _]. congruence.
Qed.

Lemma normalize_clean (s : text) : Forall clean_char (normalize s).
Proof.
  unfold normalize, strip.
  set (w := sub_ws false (sub_punct (lower s))).
  assert (Hw : Forall clean_char w).
  { apply sub_ws_chars; [now left |].
    unfold sub_punct, lower. rewrite map_map. apply Forall_forall.
    intros c Hc. apply in_map_iff in Hc. destruct Hc as [x [<- _]].
    destruct (is_word (lower_char x)) eqn:Ew; simpl.
    - intros _. right. split; [exact Ew | apply lower_char_not_upper].
    - destruct (is_space (lower_char x)) eqn:Es; intros H;
        [congruence | now left]. }
  destruct (lstrip_suffix w) as [p Hp].
  destruct (rstrip_prefix (lstrip w)) as [q Hq].
  rewrite Hp, Hq in Hw.
  apply Forall_app in Hw. destruct Hw as [_ Hw].
  apply Forall_app in Hw. tauto.
Qed.

Lemma normalize_single_spaced (s : text) : single_spaced (normalize s).
Proof.
  unfold normalize, strip.
  set (w := sub_ws false (sub_punct (lower s))).
  pose proof (sub_ws_single_spaced (sub_punct (lower s)) false) as Hw.
  fold w in Hw.
  destruct (lstrip_suffix w) as [p Hp].
  destruct (rstrip_prefix (lstrip w)) as [q Hq].
  rewrite Hp, Hq in Hw.
  apply single_spaced_app in Hw. destruct Hw as [_ Hw].
  apply single_spaced_app in Hw. tauto.
Qed.

Lemma normalize_no_leading (s : text) : no_leading_space (normalize s).
Proof. apply rstrip_no_leading, lstrip_no_leading. Qed.

Lemma normalize_no_trailing (s : text) : no_trailing_space (normalize s).
Proof. apply rstrip_no_trailing. Qed.

Lemma normalize_fixed (s : text) :
  Forall clean_char s -> single_spaced s ->
  no_leading_space s -> no_trailing_space s ->
  normalize s = s.
Proof.
  intros Hc Hss Hl Ht. unfold normalize, strip.
  rewrite lower_fixed
    by (eapply Forall_impl; [apply clean_not_upper | exact Hc]).
  rewrite sub_punct_fixed
    by (eapply Forall_impl; [apply clean_word_or_space | exact Hc]).
  rewrite sub_ws_fixed.
  - rewrite lstrip_fixed by exact Hl. apply rstrip_fixed, Ht.
  - eapply Forall_impl; [apply clean_space_eq | exact Hc].
  - exact Hss.
  - discriminate.
Qed.

(** *** Tokens *)

Lemma split_from_tokens (P : ascii -> Prop) (s : text) :
  Forall (fun c => is_space c = false -> P c) s ->
  forall cur, Forall P cur ->
  Forall (fun t => t <> [] /\ Forall P t) (split_from cur s).
Proof.
  induction 1 as [| c s Hc _ IH]; intros cur Hcur; simpl.
  - destruct cur; [constructor |].
    constructor; [| constructor]. split; [discriminate | exact Hcur].
  - destruct (is_space c) eqn:E.
    + destruct cur as [| x cur'].
      * apply IH. constructor.
      * constructor; [split; [discriminate | exact Hcur] |].
        apply IH. constructor.
    + apply IH. apply Forall_app. split; [exact Hcur |].
      constructor; [auto | constructor].
Qed.

Lemma tokenize_word_tokens (s : text) : Forall word_token (tokenize s).
Proof.
  unfold tokenize, split, word_token.
  apply split_from_tokens; [| constructor].
  eapply Forall_impl; [| apply normalize_clean].
  intros c Hc Hs. split; [| exact Hs].
  now apply clean_nonspace_word.
Qed.

End TextFacts.

(** On Latin-1 text: [normalize x] holds only spaces and lowercase word
    characters (so no punctuation), does not start or end with whitespace,
    has no two adjacent whitespace characters, and [normalize] is
    idempotent: [normalize (normalize x) = normalize x]. *)
Theorem normalize_clean_idempotent (x : text) :
  Forall clean_char (normalize x)
  /\ no_leading_space (normalize x)
  /\ no_trailing_space (normalize x)
  /\ single_spaced (normalize x)
  /\ normalize (normalize x) = normalize x.
Proof.
  pose proof (normalize_clean x) as Hc.
  pose proof (normalize_single_spaced x) as Hss.
  pose proof (normalize_no_leading x) as Hl.
  pose proof (normalize_no_trailing x) as Ht.
  split; [exact Hc |]. split; [exact Hl |]. split; [exact Ht |].
  split; [exact Hss | now apply normalize_fixed].
Qed.

(** ** Sentiment *)

Section LexiconFacts.

Import Lexicon.

Lemma text_eqb_eq (x y : text) : text_eqb x y = true <-> x = y.
Proof.
  unfold text_eqb. destruct (text_eq_dec x y); split; congruence.
Qed.

Lemma text_eqb_refl (x : text) : text_eqb x x = true.
Proof. now apply text_eqb_eq. Qed.

Lemma text_eqb_neq (x y : text) : text_eqb x y = false <-> x <> y.
Proof.
  unfold text_eqb. destruct (text_eq_dec x y); split; congruence.
Qed.

Lemma mem_In (t : text) (l : list text) : mem t l = true <-> In t l.
Proof.
  unfold mem. rewrite existsb_exists. split.
  - intros [x [Hx E]]. apply text_eqb_eq in E. now subst.
  - intros H. exists t. split; [exact H | apply text_eqb_refl].
Qed.

Lemma mem_ext (t : text) (l l' : list text) :
  (In t l <-> In t l') -> mem t l = mem t l'.
Proof.
  intros H. destruct (mem t l) eqn:E, (mem t l') eqn:E'; try reflexivity.
  - apply mem_In, H, mem_In in E. congruence.
  - apply mem_In, H, mem_In in E'. congruence.
Qed.

Lemma mem_to_set (t : text) (l : list text) : mem t (to_set l) = mem t l.
Proof. apply mem_ext. apply nodup_In. Qed.

Lemma count_in_cons (words : list text) (t : text) (tokens : list text) :
  count_in words (t :: tokens)
  = (if mem t words then 1 else 0) + count_in words tokens.
Proof.
  unfold count_in. simpl. now destruct (mem t words).
Qed.

(** In a duplicate-free list exactly the members are counted once. *)
Lemma sum_indicator (t : text) (l : list text) :
  NoDup l ->
  list_sum (map (fun w => if text_eq_dec t w then 1 else 0) l)
  = if mem t l then 1 else 0.
Proof.
  induction 1 as [| w l Hw _ IH]; simpl; [reflexivity |].
  rewrite IH. unfold text_eqb. destruct (text_eq_dec t w) as [-> | Hn]; simpl.
  - destruct (mem w l) eqn:E; [| reflexivity].
    apply mem_In in E. contradiction.
  - reflexivity.
Qed.

Lemma list_sum_map_add {A : Type} (f g : A -> nat) (l : list A) :
  list_sum (map (fun x => f x + g x) l)
  = list_sum (map f l) + list_sum (map g l).
Proof. induction l as [| x l IH]; simpl; [reflexivity | lia]. Qed.

Lemma count_in_occurrences (words tokens : list text) :
  count_in words tokens = occurrences words tokens.
Proof.
  unfold occurrences. induction tokens as [| t tokens IH].
  - simpl. induction (to_set words); simpl; auto.
  - rewrite count_in_cons, IH.
    rewrite <- (mem_to_set t words).
    rewrite <- (sum_indicator t (to_set words)) by apply NoDup_nodup.
    rewrite <- list_sum_map_add. f_equal. apply map_ext.
    intros w. simpl. now destruct (text_eq_dec t w).
Qed.

Lemma count_in_ext (words words' tokens : list text) :
  (forall t, In t tokens -> (In t words <-> In t words')) ->
  count_in words tokens = count_in words' tokens.
Proof.
  intros H. unfold count_in. do 2 f_equal.
  apply filter_ext_in. intros t Ht. apply mem_ext, H, Ht.
Qed.

End LexiconFacts.

(** C5. For every input string, [detect_sentiment] counts the positive and
    the negative words over the token sequence with multiplicity, its score
    is [pos - neg], its polarity is positive, negative or neutral exactly
    when the score is above, below or equal to zero, and on
    ["good good bad"] it yields pos 2, neg 1, score 1, positive. *)
Theorem detect_sentiment_counts (s : text) :
  let r := Lexicon.detect_sentiment s in
  Lexicon.pos r = occurrences Lexicon.POS_WORDS (tokenize s)
  /\ Lexicon.neg r = occurrences Lexicon.NEG_WORDS (tokenize s)
  /\ Lexicon.score r = (Z.of_nat (Lexicon.pos r) - Z.of_nat (Lexicon.neg r))%Z
  /\ (Lexicon.polarity r = Lexicon.Positive <-> (Lexicon.score r > 0)%Z)
  /\ (Lexicon.polarity r = Lexicon.Negative <-> (Lexicon.score r < 0)%Z)
  /\ (Lexicon.polarity r = Lexicon.Neutral <-> Lexicon.score r = 0%Z)
  /\ Lexicon.detect_sentiment (str "good good bad")
     = {| Lexicon.polarity := Lexicon.Positive; Lexicon.score := 1;
          Lexicon.pos := 2; Lexicon.neg := 1 |}.
Proof.
  cbv zeta. unfold Lexicon.detect_sentiment, Lexicon.sentiment_with.
  cbn [Lexicon.pos Lexicon.neg Lexicon.score Lexicon.polarity].
  split; [apply count_in_occurrences |].
  split; [apply count_in_occurrences |].
  split; [reflexivity |].
  set (sc := (Z.of_nat _ - Z.of_nat _)%Z).
  destruct (0 <? sc)%Z eqn:E1; [apply Z.ltb_lt in E1 | apply Z.ltb_ge in E1];
    [| destruct (sc <? 0)%Z eqn:E2;
       [apply Z.ltb_lt in E2 | apply Z.ltb_ge in E2]].
  - repeat split; intros; try lia; try discriminate; reflexivity.
  - repeat split; intros; try lia; try discriminate; reflexivity.
  - repeat split; intros; try lia; try discriminate; reflexivity.
Qed.

(** C10. Every token that [tokenize] produces is a non-empty run of word
    characters and holds no whitespace (so no punctuation either); the
    positive-lexicon entry ["yay!"] is never a token, and it never
    contributes to the positive count of [detect_sentiment]. *)
Theorem tokens_are_words_yay_bang_dead (s : text) :
  Forall word_token (tokenize s)
  /\ In (str "yay!") Lexicon.POS_WORDS
  /\ ~ In (str "yay!") (tokenize s)
  /\ Lexicon.pos (Lexicon.detect_sentiment s)
     = Lexicon.pos
         (Lexicon.sentiment_with
            (remove text_eq_dec (str "yay!") Lexicon.POS_WORDS)
            Lexicon.NEG_WORDS s).
Proof.
  pose proof (tokenize_word_tokens s) as Htok.
  assert (Hno : ~ In (str "yay!") (tokenize s)).
  { intros Hin. rewrite Forall_forall in Htok.
    destruct (Htok _ Hin) as [_ Hw].
    rewrite Forall_forall in Hw.
    destruct (Hw "!"%char) as [Hbang _]; [| discriminate Hbang].
    simpl. tauto. }
  split; [exact Htok |].
  split; [simpl; tauto |].
  split; [exact Hno |].
  unfold Lexicon.detect_sentiment, Lexicon.sentiment_with.
  cbn [Lexicon.pos]. apply count_in_ext. intros t Ht. split.
  - intros Hin. apply in_in_remove; [| exact Hin].
    intros ->. contradiction.
  - intros Hin. apply in_remove in Hin. tauto.
Qed.

(** ** Emotions *)

Section EmotionFacts.

Import Lexicon.

Lemma dict_get_set {V : Type} (d : dict V) (k k' : text) (v : V) :
  dict_get (dict_set d k v) k'
  = if text_eqb k' k then Some v else dict_get d k'.
Proof.
  induction d as [| [k0 v0] d IH]; simpl.
  - reflexivity.
  - destruct (text_eqb k k0) eqn:E; simpl.
    + apply text_eqb_eq in E. subst k0.
      now destruct (text_eqb k' k).
    + rewrite IH. destruct (text_eqb k' k0) eqn:E0; [| reflexivity].
      apply text_eqb_eq in E0. subst k0.
      destruct (text_eqb k' k) eqn:E1; [| reflexivity].
      apply text_eqb_eq in E1. subst k'.
      rewrite text_eqb_refl in E. discriminate.
Qed.

(** Two duplicate-free lists share as many elements of the one as of the
    other. *)
Lemma inter_length_sym (x y : list text) :
  NoDup x -> NoDup y ->
  List.length (filter (fun t => mem t y) x)
  = List.length (filter (fun t => mem t x) y).
Proof.
  intros Hx Hy. apply Nat.le_antisymm.
  - apply NoDup_incl_length; [now apply NoDup_filter |].
    intros t Ht. apply filter_In in Ht. destruct Ht as [H1 H2].
    apply filter_In. split; [now apply mem_In | now apply mem_In].
  - apply NoDup_incl_length; [now apply NoDup_filter |].
    intros t Ht. apply filter_In in Ht. destruct Ht as [H1 H2].
    apply filter_In. split; [now apply mem_In | now apply mem_In].
Qed.

Lemma intersection_shared (tokens kwset : list text) :
  List.length (intersection (to_set tokens) kwset) = shared tokens kwset.
Proof.
  unfold intersection, shared.
  rewrite (filter_ext (fun t => mem t kwset) (fun t => mem t (to_set kwset)))
    by (intros t; symmetry; apply mem_to_set).
  rewrite inter_length_sym by apply NoDup_nodup.
  f_equal. apply filter_ext. intros t. apply mem_to_set.
Qed.

(** The loop of [detect_emotions] from any dictionary [found]. *)
Lemma emotions_fold (tokens : list text) (keywords : dict (list text)) :
  NoDup (map fst keywords) ->
  forall (found : dict nat) (emo : text),
  dict_get
    (fold_left
       (fun found '(emo, kwset) =>
          let matches := intersection tokens kwset in
          match matches with
          | [] => found
          | _ => dict_set found emo (List.length matches)
          end)
       keywords found) emo
  = match find (fun p => text_eqb emo (fst p)) keywords with
    | Some (_, kwset) =>
        match List.length (intersection tokens kwset) with
        | 0 => dict_get found emo
        | n => Some n
        end
    | None => dict_get found emo
    end.
Proof.
  induction keywords as [| [k kw] rest IH]; intros Hnd found emo; simpl.
  - reflexivity.
  - inversion Hnd as [| ? ? Hk Hrest]; subst.
    rewrite (IH Hrest).
    destruct (text_eqb emo k) eqn:E.
    + apply text_eqb_eq in E. subst k.
      assert (Hf : find (fun p => text_eqb emo (fst p)) rest = None).
      { destruct (find _ rest) as [[k' kw'] |] eqn:Ef; [| reflexivity].
        apply find_some in Ef. destruct Ef as [Hin Heq]. simpl in Heq.
        apply text_eqb_eq in Heq. subst k'.
        exfalso. apply Hk. apply in_map_iff. now exists (emo, kw'). }
      rewrite Hf.
      destruct (intersection tokens kw) as [| m ms]; [reflexivity |].
      rewrite dict_get_set, text_eqb_refl. reflexivity.
    + destruct (intersection tokens kw) as [| m ms].
      * reflexivity.
      * rewrite dict_get_set, E. reflexivity.
Qed.

Lemma emotions_with_get (keywords : dict (list text)) (s emo : text) :
  NoDup (map fst keywords) ->
  dict_get (emotions_with keywords s) emo
  = match find (fun p => text_eqb emo (fst p)) keywords with
    | Some (_, kwset) =>
        match shared (tokenize s) kwset with
        | 0 => None
        | n => Some n
        end
    | None => None
    end.
Proof.
  intros Hnd. unfold emotions_with. rewrite emotions_fold by exact Hnd.
  destruct (find _ keywords) as [[k kw] |]; [| reflexivity].
  now rewrite intersection_shared.
Qed.

Lemma emotion_labels_distinct : NoDup (map fst EMOTION_KEYWORDS).
Proof.
  apply (NoDup_count_occ' text_eq_dec). intros x Hx.
  simpl in Hx. repeat destruct Hx as [<- | Hx]; try reflexivity.
  contradiction.
Qed.

Lemma find_first_key {V : Type} (d : dict V) (k : text) (v : V) :
  NoDup (map fst d) -> In (k, v) d ->
  find (fun p => text_eqb k (fst p)) d = Some (k, v).
Proof.
  induction d as [| [k0 v0] d IH]; intros Hnd Hin; simpl; [contradiction |].
  inversion Hnd as [| ? ? Hk Hrest]; subst.
  destruct Hin as [E | Hin].
  - injection E as -> ->. now rewrite text_eqb_refl.
  - destruct (text_eqb k k0) eqn:E.
    + apply text_eqb_eq in E. subst k0. exfalso. apply Hk.
      apply in_map_iff. now exists (k, v).
    + now apply IH.
Qed.

Lemma find_no_key {V : Type} (d : dict V) (k : text) :
  (forall v, ~ In (k, v) d) ->
  find (fun p => text_eqb k (fst p)) d = None.
Proof.
  intros H. destruct (find _ d) as [[k' v] |] eqn:E; [| reflexivity].
  apply find_some in E. destruct E as [Hin Heq]. simpl in Heq.
  apply text_eqb_eq in Heq. subst k'. now apply H in Hin.
Qed.

End EmotionFacts.

(** C6. For every input string, [detect_emotions] maps an emotion label to
    the number of distinct tokens shared with that emotion's trigger set
    exactly when that number is not zero; an emotion with an empty
    intersection, and any other label, is absent;
    [detect_emotions "happy happy"] is [{"joy": 1}]. *)
Theorem detect_emotions_distinct_tokens (s : text) :
  (forall emo kwset,
     In (emo, kwset) Lexicon.EMOTION_KEYWORDS ->
     Lexicon.dict_get (Lexicon.detect_emotions s) emo
     = match shared (tokenize s) kwset with
       | 0 => None
       | n => Some n
       end)
  /\ (forall emo,
        (forall kwset, ~ In (emo, kwset) Lexicon.EMOTION_KEYWORDS) ->
        Lexicon.dict_get (Lexicon.detect_emotions s) emo = None)
  /\ Lexicon.detect_emotions (str "happy happy") = [(str "joy", 1)].
Proof.
  split; [| split].
  - intros emo kwset Hin. unfold Lexicon.detect_emotions.
    rewrite emotions_with_get by apply emotion_labels_distinct.
    now rewrite (find_first_key _ _ _ emotion_labels_distinct Hin).
  - intros emo Hno. unfold Lexicon.detect_emotions.
    rewrite emotions_with_get by apply emotion_labels_distinct.
    now rewrite (find_no_key _ _ Hno).
  - reflexivity.
Qed.

Lemma detect_emotions_distinct_tokens_witness :
  Lexicon.dict_get (Lexicon.detect_emotions (str "I hate that I love you!"))
                   (str "love")
  = Some 1.
Proof.
  pose proof
    (proj1 (detect_emotions_distinct_tokens (str "I hate that I love you!"))
       (str "love") (map str ["love"; "loving"; "adore"; "cherish"]%string))
    as W.
  apply W. simpl. tauto.
Defined.

(** ** Intents *)

Section IntentFacts.

Import Intents.

(** A pattern is found in a text when it matches at some position of it. *)
Lemma search_from_somewhere (p : Regex.pattern) (s : text) :
  forall prev,
  Regex.search_from p prev s = true
  <-> exists pre post,
        s = pre ++ post
        /\ Regex.match_here p (char_before prev pre) post = true.
Proof.
  induction s as [| x s IH]; intros prev; cbn [Regex.search_from].
  - rewrite orb_false_r. split.
    + intros H. now exists [], [].
    + intros [pre [post [E H]]]. symmetry in E.
      apply app_eq_nil in E. destruct E as [-> ->]. exact H.
  - rewrite orb_true_iff, IH. split.
    + intros [H | [pre [post [-> H]]]].
      * now exists [], (x :: s).
      * now exists (x :: pre), post.
    + intros [[| y pre] [post [E H]]].
      * left. simpl in E. now subst post.
      * right. simpl in E. injection E as <- ->. now exists pre, post.
Qed.

Lemma match_rules_none (rules : list (text * rule)) (s : text) :
  match_rules rules s = None <-> none_matching rules s.
Proof.
  unfold none_matching. induction rules as [| [k data] rest IH]; simpl.
  - split; [intros _ ? ? ? [] | reflexivity].
  - destruct (existsb _ (patterns data)) eqn:E.
    + split; [discriminate |]. intros H.
      apply existsb_exists in E. destruct E as [patt [Hin Hs]].
      rewrite (H k data patt) in Hs; [discriminate | now left | exact Hin].
    + rewrite IH. split.
      * intros H k' d' patt [Eq | Hin] Hp.
        -- injection Eq as <- <-.
           destruct (Regex.search patt s) eqn:Es; [| reflexivity].
           assert (existsb (fun p => Regex.search p s) (patterns data) = true)
             by (apply existsb_exists; now exists patt).
           congruence.
        -- now apply (H k' d').
      * intros H k' d' patt Hin. apply (H k' d'). now right.
Qed.

Lemma match_rules_some (rules : list (text * rule)) (s k : text) :
  match_rules rules s = Some k <-> first_matching rules s k.
Proof.
  unfold first_matching. induction rules as [| [k0 data] rest IH]; simpl.
  - split; [discriminate |].
    intros [pre [d [post [E _]]]]. now destruct pre.
  - destruct (existsb _ (patterns data)) eqn:E.
    + split.
      * intros H. injection H as <-.
        exists [], data, rest. split; [reflexivity |]. split.
        -- apply existsb_exists in E. exact E.
        -- intros ? ? ? [].
      * intros [pre [d [post [Eq [[patt [Hin Hs]] Hpre]]]]].
        destruct pre as [| [k1 d1] pre'].
        -- simpl in Eq. now injection Eq as -> _ _.
        -- simpl in Eq. injection Eq as <- <- _.
           apply existsb_exists in E. destruct E as [p [Hp Hsp]].
           rewrite (Hpre k0 data p) in Hsp;
             [discriminate | now left | exact Hp].
    + rewrite IH. split.
      * intros [pre [d [post [Eq [Hm Hpre]]]]].
        exists ((k0, data) :: pre), d, post.
        split; [simpl; now f_equal |]. split; [exact Hm |].
        intros k' d' patt [Ek | Hin] Hp.
        -- injection Ek as <- <-.
           destruct (Regex.search patt s) eqn:Es; [| reflexivity].
           assert (existsb (fun p => Regex.search p s) (patterns data) = true)
             by (apply existsb_exists; now exists patt).
           congruence.
        -- now apply (Hpre k' d').
      * intros [pre [d [post [Eq [[patt [Hin Hs]] Hpre]]]]].
        destruct pre as [| [k1 d1] pre'].
        -- simpl in Eq. injection Eq as <- <- _.
           assert (existsb (fun p => Regex.search p s) (patterns data) = true)
             by (apply existsb_exists; now exists patt).
           congruence.
        -- simpl in Eq. injection Eq as _ _ ->.
           exists pre', d, post. split; [reflexivity |].
           split; [now exists patt |].
           intros k' d' p Hin' Hp. apply (Hpre k' d'); [now right | exact Hp].
Qed.

(** Every pattern of the table is in the fragment that [Regex.compile]
    reads. *)
Lemma intents_patterns_compile :
  Forall
    (fun kd => Forall (fun patt => Regex.compile (str patt) <> None)
                      (patterns (snd kd)))
    INTENTS.
Proof.
  repeat constructor; discriminate.
Qed.

End IntentFacts.

(** C8. [match_intent] searches the lowercased raw text (punctuation kept),
    takes the rules in declared order and returns the identifier of the first
    rule one of whose patterns is found, and [None] when no pattern of any
    rule is found; ["Hello there"] gives ["greeting"] and ["xyz"] gives
    [None]. *)
Theorem match_intent_first_rule (s : text) :
  (forall k, Intents.match_intent s = Some k
             <-> first_matching Intents.INTENTS (lower s) k)
  /\ (Intents.match_intent s = None
      <-> none_matching Intents.INTENTS (lower s))
  /\ Intents.match_intent (str "Hello there") = Some (str "greeting")
  /\ Intents.match_intent (str "xyz") = None
  /\ Intents.match_intent (str "How's it going?") = Some (str "how_are_you")
  /\ Intents.match_rules Intents.INTENTS (normalize (str "How's it going?"))
     = None.
Proof.
  split; [intros k; apply match_rules_some |].
  split; [apply match_rules_none |].
  repeat split; vm_compute; reflexivity.
Qed.

(** ** The token-overlap stage *)

Section OverlapFacts.

Import KB.

Lemma pair_ltb_lt (x y : nat * nat) :
  pair_ltb x y = true
  <-> fst x < fst y \/ (fst x = fst y /\ snd x < snd y).
Proof.
  unfold pair_ltb.
  rewrite orb_true_iff, andb_true_iff, !Nat.ltb_lt, Nat.eqb_eq. tauto.
Qed.

Lemma pair_ltb_ge (x y : nat * nat) :
  pair_ltb x y = false
  <-> fst y < fst x \/ (fst y = fst x /\ snd y <= snd x).
Proof.
  destruct (pair_ltb x y) eqn:E.
  - apply pair_ltb_lt in E. split; [discriminate | lia].
  - split; [intros _ | reflexivity].
    assert (H : ~ (fst x < fst y \/ (fst x = fst y /\ snd x < snd y))).
    { intros H. apply pair_ltb_lt in H. congruence. }
    lia.
Qed.

Lemma insert_desc_nonempty (x : nat * nat) (l : list (nat * nat)) :
  insert_desc x l <> [].
Proof.
  destruct l as [| y l]; simpl; [| destruct (pair_ltb x y)]; discriminate.
Qed.

Lemma sort_reverse_nil (l : list (nat * nat)) :
  sort_reverse l = [] -> l = [].
Proof.
  destruct l as [| x l]; [reflexivity |]. simpl. intros H.
  now apply insert_desc_nonempty in H.
Qed.

(** The head of the sorted list is the greatest pair. *)
Lemma sort_reverse_head (l : list (nat * nat)) (m : nat * nat)
    (r : list (nat * nat)) :
  sort_reverse l = m :: r ->
  In m l /\ forall y, In y l -> pair_ltb m y = false.
Proof.
  revert m r. induction l as [| x l IH]; intros m r; simpl; [discriminate |].
  fold (sort_reverse l). destruct (sort_reverse l) as [| m' r'] eqn:Es; simpl.
  - apply sort_reverse_nil in Es. subst l. intros H. injection H as <- _.
    split; [now left |]. intros y [<- | []].
    apply pair_ltb_ge. lia.
  - destruct (IH m' r' eq_refl) as [Hin Hmax].
    destruct (pair_ltb x m') eqn:E; intros H; injection H as <- _.
    + split; [now right |]. intros y [<- | Hy].
      * apply pair_ltb_lt in E. apply pair_ltb_ge. lia.
      * now apply Hmax.
    + split; [now left |]. intros y [<- | Hy].
      * apply pair_ltb_ge. lia.
      * specialize (Hmax y Hy). apply pair_ltb_ge in E, Hmax.
        apply pair_ltb_ge. lia.
Qed.

Lemma overlap_scores_In (tokens : list text) (qs : list text)
    (idx ov i : nat) :
  In (ov, i) (overlap_scores_from tokens idx qs)
  <-> exists k q, nth_error qs k = Some q /\ i = idx + k
                  /\ ov = inter_len tokens (to_set (split q)).
Proof.
  revert idx. induction qs as [| q0 qs IH]; intros idx; simpl.
  - split; [intros [] | intros [[| k] [q [H _]]]; discriminate].
  - rewrite IH. split.
    + intros [E | [k [q [Hk [-> ->]]]]].
      * injection E as <- <-. exists 0, q0. simpl. repeat split; lia.
      * exists (S k), q. simpl. repeat split; [exact Hk | lia].
    + intros [[| k] [q [Hk [-> ->]]]]; simpl in Hk.
      * injection Hk as ->. left. f_equal. lia.
      * right. exists k, q. repeat split; [exact Hk | lia].
Qed.

Lemma nth_error_questions (kb : list entry) (k : nat) :
  nth_error (questions kb) k
  = option_map (fun e => normalize (question e)) (nth_error kb k).
Proof. unfold questions. apply nth_error_map. Qed.

Lemma score_of_record (user_input : text) (kb : list entry) (ov i : nat) :
  In (ov, i) (overlap_scores_from (user_tokens user_input) 0 (questions kb))
  <-> exists e, nth_error kb i = Some e /\ ov = overlap user_input e.
Proof.
  rewrite overlap_scores_In. split.
  - intros [k [q [Hk [-> ->]]]]. rewrite nth_error_questions in Hk.
    destruct (nth_error kb k) as [e |] eqn:Ee; [| discriminate].
    injection Hk as <-. now exists e.
  - intros [e [He ->]]. exists i, (normalize (question e)).
    rewrite nth_error_questions, He. repeat split.
Qed.

(** What [overlap_scores[0]] is after the sort. *)
Lemma best_latest_max (user_input : text) (kb : list entry) :
  kb <> [] ->
  exists i e,
    best user_input kb = Return (overlap user_input e, i)
    /\ latest_max_overlap user_input kb i e.
Proof.
  intros Hkb. unfold best, index_at.
  destruct (sort_reverse _) as [| [ov i] r] eqn:Es.
  - apply sort_reverse_nil in Es. destruct kb; [contradiction | discriminate].
  - apply sort_reverse_head in Es. destruct Es as [Hin Hmax].
    apply score_of_record in Hin. destruct Hin as [e [He ->]].
    exists i, e. split; [reflexivity |].
    assert (Hcmp : forall j e', nth_error kb j = Some e' ->
              overlap user_input e' < overlap user_input e
              \/ (overlap user_input e' = overlap user_input e /\ j <= i)).
    { intros j e' He'.
      assert (Hj : In (overlap user_input e', j)
                 (overlap_scores_from (user_tokens user_input) 0
                    (questions kb)))
        by (apply score_of_record; now exists e').
      apply Hmax, pair_ltb_ge in Hj. simpl in Hj. exact Hj. }
    split; [split; [exact He |] |].
    + intros j e' He'. destruct (Hcmp j e' He'); lia.
    + intros j e' He' Hlt. destruct (Hcmp j e' He'); lia.
Qed.

Lemma overlap_stage_eq (user_input : text) (kb : list entry) (cutoff : Q)
    (i : nat) (e : entry) :
  best user_input kb = Return (overlap user_input e, i) ->
  nth_error kb i = Some e ->
  overlap_stage user_input kb cutoff
  = Return
      (if (0 <? overlap user_input e)
          && Qle_bool cutoff
               (overlap_ratio (overlap user_input e) (question_size e))
       then Some (answer e) else None).
Proof.
  intros Hb He. unfold overlap_stage. rewrite Hb. simpl.
  destruct (0 <? overlap user_input e); [| reflexivity].
  unfold index_at. rewrite nth_error_questions, He. simpl.
  fold (tokenize (question e)). fold (question_size e).
  destruct (Qle_bool cutoff _); reflexivity.
Qed.

Lemma latest_max_unique (user_input : text) (kb : list entry)
    (i i' : nat) (e e' : entry) :
  latest_max_overlap user_input kb i e ->
  latest_max_overlap user_input kb i' e' ->
  i = i' /\ e = e'.
Proof.
  intros [[He Hm] Hl] [[He' Hm'] Hl'].
  assert (i = i').
  { destruct (Nat.lt_trichotomy i i') as [H | [H | H]]; [| exact H |].
    - specialize (Hl i' e' He' H). specialize (Hm' i e He). lia.
    - specialize (Hl' i e He H). specialize (Hm i' e' He'). lia. }
  subst i'. split; [reflexivity | congruence].
Qed.

End OverlapFacts.

(** ** [find_longest_match] returns a block of equal elements inside its
       region *)

Section LongestMatchFacts.

Import Difflib.

Variables a b : text.

Lemma indices_from_spec (s : text) (x : ascii) (from j : nat) :
  In j (indices_from from s x) ->
  from <= j /\ nth_error s (j - from) = Some x.
Proof.
  revert from. induction s as [| c s IH]; intros from; simpl; [intros [] |].
  destruct (Ascii.eqb c x) eqn:E.
  - intros [<- | H].
    + apply Ascii.eqb_eq in E. subst c. rewrite Nat.sub_diag. auto.
    + apply IH in H. destruct H as [Hle Hn]. split; [lia |].
      replace (j - from) with (S (j - S from)) by lia. exact Hn.
  - intros H. apply IH in H. destruct H as [Hle Hn]. split; [lia |].
    replace (j - from) with (S (j - S from)) by lia. exact Hn.
Qed.

Lemma b2j_spec (x : ascii) (j : nat) :
  In j (b2j b x) -> j < List.length b /\ elt b j = x.
Proof.
  unfold b2j. destruct (popular b x); [intros [] |].
  intros H. apply indices_from_spec in H. destruct H as [_ H].
  rewrite Nat.sub_0_r in H. split.
  - apply nth_error_Some. congruence.
  - unfold elt. now apply nth_error_nth.
Qed.

Section Region.

Variables alo ahi blo bhi : nat.
Hypothesis Ha : alo <= ahi.
Hypothesis Hb : blo <= bhi.

Lemma prev_len_spec (i : nat) (d : list (nat * nat)) (j : nat) :
  ends_before a b alo ahi blo bhi i d -> 0 < prev_len d j ->
  0 < j /\ good_block a b alo ahi blo bhi
             (i - prev_len d j, j - prev_len d j, prev_len d j)
        /\ prev_len d j <= i /\ prev_len d j <= j.
Proof.
  intros Hd Hk. destruct j as [| j']; cbn [prev_len] in *; [lia |].
  unfold j2len_get in *.
  destruct (find _ d) as [[j0 k0] |] eqn:Ef; cbn [snd] in *; [| lia].
  apply find_some in Ef. destruct Ef as [Hin E]. cbn [fst] in E.
  apply Nat.eqb_eq in E. subst j0.
  destruct (Hd j' k0 Hin Hk) as [Hg [H1 H2]].
  replace (j' + 1 - k0) with (S j' - k0) in Hg by lia.
  split; [lia |]. split; [exact Hg | lia].
Qed.

Lemma row_spec (i : nat) (j2len : list (nat * nat)) (js : list nat) :
  alo <= i < ahi ->
  ends_before a b alo ahi blo bhi i j2len ->
  (forall j, In j js -> j < List.length b /\ elt b j = elt a i) ->
  forall newj2len best,
  ends_before a b alo ahi blo bhi (S i) newj2len ->
  good_block a b alo ahi blo bhi best ->
  ends_before a b alo ahi blo bhi (S i)
    (fst (row blo bhi i j2len js newj2len best))
  /\ good_block a b alo ahi blo bhi
       (snd (row blo bhi i j2len js newj2len best)).
Proof.
  intros Hi Hd. induction js as [| j js IH]; intros Hjs newj2len best Hn Hbest;
    simpl; [auto |].
  assert (Hjs' : forall j', In j' js ->
                   j' < List.length b /\ elt b j' = elt a i)
    by (intros j' H; apply Hjs; now right).
  destruct (j <? blo) eqn:E1; [now apply IH |].
  destruct (bhi <=? j) eqn:E2; [auto |].
  apply Nat.ltb_ge in E1. apply Nat.leb_gt in E2.
  destruct (Hjs j (or_introl eq_refl)) as [Hjlen Hjeq].
  set (k := prev_len j2len j + 1).
  assert (Hnew : good_block a b alo ahi blo bhi (S i - k, j + 1 - k, k)
                 /\ k <= S i /\ k <= j + 1).
  { subst k. destruct (prev_len j2len j) as [| p] eqn:Ep.
    - replace (S i - (0 + 1)) with i by lia.
      replace (j + 1 - (0 + 1)) with j by lia.
      unfold good_block. repeat split; try lia.
      intros t Ht. replace t with 0 by lia. now rewrite !Nat.add_0_r.
    - assert (Hp : 0 < prev_len j2len j) by lia.
      destruct (prev_len_spec i j2len j Hd Hp) as [Hj0 [Hg [H1 H2]]].
      rewrite Ep in Hg, H1, H2. unfold good_block in Hg.
      destruct Hg as [G1 [G2 [G3 [G4 G5]]]].
      replace (S i - (S p + 1)) with (i - S p) by lia.
      replace (j + 1 - (S p + 1)) with (j - S p) by lia.
      unfold good_block. repeat split; try lia.
      intros t Ht. destruct (Nat.eq_dec t (S p)) as [-> | Hne].
      + replace (i - S p + S p) with i by lia.
        replace (j - S p + S p) with j by lia. now symmetry.
      + apply G5. lia. }
  apply IH; [exact Hjs' | |].
  - intros j0 k0 [E | Hin] Hk0.
    + injection E as <- <-. fold k. exact Hnew.
    + now apply Hn.
  - fold k. destruct (size_of best <? k); [| exact Hbest].
    replace (i + 1 - k) with (S i - k) by lia. apply Hnew.
Qed.

Lemma longest_junk_free_good :
  ahi <= List.length a ->
  good_block a b alo ahi blo bhi (longest_junk_free a b alo ahi blo bhi).
Proof.
  intros Hla. unfold longest_junk_free.
  assert (Hgen : forall n i st,
    i + n = ahi -> alo <= i ->
    ends_before a b alo ahi blo bhi i (fst st) ->
    good_block a b alo ahi blo bhi (snd st) ->
    good_block a b alo ahi blo bhi
      (snd (fold_left
              (fun (st : list (nat * nat) * block) i =>
                 row blo bhi i (fst st) (b2j b (elt a i)) [] (snd st))
              (seq i n) st))).
  { induction n as [| n IH]; intros i st Hin Hi Hd Hbest; simpl;
      [exact Hbest |].
    assert (Hi' : alo <= i < ahi) by lia.
    destruct (row_spec i (fst st) (b2j b (elt a i)) Hi' Hd
                (fun j H => b2j_spec _ j H) [] (snd st)
                (fun j k H => match H with end) Hbest) as [R1 R2].
    apply IH; [lia | lia | exact R1 | exact R2]. }
  apply (Hgen (ahi - alo) alo).
  - lia.
  - lia.
  - intros j k Hin. destruct Hin.
  - unfold good_block. repeat split; lia.
Qed.

Lemma extend_left_good (besti bestj bestsize : nat) :
  good_block a b alo ahi blo bhi (besti, bestj, bestsize) ->
  good_block a b alo ahi blo bhi (extend_left a b alo blo besti bestj bestsize).
Proof.
  revert bestj bestsize. induction besti as [| i' IH]; intros bestj bestsize Hg;
    simpl; [exact Hg |].
  destruct bestj as [| j']; [exact Hg |].
  destruct ((alo <? S i') && (blo <? S j') && Ascii.eqb (elt a i') (elt b j'))
    eqn:E; [| exact Hg].
  apply andb_true_iff in E. destruct E as [E E3].
  apply andb_true_iff in E. destruct E as [E1 E2].
  apply Nat.ltb_lt in E1, E2. apply Ascii.eqb_eq in E3.
  apply IH. simpl in Hg. destruct Hg as [G1 [G2 [G3 [G4 G5]]]].
  simpl. repeat split; try lia.
  intros t Ht. destruct t as [| t].
  - now rewrite !Nat.add_0_r.
  - replace (i' + S t) with (S i' + t) by lia.
    replace (j' + S t) with (S j' + t) by lia. apply G5. lia.
Qed.

Lemma extend_right_good (n besti bestj bestsize : nat) :
  good_block a b alo ahi blo bhi (besti, bestj, bestsize) ->
  good_block a b alo ahi blo bhi
    (extend_right a b ahi bhi n besti bestj bestsize).
Proof.
  revert bestsize. induction n as [| n IH]; intros bestsize Hg; simpl;
    [exact Hg |].
  destruct ((besti + bestsize <? ahi) && (bestj + bestsize <? bhi)
            && Ascii.eqb (elt a (besti + bestsize)) (elt b (bestj + bestsize)))
    eqn:E; [| exact Hg].
  apply andb_true_iff in E. destruct E as [E E3].
  apply andb_true_iff in E. destruct E as [E1 E2].
  apply Nat.ltb_lt in E1, E2. apply Ascii.eqb_eq in E3.
  apply IH. simpl in Hg. destruct Hg as [G1 [G2 [G3 [G4 G5]]]].
  simpl. repeat split; try lia.
  intros t Ht. destruct (Nat.eq_dec t bestsize) as [-> | Hne];
    [exact E3 | apply G5; lia].
Qed.

(** The bound on the rounds of [extend_right] is never what stops it. *)
Lemma extend_right_done (n besti bestj bestsize : nat) :
  ahi - (besti + bestsize) <= n ->
  let '(i, j, k) := extend_right a b ahi bhi n besti bestj bestsize in
  (i + k <? ahi) && (j + k <? bhi)
  && Ascii.eqb (elt a (i + k)) (elt b (j + k)) = false.
Proof.
  revert bestsize. induction n as [| n IH]; intros bestsize Hn;
    cbn [extend_right].
  - replace (besti + bestsize <? ahi) with false
      by (symmetry; apply Nat.ltb_ge; lia).
    reflexivity.
  - destruct ((besti + bestsize <? ahi) && (bestj + bestsize <? bhi)
              && Ascii.eqb (elt a (besti + bestsize))
                           (elt b (bestj + bestsize))) eqn:E.
    + apply IH.
      apply andb_true_iff in E. destruct E as [E _].
      apply andb_true_iff in E. destruct E as [E _].
      apply Nat.ltb_lt in E. lia.
    + exact E.
Qed.

Lemma find_longest_match_good :
  ahi <= List.length a ->
  good_block a b alo ahi blo bhi (find_longest_match a b alo ahi blo bhi).
Proof.
  intros Hla. unfold find_longest_match.
  pose proof (longest_junk_free_good Hla) as H0.
  destruct (longest_junk_free a b alo ahi blo bhi) as [[i0 j0] k0].
  pose proof (extend_left_good i0 j0 k0 H0) as H1.
  destruct (extend_left a b alo blo i0 j0 k0) as [[i1 j1] k1].
  now apply extend_right_good.
Qed.

End Region.

End LongestMatchFacts.

(** ** The matching blocks pair up equal elements *)

Section CommonFacts.

Import Difflib.

Lemma all_chars_once (x : ascii) :
  list_sum (map (fun c => if ascii_dec x c then 1 else 0) all_chars) = 1.
Proof.
  destruct x as [[|] [|] [|] [|] [|] [|] [|] [|]]; vm_compute; reflexivity.
Qed.

Lemma list_sum_map_le {A : Type} (f g : A -> nat) (l : list A) :
  (forall x, f x <= g x) -> list_sum (map f l) <= list_sum (map g l).
Proof.
  intros H. induction l as [| x l IH]; simpl; [lia |].
  specialize (H x). lia.
Qed.

Lemma sum_counts (s : text) :
  list_sum (map (fun c => count c s) all_chars) = List.length s.
Proof.
  induction s as [| x s IH]; cbn [List.length].
  - unfold count. cbn [count_occ].
    generalize all_chars. intros l. induction l; simpl; auto.
  - transitivity
      (list_sum
         (map (fun c => (if ascii_dec x c then 1 else 0) + count c s)
              all_chars)).
    + f_equal. apply map_ext. intros c. unfold count. cbn [count_occ].
      now destruct (ascii_dec x c).
    + now rewrite list_sum_map_add, all_chars_once, IH.
Qed.

Lemma count_app (c : ascii) (x y : text) :
  count c (x ++ y) = count c x + count c y.
Proof. apply count_occ_app. Qed.

Lemma common_app3 (x1 m x2 y1 y2 : text) :
  common x1 y1 + List.length m + common x2 y2
  <= common (x1 ++ m ++ x2) (y1 ++ m ++ y2).
Proof.
  unfold common. rewrite <- (sum_counts m), <- !list_sum_map_add.
  apply list_sum_map_le. intros c. rewrite !count_app. lia.
Qed.

Lemma common_le_l (x y : text) : common x y <= List.length x.
Proof.
  unfold common. rewrite <- (sum_counts x).
  apply list_sum_map_le. intros c. lia.
Qed.

Lemma common_le_r (x y : text) : common x y <= List.length y.
Proof.
  unfold common. rewrite <- (sum_counts y).
  apply list_sum_map_le. intros c. lia.
Qed.

Lemma firstn_add {A : Type} (n m : nat) (l : list A) :
  firstn (n + m) l = firstn n l ++ firstn m (skipn n l).
Proof.
  revert l. induction n as [| n IH]; intros l; simpl; [reflexivity |].
  destruct l as [| x l]; simpl.
  - now rewrite firstn_nil.
  - now rewrite IH.
Qed.

Lemma slice_split (s : text) (lo mid hi : nat) :
  lo <= mid -> mid <= hi ->
  slice s lo hi = slice s lo mid ++ slice s mid hi.
Proof.
  intros H1 H2. unfold slice.
  replace (hi - lo) with ((mid - lo) + (hi - mid)) by lia.
  rewrite firstn_add, skipn_skipn.
  now replace (mid - lo + lo) with mid by lia.
Qed.

Lemma slice_all (s : text) : slice s 0 (List.length s) = s.
Proof. unfold slice. simpl. rewrite Nat.sub_0_r. apply firstn_all. Qed.

Lemma skipn_elt (s : text) (i : nat) :
  i < List.length s -> skipn i s = elt s i :: skipn (S i) s.
Proof.
  revert i. induction s as [| x s IH]; intros i Hi; simpl in Hi; [lia |].
  destruct i as [| i]; [reflexivity |].
  simpl. rewrite IH by lia. reflexivity.
Qed.

Lemma slice_eq (a b : text) (k i j : nat) :
  i + k <= List.length a -> j + k <= List.length b ->
  (forall t, t < k -> elt a (i + t) = elt b (j + t)) ->
  slice a i (i + k) = slice b j (j + k).
Proof.
  unfold slice. replace (i + k - i) with k by lia.
  replace (j + k - j) with k by lia.
  revert i j. induction k as [| k IH]; intros i j Ha Hb H; [reflexivity |].
  rewrite (skipn_elt a i), (skipn_elt b j) by lia. cbn [firstn].
  f_equal.
  - specialize (H 0). rewrite !Nat.add_0_r in H. apply H. lia.
  - apply IH; try lia. intros t Ht.
    replace (S i + t) with (i + S t) by lia.
    replace (S j + t) with (j + S t) by lia. apply H. lia.
Qed.

Lemma slice_length (s : text) (lo hi : nat) :
  hi <= List.length s -> List.length (slice s lo hi) = hi - lo.
Proof.
  intros H. unfold slice. rewrite length_firstn, length_skipn. lia.
Qed.

End CommonFacts.

Section BlocksFacts.

Import Difflib.

Variables a b : text.

Lemma total_size_app (l l' : list block) :
  total_size (l ++ l') = total_size l + total_size l'.
Proof. unfold total_size. now rewrite map_app, list_sum_app. Qed.

(** A block found in a region leaves at most the rest of the common
    elements to the regions on its two sides. *)
Lemma region_common_split (alo ahi blo bhi i j k : nat) :
  region_ok a b (alo, ahi, blo, bhi) ->
  good_block a b alo ahi blo bhi (i, j, k) ->
  region_common a b (alo, i, blo, j) + k
  + region_common a b (i + k, ahi, j + k, bhi)
  <= region_common a b (alo, ahi, blo, bhi).
Proof.
  intros [R1 [R2 [R3 R4]]] [G1 [G2 [G3 [G4 G5]]]]. unfold region_common.
  rewrite (slice_split a alo i ahi), (slice_split a i (i + k) ahi) by lia.
  rewrite (slice_split b blo j bhi), (slice_split b j (j + k) bhi) by lia.
  rewrite <- (slice_eq a b k i j) by (try lia; exact G5).
  replace k with (List.length (slice a i (i + k))) at 1
    by (rewrite slice_length; lia).
  apply common_app3.
Qed.

Lemma list_sum_cons (x : nat) (l : list nat) :
  list_sum (x :: l) = x + list_sum l.
Proof. reflexivity. Qed.

Lemma push_region (c : bool) (q : quad) (queue : list quad) :
  region_ok a b q -> Forall (region_ok a b) queue ->
  Forall (region_ok a b) (if c then q :: queue else queue)
  /\ list_sum (map region_weight (if c then q :: queue else queue))
     <= list_sum (map region_weight queue) + region_weight q
  /\ list_sum (map (region_common a b) (if c then q :: queue else queue))
     <= list_sum (map (region_common a b) queue) + region_common a b q.
Proof.
  intros Hq Hqueue. destruct c.
  - split; [now constructor |]. cbn [map]. rewrite !list_sum_cons. lia.
  - split; [exact Hqueue | lia].
Qed.

(** The loop ends before its fuel does, and the blocks it adds are no more
    than the common elements of the regions it was given. *)
Lemma blocks_loop_spec (fuel : nat) :
  forall (queue : list quad) (acc : list block),
  Forall (region_ok a b) queue ->
  list_sum (map region_weight queue) <= fuel ->
  exists l,
    blocks_loop a b fuel queue acc = Some l
    /\ total_size l
       <= total_size acc + list_sum (map (region_common a b) queue).
Proof.
  induction fuel as [| fuel IH]; intros queue acc Hok Hw.
  - destruct queue as [| [[[alo ahi] blo] bhi] queue].
    + exists acc. simpl. split; [reflexivity | lia].
    + cbn [map] in Hw. rewrite list_sum_cons in Hw.
      cbn [region_weight] in Hw. lia.
  - destruct queue as [| [[[alo ahi] blo] bhi] queue].
    + exists acc. simpl. split; [reflexivity | lia].
    + inversion Hok as [| ? ? Hq Hrest]; subst.
      cbn [blocks_loop].
      pose proof Hq as [R1 [R2 [R3 R4]]].
      pose proof (find_longest_match_good a b alo ahi blo bhi R1 R3 R2) as Hg.
      destruct (find_longest_match a b alo ahi blo bhi) as [[i j] k].
      pose proof (region_common_split alo ahi blo bhi i j k Hq Hg) as Hsplit.
      pose proof Hg as [G1 [G2 [G3 [G4 G5]]]].
      cbn [map] in Hw. rewrite list_sum_cons in Hw. cbn [region_weight] in Hw.
      cbn [map]. rewrite list_sum_cons.
      destruct (0 <? k) eqn:Ek.
      * apply Nat.ltb_lt in Ek.
        assert (Hleft : region_ok a b (alo, i, blo, j)) by (hnf; lia).
        assert (Hright : region_ok a b (i + k, ahi, j + k, bhi)) by (hnf; lia).
        destruct (push_region ((alo <? i) && (blo <? j)) _ queue Hleft Hrest)
          as [Hok1 [Hw1 Hc1]].
        destruct (push_region ((i + k <? ahi) && (j + k <? bhi)) _ _
                    Hright Hok1) as [Hok2 [Hw2 Hc2]].
        cbn [region_weight] in Hw1, Hw2.
        destruct (IH _ (acc ++ [(i, j, k)]) Hok2) as [l [Hl Hs]]; [lia |].
        exists l. split; [exact Hl |].
        rewrite total_size_app in Hs. unfold total_size at 3 in Hs.
        cbn [map] in Hs. rewrite list_sum_cons in Hs.
        cbn [map list_sum fold_right size_of snd] in Hs. lia.
      * destruct (IH queue acc Hrest) as [l [Hl Hs]]; [lia |].
        exists l. split; [exact Hl | lia].
Qed.

Lemma total_size_cons (x : block) (l : list block) :
  total_size (x :: l) = size_of x + total_size l.
Proof. reflexivity. Qed.

Lemma insert_block_size (x : block) (l : list block) :
  total_size (insert_block x l) = size_of x + total_size l.
Proof.
  induction l as [| y l IH]; cbn [insert_block]; [reflexivity |].
  destruct (block_ltb y x); rewrite !total_size_cons; [rewrite IH |]; lia.
Qed.

Lemma sort_blocks_size (l : list block) :
  total_size (sort_blocks l) = total_size l.
Proof.
  induction l as [| x l IH]; [reflexivity |].
  change (sort_blocks (x :: l)) with (insert_block x (sort_blocks l)).
  now rewrite insert_block_size, IH, total_size_cons.
Qed.

Lemma collapse_size (blocks : list block) :
  forall cur non_adjacent,
  total_size (collapse cur blocks non_adjacent)
  = size_of cur + total_size blocks + total_size non_adjacent.
Proof.
  assert (Hnil : total_size [] = 0) by reflexivity.
  induction blocks as [| [[i2 j2] k2] rest IH]; intros [[i1 j1] k1] na;
    cbn [collapse].
  - destruct (0 <? k1) eqn:E.
    + rewrite total_size_app, total_size_cons. lia.
    + apply Nat.ltb_ge in E. cbn [size_of snd]. lia.
  - destruct ((i1 + k1 =? i2) && (j1 + k1 =? j2)).
    + rewrite IH, total_size_cons. cbn [size_of snd]. lia.
    + rewrite IH, total_size_cons. destruct (0 <? k1) eqn:E.
      * rewrite total_size_app, total_size_cons. cbn [size_of snd]. lia.
      * apply Nat.ltb_ge in E. cbn [size_of snd]. lia.
Qed.

(** The loop of [get_matching_blocks] runs to its end. *)
Lemma blocks_loop_terminates :
  exists l,
    blocks_loop a b (blocks_fuel a) [(0, List.length a, 0, List.length b)] []
    = Some l.
Proof.
  destruct (blocks_loop_spec (blocks_fuel a)
              [(0, List.length a, 0, List.length b)] []) as [l [Hl _]].
  - constructor; [hnf; lia | constructor].
  - unfold blocks_fuel. simpl. lia.
  - now exists l.
Qed.

(** The number of matches that [ratio] counts is at most the number of
    elements that [a] and [b] have in common. *)
Lemma matches_le_common :
  total_size (get_matching_blocks a b) <= common a b.
Proof.
  unfold get_matching_blocks.
  destruct (blocks_loop_spec (blocks_fuel a)
              [(0, List.length a, 0, List.length b)] []) as [l [Hl Hs]].
  - constructor; [hnf; lia | constructor].
  - unfold blocks_fuel. simpl. lia.
  - rewrite Hl, total_size_app, collapse_size, sort_blocks_size.
    rewrite total_size_cons. cbn [map] in Hs.
    rewrite list_sum_cons in Hs. cbn [region_common] in Hs.
    rewrite !slice_all in Hs.
    change (total_size []) with 0 in *. change (list_sum []) with 0 in Hs.
    cbn [size_of snd]. lia.
Qed.

End BlocksFacts.

(** ** [quick_ratio] counts the common elements *)

Section QuickFacts.

Import Difflib.

Variable b : text.

Lemma count_get_cons (d : list (ascii * Z)) (c x : ascii) (n : Z) :
  count_get ((c, n) :: d) x = if Ascii.eqb c x then Some n else count_get d x.
Proof.
  unfold count_get. cbn [find fst]. now destruct (Ascii.eqb c x).
Qed.

Lemma count_snoc (c x : ascii) (p : text) :
  count c (p ++ [x]) = count c p + (if ascii_dec x c then 1 else 0).
Proof.
  rewrite count_app. unfold count at 2. cbn [count_occ].
  now destruct (ascii_dec x c).
Qed.

Lemma fullbcount_tracks :
  tracks (fun x => Z.of_nat (count x b)) b (fullbcount b).
Proof.
  unfold fullbcount.
  assert (Hgen : forall s p d,
    tracks (fun x => Z.of_nat (count x p)) p d ->
    tracks (fun x => Z.of_nat (count x (p ++ s))) (p ++ s)
      (fold_left
         (fun d x =>
            (x, (match count_get d x with Some n => n | None => 0 end + 1)%Z)
            :: d) s d)).
  { induction s as [| c s IH]; intros p d Hd.
    - now rewrite app_nil_r.
    - cbn [fold_left].
      replace (p ++ c :: s) with ((p ++ [c]) ++ s)
        by (now rewrite <- app_assoc).
      apply IH. intros x. rewrite count_get_cons, count_snoc.
      destruct (Ascii.eqb c x) eqn:E.
      + apply Ascii.eqb_eq in E. subst x.
        destruct (ascii_dec c c) as [_ | N]; [| contradiction].
        rewrite (Hd c).
        destruct (count c p =? 0) eqn:E0.
        * apply Nat.eqb_eq in E0. rewrite E0. reflexivity.
        * replace (count c p + 1 =? 0) with false
            by (symmetry; apply Nat.eqb_neq; lia).
          f_equal. lia.
      + destruct (ascii_dec c x) as [-> | N].
        * rewrite Ascii.eqb_refl in E. discriminate.
        * rewrite Nat.add_0_r. apply Hd. }
  apply (Hgen b [] []). intros x. reflexivity.
Qed.

Lemma indicator_sum (x : ascii) (v : nat) :
  list_sum (map (fun c => if ascii_dec x c then v else 0) all_chars) = v.
Proof.
  transitivity
    (v * list_sum (map (fun c => if ascii_dec x c then 1 else 0) all_chars)).
  - generalize all_chars. intros l.
    induction l as [| c l IH]; cbn [map]; [simpl; lia |].
    rewrite !list_sum_cons, IH. destruct (ascii_dec x c); lia.
  - rewrite all_chars_once. lia.
Qed.

Lemma common_snoc (p : text) (x : ascii) :
  common (p ++ [x]) b
  = common p b + (if count x p <? count x b then 1 else 0).
Proof.
  unfold common.
  rewrite <- (indicator_sum x (if count x p <? count x b then 1 else 0)).
  rewrite <- list_sum_map_add. f_equal. apply map_ext. intros c.
  rewrite count_snoc. destruct (ascii_dec x c) as [<- | N].
  - destruct (count x p <? count x b) eqn:E;
      [apply Nat.ltb_lt in E | apply Nat.ltb_ge in E]; lia.
  - lia.
Qed.

Lemma quick_loop_common (s : text) :
  forall (p : text) (avail : list (ascii * Z)) (matches : nat),
  tracks (fun x => (Z.of_nat (count x b) - Z.of_nat (count x p))%Z) p avail ->
  matches = common p b ->
  quick_loop b s avail matches = common (p ++ s) b.
Proof.
  induction s as [| x s IH]; intros p avail matches Hav Hm.
  - now rewrite app_nil_r.
  - cbn [quick_loop].
    set (numb := match count_get avail x with
                 | Some n => n
                 | None => match count_get (fullbcount b) x with
                           | Some n => n
                           | None => 0%Z
                           end
                 end).
    assert (Hnumb : numb = (Z.of_nat (count x b) - Z.of_nat (count x p))%Z).
    { subst numb. rewrite (Hav x).
      destruct (count x p =? 0) eqn:E0; [| reflexivity].
      apply Nat.eqb_eq in E0. rewrite (fullbcount_tracks x).
      destruct (count x b =? 0) eqn:E1; [| lia].
      apply Nat.eqb_eq in E1. lia. }
    replace (p ++ x :: s) with ((p ++ [x]) ++ s)
      by (now rewrite <- app_assoc).
    apply IH.
    + intros y. rewrite count_get_cons, count_snoc.
      destruct (Ascii.eqb x y) eqn:E.
      * apply Ascii.eqb_eq in E. subst y.
        destruct (ascii_dec x x) as [_ | N]; [| contradiction].
        replace (count x p + 1 =? 0) with false
          by (symmetry; apply Nat.eqb_neq; lia).
        f_equal. lia.
      * destruct (ascii_dec x y) as [-> | N].
        -- rewrite Ascii.eqb_refl in E. discriminate.
        -- rewrite Nat.add_0_r. apply Hav.
    + rewrite common_snoc, Hm, Hnumb.
      destruct (count x p <? count x b) eqn:E;
        [apply Nat.ltb_lt in E | apply Nat.ltb_ge in E].
      * replace (0 <? Z.of_nat (count x b) - Z.of_nat (count x p))%Z
          with true by (symmetry; apply Z.ltb_lt; lia).
        reflexivity.
      * replace (0 <? Z.of_nat (count x b) - Z.of_nat (count x p))%Z
          with false by (symmetry; apply Z.ltb_ge; lia).
        lia.
Qed.

(** The number of matches that [quick_ratio] counts. *)
Lemma quick_matches (a : text) : quick_loop b a [] 0 = common a b.
Proof.
  apply (quick_loop_common a [] [] 0).
  - intros x. reflexivity.
  - unfold common. generalize all_chars. intros l.
    induction l as [| c l IH]; [reflexivity |].
    cbn [map]. rewrite list_sum_cons, <- IH. reflexivity.
Qed.

End QuickFacts.

(** ** The three ratios *)

Section RatioFacts.

Import Difflib.

Lemma calculate_ratio_mono (m m' len : nat) :
  m <= m' -> (calculate_ratio m len <= calculate_ratio m' len)%Q.
Proof.
  intros H. unfold calculate_ratio. destruct len as [| len].
  - apply Qle_refl.
  - unfold Qle. cbn [Qnum Qden]. apply Z.mul_le_mono_nonneg_r; lia.
Qed.

Lemma ratio_le_quick (a b : text) : (ratio a b <= quick_ratio a b)%Q.
Proof.
  unfold ratio, quick_ratio. apply calculate_ratio_mono.
  rewrite quick_matches. apply matches_le_common.
Qed.

Lemma quick_le_real_quick (a b : text) :
  (quick_ratio a b <= real_quick_ratio a b)%Q.
Proof.
  unfold quick_ratio, real_quick_ratio. apply calculate_ratio_mono.
  rewrite quick_matches.
  pose proof (common_le_l a b). pose proof (common_le_r a b). lia.
Qed.

(** A ratio lies between 0 and 1. *)
Lemma ratio_bounds (a b : text) : (0 <= ratio a b <= 1)%Q.
Proof.
  split.
  - unfold ratio, calculate_ratio.
    destruct (List.length a + List.length b); [discriminate |].
    unfold Qle. cbn [Qnum Qden]. lia.
  - eapply Qle_trans; [apply ratio_le_quick |].
    eapply Qle_trans; [apply quick_le_real_quick |].
    unfold real_quick_ratio, calculate_ratio.
    destruct (List.length a + List.length b) as [| n] eqn:E;
      [apply Qle_refl |].
    unfold Qle. cbn [Qnum Qden]. rewrite <- E. lia.
Qed.

(** The two quick tests of [get_close_matches] never reject a possibility
    that the real one accepts. *)
Lemma close_enough_ratio (word x : text) (cutoff : Q) :
  close_enough word x cutoff = Qle_bool cutoff (ratio x word).
Proof.
  unfold close_enough.
  destruct (Qle_bool cutoff (ratio x word)) eqn:E;
    [| now rewrite andb_false_r].
  apply Qle_bool_iff in E.
  assert (H1 : (cutoff <= quick_ratio x word)%Q)
    by (eapply Qle_trans; [exact E | apply ratio_le_quick]).
  assert (H2 : (cutoff <= real_quick_ratio x word)%Q)
    by (eapply Qle_trans; [exact H1 | apply quick_le_real_quick]).
  apply Qle_bool_iff in H1, H2. now rewrite H1, H2.
Qed.

End RatioFacts.

(** ** The order on scored possibilities and [get_close_matches] *)

Section CloseMatchesFacts.

Import Difflib.

Lemma code_inj (c d : ascii) : code c = code d -> c = d.
Proof.
  unfold code. intros H.
  rewrite <- (ascii_N_embedding c), <- (ascii_N_embedding d). now rewrite H.
Qed.

Lemma text_ltb_asym (x y : text) : text_ltb x y = true -> text_ltb y x = false.
Proof.
  revert y. induction x as [| c x IH]; intros [| d y]; simpl; try congruence.
  rewrite (N.compare_antisym (code c) (code d)).
  destruct (N.compare (code c) (code d)); simpl; try congruence. apply IH.
Qed.

Lemma text_ltb_ge_trans (x y z : text) :
  text_ltb y x = false -> text_ltb z y = false -> text_ltb z x = false.
Proof.
  revert y z. induction x as [| c x IH]; intros y z H1 H2.
  - now destruct z.
  - destruct y as [| d y]; [discriminate |].
    destruct z as [| e z]; [discriminate |].
    simpl in *.
    destruct (N.compare_spec (code d) (code c)) as [E1 | L1 | G1];
      try discriminate;
      destruct (N.compare_spec (code e) (code d)) as [E2 | L2 | G2];
      try discriminate;
      destruct (N.compare_spec (code e) (code c)) as [E3 | L3 | G3];
      try reflexivity; try lia.
    now apply (IH y z).
Qed.

Lemma text_ltb_antisym (x y : text) :
  text_ltb x y = false -> text_ltb y x = false -> x = y.
Proof.
  revert y. induction x as [| c x IH]; intros [| d y]; simpl;
    try congruence.
  destruct (N.compare_spec (code c) (code d)) as [E | L | G];
    destruct (N.compare_spec (code d) (code c)) as [E' | L' | G'];
    try discriminate; try lia.
  intros H1 H2. apply code_inj in E. subst d. f_equal. now apply IH.
Qed.

(** [p <= q] on scored possibilities. *)
Lemma scored_le_iff (p q : Q * text) :
  scored_gtb p q = false
  <-> (fst p < fst q)%Q
      \/ ((fst p == fst q)%Q /\ text_ltb (snd q) (snd p) = false).
Proof.
  unfold scored_gtb.
  destruct (Qcompare_spec (fst p) (fst q)) as [E | L | G].
  - split; [intros H; right; now split |].
    intros [L | [_ H]]; [| exact H].
    rewrite E in L. now apply Qlt_irrefl in L.
  - split; [now left | reflexivity].
  - split; [discriminate |].
    intros [L | [E _]].
    + exfalso. apply (Qlt_irrefl (fst p)). now apply Qlt_trans with (fst q).
    + rewrite E in G. now apply Qlt_irrefl in G.
Qed.

Lemma scored_le_trans (p q r : Q * text) :
  scored_gtb p q = false -> scored_gtb q r = false -> scored_gtb p r = false.
Proof.
  rewrite !scored_le_iff.
  intros [L1 | [E1 T1]] [L2 | [E2 T2]].
  - left. now apply Qlt_trans with (fst q).
  - left. now rewrite <- E2.
  - left. now rewrite E1.
  - right. split; [now rewrite E1 |].
    now apply text_ltb_ge_trans with (snd q).
Qed.

Lemma scored_gt_le (p q : Q * text) :
  scored_gtb p q = true -> scored_gtb q p = false.
Proof.
  unfold scored_gtb. rewrite <- (Qcompare_antisym (fst p) (fst q)).
  destruct (Qcompare (fst p) (fst q)); simpl; try congruence.
  apply text_ltb_asym.
Qed.

Lemma scored_le_refl (p : Q * text) : scored_gtb p p = false.
Proof.
  apply scored_le_iff. right. split; [reflexivity |].
  destruct (text_ltb (snd p) (snd p)) eqn:E; [| reflexivity].
  pose proof (text_ltb_asym _ _ E). congruence.
Qed.

(** [max] returns an element that none exceeds. *)
Lemma max_from_spec (l : list (Q * text)) :
  forall cur,
  In (max_from cur l) (cur :: l)
  /\ forall p, In p (cur :: l) -> scored_gtb p (max_from cur l) = false.
Proof.
  induction l as [| q l IH]; intros cur; cbn [max_from].
  - split; [now left |]. intros p [<- | []]. apply scored_le_refl.
  - destruct (IH (if scored_gtb q cur then q else cur)) as [Hin Hmax].
    split.
    + destruct (scored_gtb q cur); destruct Hin as [<- | Hin];
        simpl; auto.
    + intros p Hp. destruct (scored_gtb q cur) eqn:E.
      * destruct Hp as [<- | [<- | Hp]].
        -- apply scored_le_trans with q; [now apply scored_gt_le |].
           apply Hmax. now left.
        -- apply Hmax. now left.
        -- apply Hmax. now right.
      * destruct Hp as [<- | [<- | Hp]].
        -- apply Hmax. now left.
        -- apply scored_le_trans with cur; [exact E |].
           apply Hmax. now left.
        -- apply Hmax. now right.
Qed.

Lemma scored_candidates (word : text) (ps : list text) (cutoff : Q)
    (p : Q * text) :
  In p (flat_map
          (fun x => if close_enough word x cutoff then [(ratio x word, x)]
                    else [])
          ps)
  <-> In (snd p) ps /\ fst p = ratio (snd p) word
      /\ (cutoff <= ratio (snd p) word)%Q.
Proof.
  rewrite in_flat_map. split.
  - intros [x [Hx Hp]]. rewrite close_enough_ratio in Hp.
    destruct (Qle_bool cutoff (ratio x word)) eqn:E; [| destruct Hp].
    destruct Hp as [<- | []]. simpl. apply Qle_bool_iff in E. auto.
  - intros [Hin [Hf Hc]]. exists (snd p). split; [exact Hin |].
    rewrite close_enough_ratio. apply Qle_bool_iff in Hc. rewrite Hc.
    left. destruct p. simpl in *. now subst.
Qed.

(** What [get_close_matches(word, possibilities, n=1, cutoff=0.7)]
    returns. *)
Lemma close_matches_spec (word : text) (ps : list text) :
  (KB.difflib_close_matches word ps = Return []
   /\ forall x, In x ps -> ~ (7 # 10 <= ratio x word)%Q)
  \/ exists x,
       KB.difflib_close_matches word ps = Return [x]
       /\ In x ps /\ (7 # 10 <= ratio x word)%Q
       /\ forall y, In y ps -> (7 # 10 <= ratio y word)%Q ->
                    scored_gtb (ratio y word, y) (ratio x word, x) = false.
Proof.
  unfold KB.difflib_close_matches, get_close_matches_1.
  change (negb (Qle_bool 0 (7 # 10) && Qle_bool (7 # 10) 1)) with false.
  cbv iota.
  pose proof (scored_candidates word ps (7 # 10)) as Hc.
  destruct (flat_map _ ps) as [| p l] eqn:El.
  - left. split; [reflexivity |]. intros x Hx Hr.
    apply (proj2 (Hc (ratio x word, x))). simpl. auto.
  - right. cbn [nlargest1 map].
    destruct (max_from_spec l p) as [Hin Hmax].
    apply Hc in Hin. destruct Hin as [Hin [Hf Hr]].
    exists (snd (max_from p l)).
    split; [reflexivity |]. split; [exact Hin |]. split; [exact Hr |].
    intros y Hy Hyr.
    specialize (Hmax (ratio y word, y)).
    rewrite <- Hf. rewrite <- surjective_pairing.
    apply Hmax. apply Hc. simpl. auto.
Qed.

End CloseMatchesFacts.

(** ** The fallback stage *)

Section FallbackFacts.

Import KB.

Lemma list_index_spec (l : list text) (x : text) :
  In x l ->
  exists i, list_index l x = Return i
            /\ nth_error l i = Some x
            /\ forall j, j < i -> nth_error l j <> Some x.
Proof.
  induction l as [| y l IH]; intros Hin; [destruct Hin |].
  cbn [list_index]. destruct (text_eqb y x) eqn:E.
  - apply text_eqb_eq in E. subst y. exists 0.
    split; [reflexivity |]. split; [reflexivity |]. intros j Hj. lia.
  - apply text_eqb_neq in E.
    destruct Hin as [-> | Hin]; [contradiction |].
    destruct (IH Hin) as [i [Hi [Hn Hfirst]]].
    exists (S i). rewrite Hi. split; [reflexivity |].
    split; [exact Hn |]. intros [| j] Hj; simpl.
    + congruence.
    + apply Hfirst. lia.
Qed.

Lemma In_questions (kb : list entry) (x : text) :
  In x (questions kb) <-> exists e, In e kb /\ normalize (question e) = x.
Proof.
  unfold questions. rewrite in_map_iff. split.
  - intros [e [E H]]. now exists e.
  - intros [e [H E]]. now exists e.
Qed.

(** The fallback returns nothing when no question reaches 0.7, and
    otherwise answers with the record that [fallback_choice] names. *)
Lemma fallback_stage_spec (user_input : text) (kb : list entry) :
  (fallback_stage difflib_close_matches user_input kb = Return None
   /\ forall e, In e kb -> ~ (7 # 10 <= similarity user_input e)%Q)
  \/ exists i e,
       fallback_stage difflib_close_matches user_input kb
       = Return (Some (answer e))
       /\ fallback_choice user_input kb i e.
Proof.
  unfold fallback_stage.
  destruct (close_matches_spec (user_norm user_input) (questions kb))
    as [[Hr Hnone] | [x [Hr [Hin [Hx Hmax]]]]]; rewrite Hr; cbn [bind].
  - left. split; [reflexivity |]. intros e He.
    apply Hnone. apply In_questions. now exists e.
  - right. destruct (list_index_spec _ _ Hin) as [i [Hi [Hn Hfirst]]].
    rewrite Hi. cbn [bind].
    rewrite nth_error_questions in Hn.
    destruct (nth_error kb i) as [e |] eqn:Ee; [| discriminate].
    injection Hn as Hn. subst x.
    exists i, e. unfold index_at. rewrite Ee. cbn [bind].
    split; [reflexivity |].
    split; [exact Ee |]. split; [exact Hx |]. split.
    + intros e' He' Hs.
      assert (Hq : In (normalize (question e')) (questions kb))
        by (apply In_questions; now exists e').
      apply (Hmax _ Hq) in Hs. apply scored_le_iff in Hs. exact Hs.
    + intros j e' He' Hj Heq. apply (Hfirst j Hj).
      rewrite nth_error_questions, He'. simpl. now f_equal.
Qed.

Lemma fallback_choice_unique (user_input : text) (kb : list entry)
    (i i' : nat) (e e' : entry) :
  fallback_choice user_input kb i e ->
  fallback_choice user_input kb i' e' ->
  i = i' /\ e = e'.
Proof.
  intros [He [Hs [Hp Hf]]] [He' [Hs' [Hp' Hf']]].
  assert (Hq : normalize (question e) = normalize (question e')).
  { pose proof (Hp e' (nth_error_In _ _ He') Hs') as P1.
    pose proof (Hp' e (nth_error_In _ _ He) Hs) as P2.
    destruct P1 as [L1 | [E1 T1]], P2 as [L2 | [E2 T2]].
    - exfalso. apply (Qlt_irrefl (similarity user_input e)).
      now apply Qlt_trans with (similarity user_input e').
    - rewrite E2 in L1. now apply Qlt_irrefl in L1.
    - rewrite E1 in L2. now apply Qlt_irrefl in L2.
    - now apply text_ltb_antisym. }
  assert (i = i').
  { destruct (Nat.lt_trichotomy i i') as [H | [H | H]]; [| exact H |].
    - exfalso. now apply (Hf' i e He H).
    - exfalso. apply (Hf i' e' He' H). now symmetry. }
  subst i'. split; [reflexivity | congruence].
Qed.

(** With a non-empty base, [find_in_kb] always returns. *)
Lemma find_in_kb_returns (user_input : text) (kb : list entry) (cutoff : Q) :
  exists r, find_in_kb user_input kb cutoff = Return r.
Proof.
  unfold find_in_kb, find_in_kb_with.
  destruct kb as [| e0 kb']; [now exists None |].
  set (kb := e0 :: kb').
  destruct (best_latest_max user_input kb) as [i [e [Hb [[He _] _]]]];
    [discriminate |].
  rewrite (overlap_stage_eq _ _ _ _ _ Hb He). cbn [bind].
  destruct (_ && _); [now eexists |].
  destruct (fallback_stage_spec user_input kb)
    as [[Hr _] | [j [e' [Hr _]]]]; rewrite Hr; now eexists.
Qed.

End FallbackFacts.

(** ** The knowledge-base search *)


(** The stage in a tie: the second record is selected and [find_in_kb]
    answers with it. *)
Example overlap_tie_answer :
  KB.best (str "resize images photos") tie_kb = Return (2, 1)
  /\ KB.find_in_kb (str "resize images photos") tie_kb (6 # 10)
     = Return (Some "A2"%string).
Proof. split; vm_compute; reflexivity. Qed.

(** C1, as the specification states it, fails: with two records of the same
    greatest overlap the stage does not select the earliest one. *)
Lemma overlap_tie_not_earliest :
  ~ selects_earliest (str "resize images photos") tie_kb.
Proof.
  intros H.
  assert (Hb : KB.best (str "resize images photos") tie_kb = Return (2, 1))
    by (vm_compute; reflexivity).
  destruct (H 2 1 Hb) as [e [[He _] Hfirst]].
  injection He as <-.
  specialize (Hfirst 0 _ eq_refl (Nat.lt_0_succ 0)).
  vm_compute in Hfirst. lia.
Qed.

(** C1 (amended). For every non-empty record list the token-overlap stage
    selects a record with the greatest number of distinct tokens shared with
    the query, and among the records of that greatest overlap the latest one
    in the supplied order; an answer returned by the stage is the answer of
    that record. *)
Theorem overlap_stage_selects_latest (user_input : text)
    (kb : list KB.entry) :
  kb <> [] ->
  (exists i e,
     KB.best user_input kb = Return (overlap user_input e, i)
     /\ latest_max_overlap user_input kb i e)
  /\ (forall cutoff ans,
        KB.overlap_stage user_input kb cutoff = Return (Some ans) ->
        exists i e,
          latest_max_overlap user_input kb i e /\ KB.answer e = ans).
Proof.
  intros Hkb.
  destruct (best_latest_max user_input kb Hkb) as [i [e [Hb Hl]]].
  split; [now exists i, e |].
  intros cutoff ans H. exists i, e. split; [exact Hl |].
  destruct Hl as [[He _] _].
  rewrite (overlap_stage_eq _ _ cutoff _ _ Hb He) in H.
  destruct (_ && _); congruence.
Qed.

Lemma overlap_stage_selects_latest_witness :
  tie_kb <> []
  /\ (exists i e,
        KB.best (str "resize images photos") tie_kb
        = Return (overlap (str "resize images photos") e, i)
        /\ latest_max_overlap (str "resize images photos") tie_kb i e).
Proof.
  split; [discriminate |].
  apply (overlap_stage_selects_latest (str "resize images photos") tie_kb).
  discriminate.
Defined.

(** C2. When the record that the token-overlap stage selects has an overlap
    above zero and its overlap divided by [max(1, number of distinct tokens
    of its normalized question)] is at least [cutoff], [find_in_kb] returns
    the answer of that record whatever the whole-string fallback would
    compute: the fallback is not evaluated. *)
Theorem strong_overlap_skips_fallback (user_input : text)
    (kb : list KB.entry) (cutoff : Q) (ov i : nat) (e : KB.entry) :
  KB.best user_input kb = Return (ov, i) ->
  nth_error kb i = Some e ->
  0 < ov ->
  (cutoff <= KB.overlap_ratio ov (question_size e))%Q ->
  forall close_matches,
    KB.find_in_kb_with close_matches user_input kb cutoff
    = Return (Some (KB.answer e)).
Proof.
  intros Hb He Hov Hc close_matches.
  assert (Hkb : kb <> []) by (intros ->; destruct i; discriminate).
  destruct (best_latest_max user_input kb Hkb) as [i' [e' [Hb' [[He' _] _]]]].
  rewrite Hb in Hb'. injection Hb' as -> <-.
  assert (e' = e) by congruence. subst e'.
  unfold KB.find_in_kb_with. destruct kb as [| e0 kb']; [contradiction |].
  rewrite (overlap_stage_eq _ _ cutoff _ _ Hb He).
  apply Nat.ltb_lt in Hov. apply Qle_bool_iff in Hc.
  rewrite Hov, Hc. reflexivity.
Qed.

Lemma strong_overlap_skips_fallback_witness :
  KB.find_in_kb (str "flask ss") flask_kb (6 # 10) = Return (Some "A1"%string)
  /\ KB.fallback_stage KB.difflib_close_matches (str "flask ss") flask_kb
     = Return (Some "A2"%string).
Proof.
  split.
  - apply (strong_overlap_skips_fallback (str "flask ss") flask_kb (6 # 10)
             1 0 {| KB.question := str "flask"; KB.answer := "A1" |}).
    + vm_compute. reflexivity.
    + reflexivity.
    + lia.
    + vm_compute. discriminate.
  - vm_compute. reflexivity.
Defined.

(** C3, as the specification states it, fails: of two questions that tie on
    the greatest similarity the fallback answers with the second record. *)
Lemma fallback_tie_not_first :
  ~ fallback_first_on_ties (str "abcd") similar_kb.
Proof.
  intros H.
  specialize (H 0 {| KB.question := str "abcde"; KB.answer := "A1" |}
                1 {| KB.question := str "abcdf"; KB.answer := "A2" |}
                "A2"%string eq_refl eq_refl (Nat.lt_0_succ 0)).
  assert (Hans : "A2"%string = "A1"%string); [| discriminate Hans].
  apply H.
  - vm_compute. discriminate.
  - vm_compute. reflexivity.
  - intros e'' [<- | [<- | []]]; vm_compute; discriminate.
  - vm_compute. reflexivity.
Qed.

(** What [find_in_kb] returns once the token-overlap stage has not
    returned. *)
Lemma find_in_kb_after_overlap (user_input : text)
    (kb : list KB.entry) (cutoff : Q) :
  KB.overlap_stage user_input kb cutoff = Return None ->
  ((forall e, In e kb -> ~ (7 # 10 <= similarity user_input e)%Q) ->
   KB.find_in_kb user_input kb cutoff = Return None)
  /\ (forall i e,
        fallback_choice user_input kb i e ->
        KB.find_in_kb user_input kb cutoff = Return (Some (KB.answer e)))
  /\ ((exists e, In e kb /\ (7 # 10 <= similarity user_input e)%Q) ->
      exists i e, fallback_choice user_input kb i e).
Proof.
  intros Hov.
  assert (Hfind : KB.find_in_kb user_input kb cutoff
                  = KB.fallback_stage KB.difflib_close_matches user_input kb).
  { unfold KB.find_in_kb, KB.find_in_kb_with.
    destruct kb as [| e0 kb']; [discriminate Hov |].
    now rewrite Hov. }
  rewrite Hfind.
  destruct (fallback_stage_spec user_input kb)
    as [[Hr Hnone] | [j [e' [Hr Hch]]]].
  - split; [intros _; exact Hr |]. split.
    + intros i e [He [Hs _]]. exfalso.
      apply (Hnone e); [now apply nth_error_In in He | exact Hs].
    + intros [e [He Hs]]. exfalso. now apply (Hnone e).
  - split; [| split].
    + intros Hnone. exfalso. destruct Hch as [He' [Hs _]].
      apply (Hnone e'); [now apply nth_error_In in He' | exact Hs].
    + intros i e Hch'.
      destruct (fallback_choice_unique _ _ _ _ _ _ Hch Hch') as [_ <-].
      exact Hr.
    + intros _. now exists j, e'.
Qed.

(** C3 (amended). When the token-overlap stage does not return, [find_in_kb]
    answers with the record whose normalized question has the highest
    character-level similarity to the normalized query, provided that
    similarity is at least 0.7; of two different questions that tie on the
    similarity the one that is the greater string wins, whatever the record
    order, and of several records with that same normalized question the
    first one wins; if no question reaches 0.7 the result is none. *)
Theorem fallback_selects_best_scored (user_input : text)
    (kb : list KB.entry) (cutoff : Q) :
  KB.overlap_stage user_input kb cutoff = Return None ->
  ((forall e, In e kb -> ~ (7 # 10 <= similarity user_input e)%Q) ->
   KB.find_in_kb user_input kb cutoff = Return None)
  /\ (forall i e,
        fallback_choice user_input kb i e ->
        KB.find_in_kb user_input kb cutoff = Return (Some (KB.answer e)))
  /\ ((exists e, In e kb /\ (7 # 10 <= similarity user_input e)%Q) ->
      exists i e, fallback_choice user_input kb i e).
Proof. apply find_in_kb_after_overlap. Qed.

Lemma fallback_selects_best_scored_witness :
  KB.overlap_stage (str "abcd") similar_kb (6 # 10) = Return None
  /\ (exists i e, fallback_choice (str "abcd") similar_kb i e)
  /\ KB.find_in_kb (str "abcd") similar_kb (6 # 10)
     = Return (Some "A2"%string).
Proof.
  assert (Hov : KB.overlap_stage (str "abcd") similar_kb (6 # 10)
                = Return None) by (vm_compute; reflexivity).
  split; [exact Hov |].
  destruct (fallback_selects_best_scored (str "abcd") similar_kb (6 # 10) Hov)
    as [_ [_ Hex]].
  split.
  - apply Hex. exists {| KB.question := str "abcde"; KB.answer := "A1" |}.
    split; [now left | vm_compute; discriminate].
  - vm_compute. reflexivity.
Defined.

(** C4. [find_in_kb] with an empty record collection returns none; it
    never raises; and it returns none when neither stage reaches its
    threshold: at the default cutoff, when the record that the overlap
    stage selects shares no token with the query or has a ratio below 0.6
    and no question reaches the similarity 0.7; at any cutoff, when the
    overlap stage itself returns none and no question reaches 0.7. *)
Theorem find_in_kb_none_is_normal :
  (forall user_input cutoff,
     KB.find_in_kb user_input [] cutoff = Return None)
  /\ (forall user_input kb cutoff,
        exists r, KB.find_in_kb user_input kb cutoff = Return r)
  /\ (forall user_input kb,
        (forall i e,
           latest_max_overlap user_input kb i e ->
           overlap user_input e = 0
           \/ ~ (KB.default_cutoff
                 <= KB.overlap_ratio (overlap user_input e)
                                     (question_size e))%Q) ->
        (forall e, In e kb -> ~ (7 # 10 <= similarity user_input e)%Q) ->
        KB.find_in_kb user_input kb KB.default_cutoff = Return None)
  /\ (forall user_input kb cutoff,
        KB.overlap_stage user_input kb cutoff = Return None ->
        (forall e, In e kb -> ~ (7 # 10 <= similarity user_input e)%Q) ->
        KB.find_in_kb user_input kb cutoff = Return None).
Proof.
  split; [reflexivity |]. split; [apply find_in_kb_returns |].
  split; [| intros user_input kb cutoff Hov H2;
            now apply (find_in_kb_after_overlap user_input kb cutoff Hov)].
  intros user_input kb H1 H2.
  destruct kb as [| e0 kb']; [reflexivity |].
  set (kb := e0 :: kb') in *.
  destruct (best_latest_max user_input kb) as [i [e [Hb Hl]]];
    [discriminate |].
  assert (Hov : KB.overlap_stage user_input kb KB.default_cutoff
                = Return None).
  { destruct Hl as [[He Hm] Hlast].
    rewrite (overlap_stage_eq _ _ KB.default_cutoff _ _ Hb He).
    destruct (H1 i e (conj (conj He Hm) Hlast)) as [H0 | Hr].
    - now rewrite H0.
    - destruct (Qle_bool KB.default_cutoff _) eqn:E.
      + apply Qle_bool_iff in E. contradiction.
      + now rewrite andb_false_r. }
  now apply (find_in_kb_after_overlap user_input kb KB.default_cutoff Hov).
Qed.

Lemma find_in_kb_none_is_normal_witness :
  KB.find_in_kb (str "completely unrelated text") docs_kb KB.default_cutoff
  = Return None.
Proof.
  apply (proj1 (proj2 (proj2 find_in_kb_none_is_normal))).
  - intros i e [[He _] _]. left.
    destruct i as [| [| [| i]]]; simpl in He; try discriminate;
      injection He as <-; vm_compute; reflexivity.
  - intros e [<- | [<- | []]] H; vm_compute in H; apply H; reflexivity.
Defined.

(** ** The response of an intent *)

Section ResponseFacts.

Import Intents.

Lemma lookup_In (rules : list (text * rule)) (k : text) (data : rule) :
  NoDup (map fst rules) -> In (k, data) rules ->
  lookup rules k = Return data.
Proof.
  induction rules as [| [k0 d0] rest IH]; intros Hnd Hin; [destruct Hin |].
  inversion Hnd as [| ? ? Hk Hrest]; subst. cbn [lookup].
  destruct Hin as [E | Hin].
  - injection E as -> ->. now rewrite text_eqb_refl.
  - destruct (text_eqb k k0) eqn:E.
    + apply text_eqb_eq in E. subst k0. exfalso. apply Hk.
      apply in_map_iff. now exists (k, data).
    + now apply IH.
Qed.

Lemma lookup_absent (rules : list (text * rule)) (k : text) :
  (forall data, ~ In (k, data) rules) -> lookup rules k = Raise KeyError.
Proof.
  induction rules as [| [k0 d0] rest IH]; intros H; [reflexivity |].
  cbn [lookup]. destruct (text_eqb k k0) eqn:E.
  - apply text_eqb_eq in E. subst k0. exfalso. apply (H d0). now left.
  - apply IH. intros data Hin. apply (H data). now right.
Qed.

Lemma intent_keys_distinct : NoDup (map fst INTENTS).
Proof.
  apply (NoDup_count_occ' text_eq_dec). intros x Hx.
  simpl in Hx. repeat destruct Hx as [<- | Hx]; try reflexivity.
  contradiction.
Qed.

Lemma intent_responses_nonempty :
  Forall (fun kd => responses (snd kd) <> []) INTENTS.
Proof. repeat constructor; discriminate. Qed.

Lemma choice_In {A : Type} (randbelow : nat -> nat) (seq : list A) :
  (forall n, 0 < n -> randbelow n < n) -> seq <> [] ->
  exists r, choice randbelow seq = Return r /\ In r seq.
Proof.
  intros Hr Hne. destruct seq as [| x seq']; [contradiction |].
  unfold choice, index_at. set (seq := x :: seq') in *.
  assert (Hlt : randbelow (List.length seq) < List.length seq)
    by (apply Hr; simpl; lia).
  destruct (nth_error seq (randbelow (List.length seq))) as [r |] eqn:E.
  - exists r. split; [reflexivity | now apply nth_error_In in E].
  - apply nth_error_None in E. lia.
Qed.

End ResponseFacts.

(** C9. With a random source that draws below its bound, [intent_response]
    of a registered intent identifier returns one of the response templates
    of that intent, and of an identifier with no registered rule it raises
    [KeyError]; [find_in_kb], the other operation of the core that indexes
    into its data, never raises. *)
Theorem intent_response_known_or_raises (randbelow : nat -> nat) :
  (forall n, 0 < n -> randbelow n < n) ->
  (forall k data,
     In (k, data) Intents.INTENTS ->
     exists r, Intents.intent_response randbelow k = Return r
               /\ In r (Intents.responses data))
  /\ (forall k,
        (forall data, ~ In (k, data) Intents.INTENTS) ->
        Intents.intent_response randbelow k = Raise KeyError)
  /\ (forall user_input kb cutoff,
        exists r, KB.find_in_kb user_input kb cutoff = Return r).
Proof.
  intros Hr. split; [| split].
  - intros k data Hin. unfold Intents.intent_response.
    rewrite (lookup_In _ _ _ intent_keys_distinct Hin). cbn [bind].
    apply choice_In; [exact Hr |].
    pose proof intent_responses_nonempty as Hne.
    rewrite Forall_forall in Hne. apply (Hne (k, data) Hin).
  - intros k Hno. unfold Intents.intent_response.
    now rewrite (lookup_absent _ _ Hno).
  - apply find_in_kb_returns.
Qed.

Lemma intent_response_known_or_raises_witness :
  (forall n, 0 < n -> (fun n => n - 1) n < n)
  /\ Intents.intent_response (fun n => n - 1) (str "thanks")
     = Return "Anytime!"%string
  /\ Intents.intent_response (fun n => n - 1) (str "farewell")
     = Raise KeyError.
Proof.
  assert (Hr : forall n, 0 < n -> (fun n => n - 1) n < n)
    by (intros n Hn; simpl; lia).
  split; [exact Hr |].
  destruct (intent_response_known_or_raises (fun n => n - 1) Hr)
    as [_ [Hraise _]].
  split; [reflexivity |].
  apply Hraise. intros data Hin. simpl in Hin.
  repeat destruct Hin as [Hin | Hin]; try discriminate Hin. exact Hin.
Defined.

(** ** Tokens are the words of the lowercased text *)

Section WordsFacts.

Lemma space_not_word_char (c : ascii) : is_space c = true -> is_word c = false.
Proof.
  intros H. destruct (is_word c) eqn:E; [| reflexivity].
  apply word_not_space in E. congruence.
Qed.

Lemma is_word_lower_char (c : ascii) : is_word (lower_char c) = is_word c.
Proof.
  destruct c as [[|] [|] [|] [|] [|] [|] [|] [|]]; vm_compute; reflexivity.
Qed.

Lemma lower_char_idem (c : ascii) : lower_char (lower_char c) = lower_char c.
Proof.
  unfold lower_char at 1. now rewrite lower_char_not_upper.
Qed.

Lemma lower_idem (s : text) : lower (lower s) = lower s.
Proof.
  unfold lower. rewrite map_map. apply map_ext, lower_char_idem.
Qed.

(** Splitting at whitespace after the punctuation has become spaces is
    splitting at the characters that are not word characters. *)
Lemma split_sub_punct (s : text) :
  forall cur, split_from cur (sub_punct s) = words_from cur s.
Proof.
  induction s as [| c s IH]; intros cur; [reflexivity |].
  cbn [sub_punct map split_from words_from]. fold (sub_punct s).
  destruct (is_word c) eqn:Ew; cbn [orb].
  - rewrite (word_not_space c Ew). apply IH.
  - destruct (is_space c) eqn:Es.
    + rewrite Es. destruct cur; now rewrite IH.
    + rewrite space_is_space. destruct cur; now rewrite IH.
Qed.

Lemma split_sub_ws (s : text) :
  (forall cur, split_from cur (sub_ws false s) = split_from cur s)
  /\ split_from [] (sub_ws true s) = split_from [] s.
Proof.
  induction s as [| c s [IH1 IH2]]; [split; reflexivity |].
  cbn [sub_ws]. destruct (is_space c) eqn:Es.
  - split.
    + intros cur. cbn [split_from]. rewrite space_is_space, Es.
      destruct cur; now rewrite IH2.
    + cbn [split_from]. now rewrite Es.
  - split.
    + intros cur. cbn [split_from]. rewrite Es. apply IH1.
    + cbn [split_from]. rewrite Es. apply IH1.
Qed.

Lemma split_lstrip (s : text) : split (lstrip s) = split s.
Proof.
  unfold split. induction s as [| c s IH]; [reflexivity |].
  cbn [lstrip]. destruct (is_space c) eqn:Es.
  - cbn [split_from]. now rewrite Es.
  - reflexivity.
Qed.

Lemma rstrip_nil_spaces (s : text) :
  rstrip s = [] -> Forall (fun c => is_space c = true) s.
Proof.
  induction s as [| c s IH]; [constructor |].
  cbn [rstrip]. destruct (rstrip s) as [| y r].
  - destruct (is_space c) eqn:Es; [| discriminate].
    intros _. constructor; [exact Es | now apply IH].
  - discriminate.
Qed.

Lemma split_from_spaces (s : text) (cur : text) :
  Forall (fun c => is_space c = true) s ->
  split_from cur s = match cur with [] => [] | _ => [cur] end.
Proof.
  intros H. revert cur. induction H as [| c s Hc _ IH]; intros cur;
    [reflexivity |].
  cbn [split_from]. rewrite Hc. destruct cur; now rewrite IH.
Qed.

Lemma split_from_rstrip (s : text) :
  forall cur, split_from cur (rstrip s) = split_from cur s.
Proof.
  induction s as [| c s IH]; intros cur; [reflexivity |].
  cbn [rstrip]. destruct (rstrip s) as [| y r] eqn:Er.
  - pose proof (rstrip_nil_spaces s Er) as Hs.
    destruct (is_space c) eqn:Es.
    + cbn [split_from]. rewrite Es.
      destruct cur; now rewrite split_from_spaces.
    + cbn [split_from]. rewrite Es.
      rewrite (split_from_spaces s) by exact Hs.
      now destruct (cur ++ [c]).
  - cbn [split_from]. destruct (is_space c); [destruct cur |];
      now rewrite <- IH.
Qed.

Lemma tokenize_words_eq (s : text) : tokenize s = words (lower s).
Proof.
  unfold tokenize, normalize, strip, split, words.
  rewrite split_from_rstrip.
  fold (split (lstrip (sub_ws false (sub_punct (lower s))))).
  rewrite split_lstrip. unfold split.
  rewrite (proj1 (split_sub_ws _)). apply split_sub_punct.
Qed.

Lemma words_from_app_sep (s1 : text) (c : ascii) (s2 : text) :
  is_word c = false ->
  forall cur,
  words_from cur (s1 ++ c :: s2) = words_from cur s1 ++ words_from [] s2.
Proof.
  intros Hc. induction s1 as [| d s1 IH]; intros cur.
  - cbn [app words_from]. rewrite Hc. now destruct cur.
  - cbn [app words_from]. destruct (is_word d); [apply IH |].
    destruct cur; now rewrite IH.
Qed.

Lemma words_from_nil_iff (s cur : text) :
  words_from cur s = []
  <-> cur = [] /\ Forall (fun c => is_word c = false) s.
Proof.
  revert cur. induction s as [| c s IH]; intros cur; cbn [words_from].
  - destruct cur; split; try discriminate; auto.
    intros [E _]. discriminate.
  - destruct (is_word c) eqn:Ew.
    + rewrite IH. split.
      * intros [E _]. now destruct cur.
      * intros [_ H]. inversion H; congruence.
    + destruct cur as [| x cur'].
      * rewrite IH. split; intros [E H]; (split; [reflexivity |]).
        -- now constructor.
        -- now inversion H.
      * split; [discriminate | intros [E _]; discriminate].
Qed.

Lemma join_space_cons (t w : text) (ws : list text) :
  join_space (t :: w :: ws) = t ++ space :: join_space (w :: ws).
Proof. reflexivity. Qed.

(** Joining what [split] gives with single spaces rebuilds a text that has
    only single spaces between its words. *)
Lemma join_split_from (s : text) :
  Forall (fun c => is_space c = true -> c = space) s ->
  single_spaced s -> no_trailing_space s ->
  forall cur,
  (cur = [] -> no_leading_space s) ->
  Forall (fun c => is_space c = false) cur ->
  join_space (split_from cur s) = cur ++ s.
Proof.
  induction 1 as [| c s Hc _ IH]; intros Hss Ht cur Hl Hcur.
  - cbn [split_from]. rewrite app_nil_r. now destruct cur.
  - destruct Hss as [Hadj Hss].
    assert (Ht' : no_trailing_space s).
    { intros s' d ->. apply (Ht (c :: s') d). reflexivity. }
    cbn [split_from]. destruct (is_space c) eqn:Es.
    + destruct cur as [| x cur'].
      * specialize (Hl eq_refl c s eq_refl). congruence.
      * rewrite (Hc eq_refl).
        destruct s as [| d s'].
        { specialize (Ht [] c eq_refl). congruence. }
        assert (Hd : is_space d = false).
        { destruct (is_space d) eqn:Ed; [| reflexivity].
          exfalso. apply Hadj. now split. }
        assert (Hrest : join_space (split_from [] (d :: s')) = d :: s').
        { apply (IH Hss Ht' []); [| constructor].
          intros _ e s'' E. injection E as <- _. exact Hd. }
        destruct (split_from [] (d :: s')) as [| w ws] eqn:Esp.
        { discriminate Hrest. }
        rewrite join_space_cons. now rewrite Hrest.
    + rewrite (IH Hss Ht' (cur ++ [c])).
      * now rewrite <- app_assoc.
      * intros E. now destruct cur.
      * apply Forall_app. split; [exact Hcur |]. now constructor.
Qed.

Lemma words_from_acc (cur : text) :
  forall acc s,
  Forall (fun c => is_word c = true) cur ->
  words_from acc (cur ++ s) = words_from (acc ++ cur) s.
Proof.
  induction cur as [| c cur IH]; intros acc s H.
  - now rewrite app_nil_r.
  - inversion H as [| ? ? Hc Hcur]; subst.
    cbn [app words_from]. rewrite Hc. rewrite IH by exact Hcur.
    now rewrite <- app_assoc.
Qed.

Lemma last_of_words (l pre : text) (c : ascii) :
  Forall (fun c => is_word c = true) l -> l = pre ++ [c] -> is_word c = true.
Proof.
  intros H ->. apply Forall_app in H. destruct H as [_ H]. now inversion H.
Qed.

(** A run of word characters that is a whole text of word characters. *)
Lemma maximal_run_all_words (cur t : text) :
  Forall (fun c => is_word c = true) cur ->
  maximal_run cur t <-> cur <> [] /\ t = cur.
Proof.
  intros Hcur. split.
  - intros [pre [post [E [Hne [Ht [Hpre Hpost]]]]]].
    assert (pre = []).
    { destruct (rev pre) as [| c rp] eqn:Er.
      - apply (f_equal (@rev ascii)) in Er. now rewrite rev_involutive in Er.
      - apply (f_equal (@rev ascii)) in Er. rewrite rev_involutive in Er.
        simpl in Er. specialize (Hpre _ _ Er).
        rewrite E in Hcur. apply Forall_app in Hcur. destruct Hcur as [Hp _].
        rewrite Er in Hp. apply Forall_app in Hp. destruct Hp as [_ Hp].
        inversion Hp. congruence. }
    subst pre.
    assert (post = []).
    { destruct post as [| c post']; [reflexivity |].
      specialize (Hpost _ _ eq_refl).
      rewrite E in Hcur. apply Forall_app in Hcur. destruct Hcur as [_ Hc].
      apply Forall_app in Hc. destruct Hc as [_ Hc].
      inversion Hc. congruence. }
    subst post. simpl in E. rewrite app_nil_r in E. subst t. auto.
  - intros [Hne ->]. exists [], []. simpl. rewrite app_nil_r.
    repeat split; auto.
    + intros pre' c E. now destruct pre'.
    + intros c post' E. discriminate.
Qed.

(** A run of word characters of [cur ++ c :: s], where [cur] holds word
    characters only and [c] is not one. *)
Lemma maximal_run_sep (cur : text) (c : ascii) (s t : text) :
  Forall (fun c => is_word c = true) cur -> is_word c = false ->
  maximal_run (cur ++ c :: s) t
  <-> (cur <> [] /\ t = cur) \/ maximal_run s t.
Proof.
  intros Hcur Hc. split.
  - intros [pre [post [E [Hne [Ht [Hpre Hpost]]]]]].
    apply app_eq_app in E. destruct E as [l [[E1 E2] | [E1 E2]]].
    + (* cur = pre ++ l and t ++ post = l ++ c :: s *)
      apply app_eq_app in E2. destruct E2 as [m [[E3 E4] | [E3 E4]]].
      * (* t = l ++ m, c :: s = m ++ post *)
        destruct m as [| d m'].
        -- rewrite app_nil_r in E3. subst l. simpl in E4. subst post.
           left. rewrite E1 in Hcur.
           assert (Hrun : maximal_run (pre ++ t) t).
           { exists pre, []. rewrite app_nil_r.
             repeat split; auto. intros ? ? E. discriminate. }
           rewrite <- E1 in Hrun.
           apply maximal_run_all_words in Hrun;
             [exact Hrun | now rewrite E1].
        -- simpl in E4. injection E4 as <- _.
           subst t. apply Forall_app in Ht. destruct Ht as [_ Ht].
           inversion Ht. congruence.
      * (* l = t ++ m, post = m ++ c :: s *)
        destruct m as [| d m'].
        -- rewrite app_nil_r in E3. subst l. simpl in E4. subst post.
           left.
           assert (Hrun : maximal_run cur t).
           { exists pre, []. rewrite app_nil_r.
             repeat split; auto. intros ? ? E. discriminate. }
           now apply maximal_run_all_words in Hrun.
        -- exfalso. simpl in E4. specialize (Hpost _ _ E4).
           rewrite E1, E3 in Hcur.
           apply Forall_app in Hcur. destruct Hcur as [_ Hcur].
           apply Forall_app in Hcur. destruct Hcur as [_ Hcur].
           inversion Hcur. congruence.
    + (* pre = cur ++ l and c :: s = l ++ t ++ post *)
      destruct l as [| d l'].
      * simpl in E2. destruct t as [| x t']; [contradiction |].
        simpl in E2. injection E2 as <- _. inversion Ht. congruence.
      * simpl in E2. injection E2 as <- E2. right.
        exists l', post. repeat split; auto.
        intros pre' e E. apply (Hpre (cur ++ c :: pre') e).
        rewrite E1, E. now rewrite <- app_assoc.
  - intros [[Hne ->] | [pre [post [E [Hne [Ht [Hpre Hpost]]]]]]].
    + exists [], (c :: s). simpl. repeat split; auto.
      * intros pre' d E. now destruct pre'.
      * intros d post' E. now injection E as <- _.
    + exists (cur ++ c :: pre), post. subst s.
      split; [now rewrite <- app_assoc |].
      repeat split; auto.
      intros pre' d E.
      destruct (rev pre) as [| e rp] eqn:Er.
      * apply (f_equal (@rev ascii)) in Er. rewrite rev_involutive in Er.
        simpl in Er. subst pre.
        apply app_inj_tail in E. destruct E as [_ <-]. exact Hc.
      * apply (f_equal (@rev ascii)) in Er. rewrite rev_involutive in Er.
        simpl in Er. rewrite Er in E.
        replace (cur ++ c :: rev rp ++ [e]) with ((cur ++ c :: rev rp) ++ [e])
          in E by (now rewrite <- app_assoc).
        apply app_inj_tail in E. destruct E as [_ <-].
        now apply (Hpre (rev rp) e).
Qed.

Lemma In_words_from (s : text) :
  forall cur t,
  Forall (fun c => is_word c = true) cur ->
  In t (words_from cur s) <-> maximal_run (cur ++ s) t.
Proof.
  induction s as [| c s IH]; intros cur t Hcur.
  - rewrite app_nil_r, maximal_run_all_words by exact Hcur.
    cbn [words_from]. destruct cur as [| x cur'].
    + split; [intros [] | intros [H _]; contradiction].
    + split.
      * intros [<- | []]. split; [discriminate | reflexivity].
      * intros [_ ->]. now left.
  - cbn [words_from]. destruct (is_word c) eqn:Ec.
    + rewrite IH.
      * now rewrite <- app_assoc.
      * apply Forall_app. split; [exact Hcur | now constructor].
    + rewrite maximal_run_sep by assumption.
      rewrite <- (IH [] t) by constructor. simpl.
      destruct cur as [| x cur'].
      * split; [now right | intros [[H _] | H]; [contradiction | exact H]].
      * split.
        -- intros [<- | H]; [left; split; [discriminate | reflexivity] |].
           now right.
        -- intros [[_ ->] | H]; [now left | now right].
Qed.

Lemma normalize_normal_form (s : text) :
  Forall clean_char (normalize s)
  /\ no_leading_space (normalize s)
  /\ no_trailing_space (normalize s)
  /\ single_spaced (normalize s).
Proof.
  split; [apply normalize_clean |]. split; [apply normalize_no_leading |].
  split; [apply normalize_no_trailing | apply normalize_single_spaced].
Qed.

Lemma join_tokenize_eq (s : text) : join_space (tokenize s) = normalize s.
Proof.
  unfold tokenize, split.
  destruct (normalize_normal_form s) as [Hc [Hl [Ht Hss]]].
  rewrite join_split_from; auto.
  eapply Forall_impl; [apply clean_space_eq | exact Hc].
Qed.

Lemma tokenize_app_sep (s1 : text) (c : ascii) (s2 : text) :
  is_word c = false ->
  tokenize (s1 ++ c :: s2) = tokenize s1 ++ tokenize s2.
Proof.
  intros Hc. rewrite !tokenize_words_eq. unfold words, lower.
  rewrite map_app. cbn [map]. apply words_from_app_sep.
  now rewrite is_word_lower_char.
Qed.

End WordsFacts.

(** ** Further properties of [normalize] and [tokenize] *)

(** X1. The tokens of a text are the maximal runs of word characters of the
    lowercased text, in order: a text is a token exactly when it occurs
    there as a non-empty run of word characters that has no word character
    before it and none after it. *)
Theorem tokenize_maximal_runs (s : text) :
  tokenize s = words (lower s)
  /\ forall t, In t (tokenize s) <-> maximal_run (lower s) t.
Proof.
  split; [apply tokenize_words_eq |].
  intros t. rewrite tokenize_words_eq. unfold words.
  now rewrite In_words_from by constructor.
Qed.

(** X2. Joining the tokens of a text with single spaces gives its normalized
    form: [" ".join(tokenize(s)) == normalize(s)]. *)
Theorem join_tokenize_normalize (s : text) :
  join_space (tokenize s) = normalize s.
Proof. apply join_tokenize_eq. Qed.

(** X4. A text has no token exactly when it holds no word character, and
    exactly then its normalized form is the empty string. *)
Theorem tokenize_empty_iff (s : text) :
  (tokenize s = [] <-> Forall (fun c => is_word c = false) s)
  /\ (normalize s = [] <-> Forall (fun c => is_word c = false) s).
Proof.
  assert (H : tokenize s = [] <-> Forall (fun c => is_word c = false) s).
  { rewrite tokenize_words_eq. unfold words. rewrite words_from_nil_iff.
    unfold lower. rewrite Forall_map. split.
    - intros [_ Hf]. eapply Forall_impl; [| exact Hf].
      intros c Hc. cbv beta in Hc. now rewrite is_word_lower_char in Hc.
    - intros Hf. split; [reflexivity |].
      eapply Forall_impl; [| exact Hf].
      intros c Hc. cbv beta. now rewrite is_word_lower_char. }
  split; [exact H |].
  rewrite <- H, <- join_tokenize_eq.
  pose proof (tokenize_word_tokens s) as Hw.
  destruct (tokenize s) as [| t ts]; [tauto |].
  split; [| discriminate].
  intros E. exfalso. inversion Hw as [| ? ? [Hne _] _]; subst.
  destruct ts; cbn [join_space] in E.
  - contradiction.
  - destruct t; [contradiction | discriminate].
Qed.

(** ** Further properties of the scorers *)

Section LexiconMoreFacts.

Import Lexicon.

(** No word is in both lexicons. *)
Lemma lexicons_disjoint (t : text) :
  mem t POS_WORDS = true -> mem t NEG_WORDS = false.
Proof.
  intros H. apply mem_In in H.
  assert (Hall : forallb (fun w => negb (mem w NEG_WORDS)) POS_WORDS = true)
    by (vm_compute; reflexivity).
  rewrite forallb_forall in Hall. specialize (Hall t H).
  now apply negb_true_iff in Hall.
Qed.

Lemma count_in_app (words t1 t2 : list text) :
  count_in words (t1 ++ t2) = count_in words t1 + count_in words t2.
Proof.
  unfold count_in. now rewrite filter_app, map_app, list_sum_app.
Qed.

Lemma counts_le_length (tokens : list text) :
  count_in POS_WORDS tokens + count_in NEG_WORDS tokens
  <= List.length tokens.
Proof.
  induction tokens as [| t tokens IH]; [reflexivity |].
  rewrite !count_in_cons. cbn [List.length].
  destruct (mem t POS_WORDS) eqn:E.
  - rewrite (lexicons_disjoint t E). lia.
  - destruct (mem t NEG_WORDS); lia.
Qed.

Lemma dict_set_absent {V : Type} (d : dict V) (k : text) (v : V) :
  ~ In k (map fst d) -> dict_set d k v = d ++ [(k, v)].
Proof.
  induction d as [| [k0 v0] d IH]; intros H; [reflexivity |].
  cbn [dict_set]. destruct (text_eqb k k0) eqn:E.
  - apply text_eqb_eq in E. subst k0. exfalso. apply H. now left.
  - cbn [app]. f_equal. apply IH. intros Hin. apply H. now right.
Qed.

(** The loop of [detect_emotions] appends, in the order of the table, one
    binding for each label that has a match. *)
Lemma emotions_fold_append (tokens : list text)
    (keywords : dict (list text)) :
  NoDup (map fst keywords) ->
  forall found : dict nat,
  (forall k, In k (map fst keywords) -> ~ In k (map fst found)) ->
  fold_left
    (fun found '(emo, kwset) =>
       let matches := intersection tokens kwset in
       match matches with
       | [] => found
       | _ => dict_set found emo (List.length matches)
       end)
    keywords found
  = found
    ++ flat_map
         (fun '(emo, kwset) =>
            match List.length (intersection tokens kwset) with
            | 0 => []
            | n => [(emo, n)]
            end)
         keywords.
Proof.
  induction keywords as [| [k kw] rest IH]; intros Hnd found Hfresh.
  - simpl. now rewrite app_nil_r.
  - inversion Hnd as [| ? ? Hk Hrest]; subst.
    cbn [fold_left flat_map].
    destruct (intersection tokens kw) as [| m ms] eqn:Ei.
    + cbn [List.length app]. apply IH; [exact Hrest |].
      intros k' Hk'. apply Hfresh. now right.
    + rewrite dict_set_absent by (apply Hfresh; now left).
      rewrite IH; [| exact Hrest |].
      * cbn [List.length]. now rewrite <- app_assoc.
      * intros k' Hk'. rewrite map_app, in_app_iff. cbn [map fst In].
        intros [H | [<- | []]].
        -- revert H. apply Hfresh. now right.
        -- contradiction.
Qed.

Lemma shared_ext (tokens tokens' kwset : list text) :
  (forall t, In t tokens <-> In t tokens') ->
  shared tokens kwset = shared tokens' kwset.
Proof.
  intros H. unfold shared. f_equal. apply filter_ext.
  intros k. apply mem_ext, H.
Qed.

Lemma detect_emotions_flat_map (s : text) :
  detect_emotions s
  = flat_map
      (fun '(emo, kwset) =>
         match shared (tokenize s) kwset with
         | 0 => []
         | n => [(emo, n)]
         end)
      EMOTION_KEYWORDS.
Proof.
  unfold detect_emotions, emotions_with.
  rewrite emotions_fold_append;
    [| apply emotion_labels_distinct | intros k _ []].
  cbn [app]. apply flat_map_ext. intros [emo kwset].
  now rewrite intersection_shared.
Qed.

End LexiconMoreFacts.

(** X5. The positive and the negative count of [detect_sentiment] together
    never exceed the number of tokens, no word being in both lexicons; the
    score therefore lies between minus and plus the number of tokens. *)
Theorem sentiment_counts_bounded (s : text) :
  let r := Lexicon.detect_sentiment s in
  let n := List.length (tokenize s) in
  Lexicon.pos r + Lexicon.neg r <= n
  /\ (- Z.of_nat n <= Lexicon.score r <= Z.of_nat n)%Z.
Proof.
  cbv zeta. unfold Lexicon.detect_sentiment, Lexicon.sentiment_with.
  cbn [Lexicon.pos Lexicon.neg Lexicon.score].
  pose proof (counts_le_length (tokenize s)). lia.
Qed.

(** X6. Sentiment adds up over a separator: when [c] is not a word
    character, the positive count, the negative count and the score of
    [s1 ++ c :: s2] are the sums of those of [s1] and of [s2]. *)
Theorem sentiment_additive (s1 : text) (c : ascii) (s2 : text) :
  is_word c = false ->
  let r := Lexicon.detect_sentiment (s1 ++ c :: s2) in
  let r1 := Lexicon.detect_sentiment s1 in
  let r2 := Lexicon.detect_sentiment s2 in
  Lexicon.pos r = Lexicon.pos r1 + Lexicon.pos r2
  /\ Lexicon.neg r = Lexicon.neg r1 + Lexicon.neg r2
  /\ Lexicon.score r = (Lexicon.score r1 + Lexicon.score r2)%Z.
Proof.
  intros Hc. cbv zeta.
  unfold Lexicon.detect_sentiment, Lexicon.sentiment_with.
  cbn [Lexicon.pos Lexicon.neg Lexicon.score].
  rewrite (tokenize_app_sep s1 c s2 Hc), !count_in_app. lia.
Qed.

Lemma sentiment_additive_witness :
  is_word "."%char = false
  /\ Lexicon.score
       (Lexicon.detect_sentiment (str "I love it" ++ "."%char :: str "bad ugh"))
     = (-1)%Z.
Proof.
  split; [reflexivity |].
  destruct (sentiment_additive (str "I love it") "."%char (str "bad ugh")
              eq_refl) as [_ [_ H]].
  rewrite H. reflexivity.
Defined.

(** X7. [detect_emotions] lists the detected emotions in the order in which
    [EMOTION_KEYWORDS] declares them, each one once, with the number of
    distinct keywords of the emotion that occur among the tokens. *)
Theorem detect_emotions_declared_order (s : text) :
  Lexicon.detect_emotions s
  = flat_map
      (fun '(emo, kwset) =>
         match shared (tokenize s) kwset with
         | 0 => []
         | n => [(emo, n)]
         end)
      Lexicon.EMOTION_KEYWORDS.
Proof. apply detect_emotions_flat_map. Qed.

(** X8. [detect_emotions] depends only on which tokens occur in the text,
    not on their order nor on how often they occur. *)
Theorem detect_emotions_same_token_set (s s' : text) :
  (forall t, In t (tokenize s) <-> In t (tokenize s')) ->
  Lexicon.detect_emotions s = Lexicon.detect_emotions s'.
Proof.
  intros H. rewrite !detect_emotions_flat_map.
  apply flat_map_ext. intros [emo kwset].
  now rewrite (shared_ext _ _ kwset H).
Qed.

Lemma detect_emotions_same_token_set_witness :
  Lexicon.detect_emotions (str "sad, happy... SAD!")
  = Lexicon.detect_emotions (str "Happy sad").
Proof.
  apply (detect_emotions_same_token_set
           (str "sad, happy... SAD!") (str "Happy sad")).
  intros t. vm_compute. tauto.
Defined.

(** ** Word patterns and tokens *)

Section WordPatternFacts.

Import Regex.

Lemma word_not_meta (c : ascii) :
  is_word c = true -> is_meta c = false /\ Ascii.eqb c "\"%char = false.
Proof.
  destruct c as [[|] [|] [|] [|] [|] [|] [|] [|]]; vm_compute;
    try discriminate; auto.
Qed.

Lemma str_append (x y : string) : str (x ++ y) = str x ++ str y.
Proof.
  unfold str. induction x as [| c x IH]; [reflexivity |].
  simpl. now rewrite IH.
Qed.

(** Reading a word followed by [\b]. *)
Lemma compile_word_boundary (w : text) :
  Forall (fun c => is_word c = true) w ->
  compile (w ++ str "\b") = Some (map Chr w ++ [WordBoundary]).
Proof.
  induction 1 as [| c w Hc _ IH]; [reflexivity |].
  destruct (word_not_meta c Hc) as [Hm Hb].
  cbn [app compile map].
  destruct (w ++ str "\b") as [| c' s''] eqn:E.
  - destruct w; discriminate E.
  - rewrite Hb, Hm. cbn [andb]. now rewrite IH.
Qed.

Lemma compile_bounded_word (w : string) :
  Forall (fun c => is_word c = true) (str w) ->
  compile (str ("\b" ++ w ++ "\b"))
  = Some (WordBoundary :: map Chr (str w) ++ [WordBoundary]).
Proof.
  intros H. rewrite !str_append.
  change (str "\b" ++ str w ++ str "\b")
    with ("\"%char :: "b"%char :: (str w ++ str "\b")).
  cbn [compile]. change (Ascii.eqb "\" "\" && Ascii.eqb "b" "b") with true.
  cbv iota. now rewrite compile_word_boundary.
Qed.

Lemma char_before_snoc (prev : option ascii) (pre : text) (c : ascii) :
  char_before prev (pre ++ [c]) = Some c.
Proof. unfold char_before. now rewrite fold_left_app. Qed.

Lemma char_before_cons (prev : option ascii) (c : ascii) (w : text) :
  char_before prev (c :: w) = char_before (Some c) w.
Proof. reflexivity. Qed.

(** Matching the characters of [w] and then [p]. *)
Lemma match_here_literal (w : text) (p : pattern) :
  forall prev s,
  match_here (map Chr w ++ p) prev s = true
  <-> exists rest, s = w ++ rest
                   /\ match_here p (char_before prev w) rest = true.
Proof.
  induction w as [| c w IH]; intros prev s.
  - cbn [map app]. split.
    + intros H. now exists s.
    + intros [rest [-> H]]. exact H.
  - cbn [map app match_here]. destruct s as [| x s'].
    + split; [discriminate | intros [rest [E _]]; discriminate].
    + rewrite andb_true_iff, IH, Ascii.eqb_eq. split.
      * intros [-> [rest [-> H]]]. now exists rest.
      * intros [rest [E H]]. injection E as -> ->.
        split; [reflexivity | now exists rest].
Qed.

Lemma word_before_false (pre : text) :
  word_opt (char_before None pre) = false
  <-> forall pre' c, pre = pre' ++ [c] -> is_word c = false.
Proof.
  destruct (rev pre) as [| c rp] eqn:Er;
    apply (f_equal (@rev ascii)) in Er; rewrite rev_involutive in Er;
    simpl in Er; subst pre.
  - split; [| reflexivity]. intros _ pre' c E. now destruct pre'.
  - rewrite char_before_snoc. cbn [word_opt]. split.
    + intros H pre' d E. apply app_inj_tail in E. now destruct E as [_ <-].
    + intros H. now apply (H (rev rp) c).
Qed.

Lemma word_after_false (post : text) :
  word_opt (hd_error post) = false
  <-> forall c post', post = c :: post' -> is_word c = false.
Proof.
  destruct post as [| d post]; cbn [hd_error word_opt].
  - split; [intros _ c post' E; discriminate | reflexivity].
  - split.
    + intros H c post' E. now injection E as <- _.
    + intros H. now apply (H d post).
Qed.

Lemma char_before_word (prev : option ascii) (w : text) :
  w <> [] -> Forall (fun c => is_word c = true) w ->
  word_opt (char_before prev w) = true.
Proof.
  intros Hne Hw.
  destruct (rev w) as [| c rw] eqn:Er;
    apply (f_equal (@rev ascii)) in Er; rewrite rev_involutive in Er;
    simpl in Er; subst w; [contradiction |].
  rewrite char_before_snoc. apply Forall_app in Hw.
  destruct Hw as [_ Hw]. now inversion Hw.
Qed.

(** A word between two [\b] is found in a text exactly where it is a
    maximal run of word characters. *)
Lemma search_from_bounded_word (w s : text) :
  w <> [] -> Forall (fun c => is_word c = true) w ->
  search_from (WordBoundary :: map Chr w ++ [WordBoundary]) None s = true
  <-> maximal_run s w.
Proof.
  intros Hne Hw. rewrite search_from_somewhere. unfold maximal_run.
  assert (Hhd : forall rest, word_opt (hd_error (w ++ rest)) = true).
  { intros rest. destruct w as [| c w']; [contradiction |].
    inversion Hw. assumption. }
  split.
  - intros [pre [post [-> H]]]. cbn [match_here] in H.
    apply andb_true_iff in H. destruct H as [Hb H].
    apply match_here_literal in H. destruct H as [rest [-> H]].
    cbn [match_here] in H. rewrite andb_true_r in H.
    unfold at_boundary in Hb, H. rewrite Hhd in Hb.
    rewrite (char_before_word _ _ Hne Hw) in H.
    exists pre, rest. split; [reflexivity |]. split; [exact Hne |].
    split; [exact Hw |]. split.
    + apply word_before_false.
      destruct (word_opt (char_before None pre)); [discriminate | reflexivity].
    + apply word_after_false.
      destruct (word_opt (hd_error rest)); [discriminate | reflexivity].
  - intros [pre [post [-> [_ [_ [Hpre Hpost]]]]]].
    exists pre, (w ++ post). split; [reflexivity |].
    cbn [match_here]. apply andb_true_iff. split.
    + unfold at_boundary. rewrite Hhd.
      apply word_before_false in Hpre. now rewrite Hpre.
    + apply match_here_literal. exists post. split; [reflexivity |].
      cbn [match_here]. rewrite andb_true_r. unfold at_boundary.
      rewrite (char_before_word _ _ Hne Hw).
      apply word_after_false in Hpost. now rewrite Hpost.
Qed.

Lemma search_bounded_word (w : string) (s : text) :
  str w <> [] -> Forall (fun c => is_word c = true) (str w) ->
  search ("\b" ++ w ++ "\b") s = true <-> maximal_run s (str w).
Proof.
  intros Hne Hw. unfold search. rewrite compile_bounded_word by exact Hw.
  now apply search_from_bounded_word.
Qed.

Lemma In_tokenize_run (s w : text) :
  In w (tokenize s) <-> maximal_run (lower s) w.
Proof.
  rewrite tokenize_words_eq. unfold words.
  now rewrite In_words_from by constructor.
Qed.

End WordPatternFacts.

Section IntentMoreFacts.

Import Intents.

Lemma match_rules_key (rules : list (text * rule)) (s k : text) :
  match_rules rules s = Some k -> exists data, In (k, data) rules.
Proof.
  induction rules as [| [k0 d0] rest IH]; [discriminate |].
  cbn [match_rules]. destruct (existsb _ (patterns d0)).
  - intros H. injection H as <-. exists d0. now left.
  - intros H. destruct (IH H) as [data Hin]. exists data. now right.
Qed.

End IntentMoreFacts.

(** X9. A pattern [\bw\b] whose [w] is a word is found in the lowercased
    text exactly when [w] is one of the tokens of the text: on such
    patterns the intent classifier and the tokenizer agree. *)
Theorem word_pattern_iff_token (w : string) (s : text) :
  str w <> [] -> Forall (fun c => is_word c = true) (str w) ->
  Regex.search ("\b" ++ w ++ "\b") (lower s) = true
  <-> In (str w) (tokenize s).
Proof.
  intros Hne Hw. rewrite (search_bounded_word w (lower s) Hne Hw).
  rewrite tokenize_words_eq. unfold words.
  now rewrite In_words_from by constructor.
Qed.

Lemma word_pattern_iff_token_witness :
  Regex.search "\bthanks\b" (lower (str "Many THANKS, friend")) = true
  <-> In (str "thanks") (tokenize (str "Many THANKS, friend")).
Proof.
  apply (word_pattern_iff_token "thanks" (str "Many THANKS, friend")).
  - discriminate.
  - repeat constructor.
Defined.

(** X10. What [match_intent] returns is always a registered intent: with a
    random source that draws below its bound, [intent_response] of the
    identifier that [match_intent] returned yields one of the response
    templates of a rule with that identifier and never raises. *)
Theorem intent_response_of_match (randbelow : nat -> nat) (s k : text) :
  (forall n, 0 < n -> randbelow n < n) ->
  Intents.match_intent s = Some k ->
  exists data r,
    In (k, data) Intents.INTENTS
    /\ Intents.intent_response randbelow k = Return r
    /\ In r (Intents.responses data).
Proof.
  intros Hr Hm. unfold Intents.match_intent in Hm.
  destruct (match_rules_key _ _ _ Hm) as [data Hin].
  exists data. unfold Intents.intent_response.
  rewrite (lookup_In _ _ _ intent_keys_distinct Hin). cbn [bind].
  destruct (choice_In randbelow (Intents.responses data) Hr) as [r [Hc Hi]].
  - pose proof intent_responses_nonempty as Hne.
    rewrite Forall_forall in Hne. apply (Hne (k, data) Hin).
  - now exists r.
Qed.

Lemma intent_response_of_match_witness :
  exists data r,
    In (str "help", data) Intents.INTENTS
    /\ Intents.intent_response (fun _ => 0) (str "help") = Return r
    /\ In r (Intents.responses data).
Proof.
  apply (intent_response_of_match (fun _ => 0) (str "Can you HELP me?")).
  - intros n Hn. exact Hn.
  - vm_compute. reflexivity.
Defined.

(** ** Further properties of [find_in_kb] *)

Section KBMoreFacts.

Import KB.

Lemma normalize_idem (s : text) : normalize (normalize s) = normalize s.
Proof.
  destruct (normalize_normal_form s) as [Hc [Hl [Ht Hss]]].
  now apply normalize_fixed.
Qed.

Lemma inter_len_le_r (x y : list text) :
  NoDup x -> inter_len x y <= List.length y.
Proof.
  intros Hx. unfold inter_len. apply NoDup_incl_length.
  - now apply NoDup_filter.
  - intros t Ht. apply filter_In in Ht. destruct Ht as [_ Ht].
    now apply mem_In.
Qed.

Lemma overlap_le_question_size (user_input : text) (e : entry) :
  overlap user_input e <= question_size e.
Proof.
  unfold overlap, question_size. apply inter_len_le_r, NoDup_nodup.
Qed.

Lemma overlap_ratio_le_1 (user_input : text) (e : entry) :
  (overlap_ratio (overlap user_input e) (question_size e) <= 1)%Q.
Proof.
  pose proof (overlap_le_question_size user_input e) as H.
  unfold overlap_ratio, Qle. cbn [Qnum Qden]. lia.
Qed.

Lemma overlap_ratio_pos (ov n : nat) :
  0 < ov -> (0 < overlap_ratio ov n)%Q.
Proof.
  intros H. unfold overlap_ratio, Qlt. cbn [Qnum Qden]. lia.
Qed.

(** What [find_in_kb] computes, in terms of the record that the overlap
    stage selects. *)
Lemma find_in_kb_cases (user_input : text) (kb : list entry) (cutoff : Q) :
  kb <> [] ->
  exists i e,
    latest_max_overlap user_input kb i e
    /\ overlap_stage user_input kb cutoff
       = Return
           (if (0 <? overlap user_input e)
               && Qle_bool cutoff
                    (overlap_ratio (overlap user_input e) (question_size e))
            then Some (answer e) else None)
    /\ find_in_kb user_input kb cutoff
       = if (0 <? overlap user_input e)
            && Qle_bool cutoff
                 (overlap_ratio (overlap user_input e) (question_size e))
         then Return (Some (answer e))
         else fallback_stage difflib_close_matches user_input kb.
Proof.
  intros Hkb.
  destruct (best_latest_max user_input kb Hkb) as [i [e [Hb Hl]]].
  exists i, e. split; [exact Hl |].
  pose proof Hl as [[He _] _].
  pose proof (overlap_stage_eq _ _ cutoff _ _ Hb He) as Hov.
  split; [exact Hov |].
  unfold find_in_kb, find_in_kb_with.
  destruct kb as [| e0 kb']; [contradiction |].
  rewrite Hov. cbn [bind]. now destruct (_ && _).
Qed.

Lemma find_in_kb_answer_In (user_input : text) (kb : list entry)
    (cutoff : Q) (a : string) :
  find_in_kb user_input kb cutoff = Return (Some a) ->
  exists e, In e kb /\ answer e = a.
Proof.
  destruct kb as [| e0 kb']; [discriminate |].
  set (kb := e0 :: kb').
  destruct (find_in_kb_cases user_input kb cutoff) as [i [e [Hl [_ Hf]]]];
    [discriminate |].
  rewrite Hf. destruct (_ && _).
  - intros H. injection H as <-. exists e. split; [| reflexivity].
    destruct Hl as [[He _] _]. now apply nth_error_In in He.
  - destruct (fallback_stage_spec user_input kb)
      as [[Hr _] | [j [e' [Hr [He' _]]]]]; rewrite Hr.
    + discriminate.
    + intros H. injection H as <-. exists e'. split; [| reflexivity].
      now apply nth_error_In in He'.
Qed.

Lemma questions_normalize_entry (kb : list entry) :
  questions (map normalize_entry kb) = questions kb.
Proof.
  unfold questions. rewrite map_map. apply map_ext.
  intros e. cbn [normalize_entry question]. apply normalize_idem.
Qed.

Lemma index_at_map {A B : Type} (f : A -> B) (l : list A) (i : nat) :
  index_at (map f l) i
  = match index_at l i with
    | Return x => Return (f x)
    | Raise e => Raise e
    end.
Proof.
  unfold index_at. rewrite nth_error_map.
  now destruct (nth_error l i).
Qed.

Lemma find_in_kb_with_normalized (close_matches : text -> list text ->
                                  result (list text))
    (user_input : text) (kb : list entry) (cutoff : Q) :
  find_in_kb_with close_matches (normalize user_input)
                  (map normalize_entry kb) cutoff
  = find_in_kb_with close_matches user_input kb cutoff.
Proof.
  unfold find_in_kb_with.
  destruct kb as [| e0 kb']; [reflexivity |].
  change (map normalize_entry (e0 :: kb'))
    with (normalize_entry e0 :: map normalize_entry kb').
  cbv iota.
  change (normalize_entry e0 :: map normalize_entry kb')
    with (map normalize_entry (e0 :: kb')).
  set (kb := e0 :: kb').
  assert (Hov : overlap_stage (normalize user_input)
                  (map normalize_entry kb) cutoff
                = overlap_stage user_input kb cutoff).
  { unfold overlap_stage, best, user_tokens, user_norm.
    rewrite questions_normalize_entry, normalize_idem.
    destruct (index_at (sort_reverse _) 0) as [[ov i] | ex]; [| reflexivity].
    cbn [bind]. destruct (0 <? ov); [| reflexivity].
    destruct (index_at (questions kb) i) as [q | ex]; [| reflexivity].
    cbn [bind]. destruct (Qle_bool cutoff _); [| reflexivity].
    rewrite index_at_map. now destruct (index_at kb i). }
  assert (Hfb : fallback_stage close_matches (normalize user_input)
                  (map normalize_entry kb)
                = fallback_stage close_matches user_input kb).
  { unfold fallback_stage, user_norm.
    rewrite questions_normalize_entry, normalize_idem.
    destruct (close_matches _ _) as [[| m ms] | ex]; try reflexivity.
    cbn [bind]. destruct (list_index (questions kb) m) as [j | ex];
      [| reflexivity].
    cbn [bind]. rewrite index_at_map. now destruct (index_at kb j). }
  now rewrite Hov, Hfb.
Qed.

End KBMoreFacts.

(** X11. An answer that [find_in_kb] returns is the answer of one of the
    records it was given. *)
Theorem find_in_kb_answer_of_record (user_input : text)
    (kb : list KB.entry) (cutoff : Q) (a : string) :
  KB.find_in_kb user_input kb cutoff = Return (Some a) ->
  exists e, In e kb /\ KB.answer e = a.
Proof. apply find_in_kb_answer_In. Qed.

Lemma find_in_kb_answer_of_record_witness :
  exists e, In e docs_kb /\ KB.answer e = "A1"%string.
Proof.
  apply (find_in_kb_answer_of_record (str "how do I resize an image")
           docs_kb KB.default_cutoff "A1"%string).
  vm_compute. reflexivity.
Defined.

(** X12. The overlap of a record never exceeds the number of distinct
    tokens of its question, so the overlap ratio is at most 1: with a
    cutoff above 1 the token-overlap stage never answers and [find_in_kb]
    is the whole-string fallback alone. *)
Theorem cutoff_above_one_is_fallback (user_input : text)
    (kb : list KB.entry) (cutoff : Q) :
  (1 < cutoff)%Q ->
  (forall e, (KB.overlap_ratio (overlap user_input e) (question_size e)
              <= 1)%Q)
  /\ KB.find_in_kb user_input kb cutoff
     = match kb with
       | [] => Return None
       | _ => KB.fallback_stage KB.difflib_close_matches user_input kb
       end.
Proof.
  intros Hc. split; [intros e; apply overlap_ratio_le_1 |].
  destruct kb as [| e0 kb']; [reflexivity |].
  destruct (find_in_kb_cases user_input (e0 :: kb') cutoff)
    as [i [e [_ [_ Hf]]]]; [discriminate |].
  rewrite Hf.
  destruct (Qle_bool cutoff _) eqn:E; [| now rewrite andb_false_r].
  apply Qle_bool_iff in E. exfalso.
  apply (Qlt_irrefl 1). eapply Qlt_le_trans; [exact Hc |].
  eapply Qle_trans; [exact E | apply overlap_ratio_le_1].
Qed.

Lemma cutoff_above_one_is_fallback_witness :
  (1 < 3 # 2)%Q
  /\ KB.find_in_kb (str "flask") flask_kb (3 # 2)
     = KB.fallback_stage KB.difflib_close_matches (str "flask") flask_kb.
Proof.
  split; [reflexivity |].
  apply (cutoff_above_one_is_fallback (str "flask") flask_kb (3 # 2)).
  reflexivity.
Defined.

(** X13. With a cutoff of zero or less the token-overlap stage answers as
    soon as some record shares a token with the query, with the answer of
    the latest record of greatest overlap. *)
Theorem cutoff_zero_answers_any_overlap (user_input : text)
    (kb : list KB.entry) (cutoff : Q) (e0 : KB.entry) :
  (cutoff <= 0)%Q -> In e0 kb -> 0 < overlap user_input e0 ->
  exists i e,
    latest_max_overlap user_input kb i e
    /\ KB.find_in_kb user_input kb cutoff = Return (Some (KB.answer e)).
Proof.
  intros Hc Hin Hov.
  assert (Hkb : kb <> []) by (intros ->; destruct Hin).
  destruct (find_in_kb_cases user_input kb cutoff Hkb)
    as [i [e [Hl [_ Hf]]]].
  exists i, e. split; [exact Hl |]. rewrite Hf.
  destruct Hl as [[He Hmax] _].
  apply In_nth_error in Hin. destruct Hin as [j Hj].
  specialize (Hmax j e0 Hj).
  assert (Hpos : 0 < overlap user_input e) by lia.
  pose proof (overlap_ratio_pos _ (question_size e) Hpos) as Hr.
  apply Nat.ltb_lt in Hpos. rewrite Hpos.
  assert (Hle : (cutoff
                 <= KB.overlap_ratio (overlap user_input e) (question_size e))%Q).
  { apply Qle_trans with 0%Q; [exact Hc | now apply Qlt_le_weak]. }
  apply Qle_bool_iff in Hle. now rewrite Hle.
Qed.

Lemma cutoff_zero_answers_any_overlap_witness :
  exists i e,
    latest_max_overlap (str "flask on a rainy day") docs_kb i e
    /\ KB.find_in_kb (str "flask on a rainy day") docs_kb 0
       = Return (Some (KB.answer e)).
Proof.
  apply (cutoff_zero_answers_any_overlap (str "flask on a rainy day")
           docs_kb 0
           {| KB.question := str "what is flask"; KB.answer := "A2" |}).
  - discriminate.
  - simpl. tauto.
  - vm_compute. lia.
Defined.

(** X14. Lowering the cutoff never loses an answer of the token-overlap
    stage: what the stage answers at a cutoff, [find_in_kb] answers at
    every smaller cutoff. *)
Theorem overlap_answer_monotone (user_input : text) (kb : list KB.entry)
    (cutoff cutoff' : Q) (a : string) :
  (cutoff <= cutoff')%Q ->
  KB.overlap_stage user_input kb cutoff' = Return (Some a) ->
  KB.find_in_kb user_input kb cutoff = Return (Some a).
Proof.
  intros Hc Hov.
  assert (Hkb : kb <> []) by (intros ->; discriminate Hov).
  destruct (find_in_kb_cases user_input kb cutoff Hkb)
    as [i [e [Hl [_ Hf]]]].
  destruct (find_in_kb_cases user_input kb cutoff' Hkb)
    as [i' [e' [Hl' [Hov' _]]]].
  destruct (latest_max_unique _ _ _ _ _ _ Hl Hl') as [_ <-].
  rewrite Hov' in Hov. rewrite Hf.
  destruct (0 <? overlap user_input e); [| discriminate Hov].
  cbn [andb] in *.
  destruct (Qle_bool cutoff' _) eqn:E; [| discriminate Hov].
  apply Qle_bool_iff in E.
  assert (Hle : (cutoff
                 <= KB.overlap_ratio (overlap user_input e) (question_size e))%Q)
    by (eapply Qle_trans; [exact Hc | exact E]).
  apply Qle_bool_iff in Hle. rewrite Hle. congruence.
Qed.

Lemma overlap_answer_monotone_witness :
  KB.find_in_kb (str "flask ss") flask_kb (1 # 10)
  = Return (Some "A1"%string).
Proof.
  apply (overlap_answer_monotone (str "flask ss") flask_kb
           (1 # 10) (6 # 10) "A1"%string).
  - vm_compute. discriminate.
  - vm_compute. reflexivity.
Defined.

(** X15. [find_in_kb] gives the same result when the query and the
    questions of the records are replaced by their normalized forms. *)
Theorem find_in_kb_normalized_inputs (user_input : text)
    (kb : list KB.entry) (cutoff : Q) :
  KB.find_in_kb (normalize user_input) (map normalize_entry kb) cutoff
  = KB.find_in_kb user_input kb cutoff.
Proof. apply find_in_kb_with_normalized. Qed.

(** ** Loading the knowledge base *)

Section JsonFacts.

Import Json.

Lemma member_key (members : list (text * json)) (k : text) :
  existsb (fun p => text_eqb (fst p) k) members = true
  <-> get_member members k <> None.
Proof.
  induction members as [| [k' v] rest IH]; cbn [existsb get_member fst].
  - split; [discriminate | congruence].
  - destruct (text_eqb k k') eqn:E.
    + apply text_eqb_eq in E. subst k'. rewrite text_eqb_refl.
      split; [discriminate | reflexivity].
    + replace (text_eqb k' k) with false.
      * exact IH.
      * symmetry. apply text_eqb_neq. apply text_eqb_neq in E. congruence.
Qed.

Lemma valid_entries_objects (l : list json) :
  Forall is_object l -> valid_entries l = Ok (filter has_fields l).
Proof.
  induction 1 as [| e l He _ IH]; [reflexivity |].
  destruct e as [| | | | | members]; try contradiction.
  cbn [valid_entries contains obind filter has_fields]. rewrite IH.
  destruct (existsb _ members) eqn:Eq.
  - apply member_key in Eq.
    destruct (get_member members (str "question")) as [vq |];
      [| contradiction].
    cbn [obind].
    destruct (existsb (fun p => text_eqb (fst p) (str "answer")) members)
      eqn:Ea.
    + apply member_key in Ea.
      destruct (get_member members (str "answer")); [| contradiction].
      reflexivity.
    + destruct (get_member members (str "answer")) eqn:Eg; [| reflexivity].
      assert (Hn : get_member members (str "answer") <> None)
        by (rewrite Eg; discriminate).
      apply member_key in Hn. congruence.
  - cbn [obind].
    destruct (get_member members (str "question")) eqn:Eg; [| reflexivity].
    assert (Hn : get_member members (str "question") <> None)
      by (rewrite Eg; discriminate).
    apply member_key in Hn. congruence.
Qed.

Lemma contains_scalar (v : json) (x : text) :
  scalar v -> contains v x = Err TypeError.
Proof. destruct v; simpl; tauto. Qed.

Lemma contains_not_scalar (v : json) (x : text) :
  ~ scalar v -> exists b, contains v x = Ok b.
Proof.
  destruct v; simpl; intros H; try (exfalso; apply H; exact I);
    eexists; reflexivity.
Qed.

(** One scalar entry makes the whole comprehension raise. *)
Lemma valid_entries_scalar (l : list json) :
  Exists scalar l -> exists e, valid_entries l = Err e.
Proof.
  induction 1 as [v l Hv | v l _ [e IH]]; cbn [valid_entries].
  - rewrite (contains_scalar v _ Hv). now exists TypeError.
  - destruct (contains v (str "question")) as [[|] | e1]; cbn [obind];
      [| | now exists e1].
    + destruct (contains v (str "answer")) as [b | e2]; cbn [obind];
        [| now exists e2].
      rewrite IH. now exists e.
    + rewrite IH. now exists e.
Qed.

(** Without scalar entries the comprehension keeps, in order, the entries
    that contain both words. *)
Lemma valid_entries_containers (l : list json) :
  Forall (fun v => ~ scalar v) l ->
  exists keep,
    valid_entries l = Ok (filter keep l)
    /\ forall v, In v l ->
         keep v = true
         <-> contains v (str "question"%string) = Ok true
             /\ contains v (str "answer"%string) = Ok true.
Proof.
  intros Hl.
  exists (fun v =>
            match contains v (str "question"%string),
                  contains v (str "answer"%string) with
            | Ok true, Ok true => true
            | _, _ => false
            end).
  split.
  - induction Hl as [| v l Hv _ IH]; [reflexivity |].
    cbn [valid_entries filter]. rewrite IH.
    destruct (contains_not_scalar v (str "question"%string) Hv) as [bq Eq].
    destruct (contains_not_scalar v (str "answer"%string) Hv) as [ba Ea].
    rewrite Eq, Ea. destruct bq, ba; reflexivity.
  - intros v _.
    destruct (contains v (str "question"%string)) as [[|] | ?];
      destruct (contains v (str "answer"%string)) as [[|] | ?];
      split; try discriminate; try tauto;
      intros [H1 H2]; try discriminate H1; try discriminate H2.
Qed.

Lemma filter_app_cons_In {A : Type} (keep : A -> bool) (pre post : list A)
    (x : A) :
  keep x = true ->
  filter keep (pre ++ x :: post)
  = filter keep pre ++ x :: filter keep post.
Proof.
  intros H. rewrite filter_app. cbn [filter]. now rewrite H.
Qed.

Lemma questions_of_app (pre post : list json) :
  questions_of (pre ++ post)
  = (qs <~ questions_of pre ;;
     qs' <~ questions_of post ;;
     Ok (qs ++ qs')).
Proof.
  induction pre as [| v pre IH]; cbn [app questions_of obind].
  - destruct (questions_of post); reflexivity.
  - destruct (getitem v (str "question")) as [q | e]; [| reflexivity].
    cbn [obind]. destruct (normalize_value q) as [qn | e]; [| reflexivity].
    cbn [obind]. rewrite IH.
    destruct (questions_of pre) as [qs | e]; [| reflexivity].
    cbn [obind]. destruct (questions_of post); reflexivity.
Qed.

Lemma questions_of_typed (kb : list json) (es : list KB.entry) :
  typed_as kb es -> questions_of kb = Ok (KB.questions es).
Proof.
  induction 1 as [| v e kb es Hv _ IH]; [reflexivity |].
  cbn [questions_of]. destruct v as [| | | | | members]; try discriminate.
  cbn [typed] in Hv. cbn [getitem].
  destruct (get_member members (str "question")) as [[| | | q | |] |];
    try discriminate.
  destruct (get_member members (str "answer")) as [[| | | a | |] |];
    try discriminate.
  injection Hv as <-. cbn [obind normalize_value]. rewrite IH. reflexivity.
Qed.

Lemma str_string_of (a : text) : str (string_of_list_ascii a) = a.
Proof. apply list_ascii_of_string_of_list_ascii. Qed.

Lemma answer_of_typed (kb : list json) (es : list KB.entry) (i : nat)
    (e : KB.entry) :
  typed_as kb es -> nth_error es i = Some e ->
  exists entry,
    index_at kb i = Return entry
    /\ getitem entry (str "answer"%string)
       = Ok (value_of (Some (KB.answer e))).
Proof.
  intros H. revert i. induction H as [| v e0 kb es Hv _ IH]; intros i Hi.
  - destruct i; discriminate.
  - destruct i as [| i].
    + injection Hi as ->. exists v. split; [reflexivity |].
      destruct v as [| | | | | members]; try discriminate.
      cbn [typed] in Hv. cbn [getitem].
      destruct (get_member members (str "question")) as [[| | | q | |] |];
        try discriminate.
      destruct (get_member members (str "answer")) as [[| | | a | |] |];
        try discriminate.
      injection Hv as <-. cbn [value_of entry_of KB.answer].
      now rewrite str_string_of.
    + apply (IH i Hi).
Qed.

(** On entries that are objects with a string question and a string answer
    the two layers agree. *)
Lemma find_in_kb_typed (user_input : text) (kb : list json)
    (es : list KB.entry) (cutoff : Q) :
  typed_as kb es ->
  find_in_kb user_input kb cutoff
  = outcome_of (KB.find_in_kb user_input es cutoff).
Proof.
  intros H. pose proof (questions_of_typed kb es H) as Hq.
  destruct H as [| v e0 kb' es' Hv Hrest]; [reflexivity |].
  assert (H : typed_as (v :: kb') (e0 :: es')) by now constructor.
  set (kb := v :: kb') in *. set (es := e0 :: es') in *.
  unfold find_in_kb. change kb with (v :: kb') at 1. cbv iota.
  rewrite Hq. cbn [obind].
  destruct (best_latest_max user_input es) as [i [e [Hb Hl]]];
    [discriminate |].
  pose proof Hl as [[He _] _].
  destruct (find_in_kb_cases user_input es cutoff) as [i' [e' [Hl' [_ Hf]]]];
    [discriminate |].
  destruct (latest_max_unique _ _ _ _ _ _ Hl Hl') as [<- <-].
  rewrite Hf.
  unfold KB.best, KB.user_tokens, KB.user_norm in Hb.
  rewrite Hb. cbn [lift obind fst snd].
  destruct (0 <? overlap user_input e) eqn:Eo; cbn [andb].
  - unfold index_at at 1. rewrite nth_error_questions, He.
    cbn [option_map lift obind].
    fold (tokenize (KB.question e)). fold (question_size e).
    destruct (Qle_bool cutoff _).
    + destruct (answer_of_typed kb es i e H He) as [entry [Hi Ha]].
      rewrite Hi. cbn [lift obind]. rewrite Ha. reflexivity.
    + cbn [obind].
      destruct (fallback_stage_spec user_input es)
        as [[Hr Hnone] | [j [e2 [Hr [He2 _]]]]].
      * rewrite Hr. unfold KB.fallback_stage, KB.user_norm in Hr.
        destruct (KB.difflib_close_matches _ _) as [[| m ms] | ex];
          cbn [bind lift obind] in *; try reflexivity; try discriminate.
        destruct (KB.list_index (KB.questions es) m) as [j | ex];
          cbn [bind lift obind] in *; try discriminate.
        destruct (index_at es j) as [e3 | ex] eqn:E3;
          cbn [bind] in *; discriminate.
      * rewrite Hr. unfold KB.fallback_stage, KB.user_norm in Hr.
        destruct (KB.difflib_close_matches _ _) as [[| m ms] | ex];
          cbn [bind lift obind] in *; try discriminate.
        destruct (KB.list_index (KB.questions es) m) as [j' | ex];
          cbn [bind lift obind] in *; try discriminate.
        destruct (index_at es j') as [e3 | ex] eqn:E3;
          cbn [bind] in Hr; try discriminate.
        injection Hr as Hr.
        unfold index_at in E3.
        destruct (nth_error es j') as [e4 |] eqn:E4; [| discriminate].
        injection E3 as ->.
        destruct (answer_of_typed kb es j' e3 H E4) as [entry [Hi Ha]].
        rewrite Hi. cbn [lift obind]. rewrite Ha.
        cbn [outcome_of value_of]. now rewrite Hr.
  - cbn [obind].
    destruct (fallback_stage_spec user_input es)
      as [[Hr Hnone] | [j [e2 [Hr [He2 _]]]]].
    + rewrite Hr. unfold KB.fallback_stage, KB.user_norm in Hr.
      destruct (KB.difflib_close_matches _ _) as [[| m ms] | ex];
        cbn [bind lift obind] in *; try reflexivity; try discriminate.
      destruct (KB.list_index (KB.questions es) m) as [j | ex];
        cbn [bind lift obind] in *; try discriminate.
      destruct (index_at es j) as [e3 | ex] eqn:E3;
        cbn [bind] in *; discriminate.
    + rewrite Hr. unfold KB.fallback_stage, KB.user_norm in Hr.
      destruct (KB.difflib_close_matches _ _) as [[| m ms] | ex];
        cbn [bind lift obind] in *; try discriminate.
      destruct (KB.list_index (KB.questions es) m) as [j' | ex];
        cbn [bind lift obind] in *; try discriminate.
      destruct (index_at es j') as [e3 | ex] eqn:E3;
        cbn [bind] in Hr; try discriminate.
      injection Hr as Hr.
      unfold index_at in E3.
      destruct (nth_error es j') as [e4 |] eqn:E4; [| discriminate].
      injection E3 as ->.
      destruct (answer_of_typed kb es j' e3 H E4) as [entry [Hi Ha]].
      rewrite Hi. cbn [lift obind]. rewrite Ha.
      cbn [outcome_of value_of]. now rewrite Hr.
Qed.

Lemma questions_of_cons (v : json) (rest : list json) :
  questions_of (v :: rest)
  = (q <~ question_of v ;; qs <~ questions_of rest ;; Ok (q :: qs)).
Proof.
  cbn [questions_of]. unfold question_of.
  destruct (getitem v (str "question")) as [q | e]; [| reflexivity].
  cbn [obind]. destruct (normalize_value q); reflexivity.
Qed.

Lemma questions_of_ok (l : list json) :
  Forall (fun v => exists q, question_of v = Ok q) l ->
  exists qs, questions_of l = Ok qs.
Proof.
  induction 1 as [| v l [q Hq] _ [qs IH]]; [now exists [] |].
  rewrite questions_of_cons, Hq, IH. now exists (q :: qs).
Qed.

Lemma question_of_not_scalar (v : json) (q : text) :
  question_of v = Ok q -> ~ scalar v.
Proof. destruct v; simpl; intros H; try discriminate; tauto. Qed.

Lemma load_kb_array (f : file) (items : list json) :
  holds_array f items ->
  load_kb f
  = match valid_entries items with
    | Ok valid => (valid, Loaded (List.length valid))
    | Err _ => ([], LoadError)
    end.
Proof.
  intros [He Hl]. unfold load_kb. now rewrite He, Hl.
Qed.

(** An entry that passes the test of [load_kb] and has no usable question
    makes every lookup raise. *)
Lemma kept_entry_raises (f : file) (pre post : list json) (bad : json)
    (e : py_exn) :
  holds_array f (pre ++ bad :: post) ->
  Forall (fun v => exists q, question_of v = Ok q) pre ->
  Forall (fun v => ~ scalar v) post ->
  contains bad (str "question"%string) = Ok true ->
  contains bad (str "answer"%string) = Ok true ->
  question_of bad = Err e ->
  In bad (fst (load_kb f))
  /\ forall user_input cutoff,
       find_in_kb user_input (fst (load_kb f)) cutoff = Err e.
Proof.
  intros Hf Hpre Hpost Hq Ha Hbad.
  assert (Hns : Forall (fun v => ~ scalar v) (pre ++ bad :: post)).
  { apply Forall_app. split.
    - eapply Forall_impl; [| exact Hpre].
      intros v [q Hv]. now apply question_of_not_scalar in Hv.
    - constructor; [| exact Hpost].
      destruct bad; simpl in *; try discriminate; tauto. }
  destruct (valid_entries_containers _ Hns) as [keep [Hv Hkeep]].
  assert (Hk : keep bad = true).
  { apply Hkeep; [apply in_elt | now split]. }
  rewrite (load_kb_array f _ Hf), Hv. cbn [fst].
  rewrite (filter_app_cons_In keep pre post bad Hk).
  split; [apply in_elt |].
  intros user_input cutoff. unfold find_in_kb.
  assert (Hqs : questions_of (filter keep pre ++ bad :: filter keep post)
                = Err e).
  { rewrite questions_of_app.
    destruct (questions_of_ok (filter keep pre)) as [qs ->].
    - apply Forall_forall. intros v Hin. apply filter_In in Hin.
      rewrite Forall_forall in Hpre. now apply Hpre.
    - cbn [obind]. now rewrite questions_of_cons, Hbad. }
  rewrite Hqs. now destruct (filter keep pre).
Qed.

End JsonFacts.

(** X16. From a file that holds an array of objects, [load_kb] returns, in
    their order, exactly the objects in which both ["question"] and
    ["answer"] can be looked up, and reports their number. *)
Theorem load_kb_keeps_complete_objects (f : Json.file)
    (items : list Json.json) :
  holds_array f items -> Forall is_object items ->
  Json.load_kb f
  = (filter has_fields items,
     Json.Loaded (List.length (filter has_fields items))).
Proof.
  intros Hf Hobj. rewrite (load_kb_array f items Hf).
  now rewrite (valid_entries_objects items Hobj).
Qed.

Lemma load_kb_keeps_complete_objects_witness :
  Json.load_kb
    {| Json.file_exists := true;
       Json.json_load :=
         Json.Ok
           (Json.JArr
              [ Json.JObj [(str "question"%string, Json.JStr (str "q1"%string));
                           (str "answer"%string, Json.JStr (str "a1"%string))];
                Json.JObj [(str "question"%string,
                            Json.JStr (str "q2"%string))] ]) |}
  = ([ Json.JObj [(str "question"%string, Json.JStr (str "q1"%string));
                  (str "answer"%string, Json.JStr (str "a1"%string))] ],
     Json.Loaded 1).
Proof.
  refine (load_kb_keeps_complete_objects
            {| Json.file_exists := true;
               Json.json_load := Json.Ok (Json.JArr _) |}
            [ Json.JObj [(str "question"%string, Json.JStr (str "q1"%string));
                         (str "answer"%string, Json.JStr (str "a1"%string))];
              Json.JObj [(str "question"%string,
                          Json.JStr (str "q2"%string))] ] _ _).
  - split; reflexivity.
  - repeat constructor.
Defined.

(** X17. One null, boolean or number anywhere in the array of the file
    makes [load_kb] return no entry at all, whatever the other entries
    are. *)
Theorem load_kb_scalar_entry_drops_all (f : Json.file)
    (items : list Json.json) :
  holds_array f items -> Exists scalar items ->
  Json.load_kb f = ([], Json.LoadError).
Proof.
  intros Hf Hs. rewrite (load_kb_array f items Hf).
  destruct (valid_entries_scalar items Hs) as [e ->]. reflexivity.
Qed.

Lemma load_kb_scalar_entry_drops_all_witness :
  Json.load_kb
    {| Json.file_exists := true;
       Json.json_load :=
         Json.Ok
           (Json.JArr
              [ Json.JObj [(str "question"%string, Json.JStr (str "q1"%string));
                           (str "answer"%string, Json.JStr (str "a1"%string))];
                Json.JNull ]) |}
  = ([], Json.LoadError).
Proof.
  refine (load_kb_scalar_entry_drops_all
            {| Json.file_exists := true;
               Json.json_load := Json.Ok (Json.JArr _) |}
            [ Json.JObj [(str "question"%string, Json.JStr (str "q1"%string));
                         (str "answer"%string, Json.JStr (str "a1"%string))];
              Json.JNull ] _ _).
  - split; reflexivity.
  - right. left. exact I.
Defined.

(** X18. On entries that are objects with a string question and a string
    answer, [find_in_kb] over the loaded values returns what [find_in_kb]
    over the typed records returns, and so never raises. *)
Theorem find_in_kb_on_loaded_objects (user_input : text)
    (kb : list Json.json) (es : list KB.entry) (cutoff : Q) :
  typed_as kb es ->
  Json.find_in_kb user_input kb cutoff
  = outcome_of (KB.find_in_kb user_input es cutoff)
  /\ exists v, Json.find_in_kb user_input kb cutoff = Json.Ok v.
Proof.
  intros H. rewrite (find_in_kb_typed user_input kb es cutoff H).
  split; [reflexivity |].
  destruct (find_in_kb_returns user_input es cutoff) as [r ->].
  now eexists.
Qed.

Lemma find_in_kb_on_loaded_objects_witness :
  Json.find_in_kb (str "Q1?")
    [ Json.JObj [(str "question"%string, Json.JStr (str "q1"%string));
                 (str "answer"%string, Json.JStr (str "a1"%string))] ]
    KB.default_cutoff
  = Json.Ok (Json.JStr (str "a1"%string)).
Proof.
  refine (proj1 (find_in_kb_on_loaded_objects (str "Q1?") _
                   [Json.entry_of (str "q1"%string) (str "a1"%string)]
                   KB.default_cutoff _)).
  repeat constructor.
Defined.

(** X19. [load_kb] keeps entries on which [find_in_kb] raises: when the
    array of the file holds, after entries with a usable question, an entry
    that contains both words but whose question cannot be normalized (a
    string, an array, an object whose question is not a string), that entry
    is loaded and every lookup raises its exception. *)
Theorem loaded_entry_makes_lookup_raise (f : Json.file)
    (pre post : list Json.json) (bad : Json.json) (e : Json.py_exn) :
  holds_array f (pre ++ bad :: post) ->
  Forall (fun v => exists q, question_of v = Json.Ok q) pre ->
  Forall (fun v => ~ scalar v) post ->
  Json.contains bad (str "question"%string) = Json.Ok true ->
  Json.contains bad (str "answer"%string) = Json.Ok true ->
  question_of bad = Json.Err e ->
  In bad (fst (Json.load_kb f))
  /\ forall user_input cutoff,
       Json.find_in_kb user_input (fst (Json.load_kb f)) cutoff = Json.Err e.
Proof. apply kept_entry_raises. Qed.

Lemma loaded_entry_makes_lookup_raise_witness :
  In (Json.JStr (str "a question and its answer"%string))
     (fst (Json.load_kb
             {| Json.file_exists := true;
                Json.json_load :=
                  Json.Ok
                    (Json.JArr
                       [Json.JStr (str "a question and its answer"%string)])
             |}))
  /\ forall user_input cutoff,
       Json.find_in_kb user_input
         (fst (Json.load_kb
                 {| Json.file_exists := true;
                    Json.json_load :=
                      Json.Ok
                        (Json.JArr
                           [Json.JStr
                              (str "a question and its answer"%string)])
                 |}))
         cutoff
       = Json.Err Json.TypeError.
Proof.
  refine (loaded_entry_makes_lookup_raise
            {| Json.file_exists := true;
               Json.json_load := Json.Ok (Json.JArr _) |}
            [] [] (Json.JStr (str "a question and its answer"%string))
            Json.TypeError _ _ _ _ _ _).
  - split; reflexivity.
  - constructor.
  - constructor.
  - reflexivity.
  - reflexivity.
  - reflexivity.
Defined.

(** ** The patterns of the chat loop and the tokens *)

Section GroupPatternFacts.

Lemma at_boundary_lower (prev : option ascii) (s : text) :
  Regex.at_boundary (option_map lower_char prev) (lower s)
  = Regex.at_boundary prev s.
Proof.
  unfold Regex.at_boundary. f_equal.
  - destruct prev; cbn [option_map Regex.word_opt];
      [apply is_word_lower_char | reflexivity].
  - destruct s; cbn [lower map hd_error Regex.word_opt];
      [reflexivity | apply is_word_lower_char].
Qed.

(** Reading a lowercase literal ignoring case is matching it on the
    lowercased text. *)
Lemma read_literal_lower (q : Regex.pattern)
    (K : option ascii -> text -> bool) :
  (forall prev s,
     K prev s = Regex.match_here q (option_map lower_char prev) (lower s)) ->
  forall alt, Forall (fun c => lower_char c = c) alt ->
  forall prev s,
  match RegexI.read_literal alt prev s with
  | Some (prev', s') => K prev' s'
  | None => false
  end
  = Regex.match_here (map Regex.Chr alt ++ q)
                     (option_map lower_char prev) (lower s).
Proof.
  intros HK alt Halt. induction Halt as [| c alt Hc _ IH]; intros prev s.
  - cbn [RegexI.read_literal map app]. apply HK.
  - cbn [RegexI.read_literal map app Regex.match_here].
    destruct s as [| x s']; [reflexivity |].
    cbn [lower map]. unfold RegexI.same_letter. rewrite Hc.
    destruct (Ascii.eqb (lower_char x) c); [| reflexivity].
    cbn [andb]. apply (IH (Some x) s').
Qed.

Lemma existsb_orb {A : Type} (f g : A -> bool) (l : list A) :
  existsb (fun x => f x || g x) l = existsb f l || existsb g l.
Proof.
  induction l as [| x l IH]; [reflexivity |].
  cbn [existsb]. rewrite IH.
  destruct (f x), (g x), (existsb f l), (existsb g l); reflexivity.
Qed.

Lemma existsb_ext_in {A : Type} (f g : A -> bool) (l : list A) :
  (forall x, In x l -> f x = g x) -> existsb f l = existsb g l.
Proof.
  induction l as [| x l IH]; intros H; [reflexivity |].
  cbn [existsb]. rewrite (H x) by now left.
  rewrite IH; [reflexivity |]. intros y Hy. apply H. now right.
Qed.

Lemma existsb_false {A : Type} (l : list A) :
  existsb (fun _ => false) l = false.
Proof. induction l; auto. Qed.

Lemma existsb_andb_l {A : Type} (b : bool) (f : A -> bool) (l : list A) :
  b && existsb f l = existsb (fun x => b && f x) l.
Proof.
  destruct b; cbn [andb]; [reflexivity |]. now rewrite existsb_false.
Qed.

(** A group of lowercase words between two [\b], ignoring case, against
    each of its words on the lowercased text. *)
Lemma group_search_from (alts : list text) :
  Forall (Forall (fun c => lower_char c = c)) alts ->
  forall s prev,
  RegexI.search_from [RegexI.Boundary; RegexI.Group alts; RegexI.Boundary]
                     prev s
  = existsb
      (fun alt =>
         Regex.search_from
           (Regex.WordBoundary :: map Regex.Chr alt ++ [Regex.WordBoundary])
           (option_map lower_char prev) (lower s))
      alts.
Proof.
  intros Halts.
  assert (Hhere : forall prev s,
    RegexI.match_here [RegexI.Boundary; RegexI.Group alts; RegexI.Boundary]
                      prev s
    = existsb
        (fun alt =>
           Regex.match_here
             (Regex.WordBoundary :: map Regex.Chr alt ++ [Regex.WordBoundary])
             (option_map lower_char prev) (lower s))
        alts).
  { intros prev s. cbn [RegexI.match_here Regex.match_here].
    rewrite existsb_andb_l. rewrite at_boundary_lower.
    apply existsb_ext_in. intros alt Hin. f_equal.
    rewrite Forall_forall in Halts.
    apply (read_literal_lower [Regex.WordBoundary]
             (fun prev' s' => Regex.at_boundary prev' s' && true));
      [| now apply Halts].
    intros p' s'. cbn [Regex.match_here]. now rewrite at_boundary_lower. }
  induction s as [| x s IH]; intros prev.
  - cbn [RegexI.search_from lower map Regex.search_from].
    rewrite Hhere, orb_false_r. apply existsb_ext_in. intros alt _.
    now rewrite orb_false_r.
  - cbn [RegexI.search_from lower map Regex.search_from].
    rewrite Hhere, (IH (Some x)), <- existsb_orb. reflexivity.
Qed.

Lemma group_search_tokens (alts : list text) (s : text) :
  plain_words alts = true ->
  RegexI.search_from [RegexI.Boundary; RegexI.Group alts; RegexI.Boundary]
                     None s = true
  <-> has_token alts s.
Proof.
  intros Hp. unfold plain_words in Hp. rewrite forallb_forall in Hp.
  rewrite group_search_from.
  - cbn [option_map]. rewrite existsb_exists. unfold has_token.
    split; intros [w [Hin H]]; exists w; (split; [exact Hin |]);
      specialize (Hp w Hin); apply andb_true_iff in Hp;
      destruct Hp as [Hne Hw]; rewrite forallb_forall in Hw.
    + apply In_tokenize_run. apply search_from_bounded_word in H; auto.
      * intros ->. discriminate.
      * apply Forall_forall. intros c Hc. specialize (Hw c Hc).
        now apply andb_true_iff in Hw.
    + apply In_tokenize_run in H. apply search_from_bounded_word; auto.
      * intros ->. discriminate.
      * apply Forall_forall. intros c Hc. specialize (Hw c Hc).
        now apply andb_true_iff in Hw.
  - apply Forall_forall. intros w Hin. specialize (Hp w Hin).
    apply andb_true_iff in Hp. destruct Hp as [_ Hw].
    rewrite forallb_forall in Hw. apply Forall_forall. intros c Hc.
    specialize (Hw c Hc). apply andb_true_iff in Hw.
    destruct Hw as [_ Hw]. now apply Ascii.eqb_eq in Hw.
Qed.

Lemma exit_pattern_tokens (s : text) :
  RegexI.search Chat.EXIT_PATTERN s = true <-> has_token exit_words s.
Proof. now apply (group_search_tokens exit_words s). Qed.

Lemma resize_pattern_tokens (s : text) :
  RegexI.search Chat.RESIZE_PATTERN s = true <-> has_token resize_words s.
Proof. now apply (group_search_tokens resize_words s). Qed.

Lemma flask_pattern_tokens (s : text) :
  RegexI.search Chat.FLASK_PATTERN s = true <-> has_token flask_words s.
Proof. now apply (group_search_tokens flask_words s). Qed.

End GroupPatternFacts.

(** ** The chat loop *)

Section ChatFacts.

Import Chat.

Variable kb_data : list KB.entry.
Variable rng : nat -> nat -> nat.

Lemma search_exit_nonempty (user : text) :
  RegexI.search EXIT_PATTERN user = true -> user <> [].
Proof. intros H ->. discriminate H. Qed.

Lemma reply_exit (draws : nat) (user : text) :
  RegexI.search EXIT_PATTERN user = true ->
  reply kb_data rng draws user
  = Return (["ChatBuddy: Goodbye — take care!"%string], Break, draws).
Proof.
  intros H. unfold reply. destruct user as [| c user]; [discriminate H |].
  now rewrite H.
Qed.

Lemma match_intent_registered (s k : text) :
  Intents.match_intent s = Some k ->
  forall randbelow, (forall n, 0 < n -> randbelow n < n) ->
  exists r, Intents.intent_response randbelow k = Return r.
Proof.
  intros Hm randbelow Hr. unfold Intents.match_intent in Hm.
  destruct (match_rules_key _ _ _ Hm) as [data Hin].
  unfold Intents.intent_response.
  rewrite (lookup_In _ _ _ intent_keys_distinct Hin). cbn [bind].
  destruct (choice_In randbelow (Intents.responses data) Hr) as [r [Hc _]].
  - pose proof intent_responses_nonempty as Hne.
    rewrite Forall_forall in Hne. apply (Hne (k, data) Hin).
  - now exists r.
Qed.

Lemma kb_reply_shape (a : string) (user : text) :
  reply_shape (kb_reply a user).
Proof.
  unfold kb_reply.
  exists ("ChatBuddy (KB): " ++ a)%string.
  eexists. split; [reflexivity |]. split; [reflexivity |].
  destruct (Lexicon.polarity (Lexicon.detect_sentiment user));
    destruct (Lexicon.detect_emotions user);
    cbn [app List.length]; split; repeat constructor.
Qed.

Lemma sentiment_reply_shape (draws : nat) (user : text) :
  in_range rng ->
  exists lines draws',
    sentiment_reply rng draws user = Return (lines, draws')
    /\ reply_shape lines /\ (draws' = draws \/ draws' = S draws).
Proof.
  intros Hr. unfold sentiment_reply.
  destruct (Lexicon.polarity (Lexicon.detect_sentiment user)).
  - do 2 eexists. split; [reflexivity |]. split; [| now left].
    do 2 eexists. split; [reflexivity |]. split.
    + destruct (_ || _); reflexivity.
    + split; repeat constructor.
  - do 2 eexists. split; [reflexivity |]. split; [| now left].
    do 2 eexists. split; [reflexivity |]. split.
    + destruct (has_emotion _ "sadness"); [reflexivity |].
      destruct (has_emotion _ "anger"); reflexivity.
    + split; repeat constructor.
  - destruct (RegexI.search RESIZE_PATTERN user).
    + do 2 eexists. split; [reflexivity |]. split; [| now left].
      do 2 eexists. split; [reflexivity |]. split; [reflexivity |].
      split; repeat constructor.
    + destruct (RegexI.search FLASK_PATTERN user).
      * do 2 eexists. split; [reflexivity |]. split; [| now left].
        do 2 eexists. split; [reflexivity |]. split; [reflexivity |].
        split; repeat constructor.
      * destruct (choice_In (rng draws) fallback_phrases (Hr draws))
          as [phrase [Hc _]]; [discriminate |].
        rewrite Hc. cbn [bind].
        do 2 eexists. split; [reflexivity |]. split; [| now right].
        do 2 eexists. split; [reflexivity |]. split; [reflexivity |].
        split; repeat constructor.
Qed.

(** With a random source in range an iteration never raises, and what it
    prints is one reply. *)
Lemma reply_returns (draws : nat) (user : text) :
  in_range rng ->
  exists lines ctl draws',
    reply kb_data rng draws user = Return (lines, ctl, draws')
    /\ reply_shape lines
    /\ (draws' = draws \/ draws' = S draws)
    /\ (ctl = Break
        <-> RegexI.search EXIT_PATTERN user = true).
Proof.
  intros Hr. unfold reply. destruct user as [| c0 user'].
  - do 3 eexists. split; [reflexivity |]. split.
    + do 2 eexists. split; [reflexivity |]. split; [reflexivity |].
      split; repeat constructor.
    + split; [now left |]. split; discriminate.
  - set (user := c0 :: user').
    destruct (RegexI.search EXIT_PATTERN user) eqn:Ex.
    + do 3 eexists. split; [reflexivity |]. split.
      * do 2 eexists. split; [reflexivity |]. split; [reflexivity |].
        split; repeat constructor.
      * split; [now left |]. split; reflexivity.
    + destruct (find_in_kb_returns user kb_data KB.default_cutoff)
        as [kb_answer Hk].
      rewrite Hk. cbn [bind].
      assert (Hrest :
        exists lines ctl draws',
          match Intents.match_intent user with
          | Some (c :: k) =>
              response <- Intents.intent_response (rng draws) (c :: k) ;;
              Return ([("ChatBuddy: " ++ response)%string],
                      Continue, S draws)
          | _ =>
              r <- sentiment_reply rng draws user ;;
              Return (fst r, Continue, snd r)
          end = Return (lines, ctl, draws')
          /\ reply_shape lines
          /\ (draws' = draws \/ draws' = S draws)
          /\ (ctl = Break <-> false = true)).
      { assert (Hs :
          exists lines ctl draws',
            (r <- sentiment_reply rng draws user ;;
             Return (fst r, Continue, snd r)) = Return (lines, ctl, draws')
            /\ reply_shape lines
            /\ (draws' = draws \/ draws' = S draws)
            /\ (ctl = Break <-> false = true)).
        { destruct (sentiment_reply_shape draws user Hr)
            as [lines [draws' [Hs [Hshape Hd]]]].
          rewrite Hs. cbn [bind fst snd].
          exists lines, Continue, draws'. split; [reflexivity |].
          split; [exact Hshape |]. split; [exact Hd |].
          split; discriminate. }
        destruct (Intents.match_intent user) as [[| c k] |] eqn:Em;
          try exact Hs.
        destruct (match_intent_registered user (c :: k) Em (rng draws)
                    (Hr draws)) as [r Hresp].
        rewrite Hresp. cbn [bind].
        do 3 eexists. split; [reflexivity |]. split.
        - do 2 eexists. split; [reflexivity |]. split; [reflexivity |].
          split; repeat constructor.
        - split; [now right |]. split; discriminate. }
      destruct kb_answer as [[| c a] |]; try exact Hrest.
      do 3 eexists. split; [reflexivity |].
      split; [apply kb_reply_shape |].
      split; [now left |]. split; discriminate.
Qed.

(** Nothing is read after a line that the exit pattern matches. *)
Lemma main_loop_exit (pre : list text) (line : text) (post : list text) :
  RegexI.search EXIT_PATTERN (strip line) = true ->
  forall draws,
  main_loop kb_data rng draws (pre ++ line :: post)
  = main_loop kb_data rng draws (pre ++ [line]).
Proof.
  intros Hx. induction pre as [| l pre IH]; intros draws.
  - cbn [app main_loop]. now rewrite (reply_exit _ _ Hx).
  - cbn [app main_loop].
    destruct (reply kb_data rng draws (strip l)) as [[[lines ctl] d'] | e];
      [| reflexivity].
    destruct ctl; [| reflexivity]. now rewrite IH.
Qed.

Lemma last_cons_ne {A : Type} (x : A) (l : list A) (d : A) :
  l <> [] -> last (x :: l) d = last l d.
Proof. destruct l; [contradiction | reflexivity]. Qed.

Lemma last_app_ne {A : Type} (l l' : list A) (d : A) :
  l' <> [] -> last (l ++ l') d = last l' d.
Proof.
  intros Hne. induction l as [| x l IH]; [reflexivity |].
  cbn [app]. rewrite last_cons_ne; [exact IH |].
  destruct l; [exact Hne | discriminate].
Qed.

Lemma main_loop_prompts (draws : nat) (inputs : list text) :
  fst (main_loop kb_data rng draws inputs) <> [].
Proof.
  destruct inputs as [| line rest]; cbn [main_loop]; [discriminate |].
  destruct (reply _ _ _ _) as [[[? []] ?] | ?]; discriminate.
Qed.

(** With a random source in range a session never crashes and ends on a
    farewell. *)
Lemma main_loop_ends (inputs : list text) :
  in_range rng ->
  forall draws,
  snd (main_loop kb_data rng draws inputs) = Ended
  /\ farewell (last (fst (main_loop kb_data rng draws inputs)) (Prompt "")).
Proof.
  intros Hr. induction inputs as [| line rest IH]; intros draws.
  - cbn [main_loop fst snd last]. split; [reflexivity | now right].
  - cbn [main_loop].
    destruct (reply_returns draws (strip line) Hr)
      as [lines [ctl [d' [Hrep [[first [remarks [-> _]]] [_ Hb]]]]]].
    rewrite Hrep. destruct ctl.
    + destruct (IH d') as [Hs Hf]. cbn [fst snd]. split; [exact Hs |].
      rewrite last_cons_ne.
      * rewrite last_app_ne; [exact Hf | apply main_loop_prompts].
      * cbn [map app]. discriminate.
    + cbn [fst snd]. split; [reflexivity |].
      assert (Hx : RegexI.search EXIT_PATTERN (strip line) = true)
        by now apply Hb.
      rewrite (reply_exit _ _ Hx) in Hrep. injection Hrep as <- <-.
      cbn [map last]. now left.
Qed.

End ChatFacts.

Section GoodbyeFacts.

(** The five patterns of the intent [goodbye]: four of them are the exit
    words. *)
Lemma goodbye_needs_see_you (user : text) :
  RegexI.search Chat.EXIT_PATTERN user = false ->
  Intents.match_intent user = Some (str "goodbye") ->
  Regex.search "\bsee you\b" (lower user) = true.
Proof.
  intros Hx Hm.
  assert (Hno : forall w : string,
            In (str w) exit_words ->
            Forall (fun c => is_word c = true) (str w) -> str w <> [] ->
            Regex.search ("\b" ++ w ++ "\b") (lower user) = false).
  { intros w Hin Hw Hne.
    destruct (Regex.search ("\b" ++ w ++ "\b") (lower user)) eqn:E;
      [| reflexivity].
    apply (search_bounded_word w (lower user) Hne Hw) in E.
    apply In_tokenize_run in E.
    assert (RegexI.search Chat.EXIT_PATTERN user = true)
      by (apply exit_pattern_tokens; now exists (str w)).
    congruence. }
  assert (H1 : Regex.search "\bbye\b" (lower user) = false)
    by (apply (Hno "bye"%string);
        [simpl; tauto | repeat constructor | discriminate]).
  assert (H2 : Regex.search "\bgoodbye\b" (lower user) = false)
    by (apply (Hno "goodbye"%string);
        [simpl; tauto | repeat constructor | discriminate]).
  assert (H3 : Regex.search "\bexit\b" (lower user) = false)
    by (apply (Hno "exit"%string);
        [simpl; tauto | repeat constructor | discriminate]).
  assert (H4 : Regex.search "\bquit\b" (lower user) = false)
    by (apply (Hno "quit"%string);
        [simpl; tauto | repeat constructor | discriminate]).
  unfold Intents.match_intent in Hm.
  cbn [Intents.INTENTS Intents.match_rules] in Hm.
  destruct (existsb _ _) in Hm; [discriminate Hm |].
  cbn [Intents.patterns existsb] in Hm.
  rewrite H1, H2, H3, H4 in Hm. cbn [orb] in Hm.
  destruct (Regex.search "\bsee you\b" (lower user)); [reflexivity |].
  exfalso. cbn [orb] in Hm.
  repeat match type of Hm with
         | (if ?c then _ else _) = _ => destruct c; [discriminate Hm |]
         end.
  discriminate Hm.
Qed.

End GoodbyeFacts.

(** ** A sequence compared with itself *)

Section SelfMatchFacts.

Import Difflib.

Variable x : text.

Lemma run_len_unfold (a b : text) (i j : nat) :
  run_len a b i j
  = if Ascii.eqb (elt a i) (elt b j) && negb (popular b (elt b j))
    then S (prev_run a b i j) else 0.
Proof. destruct i, j; reflexivity. Qed.

Lemma run_len_le_row (i j : nat) : run_len x x i j <= run_len x x i i.
Proof.
  revert j. induction i as [| i IH]; intros j.
  - rewrite !run_len_unfold. cbn [prev_run].
    destruct (Ascii.eqb (elt x 0) (elt x j)) eqn:E; [| cbn; lia].
    apply Ascii.eqb_eq in E. rewrite <- E, Ascii.eqb_refl.
    destruct (negb _); cbn; lia.
  - rewrite !run_len_unfold.
    destruct (Ascii.eqb (elt x (S i)) (elt x j)) eqn:E; [| cbn; lia].
    apply Ascii.eqb_eq in E. rewrite <- E, Ascii.eqb_refl.
    destruct (negb _); cbn [andb]; [| lia].
    destruct j as [| j]; cbn [prev_run]; [lia |].
    specialize (IH j). lia.
Qed.

Lemma run_len_le_column (i j : nat) : run_len x x i j <= run_len x x j j.
Proof.
  revert j. induction i as [| i IH]; intros j.
  - rewrite (run_len_unfold x x 0 j), (run_len_unfold x x j j).
    cbn [prev_run]. rewrite Ascii.eqb_refl.
    destruct (Ascii.eqb (elt x 0) (elt x j)); [| cbn; lia].
    destruct (negb _); cbn; lia.
  - rewrite (run_len_unfold x x (S i) j), (run_len_unfold x x j j).
    rewrite Ascii.eqb_refl.
    destruct (Ascii.eqb (elt x (S i)) (elt x j)); [| cbn; lia].
    destruct (negb _); cbn [andb]; [| lia].
    destruct j as [| j]; cbn [prev_run]; [lia |].
    specialize (IH j). lia.
Qed.

Lemma run_len_le_index (a b : text) (i j : nat) : run_len a b i j <= S i.
Proof.
  revert j. induction i as [| i IH]; intros j.
  - rewrite run_len_unfold. cbn [prev_run]. destruct (_ && _); lia.
  - rewrite run_len_unfold. destruct (_ && _); [| lia].
    destruct j as [| j]; cbn [prev_run]; [lia |].
    specialize (IH j). lia.
Qed.

Lemma j2len_get_cons (d : list (nat * nat)) (j k j' : nat) :
  j2len_get ((j, k) :: d) j' = if j =? j' then k else j2len_get d j'.
Proof.
  unfold j2len_get. cbn [find fst snd]. now destruct (j =? j').
Qed.

Lemma row_self (i : nat) (j2len : list (nat * nat)) :
  i < (List.length x) ->
  popular x (elt x i) = false ->
  (forall j, j < (List.length x) -> prev_len j2len j = prev_run x x i j) ->
  forall (s : text) (from : nat) (newj2len : list (nat * nat))
         (best : block),
  s = skipn from x -> from + List.length s = (List.length x) ->
  row_state x i from newj2len best ->
  row_state x i (List.length x)
    (fst (row 0 (List.length x) i j2len (indices_from from s (elt x i))
            newj2len best))
    (snd (row 0 (List.length x) i j2len (indices_from from s (elt x i))
            newj2len best)).
Proof.
  intros Hi Hpop Hprev s.
  induction s as [| c s IH]; intros from newj2len best Hs Hlen Hst.
  - cbn [List.length] in Hlen. replace (List.length x) with from by lia.
    exact Hst.
  - cbn [List.length] in Hlen.
    assert (Hc : elt x from = c).
    { unfold elt. rewrite <- (firstn_skipn from x) at 1. rewrite <- Hs.
      rewrite app_nth2; rewrite length_firstn; [| lia].
      now replace (from - Nat.min from (List.length x)) with 0 by lia. }
    assert (Hs' : s = skipn (S from) x).
    { replace (S from) with (1 + from) by lia.
      rewrite <- skipn_skipn, <- Hs. reflexivity. }
    destruct Hst as [Hj [bi [bk [-> [Hb Hmax]]]]].
    cbn [indices_from].
    destruct (Ascii.eqb c (elt x i)) eqn:Ec.
    + cbn [row]. replace (from <? 0) with false by reflexivity.
      replace (List.length x <=? from) with false
        by (symmetry; apply Nat.leb_gt; lia).
      assert (Hk : prev_len j2len from + 1 = run_len x x i from).
      { rewrite run_len_unfold, Hc, Ascii.eqb_sym, Ec.
        apply Ascii.eqb_eq in Ec. rewrite Ec, Hpop, Hprev by lia.
        cbn [negb andb]. lia. }
      rewrite Hk. apply IH; [exact Hs' | lia |]. split.
      * intros j. rewrite j2len_get_cons, Hj.
        destruct (Nat.eqb_spec from j) as [<- | Hne].
        -- now replace (from <? S from) with true
             by (symmetry; apply Nat.ltb_lt; lia).
        -- destruct (Nat.ltb_spec j from), (Nat.ltb_spec j (S from));
             try reflexivity; lia.
      * unfold size_of. cbn [snd].
        destruct (Nat.ltb_spec bk (run_len x x i from)) as [Hlt | Hge].
        -- assert (Heq : from = i).
           { destruct (Nat.lt_trichotomy from i) as [H | [H | H]];
               [| exact H |]; exfalso.
             - pose proof (run_len_le_column i from).
               pose proof (Hmax from from ltac:(lia) (or_introl H)). lia.
             - pose proof (run_len_le_row i from).
               pose proof (Hmax i i Hi (or_intror (conj eq_refl H))). lia. }
           subst from. pose proof (run_len_le_index x x i i) as Hle.
           exists (i + 1 - run_len x x i i), (run_len x x i i).
           split; [reflexivity |]. split; [lia |].
           intros i' j' Hj' [H | [-> H]].
           ++ pose proof (Hmax i' j' Hj' (or_introl H)). lia.
           ++ destruct (Nat.eq_dec j' i) as [-> | Hne]; [lia |].
              assert (H0 : j' < i) by lia.
              pose proof (Hmax i j' Hj' (or_intror (conj eq_refl H0))).
              lia.
        -- exists bi, bk. split; [reflexivity |]. split; [exact Hb |].
           intros i' j' Hj' [H | [-> H]].
           ++ apply Hmax; [exact Hj' | now left].
           ++ destruct (Nat.eq_dec j' from) as [-> | Hne]; [exact Hge |].
              apply Hmax; [exact Hj' |]. right. split; [reflexivity | lia].
    + apply IH; [exact Hs' | lia |].
      assert (H0 : run_len x x i from = 0).
      { rewrite run_len_unfold, Hc, Ascii.eqb_sym, Ec. reflexivity. }
      split.
      * intros j. rewrite Hj.
        destruct (Nat.ltb_spec j from), (Nat.ltb_spec j (S from));
          try reflexivity; try lia.
        replace j with from by lia. now rewrite H0.
      * exists bi, bk. split; [reflexivity |]. split; [exact Hb |].
        intros i' j' Hj' [H | [-> H]].
        -- apply Hmax; [exact Hj' | now left].
        -- destruct (Nat.eq_dec j' from) as [-> | Hne]; [lia |].
           apply Hmax; [exact Hj' |]. right. split; [reflexivity | lia].
Qed.

Lemma round_self (i : nat) (st : list (nat * nat) * block) :
  i < (List.length x) ->
  rounds_state x i st ->
  rounds_state x (S i)
    (row 0 (List.length x) i (fst st) (b2j x (elt x i)) [] (snd st)).
Proof.
  intros Hi [Hprev [bi [bk [Hbest [Hb Hmax]]]]]. unfold b2j.
  destruct (popular x (elt x i)) eqn:Hpop.
  - assert (H0 : forall j, run_len x x i j = 0).
    { intros j. rewrite run_len_unfold.
      destruct (Ascii.eqb (elt x i) (elt x j)) eqn:E; [| reflexivity].
      apply Ascii.eqb_eq in E. now rewrite <- E, Hpop. }
    cbn [row]. split.
    + intros j _. cbn [fst]. destruct j as [| j]; [reflexivity |].
      cbn [prev_len prev_run]. now rewrite H0.
    + exists bi, bk. split; [exact Hbest |]. split; [exact Hb |].
      intros i' j' Hi' Hj'.
      destruct (Nat.eq_dec i' i) as [-> | Hne]; [rewrite H0; lia |].
      apply Hmax; lia.
  - destruct (row_self i (fst st) Hi Hpop Hprev x 0 [] (snd st))
      as [Hj [bi' [bk' [Hbest' [Hb' Hmax']]]]].
    + reflexivity.
    + reflexivity.
    + split; [reflexivity |].
      exists bi, bk. split; [exact Hbest |]. split; [exact Hb |].
      intros i' j' Hj' [H | [_ H]]; [now apply Hmax | lia].
    + split.
      * intros j Hlt. destruct j as [| j]; [reflexivity |].
        cbn [prev_len prev_run]. rewrite Hj.
        now replace (j <? List.length x) with true
          by (symmetry; apply Nat.ltb_lt; lia).
      * exists bi', bk'. split; [exact Hbest' |]. split; [exact Hb' |].
        intros i' j' Hi' Hj'. apply Hmax'; [exact Hj' |].
        destruct (Nat.eq_dec i' i) as [-> | Hne];
          [right; now split | left; lia].
Qed.

Lemma rounds_self (len s : nat) (st : list (nat * nat) * block) :
  s + len = (List.length x) ->
  rounds_state x s st ->
  rounds_state x (List.length x)
    (fold_left
       (fun (st : list (nat * nat) * block) i =>
          row 0 (List.length x) i (fst st) (b2j x (elt x i)) [] (snd st))
       (seq s len) st).
Proof.
  revert s st. induction len as [| len IH]; intros s st Hlen Hst.
  - cbn [seq fold_left]. now replace (List.length x) with s by lia.
  - cbn [seq fold_left]. apply IH; [lia |].
    apply round_self; [lia | exact Hst].
Qed.

Lemma longest_junk_free_self :
  exists bi bk,
    longest_junk_free x x 0 (List.length x) 0 (List.length x) = (bi, bi, bk)
    /\ bi + bk <= List.length x.
Proof.
  unfold longest_junk_free. rewrite Nat.sub_0_r.
  destruct (rounds_self (List.length x) 0 ([], (0, 0, 0)))
    as [_ [bi [bk [Hbest [Hb _]]]]].
  - reflexivity.
  - split.
    + intros j _. now destruct j.
    + exists 0, 0. split; [reflexivity |]. split; [lia |].
      intros i' j' Hi'. lia.
  - now exists bi, bk.
Qed.

Lemma extend_left_self (bi bk : nat) :
  extend_left x x 0 0 bi bi bk = (0, 0, bi + bk).
Proof.
  revert bk. induction bi as [| bi IH]; intros bk; [reflexivity |].
  cbn [extend_left]. rewrite Ascii.eqb_refl.
  replace (0 <? S bi) with true by reflexivity. cbn [andb].
  rewrite IH. f_equal. lia.
Qed.

Lemma extend_right_self (fuel s : nat) :
  s + fuel = List.length x ->
  extend_right x x (List.length x) (List.length x) fuel 0 0 s
  = (0, 0, List.length x).
Proof.
  revert s. induction fuel as [| fuel IH]; intros s Hs.
  - cbn [extend_right]. f_equal. lia.
  - cbn [extend_right]. cbn [Nat.add]. rewrite Ascii.eqb_refl.
    replace (s <? List.length x) with true
      by (symmetry; apply Nat.ltb_lt; lia).
    cbn [andb]. apply IH. lia.
Qed.

(** The longest match of a sequence with itself is the whole of it. *)
Lemma find_longest_match_self :
  find_longest_match x x 0 (List.length x) 0 (List.length x)
  = (0, 0, List.length x).
Proof.
  unfold find_longest_match.
  destruct longest_junk_free_self as [bi [bk [-> Hb]]].
  rewrite extend_left_self. apply extend_right_self. lia.
Qed.

Lemma get_matching_blocks_self :
  list_sum (map size_of (get_matching_blocks x x)) = (List.length x).
Proof.
  unfold get_matching_blocks, blocks_fuel.
  replace (2 * List.length x + 1) with (S (2 * List.length x)) by lia.
  cbn [blocks_loop].
  rewrite find_longest_match_self.
  destruct (Nat.ltb_spec 0 (List.length x)) as [Hpos | Hz].
  - replace (0 <? 0) with false by reflexivity. cbn [andb Nat.add].
    rewrite Nat.ltb_irrefl. cbn [andb].
    assert (Hn : (0 <? List.length x) = true) by (apply Nat.ltb_lt; lia).
    destruct (2 * (List.length x));
      cbn [blocks_loop app sort_blocks fold_right insert_block collapse
           Nat.add];
      rewrite !Nat.eqb_refl; cbn [andb collapse Nat.add];
      rewrite Hn; cbn [app map size_of snd list_sum fold_right]; lia.
  - assert (Hn : (List.length x) = 0) by lia. rewrite Hn.
    cbn. reflexivity.
Qed.

(** A sequence is as similar to itself as can be. *)
Lemma ratio_self : (ratio x x == 1)%Q.
Proof.
  unfold ratio. rewrite get_matching_blocks_self. unfold calculate_ratio.
  destruct (List.length x + List.length x) as [| m] eqn:E;
    [reflexivity |].
  unfold Qeq. cbn [Qnum Qden]. lia.
Qed.

End SelfMatchFacts.

Section ExactQuestionFacts.

Import KB.

Lemma stored_question_answered (user_input : text) (kb : list entry)
    (cutoff : Q) (e : entry) :
  In e kb ->
  normalize user_input = normalize (question e) ->
  exists r, In r kb
    /\ find_in_kb user_input kb cutoff = Return (Some (answer r)).
Proof.
  intros He Hq.
  assert (Hkb : kb <> []) by (intros ->; contradiction).
  destruct (find_in_kb_cases user_input kb cutoff Hkb)
    as [i [b [[[Hb _] _] [_ Hf]]]].
  rewrite Hf. destruct (_ && _).
  - exists b. split; [now apply nth_error_In in Hb | reflexivity].
  - destruct (fallback_stage_spec user_input kb)
      as [[_ Hnone] | [j [r [Hr [Hn _]]]]].
    + exfalso. apply (Hnone e He). unfold similarity.
      rewrite Hq, ratio_self. discriminate.
    + exists r. split; [now apply nth_error_In in Hn | exact Hr].
Qed.

End ExactQuestionFacts.


(** X20. A question asked as the base stores it, up to what [normalize]
    removes, is always answered: whatever the cutoff, [find_in_kb] returns
    the answer of a record of the base.  When the overlap stage declines,
    the fallback finds the stored question at similarity 1. *)
Theorem stored_question_is_answered (user_input : text)
    (kb : list KB.entry) (cutoff : Q) (e : KB.entry) :
  In e kb ->
  normalize user_input = normalize (KB.question e) ->
  exists r, In r kb
    /\ KB.find_in_kb user_input kb cutoff = Return (Some (KB.answer r)).
Proof. apply stored_question_answered. Qed.

Lemma stored_question_is_answered_witness :
  exists r, In r docs_kb
    /\ KB.find_in_kb (str "What is Flask?") docs_kb (3 # 2)
       = Return (Some (KB.answer r)).
Proof.
  apply (stored_question_is_answered (str "What is Flask?") docs_kb (3 # 2)
           {| KB.question := str "what is flask";
              KB.answer := "A2"%string |}).
  - right. left. reflexivity.
  - vm_compute. reflexivity.
Defined.

(** ** The session *)

(** X22. A session stops at the first line that holds an exit word: the
    lines after it are never read, and the output is the one of the session
    that ends with that line. *)
Theorem session_stops_at_exit_line (kb : list KB.entry)
    (rng : nat -> nat -> nat) (pre : list text) (line : text)
    (post : list text) :
  RegexI.search Chat.EXIT_PATTERN (strip line) = true ->
  Chat.main kb rng (pre ++ line :: post) = Chat.main kb rng (pre ++ [line]).
Proof.
  intros Hx. unfold Chat.main.
  now rewrite (main_loop_exit kb rng pre line post).
Qed.

Lemma session_stops_at_exit_line_witness :
  Chat.main docs_kb (fun _ _ => 0)
    ([str "hello"] ++ str "  ok, BYE now " :: [str "what is flask"])
  = Chat.main docs_kb (fun _ _ => 0)
      ([str "hello"] ++ [str "  ok, BYE now "]).
Proof.
  apply (session_stops_at_exit_line docs_kb (fun _ _ => 0) [str "hello"]
           (str "  ok, BYE now ") [str "what is flask"]).
  vm_compute. reflexivity.
Defined.

(** X24. With records whose questions and answers are strings and a random
    source that draws below its bound, a session never ends on an
    exception, whatever the lines typed: it leaves the loop, and the last
    thing printed is one of the two farewells. *)
Theorem session_ends_on_farewell (kb : list KB.entry)
    (rng : nat -> nat -> nat) (inputs : list text) :
  in_range rng ->
  snd (Chat.main kb rng inputs) = Chat.Ended
  /\ farewell (last (fst (Chat.main kb rng inputs)) (Chat.Prompt "")).
Proof.
  intros Hr. destruct (main_loop_ends kb rng inputs Hr 0) as [Hs Hf].
  unfold Chat.main. cbn [fst snd]. split; [exact Hs |].
  rewrite !last_cons_ne; [exact Hf | apply main_loop_prompts | discriminate].
Qed.

Lemma session_ends_on_farewell_witness :
  snd (Chat.main docs_kb (fun _ _ => 0)
         [str "hi"; str "I feel sad"; str "what is flask"]) = Chat.Ended
  /\ farewell
       (last (fst (Chat.main docs_kb (fun _ _ => 0)
                     [str "hi"; str "I feel sad"; str "what is flask"]))
          (Chat.Prompt "")).
Proof.
  apply (session_ends_on_farewell docs_kb (fun _ _ => 0)
           [str "hi"; str "I feel sad"; str "what is flask"]).
  intros k n Hn. exact Hn.
Defined.

(** X25. One round of the loop: with a random source that draws below its
    bound, the body never raises; it prints one answer of ChatBuddy
    followed by at most two bracketed remarks, uses at most one random
    draw, and leaves the loop exactly when the input holds an exit
    word. *)
Theorem reply_is_one_answer (kb : list KB.entry) (rng : nat -> nat -> nat)
    (draws : nat) (user : text) :
  in_range rng ->
  exists lines ctl draws',
    Chat.reply kb rng draws user = Return (lines, ctl, draws')
    /\ reply_shape lines
    /\ (draws' = draws \/ draws' = S draws)
    /\ (ctl = Chat.Break <-> RegexI.search Chat.EXIT_PATTERN user = true).
Proof. apply reply_returns. Qed.

Lemma reply_is_one_answer_witness :
  exists lines ctl draws',
    Chat.reply docs_kb (fun _ _ => 0) 0 (str "what is flask")
    = Return (lines, ctl, draws')
    /\ reply_shape lines
    /\ (draws' = 0 \/ draws' = 1)
    /\ (ctl = Chat.Break
        <-> RegexI.search Chat.EXIT_PATTERN (str "what is flask") = true).
Proof.
  apply (reply_is_one_answer docs_kb (fun _ _ => 0) 0 (str "what is flask")).
  intros k n Hn. exact Hn.
Defined.

(** ** [normalize] on any string *)

Section UnicodeFacts.

Import Unicode UnicodeSpec.

Local Open Scope N_scope.

(** *** What the tables give *)

Lemma u_spaces_not_words :
  forallb (fun c => negb (is_word c)) SPACES = true.
Proof. vm_compute. reflexivity. Qed.

Lemma u_lower_forms_settled :
  forallb (fun p => unchanged_by_lower (snd p) && negb (is_upper (snd p)))
          TO_LOWER = true.
Proof. vm_compute. reflexivity. Qed.

Lemma u_word_not_space (c : N) : is_word c = true -> is_space c = false.
Proof.
  intros Hw. destruct (is_space c) eqn:Es; [| reflexivity].
  unfold is_space in Es. apply existsb_exists in Es.
  destruct Es as [x [Hin Hx]]. apply N.eqb_eq in Hx. subst x.
  pose proof u_spaces_not_words as H. rewrite forallb_forall in H.
  specialize (H c Hin). rewrite Hw in H. discriminate H.
Qed.

Lemma u_unchanged_eq (c : N) :
  unchanged_by_lower c = true -> to_lower_full c = [c].
Proof.
  unfold unchanged_by_lower.
  destruct (to_lower_full c) as [| d [| e r]]; try discriminate.
  intros H. apply N.eqb_eq in H. now subst d.
Qed.

Lemma u_unchanged_not_sigma (c : N) :
  unchanged_by_lower c = true -> (c =? CAPITAL_SIGMA) = false.
Proof.
  intros H. destruct (c =? CAPITAL_SIGMA) eqn:E; [| reflexivity].
  apply N.eqb_eq in E. subst c. vm_compute in H. discriminate H.
Qed.

(** The characters of a lowercase form are unchanged by [str.lower], and
    none is uppercase unless the character had no other form. *)
Lemma u_to_lower_full_forms (c : N) :
  Forall (fun d => unchanged_by_lower d = true
                   /\ (is_upper d = true -> d = c)) (to_lower_full c).
Proof.
  unfold to_lower_full. destruct (c =? 0x130) eqn:E130.
  - repeat constructor; try (vm_compute; reflexivity);
      intros H; vm_compute in H; discriminate H.
  - destruct (find (fun p => fst p =? c) TO_LOWER) as [p |] eqn:Ef.
    + apply find_some in Ef. destruct Ef as [Hin _].
      pose proof u_lower_forms_settled as H. rewrite forallb_forall in H.
      specialize (H p Hin). apply andb_true_iff in H. destruct H as [H1 H2].
      constructor; [| constructor]. split; [exact H1 |].
      intros Hu. rewrite Hu in H2. discriminate H2.
    + constructor; [| constructor]. split; [| reflexivity].
      unfold unchanged_by_lower, to_lower_full. rewrite E130, Ef.
      apply N.eqb_refl.
Qed.

Lemma u_sigma_forms (before after : ustr) :
  unchanged_by_lower (handle_capital_sigma before after) = true
  /\ is_upper (handle_capital_sigma before after) = false.
Proof.
  unfold handle_capital_sigma.
  destruct (match first_not_ignorable before with
            | Some c => is_cased c
            | None => false
            end);
    [destruct (match first_not_ignorable after with
               | Some c => negb (is_cased c)
               | None => true
               end) |];
    split; vm_compute; reflexivity.
Qed.

(** *** [str.lower] *)

Lemma u_lower_from_forms (s : ustr) :
  forall before,
  Forall (fun d => unchanged_by_lower d = true
                   /\ (is_upper d = true -> In d s))
         (lower_from before s).
Proof.
  induction s as [| c s IH]; intros before; cbn [lower_from];
    [constructor |].
  apply Forall_app. split.
  - destruct (c =? CAPITAL_SIGMA).
    + constructor; [| constructor].
      destruct (u_sigma_forms before s) as [H1 H2]. split; [exact H1 |].
      intros Hu. rewrite Hu in H2. discriminate H2.
    + eapply Forall_impl; [| apply u_to_lower_full_forms].
      intros d [H1 H2]. split; [exact H1 |].
      intros Hu. left. symmetry. now apply H2.
  - eapply Forall_impl; [| apply IH].
    intros d [H1 H2]. split; [exact H1 |]. intros Hu. right. now apply H2.
Qed.

Lemma u_lower_from_fixed (s : ustr) :
  Forall (fun c => unchanged_by_lower c = true) s ->
  forall before, lower_from before s = s.
Proof.
  induction 1 as [| c s Hc _ IH]; intros before; cbn [lower_from];
    [reflexivity |].
  rewrite (u_unchanged_not_sigma c Hc), (u_unchanged_eq c Hc), IH.
  reflexivity.
Qed.

(** *** Each step of [normalize] fixes a string that is already settled *)

Lemma u_settled_unchanged (c : N) :
  settled_char c -> unchanged_by_lower c = true.
Proof. intros [-> | [_ H]]; [vm_compute; reflexivity | exact H]. Qed.

Lemma u_settled_word_or_space (c : N) :
  settled_char c -> is_word c || is_space c = true.
Proof.
  intros [-> | [H _]]; [vm_compute; reflexivity | now rewrite H].
Qed.

Lemma u_settled_space_eq (c : N) :
  settled_char c -> is_space c = true -> c = space.
Proof.
  intros [-> | [H _]] Hs; [reflexivity |].
  apply u_word_not_space in H. congruence.
Qed.

Lemma u_sub_punct_fixed (s : ustr) :
  Forall (fun c => is_word c || is_space c = true) s -> sub_punct s = s.
Proof.
  induction 1 as [| c s Hc _ IH]; cbn [sub_punct map]; [reflexivity |].
  rewrite Hc. f_equal. exact IH.
Qed.

Lemma u_sub_ws_fixed (s : ustr) :
  Forall (fun c => is_space c = true -> c = space) s ->
  single_spaced s ->
  forall in_run, (in_run = true -> no_leading_space s) ->
  sub_ws in_run s = s.
Proof.
  induction 1 as [| c s Hc _ IH]; intros Hss in_run Hrun; cbn [sub_ws];
    [reflexivity |].
  destruct Hss as [Hadj Hss].
  destruct (is_space c) eqn:Ec.
  - destruct in_run.
    + specialize (Hrun eq_refl c s eq_refl). congruence.
    + rewrite (Hc eq_refl). f_equal. apply IH; [exact Hss |].
      intros _ d s' ->. destruct (is_space d) eqn:Ed; [| reflexivity].
      exfalso. apply Hadj. now split.
  - f_equal. apply IH; [exact Hss | discriminate].
Qed.

Lemma u_lstrip_fixed (s : ustr) : no_leading_space s -> lstrip s = s.
Proof.
  destruct s as [| c s]; intros H; cbn [lstrip]; [reflexivity |].
  now rewrite (H c s eq_refl).
Qed.

Lemma u_rstrip_fixed (s : ustr) : no_trailing_space s -> rstrip s = s.
Proof.
  induction s as [| x t IH]; intros H; cbn [rstrip]; [reflexivity |].
  assert (Ht : no_trailing_space t).
  { intros s' c ->. apply (H (x :: s') c). reflexivity. }
  rewrite (IH Ht). destruct t as [| y t'].
  - now rewrite (H [] x eq_refl).
  - reflexivity.
Qed.

(** *** What each step establishes *)

Lemma u_lstrip_suffix (s : ustr) : exists p, s = p ++ lstrip s.
Proof.
  induction s as [| c s [p IH]]; cbn [lstrip].
  - now exists [].
  - destruct (is_space c).
    + exists (c :: p). cbn [app]. now f_equal.
    + now exists [].
Qed.

Lemma u_rstrip_prefix (s : ustr) : exists q, s = rstrip s ++ q.
Proof.
  induction s as [| c s [q IH]]; cbn [rstrip].
  - now exists [].
  - destruct (rstrip s) as [| y r] eqn:E.
    + destruct (is_space c).
      * now exists (c :: s).
      * exists s. reflexivity.
    + exists q. cbn [app]. f_equal. exact IH.
Qed.

Lemma u_lstrip_no_leading (s : ustr) : no_leading_space (lstrip s).
Proof.
  induction s as [| c s IH]; cbn [lstrip].
  - intros d s' H. discriminate.
  - destruct (is_space c) eqn:E; [exact IH |].
    intros d s' H. injection H as <- _. exact E.
Qed.

Lemma u_rstrip_no_trailing (s : ustr) : no_trailing_space (rstrip s).
Proof.
  induction s as [| x t IH]; cbn [rstrip].
  - intros [| ? ?] c H; discriminate.
  - destruct (rstrip t) as [| y r] eqn:E.
    + destruct (is_space x) eqn:Ex.
      * intros [| ? ?] c H; discriminate.
      * intros [| ? [| ? ?]] c H; try discriminate.
        injection H as <-. exact Ex.
    + intros [| z s'] c H.
      * discriminate.
      * injection H as _ H. apply (IH s' c H).
Qed.

Lemma u_rstrip_no_leading (s : ustr) :
  no_leading_space s -> no_leading_space (rstrip s).
Proof.
  intros H c s' E. destruct (u_rstrip_prefix s) as [q Hq].
  rewrite E in Hq. apply (H c (s' ++ q)). exact Hq.
Qed.

Lemma u_single_spaced_app (p s : ustr) :
  single_spaced (p ++ s) -> single_spaced p /\ single_spaced s.
Proof.
  induction p as [| c p IH]; cbn [app single_spaced]; intros H; [auto |].
  destruct H as [Hadj H]. destruct (IH H) as [Hp Hs].
  repeat split; auto.
  destruct p as [| d p']; [exact I | exact Hadj].
Qed.

Lemma u_sub_ws_chars (P : N -> Prop) (s : ustr) :
  P space -> Forall (fun c => is_space c = false -> P c) s ->
  forall in_run, Forall P (sub_ws in_run s).
Proof.
  intros Hsp. induction 1 as [| c s Hc _ IH]; intros in_run; cbn [sub_ws];
    [constructor |].
  destruct (is_space c); [destruct in_run |]; auto.
Qed.

Lemma u_sub_ws_in_run_head (s : ustr) : no_leading_space (sub_ws true s).
Proof.
  induction s as [| c s IH]; cbn [sub_ws].
  - intros d s' H. discriminate.
  - destruct (is_space c) eqn:E; [exact IH |].
    intros d s' H. injection H as <- _. exact E.
Qed.

Lemma u_sub_ws_single_spaced (s : ustr) (in_run : bool) :
  single_spaced (sub_ws in_run s).
Proof.
  revert in_run. induction s as [| c s IH]; intros in_run; cbn [sub_ws];
    [exact I |].
  destruct (is_space c) eqn:E.
  - destruct in_run; [apply IH |].
    cbn [single_spaced]. split; [| apply IH].
    destruct (sub_ws true s) as [| d r] eqn:Er; [exact I |].
    intros [_ Hd]. pose proof (u_sub_ws_in_run_head s) as Hh.
    rewrite Er in Hh. specialize (Hh d r eq_refl). congruence.
  - cbn [single_spaced]. split; [| apply IH].
    destruct (sub_ws false s); [exact I |]. intros [Hc _]. congruence.
Qed.

(** The characters of [normalize s] are spaces and word characters of
    [lower s]. *)
Lemma u_normalize_chars (P : N -> Prop) (s : ustr) :
  Forall P (lower s) ->
  Forall (fun c => c = space \/ (is_word c = true /\ P c)) (normalize s).
Proof.
  intros HP. unfold normalize, strip.
  set (w := sub_ws false (sub_punct (lower s))).
  assert (Hw : Forall (fun c => c = space \/ (is_word c = true /\ P c)) w).
  { apply u_sub_ws_chars; [now left |].
    unfold sub_punct. apply Forall_forall.
    intros c Hc. apply in_map_iff in Hc. destruct Hc as [x [<- Hx]].
    rewrite Forall_forall in HP. specialize (HP x Hx).
    destruct (is_word x) eqn:Ew; cbn [orb].
    - intros _. right. now split.
    - destruct (is_space x) eqn:Es; intros H; [congruence | now left]. }
  destruct (u_lstrip_suffix w) as [p Hp].
  destruct (u_rstrip_prefix (lstrip w)) as [q Hq].
  rewrite Hp, Hq in Hw.
  apply Forall_app in Hw. destruct Hw as [_ Hw].
  apply Forall_app in Hw. tauto.
Qed.

Lemma u_normalize_settled (s : ustr) : Forall settled_char (normalize s).
Proof.
  apply (u_normalize_chars (fun c => unchanged_by_lower c = true)).
  eapply Forall_impl; [| apply (u_lower_from_forms s [])].
  now intros d [H _].
Qed.

Lemma u_normalize_clean (s : ustr) :
  Forall has_lower_form s -> Forall clean_char (normalize s).
Proof.
  intros Hs. apply (u_normalize_chars (fun c => is_upper c = false)).
  eapply Forall_impl; [| apply (u_lower_from_forms s [])].
  intros d [H1 H2]. destruct (is_upper d) eqn:Eu; [| reflexivity].
  rewrite Forall_forall in Hs. specialize (Hs d (H2 eq_refl) Eu). congruence.
Qed.

Lemma u_normalize_single_spaced (s : ustr) : single_spaced (normalize s).
Proof.
  unfold normalize, strip.
  set (w := sub_ws false (sub_punct (lower s))).
  pose proof (u_sub_ws_single_spaced (sub_punct (lower s)) false) as Hw.
  fold w in Hw.
  destruct (u_lstrip_suffix w) as [p Hp].
  destruct (u_rstrip_prefix (lstrip w)) as [q Hq].
  rewrite Hp, Hq in Hw.
  apply u_single_spaced_app in Hw. destruct Hw as [_ Hw].
  apply u_single_spaced_app in Hw. tauto.
Qed.

Lemma u_normalize_no_leading (s : ustr) : no_leading_space (normalize s).
Proof. apply u_rstrip_no_leading, u_lstrip_no_leading. Qed.

Lemma u_normalize_no_trailing (s : ustr) : no_trailing_space (normalize s).
Proof. apply u_rstrip_no_trailing. Qed.

Lemma u_normalize_fixed (s : ustr) :
  Forall settled_char s -> single_spaced s ->
  no_leading_space s -> no_trailing_space s ->
  normalize s = s.
Proof.
  intros Hc Hss Hl Ht. unfold normalize, strip, lower.
  rewrite u_lower_from_fixed
    by (eapply Forall_impl; [apply u_settled_unchanged | exact Hc]).
  rewrite u_sub_punct_fixed
    by (eapply Forall_impl; [apply u_settled_word_or_space | exact Hc]).
  rewrite u_sub_ws_fixed.
  - rewrite u_lstrip_fixed by exact Hl. apply u_rstrip_fixed, Ht.
  - eapply Forall_impl; [apply u_settled_space_eq | exact Hc].
  - exact Hss.
  - discriminate.
Qed.

End UnicodeFacts.

(** *** Tokens across a separator *)

Section UnicodeTokens.

Import Unicode UnicodeSpec.

Local Open Scope N_scope.

Lemma u_lower_forms_of_non_words :
  forallb (fun p => is_word (fst p) || negb (is_word (snd p))) TO_LOWER
  = true.
Proof. vm_compute. reflexivity. Qed.

(** The lowercase form of a character that is not a word character holds
    no word character. *)
Lemma u_to_lower_full_non_word (c : N) :
  is_word c = false ->
  to_lower_full c <> []
  /\ Forall (fun d => is_word d = false) (to_lower_full c).
Proof.
  intros Hw. unfold to_lower_full. destruct (c =? 0x130) eqn:E130.
  - apply N.eqb_eq in E130. subst c. vm_compute in Hw. discriminate Hw.
  - destruct (find (fun p => fst p =? c) TO_LOWER) as [p |] eqn:Ef.
    + apply find_some in Ef. destruct Ef as [Hin Hp].
      apply N.eqb_eq in Hp.
      pose proof u_lower_forms_of_non_words as H.
      rewrite forallb_forall in H. specialize (H p Hin).
      rewrite Hp, Hw in H. cbn [orb] in H.
      split; [discriminate |]. constructor; [| constructor].
      now destruct (is_word (snd p)).
    + split; [discriminate |]. now constructor.
Qed.

Lemma u_split_sub_ws (s : ustr) :
  (forall cur, split_from cur (sub_ws false s) = split_from cur s)
  /\ split_from [] (sub_ws true s) = split_from [] s.
Proof.
  assert (Hsp : is_space space = true) by (vm_compute; reflexivity).
  induction s as [| c s [IH1 IH2]]; [split; reflexivity |].
  cbn [sub_ws]. destruct (is_space c) eqn:Es.
  - split.
    + intros cur. cbn [split_from]. rewrite Hsp, Es.
      destruct cur; now rewrite IH2.
    + cbn [split_from]. now rewrite Es.
  - split.
    + intros cur. cbn [split_from]. rewrite Es. apply IH1.
    + cbn [split_from]. rewrite Es. apply IH1.
Qed.

Lemma u_split_lstrip (s : ustr) : split (lstrip s) = split s.
Proof.
  unfold split. induction s as [| c s IH]; [reflexivity |].
  cbn [lstrip]. destruct (is_space c) eqn:Es.
  - cbn [split_from]. now rewrite Es.
  - reflexivity.
Qed.

Lemma u_rstrip_nil_spaces (s : ustr) :
  rstrip s = [] -> Forall (fun c => is_space c = true) s.
Proof.
  induction s as [| c s IH]; [constructor |].
  cbn [rstrip]. destruct (rstrip s) as [| y r].
  - destruct (is_space c) eqn:Es; [| discriminate].
    intros _. constructor; [exact Es | now apply IH].
  - discriminate.
Qed.

Lemma u_split_from_spaces (s : ustr) (cur : ustr) :
  Forall (fun c => is_space c = true) s ->
  split_from cur s = match cur with [] => [] | _ => [cur] end.
Proof.
  intros H. revert cur. induction H as [| c s Hc _ IH]; intros cur;
    [reflexivity |].
  cbn [split_from]. rewrite Hc. destruct cur; now rewrite IH.
Qed.

Lemma u_split_from_rstrip (s : ustr) :
  forall cur, split_from cur (rstrip s) = split_from cur s.
Proof.
  induction s as [| c s IH]; intros cur; [reflexivity |].
  cbn [rstrip]. destruct (rstrip s) as [| y r] eqn:Er.
  - pose proof (u_rstrip_nil_spaces s Er) as Hs.
    destruct (is_space c) eqn:Es.
    + cbn [split_from]. rewrite Es.
      destruct cur; now rewrite u_split_from_spaces.
    + cbn [split_from]. rewrite Es.
      rewrite (u_split_from_spaces s) by exact Hs.
      now destruct (cur ++ [c]).
  - cbn [split_from]. destruct (is_space c); [destruct cur |];
      now rewrite <- IH.
Qed.

(** The tokens are found by splitting the lowercased text whose
    punctuation has become spaces. *)
Lemma u_tokenize_split (s : ustr) :
  tokenize s = split (sub_punct (lower s)).
Proof.
  unfold tokenize, normalize, strip, split.
  rewrite u_split_from_rstrip. fold (split (lstrip (sub_ws false
    (sub_punct (lower s))))).
  rewrite u_split_lstrip. unfold split.
  apply (proj1 (u_split_sub_ws (sub_punct (lower s)))).
Qed.

(** Splitting across whitespace. *)
Lemma u_split_from_sep (x : ustr) (w : N) (rest : ustr) :
  is_space w = true ->
  forall cur,
  split_from cur (x ++ w :: rest) = split_from cur x ++ split_from [] rest.
Proof.
  intros Hw. induction x as [| c x IH]; intros cur.
  - cbn [app split_from]. rewrite Hw. now destruct cur.
  - cbn [app split_from]. destruct (is_space c).
    + destruct cur; now rewrite IH.
    + apply IH.
Qed.

Lemma u_split_from_app (x ws y : ustr) :
  ws <> [] -> Forall (fun c => is_space c = true) ws ->
  split (x ++ ws ++ y) = split x ++ split y.
Proof.
  intros Hne Hws. unfold split. destruct Hws as [| w ws Hw Hws];
    [contradiction |].
  cbn [app]. rewrite (u_split_from_sep x w (ws ++ y) Hw). f_equal.
  clear Hne Hw. induction Hws as [| v ws Hv _ IH]; [reflexivity |].
  cbn [app split_from]. now rewrite Hv.
Qed.

(** *** [str.lower] across a character that is neither cased nor
    case-ignorable *)

Lemma u_first_not_ignorable_app (q : ustr) (c : N) (r : ustr) :
  is_case_ignorable c = false ->
  first_not_ignorable (q ++ c :: r)
  = match first_not_ignorable q with
    | Some d => Some d
    | None => Some c
    end.
Proof.
  intros Hc. induction q as [| x q IH]; cbn [app first_not_ignorable].
  - now rewrite Hc.
  - now destruct (is_case_ignorable x).
Qed.

Lemma u_sigma_after (before q : ustr) (c : N) (r : ustr) :
  is_case_ignorable c = false -> is_cased c = false ->
  handle_capital_sigma before (q ++ c :: r) = handle_capital_sigma before q.
Proof.
  intros Hi Hc. unfold handle_capital_sigma.
  rewrite (u_first_not_ignorable_app q c r Hi).
  destruct (first_not_ignorable q); [reflexivity |].
  now rewrite Hc.
Qed.

Lemma u_sigma_before (p : ustr) (c : N) (before after : ustr) :
  is_case_ignorable c = false -> is_cased c = false ->
  handle_capital_sigma (p ++ c :: before) after
  = handle_capital_sigma p after.
Proof.
  intros Hi Hc. unfold handle_capital_sigma.
  rewrite (u_first_not_ignorable_app p c before Hi).
  destruct (first_not_ignorable p); [reflexivity |].
  now rewrite Hc.
Qed.

Lemma u_lower_from_before (c : N) (before s2 : ustr) :
  is_case_ignorable c = false -> is_cased c = false ->
  forall p, lower_from (p ++ c :: before) s2 = lower_from p s2.
Proof.
  intros Hi Hc. induction s2 as [| x s2 IH]; intros p; [reflexivity |].
  cbn [lower_from]. rewrite (u_sigma_before p c before s2 Hi Hc).
  f_equal. apply (IH (x :: p)).
Qed.

Lemma u_lower_from_after (c : N) (s2 : ustr) :
  is_case_ignorable c = false -> is_cased c = false ->
  forall s1 before,
  lower_from before (s1 ++ c :: s2)
  = lower_from before s1 ++ lower_from (rev s1 ++ before) (c :: s2).
Proof.
  intros Hi Hc. induction s1 as [| x s1 IH]; intros before; [reflexivity |].
  cbn [app lower_from rev]. rewrite (u_sigma_after before s1 c s2 Hi Hc).
  rewrite <- !app_assoc. f_equal. rewrite IH. reflexivity.
Qed.

(** Such a character cuts the text in two for [str.lower]. *)
Lemma u_lower_app_sep (s1 : ustr) (c : N) (s2 : ustr) :
  is_case_ignorable c = false -> is_cased c = false ->
  lower (s1 ++ c :: s2) = lower s1 ++ to_lower_full c ++ lower s2.
Proof.
  intros Hi Hc. unfold lower.
  rewrite (u_lower_from_after c s2 Hi Hc). f_equal.
  cbn [lower_from].
  assert (Hs : (c =? CAPITAL_SIGMA) = false).
  { destruct (c =? CAPITAL_SIGMA) eqn:E; [| reflexivity].
    apply N.eqb_eq in E. subst c. vm_compute in Hc. discriminate Hc. }
  rewrite Hs. f_equal.
  apply (u_lower_from_before c (rev s1 ++ []) s2 Hi Hc []).
Qed.

Lemma u_tokenize_app_sep (s1 : ustr) (c : N) (s2 : ustr) :
  is_word c = false ->
  is_case_ignorable c = false -> is_cased c = false ->
  tokenize (s1 ++ c :: s2) = tokenize s1 ++ tokenize s2.
Proof.
  intros Hw Hi Hc. rewrite !u_tokenize_split.
  rewrite (u_lower_app_sep s1 c s2 Hi Hc).
  unfold sub_punct. rewrite !map_app.
  destruct (u_to_lower_full_non_word c Hw) as [Hne Hnw].
  apply u_split_from_app.
  - destruct (to_lower_full c); [contradiction | discriminate].
  - rewrite Forall_map. eapply Forall_impl; [| exact Hnw].
    intros d Hd. cbv beta. rewrite Hd. cbn [orb].
    destruct (is_space d) eqn:Es; [exact Es | vm_compute; reflexivity].
Qed.

End UnicodeTokens.

(** *** Latin-1 text

    On a text of code points up to U+00FF the functions of [Unicode] are
    those of the Latin-1 model. *)

Section Latin1Facts.

Ltac by_code_of c :=
  destruct c as [[|] [|] [|] [|] [|] [|] [|] [|]]; vm_compute; reflexivity.

Lemma code_is_space (c : ascii) : Unicode.is_space (code c) = is_space c.
Proof. by_code_of c. Qed.

Lemma code_is_word (c : ascii) : Unicode.is_word (code c) = is_word c.
Proof. by_code_of c. Qed.

Lemma code_is_upper (c : ascii) : Unicode.is_upper (code c) = is_upper c.
Proof. by_code_of c. Qed.

Lemma code_not_sigma (c : ascii) :
  N.eqb (code c) Unicode.CAPITAL_SIGMA = false.
Proof. by_code_of c. Qed.

Lemma code_to_lower_full (c : ascii) :
  Unicode.to_lower_full (code c) = [code (lower_char c)].
Proof. by_code_of c. Qed.

Lemma lower_of_text (s : text) :
  forall before,
  Unicode.lower_from before (Unicode.of_text s) = Unicode.of_text (lower s).
Proof.
  induction s as [| c s IH]; intros before; [reflexivity |].
  cbn [Unicode.of_text map Unicode.lower_from lower].
  rewrite code_not_sigma, code_to_lower_full. cbn [app]. f_equal.
  apply IH.
Qed.

Lemma sub_punct_of_text (s : text) :
  Unicode.sub_punct (Unicode.of_text s) = Unicode.of_text (sub_punct s).
Proof.
  unfold Unicode.sub_punct, Unicode.of_text, sub_punct. rewrite !map_map.
  apply map_ext. intros c. rewrite code_is_word, code_is_space.
  now destruct (is_word c || is_space c).
Qed.

Lemma sub_ws_of_text (s : text) :
  forall in_run,
  Unicode.sub_ws in_run (Unicode.of_text s)
  = Unicode.of_text (sub_ws in_run s).
Proof.
  induction s as [| c s IH]; intros in_run; [reflexivity |].
  cbn [Unicode.of_text map Unicode.sub_ws sub_ws].
  rewrite code_is_space. fold (Unicode.of_text s).
  destruct (is_space c); [destruct in_run |]; cbn [map]; rewrite IH;
    reflexivity.
Qed.

Lemma lstrip_of_text (s : text) :
  Unicode.lstrip (Unicode.of_text s) = Unicode.of_text (lstrip s).
Proof.
  induction s as [| c s IH]; [reflexivity |].
  cbn [Unicode.of_text map Unicode.lstrip lstrip].
  rewrite code_is_space. fold (Unicode.of_text s).
  now destruct (is_space c).
Qed.

Lemma rstrip_of_text (s : text) :
  Unicode.rstrip (Unicode.of_text s) = Unicode.of_text (rstrip s).
Proof.
  induction s as [| c s IH]; [reflexivity |].
  cbn [Unicode.of_text map Unicode.rstrip rstrip].
  fold (Unicode.of_text s). rewrite IH, code_is_space.
  destruct (rstrip s) as [| y r]; [| reflexivity].
  now destruct (is_space c).
Qed.

(** [normalize] on Latin-1 text is [normalize] on its code points. *)
Lemma normalize_of_text (s : text) :
  Unicode.normalize (Unicode.of_text s) = Unicode.of_text (normalize s).
Proof.
  unfold Unicode.normalize, Unicode.strip, Unicode.lower, normalize, strip.
  now rewrite lower_of_text, sub_punct_of_text, sub_ws_of_text,
    lstrip_of_text, rstrip_of_text.
Qed.

Lemma split_from_of_text (s : text) :
  forall cur,
  Unicode.split_from (Unicode.of_text cur) (Unicode.of_text s)
  = map Unicode.of_text (split_from cur s).
Proof.
  induction s as [| c s IH]; intros cur.
  - cbn [Unicode.of_text map Unicode.split_from split_from].
    now destruct cur.
  - cbn [Unicode.of_text map Unicode.split_from split_from].
    rewrite code_is_space. fold (Unicode.of_text s) (Unicode.of_text cur).
    destruct (is_space c).
    + destruct cur as [| x cur']; cbn [Unicode.of_text map].
      * apply (IH []).
      * f_equal. apply (IH []).
    + rewrite <- IH. unfold Unicode.of_text. now rewrite map_app.
Qed.

(** [tokenize] on Latin-1 text is [tokenize] on its code points. *)
Lemma tokenize_of_text (s : text) :
  Unicode.tokenize (Unicode.of_text s) = map Unicode.of_text (tokenize s).
Proof.
  unfold Unicode.tokenize, Unicode.split, tokenize, split.
  rewrite normalize_of_text. apply (split_from_of_text (normalize s) []).
Qed.

(** Every uppercase character of Latin-1 has a lowercase form. *)
Lemma code_has_lower_form (c : ascii) :
  UnicodeSpec.has_lower_form (code c).
Proof.
  unfold UnicodeSpec.has_lower_form.
  destruct c as [[|] [|] [|] [|] [|] [|] [|] [|]]; vm_compute;
    first [ reflexivity | discriminate ].
Qed.

End Latin1Facts.

(** The value of [normalize] on U+1D400 followed by [BC]: the bold capital
    A is a word character, is uppercase and has no lowercase form. *)
Lemma normalize_bold_capital :
  Unicode.normalize [0x1D400; 0x42; 0x43]%N = [0x1D400; 0x62; 0x63]%N
  /\ Unicode.is_word 0x1D400%N = true
  /\ Unicode.is_upper 0x1D400%N = true
  /\ Unicode.to_lower_full 0x1D400%N = [0x1D400%N].
Proof. repeat split; vm_compute; reflexivity. Qed.

(** C7, as the specification states it, fails: the output of [normalize]
    can hold an uppercase character, one that has no lowercase form. *)
Lemma normalize_keeps_capital_without_lower_form :
  ~ UnicodeSpec.lowercase_words_only [0x1D400; 0x42; 0x43]%N.
Proof.
  unfold UnicodeSpec.lowercase_words_only. intros H.
  assert (E : Unicode.normalize [0x1D400; 0x42; 0x43]%N
              = [0x1D400; 0x62; 0x63]%N) by (vm_compute; reflexivity).
  rewrite E in H. inversion H as [| c l Hc _]. subst.
  destruct Hc as [Hsp | [_ Hu]]; [discriminate Hsp |].
  vm_compute in Hu. discriminate Hu.
Qed.

(** C7 (amended). For every string [x] of any code points, [normalize x]
    holds only spaces and word characters that [str.lower] leaves as they
    are (so no punctuation), does not start or end with whitespace, has no
    two adjacent whitespace characters, and [normalize] is idempotent.  Its
    word characters are moreover not uppercase when every uppercase
    character of [x] has a lowercase form other than itself. *)
Theorem normalize_settled_idempotent (x : Unicode.ustr) :
  Forall UnicodeSpec.settled_char (Unicode.normalize x)
  /\ UnicodeSpec.no_leading_space (Unicode.normalize x)
  /\ UnicodeSpec.no_trailing_space (Unicode.normalize x)
  /\ UnicodeSpec.single_spaced (Unicode.normalize x)
  /\ Unicode.normalize (Unicode.normalize x) = Unicode.normalize x
  /\ (Forall UnicodeSpec.has_lower_form x ->
      Forall UnicodeSpec.clean_char (Unicode.normalize x)).
Proof.
  pose proof (u_normalize_settled x) as Hc.
  pose proof (u_normalize_single_spaced x) as Hss.
  pose proof (u_normalize_no_leading x) as Hl.
  pose proof (u_normalize_no_trailing x) as Ht.
  split; [exact Hc |]. split; [exact Hl |]. split; [exact Ht |].
  split; [exact Hss |]. split; [now apply u_normalize_fixed |].
  apply u_normalize_clean.
Qed.

Lemma normalize_settled_idempotent_witness :
  Forall UnicodeSpec.clean_char
    (Unicode.normalize [0x20; 0xC9; 0x74; 0xE9; 0x2C; 0x3A3; 0x3A3]%N).
Proof.
  apply (proj2 (proj2 (proj2 (proj2 (proj2
           (normalize_settled_idempotent
              [0x20; 0xC9; 0x74; 0xE9; 0x2C; 0x3A3; 0x3A3]%N)))))).
  repeat constructor;
    first [ intros H; vm_compute in H; discriminate H
          | intros _; vm_compute; reflexivity ].
Defined.

(** A full stop is case-ignorable: [str.lower] reads the capital sigma
    before it as followed by the capital beta, and the tokens of the whole
    are not those of the parts. *)
Lemma tokenize_full_stop_after_sigma :
  Unicode.tokenize ([0x391; 0x3A3] ++ 0x2E :: [0x392])%N
  = [[0x3B1; 0x3C3]; [0x3B2]]%N
  /\ (Unicode.tokenize [0x391; 0x3A3] ++ Unicode.tokenize [0x392])%N
     = [[0x3B1; 0x3C2]; [0x3B2]]%N.
Proof. split; vm_compute; reflexivity. Qed.

(** X3. On strings of any code points, a character that is not a word
    character, is not cased and is not case-ignorable separates tokens:
    the tokens of [s1 ++ c :: s2] are those of [s1] followed by those of
    [s2].  Spaces, commas and exclamation marks are such characters; full
    stops, apostrophes and colons are case-ignorable. *)
Theorem tokenize_separator (s1 : Unicode.ustr) (c : N) (s2 : Unicode.ustr) :
  Unicode.is_word c = false ->
  Unicode.is_case_ignorable c = false ->
  Unicode.is_cased c = false ->
  Unicode.tokenize (s1 ++ c :: s2)
  = Unicode.tokenize s1 ++ Unicode.tokenize s2.
Proof. apply u_tokenize_app_sep. Qed.

Lemma tokenize_separator_witness :
  Unicode.tokenize ([0x391; 0x3A3] ++ 0x2C :: [0x392])%N
  = (Unicode.tokenize [0x391; 0x3A3] ++ Unicode.tokenize [0x392])%N.
Proof.
  apply (tokenize_separator [0x391; 0x3A3]%N 0x2C%N [0x392]%N);
    vm_compute; reflexivity.
Defined.

(** ** Strings and their Latin-1 images *)

Section ImageFacts.

Import Unicode UnicodeSpec Latin1Image.

Local Open Scope N_scope.

(** *** Characters *)

Lemma code_of_N (x : N) : x < 256 -> code (ascii_of_N x) = x.
Proof. apply N_ascii_embedding. Qed.

Lemma code_bounded (c : ascii) : code c < 256.
Proof. apply N_ascii_bounded. Qed.

Lemma of_N_code (c : ascii) : ascii_of_N (code c) = c.
Proof. apply ascii_N_embedding. Qed.

Lemma u_lower_table_classes :
  forallb
    (fun p => Bool.eqb (is_word (fst p)) (is_word (snd p))
              && negb (is_space (fst p)) && negb (is_space (snd p))
              && negb (snd p =? 0x131) && negb (snd p =? 0x17F)
              && negb (snd p =? 0x130))
    TO_LOWER = true.
Proof. vm_compute. reflexivity. Qed.

(** The three cases of [to_lower]. *)
Lemma u_to_lower_cases (x : N) :
  (x = 0x130 /\ to_lower x = 0x69)
  \/ (x <> 0x130 /\ to_lower_full x = [to_lower x]
      /\ In (x, to_lower x) TO_LOWER)
  \/ (x <> 0x130 /\ to_lower_full x = [x] /\ to_lower x = x).
Proof.
  unfold to_lower, to_lower_full. destruct (x =? 0x130) eqn:E.
  - left. apply N.eqb_eq in E. now split.
  - apply N.eqb_neq in E.
    destruct (find (fun p => fst p =? x) TO_LOWER) as [p |] eqn:Ef.
    + right. left. apply find_some in Ef. destruct Ef as [Hin Hp].
      apply N.eqb_eq in Hp. split; [exact E |]. split; [reflexivity |].
      destruct p as [a b]. cbn [fst snd] in *. now subst a.
    + right. right. now repeat split.
Qed.

Lemma u_to_lower_classes (x : N) :
  is_word (to_lower x) = is_word x
  /\ is_space (to_lower x) = is_space x
  /\ unchanged_by_lower (to_lower x) = true.
Proof.
  destruct (u_to_lower_cases x) as [[-> ->] | [[_ [_ Hin]] | [_ [Hf ->]]]].
  - repeat split; vm_compute; reflexivity.
  - pose proof u_lower_table_classes as H. rewrite forallb_forall in H.
    specialize (H _ Hin). cbn [fst snd] in H.
    repeat (apply andb_true_iff in H; destruct H as [H ?]).
    apply Bool.eqb_prop in H.
    pose proof u_lower_forms_settled as H'. rewrite forallb_forall in H'.
    specialize (H' _ Hin). cbn [fst snd] in H'.
    apply andb_true_iff in H'. destruct H' as [H' _].
    split; [now symmetry |]. split; [| exact H'].
    destruct (is_space x), (is_space (to_lower x)); try reflexivity;
      discriminate.
  - repeat split. unfold unchanged_by_lower. rewrite Hf. apply N.eqb_refl.
Qed.

Lemma u_unchanged_to_lower (x : N) :
  unchanged_by_lower x = true -> to_lower x = x.
Proof.
  intros H. unfold to_lower. now rewrite (u_unchanged_eq x H).
Qed.

Lemma code_to_lower (c : ascii) : to_lower (code c) = code (lower_char c).
Proof. unfold to_lower. now rewrite code_to_lower_full. Qed.

Lemma class_of_classes (x : N) :
  Text.is_word (class_of x) = is_word x
  /\ Text.is_space (class_of x) = is_space x
  /\ lower_char (class_of x) = class_of x
  /\ own_image (class_of x) = false.
Proof.
  unfold class_of. destruct (is_word x) eqn:Ew.
  - rewrite (u_word_not_space x Ew). repeat split.
  - destruct (is_space x); repeat split.
Qed.

Lemma image_is_word (x : N) : Text.is_word (image x) = is_word x.
Proof.
  unfold image. destruct (N.ltb_spec x 256) as [Hx | Hx].
  - now rewrite <- code_is_word, code_of_N.
  - cbv zeta. destruct (N.ltb_spec (to_lower x) 256) as [Hd | Hd].
    + rewrite <- code_is_word, code_of_N by exact Hd.
      apply u_to_lower_classes.
    + apply class_of_classes.
Qed.

Lemma image_is_space (x : N) : Text.is_space (image x) = is_space x.
Proof.
  unfold image. destruct (N.ltb_spec x 256) as [Hx | Hx].
  - now rewrite <- code_is_space, code_of_N.
  - cbv zeta. destruct (N.ltb_spec (to_lower x) 256) as [Hd | Hd].
    + rewrite <- code_is_space, code_of_N by exact Hd.
      apply u_to_lower_classes.
    + apply class_of_classes.
Qed.

Lemma image_code (c : ascii) : image (code c) = c.
Proof.
  unfold image. pose proof (code_bounded c) as H.
  apply N.ltb_lt in H. rewrite H. apply of_N_code.
Qed.

Lemma image_space : image space = Text.space.
Proof. reflexivity. Qed.

(** The image of a lowercase form is the lowercase form of the image. *)
Lemma image_to_lower (x : N) : image (to_lower x) = lower_char (image x).
Proof.
  destruct (u_to_lower_classes x) as [Hw [Hs Hu]].
  pose proof (u_unchanged_to_lower _ Hu) as Hdd.
  unfold image at 2. destruct (N.ltb_spec x 256) as [Hx | Hx].
  - rewrite <- (code_of_N x Hx) at 1. rewrite code_to_lower.
    apply image_code.
  - cbv zeta. destruct (N.ltb_spec (to_lower x) 256) as [Hd | Hd].
    + unfold image. apply N.ltb_lt in Hd. rewrite Hd.
      apply N.ltb_lt in Hd.
      pose proof (code_to_lower (ascii_of_N (to_lower x))) as H.
      rewrite (code_of_N _ Hd), Hdd in H.
      rewrite <- (of_N_code (lower_char _)). now rewrite <- H.
    + unfold image. apply N.ltb_ge in Hd. rewrite Hd, Hdd. cbv zeta.
      rewrite Hd. destruct (class_of_classes x) as [_ [_ [Hl _]]].
      rewrite Hl. unfold class_of. now rewrite Hw, Hs.
Qed.

(** A character that [str.lower] leaves as it is has the image [c] only
    when it is [c]. *)
Lemma image_eqb (x : N) (c : ascii) :
  unchanged_by_lower x = true -> own_image c = true ->
  (x =? code c) = Ascii.eqb (image x) c.
Proof.
  intros Hu Hc. pose proof (u_unchanged_to_lower _ Hu) as Hd.
  unfold image. destruct (N.ltb_spec x 256) as [Hx | Hx].
  - destruct (N.eqb_spec x (code c)) as [-> | Hne].
    + rewrite of_N_code. symmetry. apply Ascii.eqb_refl.
    + symmetry. apply Ascii.eqb_neq. intros <-.
      apply Hne. now rewrite code_of_N.
  - cbv zeta. rewrite Hd. apply N.ltb_ge in Hx. rewrite Hx.
    apply N.ltb_ge in Hx. pose proof (code_bounded c) as Hb.
    destruct (N.eqb_spec x (code c)) as [-> | _]; [lia |].
    symmetry. apply Ascii.eqb_neq. intros <-.
    destruct (class_of_classes x) as [_ [_ [_ H]]]. congruence.
Qed.

(** *** Letters matched ignoring case *)

Lemma small_letter_facts (c : ascii) :
  small_letter c = true ->
  pattern_iscased c = true
  /\ to_lower (code c) = code c
  /\ lower_char c = c
  /\ own_image c = true
  /\ incl (extra_cases (code c)) [0x131; 0x17F].
Proof.
  destruct c as [[|] [|] [|] [|] [|] [|] [|] [|]]; vm_compute;
    try discriminate; intros _; repeat split; intros x Hx;
    repeat (destruct Hx as [<- | Hx]; [tauto |]); destruct Hx.
Qed.

Lemma u_plain_to_lower (x : N) :
  plain x = true -> to_lower x <> 0x131 /\ to_lower x <> 0x17F.
Proof.
  intros Hp.
  assert (Hx : x <> 0x130 /\ x <> 0x131 /\ x <> 0x17F).
  { unfold plain in Hp. cbn [existsb] in Hp.
    repeat split; intros ->; discriminate Hp. }
  destruct Hx as [H0 [H1 H2]].
  destruct (u_to_lower_cases x) as [[E _] | [[_ [_ Hin]] | [_ [_ ->]]]].
  - contradiction.
  - pose proof u_lower_table_classes as H. rewrite forallb_forall in H.
    specialize (H _ Hin). cbn [fst snd] in H.
    repeat (apply andb_true_iff in H; destruct H as [H ?]).
    split; intros E; rewrite E in *; discriminate.
  - now split.
Qed.

Lemma literal_ignorecase_image (c : ascii) (x : N) :
  small_letter c = true -> plain x = true ->
  literal_ignorecase c x = RegexI.same_letter (image x) c.
Proof.
  intros Hc Hp.
  destruct (small_letter_facts c Hc) as [Hcased [Hlo [Hl [Hown Hex]]]].
  destruct (u_plain_to_lower x Hp) as [H1 H2].
  unfold literal_ignorecase, RegexI.same_letter.
  rewrite Hcased, Hlo, Hl, <- image_to_lower. cbn [existsb].
  assert (He : existsb (N.eqb (to_lower x)) (extra_cases (code c)) = false).
  { destruct (existsb _ _) eqn:E; [| reflexivity].
    apply existsb_exists in E. destruct E as [e [Hin He]].
    apply N.eqb_eq in He. subst e. apply Hex in Hin.
    destruct Hin as [E | [E | []]]; congruence. }
  rewrite He, orb_false_r.
  apply image_eqb; [apply u_to_lower_classes | exact Hown].
Qed.

End ImageFacts.

(** *** Strings *)

Section ImageStrings.

Import Unicode UnicodeSpec Latin1Image.

Local Open Scope N_scope.

Lemma u_plain_not_dotted (c : N) : plain c = true -> (c =? 0x130) = false.
Proof.
  unfold plain. cbn [existsb]. now destruct (c =? 0x130).
Qed.

Lemma image_sigma (before after : ustr) :
  image (handle_capital_sigma before after)
  = lower_char (image CAPITAL_SIGMA).
Proof.
  unfold handle_capital_sigma.
  destruct (match first_not_ignorable before with
            | Some c => is_cased c
            | None => false
            end);
    [destruct (match first_not_ignorable after with
               | Some c => negb (is_cased c)
               | None => true
               end) |];
    vm_compute; reflexivity.
Qed.

Lemma lower_image (s : ustr) :
  plain_input s ->
  forall before, image_of (lower_from before s) = Text.lower (image_of s).
Proof.
  unfold plain_input. induction s as [| c s IH]; intros Hp before;
    [reflexivity |].
  cbn [forallb] in Hp. apply andb_true_iff in Hp. destruct Hp as [Hc Hp].
  cbn [lower_from image_of map Text.lower]. unfold image_of.
  rewrite map_app. fold (image_of (lower_from (c :: before) s)).
  rewrite (IH Hp).
  destruct (N.eqb_spec c CAPITAL_SIGMA) as [-> | Hs].
  - cbn [map app]. now rewrite image_sigma.
  - destruct (u_to_lower_cases c) as [[E _] | [[_ [Hf _]] | [_ [Hf Hl]]]].
    + apply u_plain_not_dotted in Hc. apply N.eqb_neq in Hc. contradiction.
    + rewrite Hf. cbn [map app]. now rewrite image_to_lower.
    + rewrite Hf. cbn [map app]. rewrite <- image_to_lower. now rewrite Hl.
Qed.

Lemma sub_punct_image (s : ustr) :
  image_of (sub_punct s) = Text.sub_punct (image_of s).
Proof.
  unfold image_of, sub_punct, Text.sub_punct. rewrite !map_map.
  apply map_ext. intros x. rewrite image_is_word, image_is_space.
  now destruct (is_word x || is_space x).
Qed.

Lemma sub_ws_image (s : ustr) :
  forall in_run,
  image_of (sub_ws in_run s) = Text.sub_ws in_run (image_of s).
Proof.
  induction s as [| c s IH]; intros in_run; [reflexivity |].
  cbn [image_of map sub_ws Text.sub_ws]. fold (image_of s).
  rewrite image_is_space.
  destruct (is_space c); [destruct in_run |]; cbn [image_of map];
    fold (image_of (sub_ws true s)) (image_of (sub_ws false s));
    now rewrite IH.
Qed.

Lemma lstrip_image (s : ustr) :
  image_of (lstrip s) = Text.lstrip (image_of s).
Proof.
  induction s as [| c s IH]; [reflexivity |].
  cbn [image_of map lstrip Text.lstrip]. fold (image_of s).
  rewrite image_is_space. now destruct (is_space c).
Qed.

Lemma rstrip_image (s : ustr) :
  image_of (rstrip s) = Text.rstrip (image_of s).
Proof.
  induction s as [| c s IH]; [reflexivity |].
  cbn [image_of map rstrip Text.rstrip]. fold (image_of s).
  rewrite <- IH, image_is_space.
  destruct (rstrip s) as [| y r]; [| reflexivity].
  now destruct (is_space c).
Qed.

Lemma normalize_image (s : ustr) :
  plain_input s -> image_of (normalize s) = Text.normalize (image_of s).
Proof.
  intros Hp. unfold normalize, strip, lower, Text.normalize, Text.strip.
  now rewrite rstrip_image, lstrip_image, sub_ws_image, sub_punct_image,
    (lower_image s Hp).
Qed.

Lemma split_from_image (s : ustr) :
  forall cur,
  map image_of (split_from cur s)
  = Text.split_from (image_of cur) (image_of s).
Proof.
  induction s as [| c s IH]; intros cur.
  - cbn [split_from image_of map Text.split_from]. now destruct cur.
  - cbn [split_from image_of map Text.split_from].
    fold (image_of s) (image_of cur). rewrite image_is_space.
    destruct (is_space c).
    + destruct cur as [| x cur']; cbn [image_of map].
      * apply (IH []).
      * f_equal. apply (IH []).
    + rewrite IH. unfold image_of. now rewrite map_app.
Qed.

Lemma tokenize_image (s : ustr) :
  plain_input s ->
  map image_of (tokenize s) = Text.tokenize (image_of s).
Proof.
  intros Hp. unfold tokenize, split, Text.tokenize, Text.split.
  rewrite (split_from_image (normalize s) []).
  now rewrite (normalize_image s Hp).
Qed.

End ImageStrings.

(** *** Tokens *)

Section ImageTokens.

Import Unicode UnicodeSpec Latin1Image.

Local Open Scope N_scope.

Lemma u_split_from_chars (P : N -> Prop) (s : ustr) :
  Forall P s ->
  forall cur, Forall P cur -> Forall (Forall P) (split_from cur s).
Proof.
  induction 1 as [| c s Hc _ IH]; intros cur Hcur; cbn [split_from].
  - destruct cur; [constructor |]. constructor; [exact Hcur | constructor].
  - destruct (is_space c).
    + destruct cur as [| x cur'].
      * apply IH. constructor.
      * constructor; [exact Hcur | apply IH; constructor].
    + apply IH. apply Forall_app. split; [exact Hcur | now constructor].
Qed.

Lemma u_tokens_unchanged (s : ustr) :
  Forall (Forall (fun x => unchanged_by_lower x = true)) (tokenize s).
Proof.
  unfold tokenize, split. apply u_split_from_chars; [| constructor].
  eapply Forall_impl; [| apply u_normalize_settled].
  apply u_settled_unchanged.
Qed.

Lemma image_of_text (w : text) : image_of (of_text w) = w.
Proof.
  unfold image_of, of_text. rewrite map_map.
  rewrite (map_ext _ (fun c => c)) by apply image_code. apply map_id.
Qed.

Lemma image_of_own (t : ustr) :
  Forall (fun x => unchanged_by_lower x = true) t ->
  forall w, forallb own_image w = true -> image_of t = w -> t = of_text w.
Proof.
  induction 1 as [| x t Hx _ IH]; intros w Hw E.
  - cbn in E. now subst w.
  - destruct w as [| c w]; [discriminate E |].
    cbn [image_of map] in E. injection E as Ec Et.
    cbn [forallb] in Hw. apply andb_true_iff in Hw. destruct Hw as [Hc Hw].
    cbn [of_text map]. f_equal.
    + apply N.eqb_eq. rewrite (image_eqb x c Hx Hc).
      now apply Ascii.eqb_eq.
    + now apply IH.
Qed.

Lemma has_token_image (ws : list text) (s : ustr) :
  forallb (forallb own_image) ws = true -> plain_input s ->
  has_token ws s <-> ChatSpec.has_token ws (image_of s).
Proof.
  intros Hws Hp. unfold has_token, ChatSpec.has_token.
  rewrite <- (tokenize_image s Hp). split; intros [w [Hin Ht]]; exists w;
    (split; [exact Hin |]).
  - rewrite <- (image_of_text w). now apply in_map.
  - apply in_map_iff in Ht. destruct Ht as [t [E Ht]].
    pose proof (u_tokens_unchanged s) as Hu. rewrite Forall_forall in Hu.
    rewrite forallb_forall in Hws.
    now rewrite <- (image_of_own t (Hu t Ht) w (Hws w Hin) E).
Qed.

End ImageTokens.

(** *** Patterns *)

Section ImagePatterns.

Import Unicode UnicodeSpec Latin1Image.

Local Open Scope N_scope.

Lemma at_boundary_image (prev : option N) (s : ustr) :
  Regex.at_boundary (option_map image prev) (image_of s)
  = at_boundary prev s.
Proof.
  unfold Regex.at_boundary, at_boundary. f_equal.
  - destruct prev as [x |]; [apply image_is_word | reflexivity].
  - destruct s as [| x s]; [reflexivity | apply image_is_word].
Qed.

Lemma match_here_image (p : Regex.pattern) :
  own_images p = true ->
  forall prev t,
  Forall (fun x => unchanged_by_lower x = true) t ->
  match_here p prev t
  = Regex.match_here p (option_map image prev) (image_of t).
Proof.
  induction p as [| i p IH]; intros Hp prev t Ht; [reflexivity |].
  cbn [own_images forallb] in Hp. apply andb_true_iff in Hp.
  destruct Hp as [Hi Hp]. fold (own_images p) in Hp.
  destruct i as [c |]; cbn [match_here Regex.match_here].
  - destruct Ht as [| x t Hx Ht]; [reflexivity |].
    cbn [image_of map]. fold (image_of t).
    rewrite (image_eqb x c Hx Hi). f_equal. apply (IH Hp (Some x) t Ht).
  - rewrite at_boundary_image. f_equal. apply (IH Hp prev t Ht).
Qed.

Lemma search_from_image (p : Regex.pattern) :
  own_images p = true ->
  forall t, Forall (fun x => unchanged_by_lower x = true) t ->
  forall prev,
  search_from p prev t
  = Regex.search_from p (option_map image prev) (image_of t).
Proof.
  intros Hp. induction 1 as [| x t Hx Ht IH]; intros prev;
    cbn [search_from Regex.search_from image_of map].
  - now rewrite (match_here_image p Hp prev []) by constructor.
  - fold (image_of t).
    rewrite (match_here_image p Hp prev (x :: t)) by now constructor.
    f_equal. apply (IH (Some x)).
Qed.

Lemma search_image (patt : string) (t : ustr) :
  pattern_own_images patt = true ->
  Forall (fun x => unchanged_by_lower x = true) t ->
  search patt t = Regex.search patt (image_of t).
Proof.
  unfold pattern_own_images, search, Regex.search.
  destruct (Regex.compile (str patt)) as [p |]; [| reflexivity].
  intros Hp Ht. apply (search_from_image p Hp t Ht None).
Qed.

Lemma match_rules_image (rules : list (text * Intents.rule)) (t : ustr) :
  forallb (fun r => forallb pattern_own_images (Intents.patterns (snd r)))
          rules = true ->
  Forall (fun x => unchanged_by_lower x = true) t ->
  match_rules rules t = Intents.match_rules rules (image_of t).
Proof.
  intros Hr Ht. induction rules as [| [intent data] rules IH];
    [reflexivity |].
  cbn [forallb snd] in Hr. apply andb_true_iff in Hr. destruct Hr as [Hd Hr].
  cbn [match_rules Intents.match_rules].
  rewrite (existsb_ext_in (fun patt => search patt t)
             (fun patt => Regex.search patt (image_of t))).
  - now rewrite (IH Hr).
  - intros patt Hin. rewrite forallb_forall in Hd.
    apply (search_image patt t (Hd patt Hin) Ht).
Qed.

Lemma u_lower_unchanged (s : ustr) :
  Forall (fun x => unchanged_by_lower x = true) (lower s).
Proof.
  eapply Forall_impl; [| apply (u_lower_from_forms s [])].
  now intros d [H _].
Qed.

Lemma intents_own_images :
  forallb (fun r => forallb pattern_own_images (Intents.patterns (snd r)))
          Intents.INTENTS = true.
Proof. vm_compute. reflexivity. Qed.

Lemma match_intent_image (user : ustr) :
  plain_input user ->
  match_intent user = Intents.match_intent (image_of user).
Proof.
  intros Hp. unfold match_intent, Intents.match_intent.
  rewrite (match_rules_image _ _ intents_own_images (u_lower_unchanged user)).
  unfold lower. now rewrite (lower_image user Hp).
Qed.

(** Patterns matched ignoring case. *)
Lemma read_literal_image (A : Type) (k : option N -> ustr -> A)
    (k' : option ascii -> text -> A) (d : A) (alt : text) :
  forallb small_letter alt = true ->
  (forall prev s, forallb plain s = true ->
                  k prev s = k' (option_map image prev) (image_of s)) ->
  forall prev s, forallb plain s = true ->
  match read_literal alt prev s with
  | Some (prev', s') => k prev' s'
  | None => d
  end
  = match RegexI.read_literal alt (option_map image prev) (image_of s) with
    | Some (prev', s') => k' prev' s'
    | None => d
    end.
Proof.
  intros Halt Hk. induction alt as [| c alt IH]; intros prev s Hs.
  - cbn [read_literal RegexI.read_literal]. now apply Hk.
  - cbn [forallb] in Halt. apply andb_true_iff in Halt.
    destruct Halt as [Hc Halt].
    destruct s as [| x s]; [reflexivity |].
    cbn [forallb] in Hs. apply andb_true_iff in Hs. destruct Hs as [Hx Hs].
    cbn [read_literal RegexI.read_literal image_of map]. fold (image_of s).
    rewrite (literal_ignorecase_image c x Hc Hx).
    destruct (RegexI.same_letter (image x) c); [| reflexivity].
    apply (IH Halt (Some x) s Hs).
Qed.

Lemma match_here_ignorecase_image (p : list RegexI.node) :
  small_letters p = true ->
  forall prev s, forallb plain s = true ->
  match_here_ignorecase p prev s
  = RegexI.match_here p (option_map image prev) (image_of s).
Proof.
  induction p as [| n p IH]; intros Hp prev s Hs; [reflexivity |].
  cbn [small_letters forallb] in Hp. apply andb_true_iff in Hp.
  destruct Hp as [Hn Hp]. fold (small_letters p) in Hp.
  destruct n as [c | | alts];
    cbn [match_here_ignorecase RegexI.match_here].
  - destruct s as [| x s]; [reflexivity |].
    cbn [forallb] in Hs. apply andb_true_iff in Hs. destruct Hs as [Hx Hs].
    cbn [image_of map]. fold (image_of s).
    rewrite (literal_ignorecase_image c x Hn Hx). f_equal.
    apply (IH Hp (Some x) s Hs).
  - rewrite at_boundary_image. f_equal. apply (IH Hp prev s Hs).
  - apply existsb_ext_in. intros alt Hin. rewrite forallb_forall in Hn.
    apply (read_literal_image bool (match_here_ignorecase p)
             (RegexI.match_here p) false alt (Hn alt Hin) (IH Hp) prev s Hs).
Qed.

Lemma search_from_ignorecase_image (p : list RegexI.node) :
  small_letters p = true ->
  forall s, forallb plain s = true ->
  forall prev,
  search_from_ignorecase p prev s
  = RegexI.search_from p (option_map image prev) (image_of s).
Proof.
  intros Hp. induction s as [| x s IH]; intros Hs prev;
    cbn [search_from_ignorecase RegexI.search_from image_of map].
  - now rewrite (match_here_ignorecase_image p Hp prev []).
  - fold (image_of s).
    rewrite (match_here_ignorecase_image p Hp prev (x :: s) Hs).
    cbn [forallb] in Hs. apply andb_true_iff in Hs. destruct Hs as [_ Hs].
    f_equal. apply (IH Hs (Some x)).
Qed.

Lemma search_ignorecase_image (patt : string) (s : ustr) :
  pattern_small_letters patt = true -> plain_input s ->
  search_ignorecase patt s = RegexI.search patt (image_of s).
Proof.
  unfold pattern_small_letters, search_ignorecase, RegexI.search.
  destruct (RegexI.compile (str patt) None) as [p |]; [| reflexivity].
  intros Hp Hs. apply (search_from_ignorecase_image p Hp s Hs None).
Qed.

(** The patterns of [main] on any input without the three characters. *)
Lemma u_group_pattern_tokens (patt : string) (ws : list text) (s : ustr) :
  pattern_small_letters patt = true ->
  forallb (forallb own_image) ws = true ->
  (forall t, RegexI.search patt t = true <-> ChatSpec.has_token ws t) ->
  plain_input s ->
  search_ignorecase patt s = true <-> has_token ws s.
Proof.
  intros Hpatt Hws Hlatin Hs.
  rewrite (search_ignorecase_image patt s Hpatt Hs).
  rewrite (has_token_image ws s Hws Hs). apply Hlatin.
Qed.

Lemma u_goodbye_needs_see_you (user : ustr) :
  plain_input user ->
  search_ignorecase Chat.EXIT_PATTERN user = false ->
  match_intent user = Some (str "goodbye") ->
  search "\bsee you\b" (lower user) = true.
Proof.
  intros Hp Hx Hm.
  rewrite (search_ignorecase_image Chat.EXIT_PATTERN user) in Hx;
    [| vm_compute; reflexivity | exact Hp].
  rewrite (match_intent_image user Hp) in Hm.
  rewrite (search_image "\bsee you\b" (lower user));
    [| vm_compute; reflexivity | apply u_lower_unchanged].
  unfold lower. rewrite (lower_image user Hp).
  now apply goodbye_needs_see_you.
Qed.

End ImagePatterns.

(** What the hypothesis of the two theorems below keeps out: the exit
    pattern takes the dotless i for [i], and [str.lower] sets [bye] free
    of a capital I with a dot before it. *)
Lemma exit_pattern_beyond_plain_input :
  Unicode.search_ignorecase Chat.EXIT_PATTERN [0x65; 0x78; 0x131; 0x74]%N
  = true
  /\ Unicode.tokenize [0x65; 0x78; 0x131; 0x74]%N
     = [[0x65; 0x78; 0x131; 0x74]%N]
  /\ Unicode.search_ignorecase Chat.EXIT_PATTERN [0x130; 0x62; 0x79; 0x65]%N
     = false
  /\ Unicode.match_intent [0x130; 0x62; 0x79; 0x65]%N
     = Some (str "goodbye")
  /\ Unicode.search "\bsee you\b"
       (Unicode.lower [0x130; 0x62; 0x79; 0x65]%N) = false.
Proof. repeat split; vm_compute; reflexivity. Qed.

(** X21. On input of any code points but the capital I with a dot, the
    dotless i and the long s, the three patterns that [main] searches in
    the raw input, case ignored, match exactly when one of their words is
    a token of the input: an exit word, a word about images, a word about
    Flask. *)
Theorem chat_patterns_match_tokens (s : Unicode.ustr) :
  UnicodeSpec.plain_input s ->
  (Unicode.search_ignorecase Chat.EXIT_PATTERN s = true
   <-> UnicodeSpec.has_token exit_words s)
  /\ (Unicode.search_ignorecase Chat.RESIZE_PATTERN s = true
      <-> UnicodeSpec.has_token resize_words s)
  /\ (Unicode.search_ignorecase Chat.FLASK_PATTERN s = true
      <-> UnicodeSpec.has_token flask_words s).
Proof.
  intros Hs. split; [| split].
  - apply (u_group_pattern_tokens Chat.EXIT_PATTERN exit_words s);
      [reflexivity | reflexivity | apply exit_pattern_tokens | exact Hs].
  - apply (u_group_pattern_tokens Chat.RESIZE_PATTERN resize_words s);
      [reflexivity | reflexivity | apply resize_pattern_tokens | exact Hs].
  - apply (u_group_pattern_tokens Chat.FLASK_PATTERN flask_words s);
      [reflexivity | reflexivity | apply flask_pattern_tokens | exact Hs].
Qed.

Lemma chat_patterns_match_tokens_witness :
  (Unicode.search_ignorecase Chat.EXIT_PATTERN
     [0x41E; 0x41A; 0x2C; 0x20; 0x42; 0x59; 0x45; 0x21]%N = true
   <-> UnicodeSpec.has_token exit_words
         [0x41E; 0x41A; 0x2C; 0x20; 0x42; 0x59; 0x45; 0x21]%N)
  /\ (Unicode.search_ignorecase Chat.RESIZE_PATTERN
        [0x41E; 0x41A; 0x2C; 0x20; 0x42; 0x59; 0x45; 0x21]%N = true
      <-> UnicodeSpec.has_token resize_words
            [0x41E; 0x41A; 0x2C; 0x20; 0x42; 0x59; 0x45; 0x21]%N)
  /\ (Unicode.search_ignorecase Chat.FLASK_PATTERN
        [0x41E; 0x41A; 0x2C; 0x20; 0x42; 0x59; 0x45; 0x21]%N = true
      <-> UnicodeSpec.has_token flask_words
            [0x41E; 0x41A; 0x2C; 0x20; 0x42; 0x59; 0x45; 0x21]%N).
Proof.
  apply (chat_patterns_match_tokens
           [0x41E; 0x41A; 0x2C; 0x20; 0x42; 0x59; 0x45; 0x21]%N).
  vm_compute. reflexivity.
Defined.

(** X23. The loop of [main] reaches [match_intent] only when the exit
    pattern does not match, and four of the five patterns of the intent
    [goodbye] are exit words: on input of any code points but the capital
    I with a dot, the dotless i and the long s, the intent [goodbye] is
    found there only through the phrase [see you]. *)
Theorem goodbye_intent_needs_see_you (user : Unicode.ustr) :
  UnicodeSpec.plain_input user ->
  Unicode.search_ignorecase Chat.EXIT_PATTERN user = false ->
  Unicode.match_intent user = Some (str "goodbye") ->
  Unicode.search "\bsee you\b" (Unicode.lower user) = true.
Proof. apply u_goodbye_needs_see_you. Qed.

Lemma goodbye_intent_needs_see_you_witness :
  Unicode.search "\bsee you\b"
    (Unicode.lower
       [0x53; 0x45; 0x45; 0x20; 0x59; 0x4F; 0x55; 0x2C; 0x20; 0x3A3; 0x3BF;
        0x3C6; 0x3AF; 0x3B1; 0x21]%N) = true.
Proof.
  apply (goodbye_intent_needs_see_you
           [0x53; 0x45; 0x45; 0x20; 0x59; 0x4F; 0x55; 0x2C; 0x20; 0x3A3;
            0x3BF; 0x3C6; 0x3AF; 0x3B1; 0x21]%N);
    vm_compute; reflexivity.
Defined.
